(* ===== verification/_CoqProject ===== *)
-Q . S2P
Prelude.v
Types.v
Pool.v
Bitmap.v
Book.v
Links.v
Queues.v
BookInv.v
BookOps.v
Engine.v
Spec.v
MatchRefine.v
Abs.v
EngineInv.v
EngineRefine.v
Handlers.v
SpecProps.v
Process.v
EngineFacts.v
SpecEvents.v
Settle.v
Demo.v
BookTheorems.v
EngineTheorems.v
Protocol.v
Ring.v
WireTheorems.v
Spsc.v
SpscTheorems.v
Poller.v
Calls.v
Net.v
Publisher.v
Stream.v
NetTheorems.v
Gateway.v
Parse.v
Inputs.v
GatewayTheorems.v
Threads.v
Liveness.v
ThreadTheorems.v
Shutdown.v
Sockets.v
Sessions.v
SessionInv.v
Handling.v
Registry.v
Reach.v
SessionTheorems.v
Streams.v
Carried.v
Frames.v
MdClient.v
MdAccount.v
Delivery.v
MdSession.v
Fanout.v
Link.v
MdTheorems.v
Timing.v
System.v
Loop.v
Drains.v
Shown.v
LoadClient.v
LoadRun.v
LoadTheorems.v
Served.v
Exchange.v
SystemTheorems.v
OutcomeTheorems.v
CmdLine.v
Stats.v
Client.v
MdProgram.v
Bench.v
ToolTheorems.v
Boot.v
