(* ===== verification/Prelude.v ===== *)
(** * matchbox: a verified order book, matching engine and exchange gateway

    matchbox is a small exchange: TCP clients send orders to a gateway, one
    engine thread matches them in per-symbol order books, private answers go
    back to the sending sessions, and trades and top-of-book changes go out on
    a sequenced market-data stream that late or slow subscribers can replay.
    This library translates that program into executable definitions and
    proves what makes it correct.  This file is the root: after this overview
    it holds the vocabulary every other file uses.

    ** The program and its model

    - [include/matchbox/types.hpp]: sides, order types, reject reasons, top of
      book.  [Types].
    - [include/matchbox/order.hpp]: the order slab with its free list and
      generation-tagged ids.  [Pool]: [alloc], [free], [find], [at_].
    - [include/matchbox/book.hpp], [src/book.cpp]: one book: an array of price
      levels per side, intrusive doubly linked queues through the slab, a
      bitmap of non-empty prices, cached best prices.  [Bitmap]: [set_bit],
      [clear_bit], [scan_up], [scan_down]; [Book]: [insert], [remove],
      [unlink], [level_emptied], [reduce], [match_], [top].
    - [include/matchbox/engine.hpp], [src/engine.cpp]: commands in, events out,
      all books over one slab.  [Engine]: [process] and its handlers [on_new],
      [on_cancel], [on_replace], [match_and_rest], [reject].
    - [include/matchbox/protocol.hpp]: thirteen packed little-endian message
      structs.  [Protocol], with the interface class [Wire] and its laws
      [WireOk].
    - [include/matchbox/replay_ring.hpp]: the market-data history.  [Ring].
    - [include/matchbox/spsc_queue.hpp]: the lock-free queue between the
      network thread and the engine thread.  [Spsc], a step relation in which
      the two threads interleave at every atomic access.
    - [include/matchbox/engine_thread.hpp]: the engine's thread between its two
      queues.  [Threads], a step relation over the queues and the engine;
      [Shutdown]: [stop] with its join and the end of [main].
    - [include/matchbox/net.hpp], [src/net.cpp]: buffered output of a
      connection.  [Net].  Opening sockets and the blocking transfers:
      [Sockets].
    - [include/matchbox/poller.hpp], [src/poller.cpp]: readiness over epoll or
      kqueue.  [Poller], with the interface class [Poller] and the two kernel
      facilities as classes with their documented laws.  The calls the server
      side makes, as a log: [Calls].
    - [include/matchbox/publisher.hpp], [src/publisher.cpp]: subscribers,
      cursors, gaps and heartbeats.  [Publisher].
    - [include/matchbox/server.hpp], [src/server.cpp]: sessions, frame parsing,
      routing of events.  [Gateway] (parsing and routing), [Sessions] (the
      session table, the socket handlers, the loop of [Server::run], the
      constructor and the destructor).  [Gateway.submit] spins over the answers of
      [try_push], which are arguments here and moves of the queue in [Threads].
    - [src/main_client.cpp]: the market-data client and the load generator.
      [Frames] (cutting the byte stream), [MdClient] (the loops of [run_md]),
      [LoadClient] (those of [run_load]); from the command line to the exit code
      and the report: [MdProgram] and [Client].
    - [src/main_bench.cpp]: the in-process benchmark.  [Bench].
    - [include/matchbox/args.hpp], the configuration parts of
      [src/main_server.cpp], [src/main_client.cpp]: [CmdLine].  From there to the
      running server, [main] of [src/main_server.cpp]: [Boot].
    - [include/matchbox/stats.hpp]: percentiles.  [Stats].

    A command travels: bytes of a client -> [Gateway.parse_frames] -> the inbox
    queue ([Spsc]) -> [Engine.process] -> the outbox queue -> the gateway's
    [server_on_event], which answers the session ([send]) or publishes into the
    ring ([Publisher.publish]), from which [Publisher.pump] feeds subscribers, whose
    bytes [MdClient.md_session] cuts into frames and accounts for.  [System] joins
    the gateway and the two threads: a state of [system] is a gateway and a pair of
    threads, a step is a piece of the gateway's loop while the engine thread moves
    on, the commands it submits are the ones pushed to the inbox, and the events it
    handles are the ones popped from the outbox.

    ** How code becomes definitions

    Integers are [Z]; every place where the source computes in a fixed width
    has its wrap ([u8] ... [u64], [i64]) written out, and the places without
    one are comparisons, or values that the invariants keep in range.  An
    [Order*] or [Order&] is a slot number of the slab, a [Level&] the pair of
    its side and price, an [Event] delivered to a sink an element appended to a
    list.  A result of [None] is undefined behaviour of the source (an index
    outside its vector) or exhausted fuel, so every theorem of the form
    [process ... = Some ...] also excludes both.  What the machine outside the
    program decides is an argument: the clock, the results of [::read] and
    [::write], the results of [connect] and [select], random draws, whether an
    allocation at the start succeeds, and which published index value an acquire
    load returns; so is, in the gateway alone, what [try_push] answers a [submit].  System calls that only
    change the kernel's state are logged: the gateway and its publisher append to
    one list ([p_calls], read as [log]), from which the poller's registry, the open
    descriptors and the bytes sent and received on a descriptor are read off
    ([Calls]); the registry is also what the calls leave in an abstract kernel with
    epoll or kqueue ([Poller]).

    Fuel: [match_loop] and [match_level] get two more iterations than the slab
    has slots, since each iteration that goes on retires a resting order; the
    bitmap scans get one more than there are words; [copy_frames] gets two more
    than the number of frames to copy; [parse_loop] one more than the number of
    buffered bytes, since each iteration consumes a header; [for_each_frame] the
    same, and where that is not enough no fuel is; [fill_window] one more than the
    number of orders.  [flush] and the read loops, and the client's main loops,
    are driven by the list of kernel results, [submit] by the list of the queue's
    answers, and [Server::run] by the list of its turns.  That these amounts are enough is part of the theorems, which state that a result is returned.

    ** What is proved

    - [BookTheorems]: the slab hands out fresh ids and retires freed ones; the
      scans find the nearest marked price; [insert], [remove] and [reduce]
      act on the linked queues as on lists and keep bitmap, best price and
      counters consistent (invariant and lemmas in [Links], [Queues],
      [BookInv], [BookOps]).
    - [EngineTheorems]: the engine refines [Spec], in which a side of a book is
      one list in price-time priority and no slot, link, level or bitmap
      occurs; hence for every reachable state no fault, no crossed book, sorted
      sides, slab and books in agreement, the exact effect of new orders,
      cancels and replaces, the exact rejections, and market data that always
      mirrors the book.  The proof goes through the abstraction function of
      [Abs], the engine invariant of [EngineInv], the matching loops in
      [MatchRefine], the handlers in [EngineRefine] and [Handlers], their
      composition in [Process], and properties of the specification in
      [SpecProps], [SpecEvents] and [EngineFacts].  [Settle] cuts the events of a
      run into one block per command that starts with its answer, and keeps every
      value within its width.  [Demo] is the session the witnesses evaluate.
    - [WireTheorems]: every message lies on the wire as protocol.hpp lays it out,
      encoding and decoding are inverse in both directions, and the ring replays
      exactly the newest frames, for the capacities [2^k] with [k] below 58 whose
      byte size does not wrap (the bound the market-data theorems share).
    - [SpscTheorems]: the queue is a FIFO without data races under every
      interleaving, stale loads and wrapped indices included.
    - [ThreadTheorems], over [Liveness]: the engine thread delivers exactly the
      events of a sequential run of the engine on the commands submitted, in
      order; and the one state in which the two threads wait for each other
      forever is characterised and shown to be reachable.  [Shutdown]: when the join
      of [stop] returns and when it hangs.
    - [NetTheorems], over [Stream]: a subscriber's byte stream is gapless up to
      explicit gap frames, and its backlog is bounded.
    - [GatewayTheorems], over [Parse]: arbitrary bytes are parsed to the end
      without reading outside the buffer, independently of how they are cut
      into reads; client frames round-trip; no client input faults the engine;
      an answer reaches its session and no other.
    - [SessionTheorems], over [SessionInv], [Handling], [Registry] and [Reach]: the
      session table, the descriptor tables, the dirty list and the log of system
      calls stay consistent under every handler of the event loop, no queued byte
      is forgotten, a flush bounds what is left, and the handlers return for any
      client input.
    - [Link]: one market-data connection from its accept to its end, as a step
      relation over publications, pumps, writable events and reads in any order,
      before and after the Subscribe; over [Delivery], what it has carried is one
      gapless stream.  [MdAccount] and [MdSession]: what the client counts and
      prints for such a stream, read in any pieces.
    - [MdTheorems]: when the client's frame loop ends, connections to evaluate, and
      what goes wrong after a server restart.  [MdProgram]: the whole client program
      over any number of refused, failed and served attempts, cut off anywhere, from
      any [from].
    - [Timing]: the publisher's two clocks, on the history of a connection's pumps:
      when exactly a subscriber is dropped as stalled, and when a heartbeat is sent.
    - [LoadTheorems], over [LoadRun]: the load generator ends with every order
      settled, and the gateway decodes exactly the orders it generated; [Client]:
      the same from the command line to the exit code.
    - [SystemTheorems]: the whole exchange.  [Inputs] says what a session's bytes
      stand for, [Streams] and [Carried] that every handler carries all sessions'
      byte streams on, [Fanout] the same for the subscribers, [System] composes
      this with the threads, [Loop] with [Server::run], [Served] with the orders of
      the load generator; [Exchange] is an exchange to evaluate.  The bytes a
      session gets are one numbered frame per refused input and per answer to the
      commands its own bytes stand for; a subscriber's bytes are the gapless stream
      of the engine's market data from where it asked; the load generator's orders
      are settled one by one; and [Server::run] gets through every turn the kernel
      answers and in which the queue takes what is submitted ([submits_taken]), and
      returns when it is told to stop.
    - [OutcomeTheorems]: what this adds up to.  Over [Drains]: from every state in
      which the gateway is not inside [submit] the exchange can come to rest, every
      command processed and every answer in its session's output.  Over [Shown]: the
      top of book a client of the stream has printed last is the top of the book.
    - [ToolTheorems]: both pollers watch exactly the descriptors the gateway
      serves; sockets are set up completely or closed; command lines and decimal
      numbers round-trip; the server's configuration is in range; percentiles have
      the share of samples they name in spite of rounding; the benchmark runs to
      the end.
    - [Boot]: [main] starts the exchange of the theorems above, or throws when the
      memory, the poller, a port or the thread is not to be had; and which
      [--md-replay-log2] leave the ring empty.

    ** Not modelled

    [now_ns] reads the system clock: its values are arguments.  [Args::real]
    parses a [double]; the two options that use it enter as the integers computed
    from them ([t_end] of [run_md], the cancel threshold of the benchmark).  Of the
    reports the numbers are modelled ([LoadReport], [MdReport]), not the elapsed
    time, the rates and the text; the benchmark's report only prints.  Sleeping has
    no state except that [run_md]'s back-off times are recorded.  The signal handler sets
    the flag whose value [Server::run] reads at every turn, which is part of the
    turn; a request to stop can happen at any point of the step relation of
    [Threads], and the join waits for the engine's own moves ([Shutdown]).
    Memory is modelled where the configuration decides its size: the vectors the
    constructors allocate ([Boot]); later growth of buffers and tables is taken to
    succeed, as is every registration with the poller ([EpollOk], [KqueueOk]).
    The engine thread's idle counter only chooses between ways of waiting.  The destructor of the
    poller only closes its own descriptor.  Memory
    ordering is modelled by what the release and acquire pairs of
    [spsc_queue.hpp] allow a load to return, not by a full C++ memory model. *)
From stdpp Require Export base list numbers option fin_maps gmap strings sorting.
From stdpp Require Import tactics.
From Stdlib Require Export ZArith Lia.
#[global] Open Scope Z_scope.

(** ** Machine integers

    A w-bit unsigned integer is a [Z] kept in range by the explicit wrap
    [uN]; [i64] is the two's-complement reinterpretation used for [int64_t]. *)
Definition u8 (z : Z) : Z := z mod 2 ^ 8.
Definition u16 (z : Z) : Z := z mod 2 ^ 16.
Definition u32 (z : Z) : Z := z mod 2 ^ 32.
Definition u64 (z : Z) : Z := z mod 2 ^ 64.
Definition i64 (z : Z) : Z := (z + 2 ^ 63) mod 2 ^ 64 - 2 ^ 63.

(** ** Vectors

    [std::vector] indexing.  Reading or writing outside the vector is
    undefined behaviour in the source; the model returns [None], so a
    theorem that an operation returns [Some] rules it out. *)
Definition vget {A} (l : list A) (i : Z) : option A :=
  if bool_decide (0 ≤ i) then l !! Z.to_nat i else None.

Definition vset {A} (l : list A) (i : Z) (x : A) : option (list A) :=
  match vget l i with
  | Some _ => Some (<[Z.to_nat i := x]> l)
  | None => None
  end.

(** First and last element of a list, with a default. *)
Definition fst_or {A} (d : A) (l : list A) : A :=
  match l with [] => d | x :: _ => x end.

Fixpoint lst_or {A} (d : A) (l : list A) : A :=
  match l with [] => d | x :: l' => lst_or x l' end.

(** Sum of a list of integers. *)
Definition zsum (l : list Z) : Z := foldr Z.add 0 l.

(** ** Automation *)
Create HintDb matchbox discriminated.
Create Rewrite HintDb words.

Ltac inv_some :=
  repeat match goal with
  | H : Some _ = Some _ |- _ => injection H as H; subst
  | H : Some _ = None |- _ => discriminate H
  | H : None = Some _ |- _ => discriminate H
  end.

(** Split an [option] bind in a hypothesis into its steps. *)
Ltac inv_bind H :=
  let x := fresh "x" in
  let E := fresh "E" in
  match type of H with
  | (_ ≫= _) = Some _ => apply bind_Some in H as (x & E & H)
  end.

(** ** Integer lemmas *)
Lemma u32_small (z : Z) : 0 ≤ z < 2 ^ 32 → u32 z = z.
Proof. apply Z.mod_small. Qed.

Lemma u32_range (z : Z) : 0 ≤ u32 z < 2 ^ 32.
Proof. apply Z.mod_pos_bound. lia. Qed.

Lemma u64_small (z : Z) : 0 ≤ z < 2 ^ 64 → u64 z = z.
Proof. apply Z.mod_small. Qed.

Lemma u64_range (z : Z) : 0 ≤ u64 z < 2 ^ 64.
Proof. apply Z.mod_pos_bound. lia. Qed.

Lemma u32_add_l (a b : Z) : u32 (u32 a + b) = u32 (a + b).
Proof. apply Zplus_mod_idemp_l. Qed.

Lemma u32_sub_l (a b : Z) : u32 (u32 a - b) = u32 (a - b).
Proof. apply Zminus_mod_idemp_l. Qed.

Lemma u32_sub_r (a b : Z) : u32 (a - u32 b) = u32 (a - b).
Proof. apply Zminus_mod_idemp_r. Qed.

#[export] Hint Rewrite u32_add_l u32_sub_l u32_sub_r : words.

(** ** Vector lemmas *)
Section Vectors.
Context {A : Type}.
Implicit Types (l : list A) (x y : A) (i j : Z).

Lemma vget_spec l i x :
  vget l i = Some x ↔ 0 ≤ i ∧ l !! Z.to_nat i = Some x.
Proof. unfold vget. case_bool_decide; naive_solver. Qed.

Lemma vget_lt l i x : vget l i = Some x → 0 ≤ i < Z.of_nat (length l).
Proof. rewrite vget_spec. intros [? ?%lookup_lt_Some]. lia. Qed.

Lemma vget_is_Some l i : 0 ≤ i < Z.of_nat (length l) → is_Some (vget l i).
Proof.
  intros H. unfold vget. rewrite bool_decide_true by lia.
  apply lookup_lt_is_Some. lia.
Qed.

Lemma vget_None l i : ¬ (0 ≤ i < Z.of_nat (length l)) → vget l i = None.
Proof.
  intros H. unfold vget. case_bool_decide; [|done].
  apply lookup_ge_None. lia.
Qed.

Lemma vset_is_Some l i x : 0 ≤ i < Z.of_nat (length l) → is_Some (vset l i x).
Proof. intros [y E]%vget_is_Some. unfold vset. rewrite E. eauto. Qed.

Lemma vset_lt l l' i x : vset l i x = Some l' → 0 ≤ i < Z.of_nat (length l).
Proof. unfold vset. destruct (vget l i) eqn:E; [|done]. by apply vget_lt in E. Qed.

Lemma vset_length l l' i x : vset l i x = Some l' → length l' = length l.
Proof.
  unfold vset. destruct (vget l i); intros; inv_some. apply length_insert.
Qed.

Lemma vget_vset_eq l l' i x : vset l i x = Some l' → vget l' i = Some x.
Proof.
  intros H. pose proof (vset_lt _ _ _ _ H). unfold vset in H.
  destruct (vget l i); inv_some. apply vget_spec. split; [lia|].
  apply list_lookup_insert_eq. lia.
Qed.

Lemma vget_vset_ne l l' i j x : vset l i x = Some l' → i ≠ j → vget l' j = vget l j.
Proof.
  intros H Hne. pose proof (vset_lt _ _ _ _ H). unfold vset in H.
  destruct (vget l i); inv_some. unfold vget. case_bool_decide; [|done].
  apply list_lookup_insert_ne. lia.
Qed.

Lemma vget_vset l l' i j x :
  vset l i x = Some l' → vget l' j = if decide (i = j) then Some x else vget l j.
Proof.
  intros H. case_decide as Hij; [subst; eauto using vget_vset_eq|].
  eauto using vget_vset_ne.
Qed.

(** Two vectors of the same length with the same elements are equal. *)
Lemma vget_ext l l' : (∀ i, vget l i = vget l' i) → l = l'.
Proof.
  intros H. apply list_eq. intros n. specialize (H (Z.of_nat n)).
  unfold vget in H. rewrite bool_decide_true, Nat2Z.id in H by lia. done.
Qed.

Lemma lst_or_app d l x : lst_or d (l ++ [x]) = x.
Proof. revert d. induction l as [|y l IH]; intros d; simpl; eauto. Qed.

Lemma lst_or_app_cons d l x l' : lst_or d (l ++ x :: l') = lst_or x l'.
Proof. revert d. induction l as [|y l IH]; intros d; simpl; eauto. Qed.

Lemma lst_or_in d l : l ≠ [] → lst_or d l ∈ l.
Proof.
  destruct l as [|x l] using rev_ind; [done|].
  rewrite lst_or_app. set_solver.
Qed.

Lemma fst_or_app d l l' : fst_or d (l ++ l') = fst_or (fst_or d l') l.
Proof. by destruct l. Qed.
End Vectors.

Lemma zsum_app l l' : zsum (l ++ l') = zsum l + zsum l'.
Proof. unfold zsum. induction l; simpl; lia. Qed.

Lemma zsum_cons x l : zsum (x :: l) = x + zsum l.
Proof. done. Qed.

Lemma filter_all {A} (P : A → Prop) `{∀ x, Decision (P x)} (l : list A) :
  (∀ x, x ∈ l → P x) → filter P l = l.
Proof.
  induction l as [|x l IH]; intros Hl; [done|].
  rewrite filter_cons_True by (apply Hl; set_solver). f_equal. apply IH. set_solver.
Qed.

Lemma filter_none {A} (P : A → Prop) `{∀ x, Decision (P x)} (l : list A) :
  (∀ x, x ∈ l → ¬ P x) → filter P l = [].
Proof.
  induction l as [|x l IH]; intros Hl; [done|].
  rewrite filter_cons_False by (apply Hl; set_solver). apply IH. set_solver.
Qed.
