(* ===== verification/Types.v ===== *)
(** The vocabulary of [include/matchbox/types.hpp]: sides, order types,
    time-in-force, reject reasons and the top-of-book record. *)
From S2P Require Import Prelude.

(** [kNull] is the null pool slot, [kNoPrice] the "no level" price. *)
Definition kNull : Z := 2 ^ 32 - 1.
Definition kNoPrice : Z := -1.

Inductive Side := Buy | Sell.
Inductive OrderType := Limit | Market.
Inductive Tif := GTC | IOC.
Inductive RejectReason :=
  | RNone | BadSymbol | BadPrice | BadQty | BookFull | UnknownOrder | NotOwner | BadSeq | BadMessage.

#[export] Instance Side_eq_dec : EqDecision Side.
Proof. solve_decision. Defined.
#[export] Instance OrderType_eq_dec : EqDecision OrderType.
Proof. solve_decision. Defined.
#[export] Instance Tif_eq_dec : EqDecision Tif.
Proof. solve_decision. Defined.
#[export] Instance RejectReason_eq_dec : EqDecision RejectReason.
Proof. solve_decision. Defined.

Definition opposite (s : Side) : Side :=
  match s with Buy => Sell | Sell => Buy end.

(** The underlying values of the enumerations ([static_cast] to an integer). *)
Definition idx (s : Side) : Z := match s with Buy => 0 | Sell => 1 end.
Definition OrderType_val (t : OrderType) : Z := match t with Limit => 0 | Market => 1 end.
Definition Tif_val (t : Tif) : Z := match t with GTC => 0 | IOC => 1 end.
Definition RejectReason_val (r : RejectReason) : Z :=
  match r with
  | RNone => 0 | BadSymbol => 1 | BadPrice => 2 | BadQty => 3 | BookFull => 4
  | UnknownOrder => 5 | NotOwner => 6 | BadSeq => 7 | BadMessage => 8
  end.

Definition reject_names : list string :=
  ["none"; "bad_symbol"; "bad_price"; "bad_qty"; "book_full";
   "unknown_order"; "not_owner"; "bad_seq"; "bad_message"]%string.

Definition to_string (r : RejectReason) : option string :=
  vget reject_names (RejectReason_val r).

Record TopOfBook := mkTop { t_bid : Z; t_ask : Z; t_bid_qty : Z; t_ask_qty : Z }.

#[export] Instance TopOfBook_eq_dec : EqDecision TopOfBook.
Proof. solve_decision. Defined.

(** [TopOfBook{}] with its default member initialisers. *)
Definition TopOfBook_default : TopOfBook := mkTop kNoPrice kNoPrice 0 0.

(** [operator==]: all four members compare equal. *)
Definition top_eqb (a b : TopOfBook) : bool :=
  (t_bid a =? t_bid b) && (t_ask a =? t_ask b) &&
  (t_bid_qty a =? t_bid_qty b) && (t_ask_qty a =? t_ask_qty b).

(** A C array of two elements indexed by [idx side]. *)
Record Sides (A : Type) := mkSides { sd0 : A; sd1 : A }.
Arguments mkSides {A} _ _.
Arguments sd0 {A} _.
Arguments sd1 {A} _.

Definition sget {A} (s : Side) (x : Sides A) : A :=
  match s with Buy => sd0 x | Sell => sd1 x end.

Definition sset {A} (s : Side) (v : A) (x : Sides A) : Sides A :=
  match s with
  | Buy => mkSides v (sd1 x)
  | Sell => mkSides (sd0 x) v
  end.

(** ** Lemmas *)
Lemma sget_sset {A} s s' (v : A) x :
  sget s' (sset s v x) = if decide (s = s') then v else sget s' x.
Proof. by destruct s, s'. Qed.

Lemma sget_sset_eq {A} s (v : A) x : sget s (sset s v x) = v.
Proof. by destruct s. Qed.

Lemma sget_sset_ne {A} s s' (v : A) x : s ≠ s' → sget s' (sset s v x) = sget s' x.
Proof. by destruct s, s'. Qed.

Lemma sides_ext {A} (x y : Sides A) : (∀ s, sget s x = sget s y) → x = y.
Proof.
  intros H. destruct x, y. pose proof (H Buy). pose proof (H Sell). simpl in *. congruence.
Qed.

Lemma opposite_ne s : opposite s ≠ s.
Proof. by destruct s. Qed.

Lemma opposite_involutive s : opposite (opposite s) = s.
Proof. by destruct s. Qed.

#[export] Hint Resolve opposite_ne : matchbox.

Lemma top_eqb_eq a b : top_eqb a b = true ↔ a = b.
Proof.
  destruct a, b. unfold top_eqb. simpl.
  rewrite !andb_true_iff, !Z.eqb_eq. naive_solver.
Qed.

Lemma top_eqb_neq a b : top_eqb a b = false ↔ a ≠ b.
Proof. rewrite <- not_true_iff_false, top_eqb_eq. done. Qed.
