(* ===== verification/Pool.v ===== *)
(** The order slab of [include/matchbox/order.hpp]: [struct Order] and
    [class OrderPool], with the free-list invariant and what [alloc], [free]
    and [find] do to it.  An [Order*] or [Order&] into the pool is the slot
    index; a read through a slot outside the slab is [None]. *)
From S2P Require Import Prelude Types.

Record Order := mkOrder {
  o_id : Z; o_tag : Z; o_session : Z; o_symbol : Z;
  o_side : Side; o_type : OrderType; o_tif : Tif; o_live : bool;
  o_price : Z; o_qty : Z; o_filled : Z;
  o_prev : Z; o_next : Z; o_gen : Z }.

(** [Order{}] with its default member initialisers. *)
Definition Order_default : Order :=
  mkOrder 0 0 0 0 Buy Limit GTC false 0 0 0 kNull kNull 0.

(** Member assignments [o.x = v]. *)
Definition set_id (v : Z) (o : Order) : Order :=
  mkOrder v (o_tag o) (o_session o) (o_symbol o) (o_side o) (o_type o) (o_tif o) (o_live o)
    (o_price o) (o_qty o) (o_filled o) (o_prev o) (o_next o) (o_gen o).
Definition set_live (v : bool) (o : Order) : Order :=
  mkOrder (o_id o) (o_tag o) (o_session o) (o_symbol o) (o_side o) (o_type o) (o_tif o) v
    (o_price o) (o_qty o) (o_filled o) (o_prev o) (o_next o) (o_gen o).
Definition set_price (v : Z) (o : Order) : Order :=
  mkOrder (o_id o) (o_tag o) (o_session o) (o_symbol o) (o_side o) (o_type o) (o_tif o) (o_live o)
    v (o_qty o) (o_filled o) (o_prev o) (o_next o) (o_gen o).
Definition set_qty (v : Z) (o : Order) : Order :=
  mkOrder (o_id o) (o_tag o) (o_session o) (o_symbol o) (o_side o) (o_type o) (o_tif o) (o_live o)
    (o_price o) v (o_filled o) (o_prev o) (o_next o) (o_gen o).
Definition set_filled (v : Z) (o : Order) : Order :=
  mkOrder (o_id o) (o_tag o) (o_session o) (o_symbol o) (o_side o) (o_type o) (o_tif o) (o_live o)
    (o_price o) (o_qty o) v (o_prev o) (o_next o) (o_gen o).
Definition set_prev (v : Z) (o : Order) : Order :=
  mkOrder (o_id o) (o_tag o) (o_session o) (o_symbol o) (o_side o) (o_type o) (o_tif o) (o_live o)
    (o_price o) (o_qty o) (o_filled o) v (o_next o) (o_gen o).
Definition set_next (v : Z) (o : Order) : Order :=
  mkOrder (o_id o) (o_tag o) (o_session o) (o_symbol o) (o_side o) (o_type o) (o_tif o) (o_live o)
    (o_price o) (o_qty o) (o_filled o) (o_prev o) v (o_gen o).
Definition set_gen (v : Z) (o : Order) : Order :=
  mkOrder (o_id o) (o_tag o) (o_session o) (o_symbol o) (o_side o) (o_type o) (o_tif o) (o_live o)
    (o_price o) (o_qty o) (o_filled o) (o_prev o) (o_next o) v.

(** [class OrderPool]: the slab, the head of the free list, the live count. *)
Record Pool := mkPool { slots_ : list Order; free_head_ : Z; live_ : Z }.

(** The id of generation [gen] of slot [slot]: [(uint64_t(gen) << 32) | slot]. *)
Definition make_id (gen slot : Z) : Z := Z.lor (Z.shiftl gen 32) slot.

(** The constructor threads every slot on the free list in index order. *)
Definition Pool_init (capacity : Z) : Pool :=
  mkPool
    ((λ i, set_next (if i + 1 <? capacity then i + 1 else kNull) (set_gen 1 Order_default))
       <$> seqZ 0 capacity)
    (if capacity =? 0 then kNull else 0)
    0.

Definition at_ (p : Pool) (slot : Z) : option Order := vget (slots_ p) slot.

(** [o.x = v] through a reference to slot [slot]. *)
Definition upd (p : Pool) (slot : Z) (f : Order → Order) : option Pool :=
  o ← at_ p slot;
  sl ← vset (slots_ p) slot (f o);
  Some (mkPool sl (free_head_ p) (live_ p)).

Definition capacity (p : Pool) : Z := u32 (Z.of_nat (length (slots_ p))).

(** [alloc]: the inner option is the returned pointer ([nullptr] when full). *)
Definition alloc (p : Pool) : option (Pool * option Z) :=
  if free_head_ p =? kNull then Some (p, None) else
  let slot := free_head_ p in
  o ← at_ p slot;
  let gen := o_gen o in
  let o1 := set_live true (set_id (make_id gen slot) (set_gen gen Order_default)) in
  sl ← vset (slots_ p) slot o1;
  Some (mkPool sl (o_next o) (u32 (live_ p + 1)), Some slot).

(** [free]: the generation moves on, skipping 0; the slot becomes the head of the free list. *)
Definition free (p : Pool) (slot : Z) : option Pool :=
  o ← at_ p slot;
  let g := u32 (o_gen o + 1) in
  let o1 := set_next (free_head_ p) (set_gen (if g =? 0 then 1 else g) (set_live false o)) in
  sl ← vset (slots_ p) slot o1;
  Some (mkPool sl slot (u32 (live_ p - 1))).

(** [find]: the slot is the low 32 bits of the id. *)
Definition find (p : Pool) (id : Z) : option Z :=
  let slot := u32 id in
  if Z.of_nat (length (slots_ p)) <=? slot then None else
  match at_ p slot with
  | Some o => if o_live o && (o_id o =? id) then Some slot else None
  | None => None
  end.

(** ** The free-list invariant *)

(** [fl] is the free list read through the [next] links of dead slots. *)
Fixpoint free_chain (p : Pool) (l : list Z) : Prop :=
  match l with
  | [] => True
  | x :: l' =>
      (∃ o, at_ p x = Some o ∧ o_live o = false ∧ o_next o = fst_or kNull l') ∧ free_chain p l'
  end.

Record pool_ok (p : Pool) (fl : list Z) : Prop := {
  po_cap : Z.of_nat (length (slots_ p)) ≤ kNull;
  po_head : free_head_ p = fst_or kNull fl;
  po_chain : free_chain p fl;
  po_nodup : NoDup fl;
  po_cover : ∀ x o, at_ p x = Some o → o_live o = false → x ∈ fl;
  po_gen : ∀ x o, at_ p x = Some o → 0 < o_gen o < 2 ^ 32;
  po_id : ∀ x o, at_ p x = Some o → o_live o = true → o_id o = make_id (o_gen o) x;
  po_live : live_ p = Z.of_nat (length (slots_ p)) - Z.of_nat (length fl) }.

(** The order [alloc] hands out in slot [slot] at generation [gen]. *)
Definition fresh_order (gen slot : Z) : Order :=
  set_live true (set_id (make_id gen slot) (set_gen gen Order_default)).

(** The id the next successful [alloc] will return. *)
Definition next_id (p : Pool) : option Z :=
  if free_head_ p =? kNull then None
  else (λ o, make_id (o_gen o) (free_head_ p)) <$> at_ p (free_head_ p).

(** ** Reads and writes through slots *)
Lemma at_range p x o : at_ p x = Some o → 0 ≤ x < Z.of_nat (length (slots_ p)).
Proof. apply vget_lt. Qed.

(** Writing slot [x] changes that slot only, whatever happens to the scalar members. *)
Lemma write_slot p x o n :
  at_ p x = Some o →
  ∃ sl, vset (slots_ p) x n = Some sl ∧ length sl = length (slots_ p) ∧
    ∀ hd lv, at_ (mkPool sl hd lv) x = Some n ∧
      ∀ y, y ≠ x → at_ (mkPool sl hd lv) y = at_ p y.
Proof.
  intros E. destruct (vset_is_Some (slots_ p) x n) as [sl Hsl]; [by eapply at_range|].
  exists sl. unfold at_. simpl. split_and!; eauto using vset_length.
  intros _ _. split; [by eapply vget_vset_eq|].
  intros y Hy. by eapply vget_vset_ne.
Qed.

Lemma upd_Some p x o f :
  at_ p x = Some o →
  ∃ p', upd p x f = Some p' ∧ at_ p' x = Some (f o) ∧ (∀ y, y ≠ x → at_ p' y = at_ p y) ∧
    length (slots_ p') = length (slots_ p) ∧ free_head_ p' = free_head_ p ∧ live_ p' = live_ p.
Proof.
  intros E. destruct (write_slot p x o (f o) E) as (sl & Hsl & Hlen & Hat).
  unfold upd. rewrite E. simpl. rewrite Hsl. simpl. eexists. split; [done|].
  destruct (Hat (free_head_ p) (live_ p)). done.
Qed.

Lemma free_chain_frame p p' l :
  (∀ x, x ∈ l → at_ p' x = at_ p x) → free_chain p l → free_chain p' l.
Proof.
  induction l as [|x l IH]; simpl; [done|]. intros H [(o & ? & ?) ?].
  split; [exists o; rewrite H by set_solver; eauto|]. apply IH; [set_solver|done].
Qed.

Lemma free_chain_in p l x :
  free_chain p l → x ∈ l → ∃ o, at_ p x = Some o ∧ o_live o = false.
Proof.
  induction l as [|y l IH]; simpl; [by intros _ ?%not_elem_of_nil|].
  intros [(o & ? & ? & _) ?] [->|?]%elem_of_cons; eauto.
Qed.

Lemma make_id_slot gen slot : 0 ≤ slot < 2 ^ 32 → u32 (make_id gen slot) = slot.
Proof.
  intros H. unfold u32, make_id. rewrite <- Z.land_ones by lia.
  apply Z.bits_inj'. intros n Hn.
  rewrite Z.land_spec, Z.lor_spec, Z.testbit_ones_nonneg by lia.
  destruct (Z.ltb_spec n 32).
  - by rewrite Z.shiftl_spec_low, andb_true_r by lia.
  - rewrite andb_false_r. symmetry. apply (Z.bits_above_log2); [lia|].
    destruct (decide (slot = 0)) as [->|]; [simpl; lia|].
    apply Z.log2_lt_pow2; [lia|]. apply (Z.lt_le_trans _ (2 ^ 32)); [lia|]. apply Z.pow_le_mono_r; lia.
Qed.

Lemma make_id_gen gen slot :
  0 ≤ slot < 2 ^ 32 → Z.shiftr (make_id gen slot) 32 = gen.
Proof.
  intros H. unfold make_id. rewrite Z.shiftr_lor, Z.shiftr_shiftl_l by lia.
  rewrite Z.sub_diag, Z.shiftl_0_r, (Z.shiftr_div_pow2 slot), Z.div_small by lia.
  apply Z.lor_0_r.
Qed.

Lemma make_id_nonzero gen slot : 0 < gen → 0 ≤ slot < 2 ^ 32 → make_id gen slot ≠ 0.
Proof. intros ? H E. pose proof (make_id_gen gen slot H) as G. rewrite E, Z.shiftr_0_l in G. lia. Qed.

(** ** The operations keep the invariant *)
Lemma fl_range p fl x : pool_ok p fl → x ∈ fl → 0 ≤ x < Z.of_nat (length (slots_ p)).
Proof. intros H Hx. destruct (free_chain_in p fl x) as (o & ? & _); [apply H|done|]. by eapply at_range. Qed.

(** A duplicate-free list of slots is no longer than the slab. *)
Lemma slots_length p (l : list Z) :
  NoDup l → (∀ x, x ∈ l → 0 ≤ x < Z.of_nat (length (slots_ p))) →
  Z.of_nat (length l) ≤ Z.of_nat (length (slots_ p)).
Proof.
  intros Hnd Hin.
  assert (l ⊆+ seqZ 0 (Z.of_nat (length (slots_ p)))) as Hs%submseteq_length.
  { apply NoDup_submseteq; [done|]. intros x Hx%Hin. apply elem_of_seqZ. lia. }
  rewrite length_seqZ in Hs. lia.
Qed.

Lemma fl_length p fl : pool_ok p fl → Z.of_nat (length fl) ≤ Z.of_nat (length (slots_ p)).
Proof. intros H. apply slots_length; [apply H|]. intros x. by apply fl_range. Qed.

Lemma fl_dead p fl x o : pool_ok p fl → x ∈ fl → at_ p x = Some o → o_live o = false.
Proof.
  intros H Hx E. destruct (free_chain_in p fl x) as (o' & ? & ?); [apply H|done|].
  congruence.
Qed.

Lemma live_not_free p fl x o : pool_ok p fl → at_ p x = Some o → o_live o = true → x ∉ fl.
Proof. intros H E L Hx. pose proof (fl_dead _ _ _ _ H Hx E). congruence. Qed.

Lemma live_room p fl x o :
  pool_ok p fl → at_ p x = Some o → o_live o = true →
  Z.of_nat (length (x :: fl)) ≤ Z.of_nat (length (slots_ p)).
Proof.
  intros H E L. apply slots_length.
  - constructor; [by eapply live_not_free|apply H].
  - intros y [->|Hy]%elem_of_cons; [by eapply at_range|by eapply fl_range].
Qed.

Lemma slot_lt_kNull p fl x o : pool_ok p fl → at_ p x = Some o → 0 ≤ x < kNull.
Proof. intros H E%at_range. pose proof (po_cap _ _ H). lia. Qed.

Lemma upd_ok p p' fl x f :
  pool_ok p fl → upd p x f = Some p' →
  (∀ o, at_ p x = Some o → o_live o = true ∧ o_live (f o) = true ∧
     o_gen (f o) = o_gen o ∧ o_id (f o) = o_id o) →
  pool_ok p' fl.
Proof.
  intros H E Hf. unfold upd in E. destruct (at_ p x) as [o|] eqn:Eo; [|done].
  destruct (upd_Some p x o f Eo) as (p1 & Hp1 & Hx & Hy & Hlen & Hh & Hl).
  unfold upd in Hp1. rewrite Eo in Hp1. rewrite Hp1 in E. inv_some.
  destruct (Hf o eq_refl) as (L & L' & G & I).
  pose proof (live_not_free _ _ _ _ H Eo L) as Hnf.
  split; rewrite ?Hlen, ?Hh, ?Hl; try apply H.
  - eapply free_chain_frame; [|apply H]. intros y ?. apply Hy. set_solver.
  - intros y o' Hy' ?. destruct (decide (y = x)) as [->|]; [congruence|].
    rewrite Hy in Hy' by done. by eapply po_cover.
  - intros y o' Hy'. destruct (decide (y = x)) as [->|].
    + assert (o' = f o) as -> by congruence. rewrite G. by eapply po_gen.
    + rewrite Hy in Hy' by done. by eapply po_gen.
  - intros y o' Hy' ?. destruct (decide (y = x)) as [->|].
    + assert (o' = f o) as -> by congruence. rewrite G, I. by eapply po_id.
    + rewrite Hy in Hy' by done. by eapply po_id.
Qed.

Lemma alloc_full p : pool_ok p [] → alloc p = Some (p, None).
Proof. intros H. unfold alloc. by rewrite (po_head _ _ H). Qed.

Lemma free_head_Some p x fl :
  pool_ok p (x :: fl) → free_head_ p = x ∧ (free_head_ p =? kNull) = false ∧ 0 ≤ x < kNull.
Proof.
  intros H. pose proof (po_head _ _ H) as E. simpl in E.
  destruct (fl_range p (x :: fl) x H) as [? ?]; [set_solver|].
  pose proof (po_cap _ _ H). split_and!; [done|apply Z.eqb_neq; lia|lia|lia].
Qed.

(** Case split on whether a read hits the slot just written. *)
Ltac slot_cases y x Hx Hne :=
  let E := fresh in
  destruct (decide (y = x)) as [->|E];
  [ repeat match goal with
    | H : at_ _ x = Some _ |- _ => rewrite Hx in H; inv_some
    end
  | repeat match goal with
    | H : at_ _ y = Some _ |- _ => rewrite Hne in H by done
    end ].

Lemma alloc_spec p x fl :
  pool_ok p (x :: fl) →
  ∃ p' o, alloc p = Some (p', Some x) ∧ at_ p x = Some o ∧
    pool_ok p' fl ∧ at_ p' x = Some (fresh_order (o_gen o) x) ∧
    next_id p = Some (make_id (o_gen o) x) ∧
    (∀ y, y ≠ x → at_ p' y = at_ p y) ∧ length (slots_ p') = length (slots_ p).
Proof.
  intros H. destruct (free_head_Some _ _ _ H) as (Ehd & Enull & Hx).
  pose proof (po_chain _ _ H) as [(o & Eo & Ld & En) Hch].
  pose proof (po_nodup _ _ H) as [Hnx Hnd]%NoDup_cons.
  pose proof (fl_length _ _ H) as Hlen. simpl in Hlen.
  pose proof (po_cap _ _ H). pose proof (po_live _ _ H) as Hlive.
  destruct (write_slot p x o (fresh_order (o_gen o) x) Eo) as (sl & Hsl & Hsll & Hat).
  destruct (Hat (o_next o) (u32 (live_ p + 1))) as [Heq Hne].
  eexists _, o. unfold alloc, next_id. rewrite Ehd in *. rewrite Enull, Eo. simpl.
  unfold fresh_order in Hsl. rewrite Hsl. simpl. split_and!; try done.
  split; try done; simpl; rewrite ?Hsll; try done.
  - eapply free_chain_frame; [|done]. intros y Hy. apply Hne. set_solver.
  - intros y o' Hy ?. slot_cases y x Heq Hne; [done|].
    pose proof (po_cover _ _ H y o' Hy). set_solver.
  - intros y o' Hy. slot_cases y x Heq Hne; [exact (po_gen _ _ H _ _ Eo)|by eapply po_gen].
  - intros y o' Hy ?. slot_cases y x Heq Hne; [done|by eapply po_id].
  - rewrite Hlive. simpl. rewrite u32_small; unfold kNull in *; lia.
Qed.

(** The generation a slot moves to when it is freed. *)
Definition bump_gen (g : Z) : Z := if u32 (g + 1) =? 0 then 1 else u32 (g + 1).

Lemma bump_gen_range g : 0 < g < 2 ^ 32 → 0 < bump_gen g < 2 ^ 32 ∧ bump_gen g ≠ g.
Proof.
  intros Hg. unfold bump_gen. pose proof (u32_range (g + 1)).
  destruct (decide (g = 2 ^ 32 - 1)) as [->|].
  - vm_compute. split; [split; done|done].
  - rewrite u32_small by lia. destruct (Z.eqb_spec (g + 1) 0); lia.
Qed.

Definition freed_order (nxt : Z) (o : Order) : Order :=
  set_next nxt (set_gen (bump_gen (o_gen o)) (set_live false o)).

Lemma free_spec p fl x o :
  pool_ok p fl → at_ p x = Some o → o_live o = true →
  ∃ p', free p x = Some p' ∧ pool_ok p' (x :: fl) ∧
    at_ p' x = Some (freed_order (fst_or kNull fl) o) ∧
    (∀ y, y ≠ x → at_ p' y = at_ p y) ∧ length (slots_ p') = length (slots_ p).
Proof.
  intros H Eo L. pose proof (live_not_free _ _ _ _ H Eo L) as Hnf.
  pose proof (po_gen _ _ H _ _ Eo) as Hg. pose proof (bump_gen_range _ Hg) as [Hb Hb'].
  pose proof (po_cap _ _ H). pose proof (po_live _ _ H) as Hlive.
  pose proof (live_room _ _ _ _ H Eo L) as Hlen.
  destruct (write_slot p x o (freed_order (fst_or kNull fl) o) Eo) as (sl & Hsl & Hsll & Hat).
  destruct (Hat x (u32 (live_ p - 1))) as [Heq Hne].
  simpl in Hlen. eexists. unfold free. rewrite Eo. simpl. rewrite (po_head _ _ H).
  change (set_next _ _) with (freed_order (fst_or kNull fl) o). rewrite Hsl. simpl.
  split_and!; try done.
  split; try done; simpl; rewrite ?Hsll; try done.
  - split; [exists (freed_order (fst_or kNull fl) o); done|].
    eapply free_chain_frame; [|apply H]. intros y Hy. apply Hne. set_solver.
  - constructor; [done|apply H].
  - intros y o' Hy ?. slot_cases y x Heq Hne; [set_solver|].
    pose proof (po_cover _ _ H y o' Hy). set_solver.
  - intros y o' Hy. slot_cases y x Heq Hne; [done|by eapply po_gen].
  - intros y o' Hy ?. slot_cases y x Heq Hne; [done|by eapply po_id].
  - rewrite Hlive. rewrite u32_small; unfold kNull in *; lia.
Qed.

Lemma find_spec p fl id x :
  pool_ok p fl →
  find p id = Some x ↔ ∃ o, at_ p x = Some o ∧ o_live o = true ∧ o_id o = id.
Proof.
  intros H. unfold find. split.
  - destruct (Z.leb_spec (Z.of_nat (length (slots_ p))) (u32 id)); [done|].
    destruct (at_ p (u32 id)) as [o|] eqn:E; [|done].
    destruct (o_live o) eqn:L; simpl; [|done].
    destruct (Z.eqb_spec (o_id o) id); [|done]. intros. inv_some. eauto.
  - intros (o & E & L & I). pose proof (at_range _ _ _ E). pose proof (po_cap _ _ H).
    rewrite <- I, (po_id _ _ H _ _ E L), make_id_slot by (unfold kNull in *; lia).
    destruct (Z.leb_spec (Z.of_nat (length (slots_ p))) x); [lia|].
    rewrite E, L. simpl. by rewrite <- (po_id _ _ H _ _ E L), Z.eqb_refl.
Qed.

(** Live orders have distinct ids. *)
Lemma live_id_inj p fl x y ox oy :
  pool_ok p fl → at_ p x = Some ox → at_ p y = Some oy →
  o_live ox = true → o_live oy = true → o_id ox = o_id oy → x = y.
Proof.
  intros H Ex Ey Lx Ly I.
  assert (find p (o_id ox) = Some x) as F1 by (eapply find_spec; eauto).
  assert (find p (o_id ox) = Some y) as F2 by (eapply find_spec; eauto).
  congruence.
Qed.

Lemma Pool_init_ok cap : 0 ≤ cap < 2 ^ 32 → pool_ok (Pool_init cap) (seqZ 0 cap).
Proof.
  intros Hc.
  assert (∀ x o, at_ (Pool_init cap) x = Some o →
    0 ≤ x < cap ∧ o = set_next (if x + 1 <? cap then x + 1 else kNull) (set_gen 1 Order_default)) as Hat.
  { intros x o [? Hx]%vget_spec. simpl in Hx. apply list_lookup_fmap_Some in Hx as (i & -> & Hi).
    apply lookup_seqZ in Hi as [-> ?]. rewrite Z2Nat.id by lia. split; [lia|].
    rewrite Z.add_0_l. done. }
  assert (length (slots_ (Pool_init cap)) = Z.to_nat cap) as Hlen
    by (simpl; by rewrite length_fmap, length_seqZ).
  assert (∀ n k, k = Z.of_nat n → ∀ a, 0 ≤ a → a + k = cap →
    free_chain (Pool_init cap) (seqZ a k)) as Hch.
  { induction n as [|n IH]; intros k -> a Ha Hk; [done|].
    rewrite seqZ_cons by lia. rewrite Nat2Z.inj_succ, Z.pred_succ.
    split; [|apply IH; lia].
    destruct (vget_is_Some (slots_ (Pool_init cap)) a) as [o Ho]; [rewrite Hlen; lia|].
    exists o. destruct (Hat a o Ho) as [_ ->]. split_and!; [done..|].
    simpl. destruct (Z.ltb_spec (a + 1) cap).
    - by rewrite seqZ_cons by lia.
    - by replace (Z.of_nat n) with 0 by lia. }
  split.
  - rewrite Hlen. unfold kNull. lia.
  - simpl. destruct (Z.eqb_spec cap 0) as [->|]; [done|]. by rewrite seqZ_cons by lia.
  - apply (Hch (Z.to_nat cap)); lia.
  - apply NoDup_seqZ.
  - intros x o [? _]%Hat _. apply elem_of_seqZ. lia.
  - intros x o [_ ->]%Hat. simpl. lia.
  - intros x o [_ ->]%Hat. done.
  - rewrite Hlen, length_seqZ. simpl. lia.
Qed.
