(* ===== verification/Bitmap.v ===== *)
(** The per-side price bitmap of [src/book.cpp]: setting and clearing a
    price's bit, and the word scans [scan_up] / [scan_down] that find the next
    set price with [__builtin_ctzll] / [__builtin_clzll].  The scans are
    compared with the specification "nearest set price", so the rest of the
    development never looks at a word again. *)
From S2P Require Import Prelude Types.

(** ** Compiler builtins on a 64-bit word (undefined at 0) *)
Fixpoint pos_ctz (p : positive) : Z :=
  match p with xO p' => 1 + pos_ctz p' | _ => 0 end.

Definition ctzll (w : Z) : option Z :=
  match w with Zpos p => Some (pos_ctz p) | _ => None end.

Definition clzll (w : Z) : option Z :=
  match w with Zpos p => Some (63 - Z.log2 (Zpos p)) | _ => None end.

(** [~uint64_t(0)] *)
Definition all_ones : Z := 2 ^ 64 - 1.

(** [bits[p >> 6] |= uint64_t(1) << (p & 63)] *)
Definition set_bit (bits : list Z) (p : Z) : option (list Z) :=
  w ← vget bits (Z.shiftr p 6);
  vset bits (Z.shiftr p 6) (Z.lor w (u64 (Z.shiftl 1 (Z.land p 63)))).

(** [bits[p >> 6] &= ~(uint64_t(1) << (p & 63))] *)
Definition clear_bit (bits : list Z) (p : Z) : option (list Z) :=
  w ← vget bits (Z.shiftr p 6);
  vset bits (Z.shiftr p 6) (Z.land w (Z.lxor all_ones (u64 (Z.shiftl 1 (Z.land p 63))))).

Fixpoint scan_up_loop (fuel : nat) (bits : list Z) (w word : Z) : option Z :=
  match fuel with
  | O => None
  | S fuel =>
      if negb (word =? 0) then c ← ctzll word; Some (Z.shiftl w 6 + c)
      else
        let w := w + 1 in
        if w =? Z.of_nat (length bits) then Some kNoPrice
        else word ← vget bits w; scan_up_loop fuel bits w word
  end.

Definition scan_up (max_price : Z) (bits : list Z) (from : Z) : option Z :=
  if max_price <? from then Some kNoPrice else
  let w := Z.shiftr from 6 in
  word0 ← vget bits w;
  let word := Z.land word0 (u64 (Z.shiftl all_ones (Z.land from 63))) in
  scan_up_loop (S (length bits)) bits w word.

Fixpoint scan_down_loop (fuel : nat) (bits : list Z) (w word : Z) : option Z :=
  match fuel with
  | O => None
  | S fuel =>
      if negb (word =? 0) then c ← clzll word; Some (Z.shiftl w 6 + 63 - c)
      else if w =? 0 then Some kNoPrice
      else let w := w - 1 in word ← vget bits w; scan_down_loop fuel bits w word
  end.

Definition scan_down (bits : list Z) (from : Z) : option Z :=
  if from <? 1 then Some kNoPrice else
  let w := Z.shiftr from 6 in
  word0 ← vget bits w;
  let word := Z.land word0 (Z.shiftr all_ones (63 - Z.land from 63)) in
  scan_down_loop (S (length bits)) bits w word.

(** ** Specification *)

(** Is price [p] marked? *)
Definition bit (bits : list Z) (p : Z) : bool :=
  match vget bits (p / 64) with Some w => Z.testbit w (p mod 64) | None => false end.

(** The bitmap covers prices [0..max], its words are 64-bit words, and no
    price above [max] is marked. *)
Record bits_ok (max : Z) (bits : list Z) : Prop := {
  bo_len : Z.of_nat (length bits) = max / 64 + 1;
  bo_word : ∀ i w, vget bits i = Some w → 0 ≤ w < 2 ^ 64;
  bo_top : ∀ p, max < p → bit bits p = false }.

(** ** Word facts *)
Lemma pos_ctz_spec p :
  0 ≤ pos_ctz p ∧ Z.testbit (Zpos p) (pos_ctz p) = true ∧
  ∀ i, 0 ≤ i < pos_ctz p → Z.testbit (Zpos p) i = false.
Proof.
  induction p as [p _|p (IH0 & IH1 & IH2)|]; simpl.
  - split_and!; [lia|done|lia].
  - split_and!; [lia| |].
    + rewrite Pos2Z.inj_xO, Z.add_comm, Z.add_1_r, Z.double_bits_succ. done.
    + intros i Hi. rewrite Pos2Z.inj_xO. destruct (decide (i = 0)) as [->|].
      * apply Z.testbit_even_0.
      * replace i with (Z.succ (i - 1)) by lia. rewrite Z.double_bits_succ. apply IH2. lia.
  - split_and!; [lia|done|lia].
Qed.

Lemma word_bit_range w i : 0 ≤ w < 2 ^ 64 → Z.testbit w i = true → 0 ≤ i < 64.
Proof.
  intros Hw Hi. destruct (decide (i < 0)); [by rewrite Z.testbit_neg_r in Hi by lia|].
  split; [lia|]. destruct (decide (64 ≤ i)); [|lia].
  rewrite Z.bits_above_log2 in Hi; [done|lia|].
  destruct (decide (w = 0)) as [->|]; [simpl; lia|].
  apply Z.log2_lt_pow2; [lia|]. apply (Z.lt_le_trans _ (2 ^ 64)); [lia|].
  apply Z.pow_le_mono_r; lia.
Qed.

Lemma word_zero w : 0 ≤ w < 2 ^ 64 → w = 0 ↔ ∀ i, 0 ≤ i < 64 → Z.testbit w i = false.
Proof.
  intros Hw. split; [intros -> ? _; apply Z.bits_0|]. intros H.
  apply Z.bits_inj'. intros n Hn. rewrite Z.bits_0.
  destruct (Z.testbit w n) eqn:E; [|done].
  rewrite <- E. apply H. by eapply word_bit_range.
Qed.

Lemma ctzll_spec w :
  0 < w < 2 ^ 64 → ∃ c, ctzll w = Some c ∧ 0 ≤ c < 64 ∧ Z.testbit w c = true ∧
    ∀ i, 0 ≤ i < c → Z.testbit w i = false.
Proof.
  intros Hw. destruct w as [|p|]; [lia| |lia].
  destruct (pos_ctz_spec p) as (? & ? & ?). exists (pos_ctz p).
  destruct (word_bit_range (Zpos p) (pos_ctz p)); [lia|done|]. done.
Qed.

Lemma clzll_spec w :
  0 < w < 2 ^ 64 → ∃ c, clzll w = Some c ∧ 0 ≤ 63 - c < 64 ∧ Z.testbit w (63 - c) = true ∧
    ∀ i, 63 - c < i < 64 → Z.testbit w i = false.
Proof.
  intros Hw. destruct w as [|p|]; [lia| |lia]. unfold clzll.
  exists (63 - Z.log2 (Zpos p)). replace (63 - (63 - Z.log2 (Zpos p))) with (Z.log2 (Zpos p)) by lia.
  assert (Z.testbit (Zpos p) (Z.log2 (Zpos p)) = true) by (apply Z.bit_log2; lia).
  pose proof (word_bit_range (Zpos p) _ ltac:(lia) H).
  split_and!; auto; try lia. intros i ?. apply Z.bits_above_log2; lia.
Qed.

Lemma shiftr6 p : Z.shiftr p 6 = p / 64.
Proof. by rewrite Z.shiftr_div_pow2. Qed.

Lemma land63 p : Z.land p 63 = p mod 64.
Proof. change 63 with (Z.ones 6). by rewrite Z.land_ones. Qed.

Lemma shiftl6 p : Z.shiftl p 6 = 64 * p.
Proof. rewrite Z.shiftl_mul_pow2 by lia. lia. Qed.

Lemma bit_word bits w i v :
  0 ≤ i < 64 → vget bits w = Some v → bit bits (64 * w + i) = Z.testbit v i.
Proof.
  intros Hi E. unfold bit.
  rewrite Z.add_comm, Z.mul_comm, Z.div_add, Z.mod_add, Z.div_small, Z.mod_small by lia.
  by rewrite Z.add_0_l, E.
Qed.

(** Split a price into its word and bit. *)
Lemma price_split p : p = 64 * (p / 64) + p mod 64 ∧ 0 ≤ p mod 64 < 64.
Proof. split; [apply Z.div_mod; lia|apply Z.mod_pos_bound; lia]. Qed.

Lemma mask_up_bit v k i :
  0 ≤ k < 64 → 0 ≤ i < 64 →
  Z.testbit (Z.land v (u64 (Z.shiftl all_ones k))) i = Z.testbit v i && (k <=? i).
Proof.
  intros Hk Hi. rewrite Z.land_spec. f_equal. unfold u64.
  rewrite Z.mod_pow2_bits_low by lia. rewrite Z.shiftl_spec by lia.
  unfold all_ones. change (2 ^ 64 - 1) with (Z.ones 64).
  destruct (Z.leb_spec k i).
  - apply Z.ones_spec_low. lia.
  - apply Z.testbit_neg_r. lia.
Qed.

Lemma mask_down_bit v k i :
  0 ≤ k < 64 → 0 ≤ i < 64 →
  Z.testbit (Z.land v (Z.shiftr all_ones (63 - k))) i = Z.testbit v i && (i <=? k).
Proof.
  intros Hk Hi. rewrite Z.land_spec. f_equal. rewrite Z.shiftr_spec by lia.
  unfold all_ones. change (2 ^ 64 - 1) with (Z.ones 64).
  destruct (Z.leb_spec i k).
  - apply Z.ones_spec_low. lia.
  - apply Z.ones_spec_high. lia.
Qed.

Lemma land_range v m : 0 ≤ v < 2 ^ 64 → 0 ≤ Z.land v m < 2 ^ 64.
Proof.
  intros Hv. assert (Z.land v m = u64 (Z.land v m)) as ->.
  { unfold u64. rewrite <- Z.land_ones by lia.
    by rewrite <- Z.land_assoc, (Z.land_comm m), Z.land_assoc, (Z.land_ones v), Z.mod_small by lia. }
  apply u64_range.
Qed.

Lemma lor_range a b : 0 ≤ a < 2 ^ 64 → 0 ≤ b < 2 ^ 64 → 0 ≤ Z.lor a b < 2 ^ 64.
Proof.
  intros Ha Hb. assert (Z.lor a b = u64 (Z.lor a b)) as ->.
  { unfold u64. rewrite <- Z.land_ones, Z.land_lor_distr_l by lia.
    by rewrite !Z.land_ones, !Z.mod_small by lia. }
  apply u64_range.
Qed.

(** ** The scans find the nearest marked price *)

(** [r] is the lowest marked price [>= from], or [kNoPrice]. *)
Definition lowest_from (max : Z) (bits : list Z) (from r : Z) : Prop :=
  (r = kNoPrice ∧ ∀ p, from ≤ p → bit bits p = false) ∨
  (from ≤ r ≤ max ∧ bit bits r = true ∧ ∀ p, from ≤ p < r → bit bits p = false).

(** [r] is the highest marked price in [0..from], or [kNoPrice]. *)
Definition highest_to (max : Z) (bits : list Z) (from r : Z) : Prop :=
  (r = kNoPrice ∧ ∀ p, 0 ≤ p ≤ from → bit bits p = false) ∨
  (0 ≤ r ≤ max ∧ r ≤ from ∧ bit bits r = true ∧ ∀ p, r < p ≤ from → bit bits p = false).

Lemma bit_le_max max bits p : bits_ok max bits → bit bits p = true → p ≤ max.
Proof.
  intros H Hp. destruct (decide (max < p)) as [Hlt|]; [|lia].
  by rewrite (bo_top _ _ H p Hlt) in Hp.
Qed.

(** Advancing the scan past a stretch with no marked price. *)
Lemma lowest_from_skip max bits a b r :
  a ≤ b → (∀ p, a ≤ p < b → bit bits p = false) →
  lowest_from max bits b r → lowest_from max bits a r.
Proof.
  intros Hab Hno [[-> H]|(? & ? & H)].
  - left. split; [done|]. intros p ?. destruct (decide (p < b)); [apply Hno|apply H]; lia.
  - right. split_and!; [lia..|done|]. intros p ?.
    destruct (decide (p < b)); [apply Hno|apply H]; lia.
Qed.

Lemma highest_to_skip max bits a b r :
  b ≤ a → (∀ p, b < p ≤ a → bit bits p = false) →
  highest_to max bits b r → highest_to max bits a r.
Proof.
  intros Hab Hno [[-> H]|(? & ? & ? & H)].
  - left. split; [done|]. intros p ?. destruct (decide (b < p)); [apply Hno|apply H]; lia.
  - right. split_and!; [lia..|done|]. intros p ?.
    destruct (decide (b < p)); [apply Hno|apply H]; lia.
Qed.

(** The bits of a word at or above (below) [k] are those of the masked word. *)
Lemma stretch_up bits w v word k a :
  vget bits w = Some v → 0 ≤ k → a ≤ 64 →
  (∀ i, 0 ≤ i < 64 → Z.testbit word i = Z.testbit v i && (k <=? i)) →
  (∀ i, 0 ≤ i < a → Z.testbit word i = false) →
  ∀ p, 64 * w + k ≤ p < 64 * w + a → bit bits p = false.
Proof.
  intros Hv Hk Ha Hw Hz p Hp. replace p with (64 * w + (p - 64 * w)) by lia.
  rewrite (bit_word bits w _ v) by (done || lia).
  specialize (Hw (p - 64 * w)). specialize (Hz (p - 64 * w)).
  rewrite Hz in Hw by lia. symmetry in Hw.
  destruct (Z.leb_spec k (p - 64 * w)); [|lia]. rewrite andb_true_r in Hw. apply Hw. lia.
Qed.

Lemma stretch_down bits w v word k a :
  vget bits w = Some v → k < 64 → 0 ≤ a + 1 →
  (∀ i, 0 ≤ i < 64 → Z.testbit word i = Z.testbit v i && (i <=? k)) →
  (∀ i, a < i < 64 → Z.testbit word i = false) →
  ∀ p, 64 * w + a < p ≤ 64 * w + k → bit bits p = false.
Proof.
  intros Hv Hk Ha Hw Hz p Hp. replace p with (64 * w + (p - 64 * w)) by lia.
  rewrite (bit_word bits w _ v) by (done || lia).
  specialize (Hw (p - 64 * w)). specialize (Hz (p - 64 * w)).
  rewrite Hz in Hw by lia. symmetry in Hw.
  destruct (Z.leb_spec (p - 64 * w) k); [|lia]. rewrite andb_true_r in Hw. apply Hw. lia.
Qed.

Lemma scan_up_loop_spec max bits fuel w v word k :
  bits_ok max bits → vget bits w = Some v → 0 ≤ k < 64 → 0 ≤ word < 2 ^ 64 →
  (∀ i, 0 ≤ i < 64 → Z.testbit word i = Z.testbit v i && (k <=? i)) →
  Z.of_nat (length bits) - w < Z.of_nat fuel →
  ∃ r, scan_up_loop fuel bits w word = Some r ∧ lowest_from max bits (64 * w + k) r.
Proof.
  intros Hb. revert w v word k. induction fuel as [|fuel IH]; intros w v word k Hv Hk Hr Hw Hf.
  { apply vget_lt in Hv. lia. }
  simpl. destruct (Z.eqb_spec word 0) as [->|Hne]; simpl.
  - assert (∀ p, 64 * w + k ≤ p < 64 * (w + 1) + 0 → bit bits p = false) as Hno.
    { intros p Hp. eapply (stretch_up bits w v 0 k 64); eauto; try lia.
      intros i _. apply Z.bits_0. }
    destruct (Z.eqb_spec (w + 1) (Z.of_nat (length bits))) as [Hend|Hend].
    + exists kNoPrice. split; [done|]. left. split; [done|]. intros p Hp.
      destruct (decide (p < 64 * (w + 1) + 0)); [apply Hno; lia|].
      unfold bit. rewrite vget_None; [done|]. pose proof (Z.div_le_lower_bound p 64 (w + 1)). lia.
    + pose proof (vget_lt _ _ _ Hv).
      destruct (vget_is_Some bits (w + 1)) as [v' Hv']; [lia|]. rewrite Hv'. simpl.
      destruct (IH (w + 1) v' v' 0) as (r & -> & Hr'); try done; try lia.
      { by eapply bo_word. }
      { intros i Hi. destruct (Z.leb_spec 0 i); [by rewrite andb_true_r|lia]. }
      exists r. split; [done|]. eapply lowest_from_skip; [|apply Hno|done]. lia.
  - destruct (ctzll_spec word) as (c & -> & Hc & Htb & Hlow); [lia|]. simpl.
    exists (64 * w + c). rewrite shiftl6. split; [done|]. right.
    pose proof (Hw c Hc) as E. rewrite Htb in E. symmetry in E.
    apply andb_true_iff in E as [E1 E2%Z.leb_le].
    assert (bit bits (64 * w + c) = true) as Hbit by (rewrite (bit_word bits w c v); done).
    pose proof (bit_le_max _ _ _ Hb Hbit).
    split_and!; [lia..|done|]. eapply (stretch_up bits w v word k c); eauto; lia.
Qed.

Lemma scan_up_ok max bits from :
  bits_ok max bits → 0 ≤ from →
  ∃ r, scan_up max bits from = Some r ∧ lowest_from max bits from r.
Proof.
  intros Hb Hf. unfold scan_up. destruct (Z.ltb_spec max from).
  { exists kNoPrice. split; [done|]. left. split; [done|]. intros p ?. apply Hb. lia. }
  rewrite shiftr6, land63. pose proof (price_split from) as [Hs Hm].
  destruct (vget_is_Some bits (from / 64)) as [v Hv].
  { rewrite (bo_len _ _ Hb). pose proof (Z.div_pos from 64). pose proof (Z.div_le_mono from max 64). lia. }
  rewrite Hv. simpl. pose proof (bo_word _ _ Hb _ _ Hv) as Hvr.
  destruct (scan_up_loop_spec max bits (S (length bits)) (from / 64) v
    (Z.land v (u64 (Z.shiftl all_ones (from mod 64)))) (from mod 64)) as (r & E & Hr); try done.
  - by apply land_range.
  - intros i Hi. by apply mask_up_bit.
  - apply vget_lt in Hv. lia.
  - exists r. split; [exact E|]. by rewrite <- Hs in Hr.
Qed.

Lemma scan_down_loop_spec max bits fuel w v word k :
  bits_ok max bits → vget bits w = Some v → 0 ≤ k < 64 → 0 ≤ word < 2 ^ 64 →
  (∀ i, 0 ≤ i < 64 → Z.testbit word i = Z.testbit v i && (i <=? k)) →
  w < Z.of_nat fuel →
  ∃ r, scan_down_loop fuel bits w word = Some r ∧ highest_to max bits (64 * w + k) r.
Proof.
  intros Hb. revert w v word k. induction fuel as [|fuel IH]; intros w v word k Hv Hk Hr Hw Hf.
  { apply vget_lt in Hv. lia. }
  simpl. destruct (Z.eqb_spec word 0) as [->|Hne]; simpl.
  - assert (∀ p, 64 * w + -1 < p ≤ 64 * w + k → bit bits p = false) as Hno.
    { eapply (stretch_down bits w v 0 k (-1)); eauto; try lia.
      intros i _. apply Z.bits_0. }
    destruct (Z.eqb_spec w 0) as [->|Hend].
    + exists kNoPrice. split; [done|]. left. split; [done|]. intros p Hp. apply Hno. lia.
    + pose proof (vget_lt _ _ _ Hv).
      destruct (vget_is_Some bits (w - 1)) as [v' Hv']; [lia|]. rewrite Hv'. simpl.
      destruct (IH (w - 1) v' v' 63) as (r & -> & Hr'); try done; try lia.
      { by eapply bo_word. }
      { intros i Hi. destruct (Z.leb_spec i 63); [by rewrite andb_true_r|lia]. }
      exists r. split; [done|]. eapply highest_to_skip; [| |done]; [lia|].
      intros p Hp. apply Hno. lia.
  - destruct (clzll_spec word) as (c & -> & Hc & Htb & Hlow); [lia|]. simpl.
    exists (64 * w + (63 - c)). rewrite shiftl6. split; [f_equal; lia|]. right.
    pose proof (Hw _ Hc) as E. rewrite Htb in E. symmetry in E.
    apply andb_true_iff in E as [E1 E2%Z.leb_le].
    assert (bit bits (64 * w + (63 - c)) = true) as Hbit by (rewrite (bit_word bits w _ v); done).
    pose proof (bit_le_max _ _ _ Hb Hbit). pose proof (vget_lt _ _ _ Hv).
    split_and!; [lia..|done|]. eapply (stretch_down bits w v word k); eauto; lia.
Qed.

Lemma scan_down_ok max bits from :
  bits_ok max bits → from ≤ max →
  ∃ r, scan_down bits from = Some r ∧
    (from < 1 ∧ r = kNoPrice ∨ 1 ≤ from ∧ highest_to max bits from r).
Proof.
  intros Hb Hf. unfold scan_down. destruct (Z.ltb_spec from 1).
  { exists kNoPrice. split; [done|]. by left. }
  rewrite shiftr6, land63. pose proof (price_split from) as [Hs Hm].
  destruct (vget_is_Some bits (from / 64)) as [v Hv].
  { rewrite (bo_len _ _ Hb). pose proof (Z.div_pos from 64). pose proof (Z.div_le_mono from max 64). lia. }
  rewrite Hv. simpl. pose proof (bo_word _ _ Hb _ _ Hv) as Hvr.
  destruct (scan_down_loop_spec max bits (S (length bits)) (from / 64) v
    (Z.land v (Z.shiftr all_ones (63 - from mod 64))) (from mod 64)) as (r & E & Hr); try done.
  - by apply land_range.
  - intros i Hi. by apply mask_down_bit.
  - apply vget_lt in Hv. lia.
  - exists r. split; [exact E|]. right. split; [lia|]. by rewrite <- Hs in Hr.
Qed.

(** ** Setting and clearing a bit *)
Lemma bit_update bits bits' max p w v :
  bits_ok max bits → 0 ≤ p ≤ max → vget bits (p / 64) = Some w →
  vset bits (p / 64) v = Some bits' → 0 ≤ v < 2 ^ 64 →
  (∀ i, 0 ≤ i < 64 → i ≠ p mod 64 → Z.testbit v i = Z.testbit w i) →
  bits_ok max bits' ∧ bit bits' p = Z.testbit v (p mod 64) ∧
  ∀ p', 0 ≤ p' → p' ≠ p → bit bits' p' = bit bits p'.
Proof.
  intros Hb Hp Hw Hs Hv Hi. pose proof (price_split p) as [Hps Hpm].
  assert (∀ p', 0 ≤ p' → p' ≠ p → bit bits' p' = bit bits p') as Hother.
  { intros p' Hp' Hne. pose proof (price_split p') as [Hps' Hpm']. unfold bit.
    rewrite (vget_vset _ _ _ (p' / 64) _ Hs). case_decide as E; [|done].
    rewrite <- E, Hw. apply Hi; [done|]. intros E'. apply Hne. rewrite Hps, Hps', <- E, E'. done. }
  split_and!; [split| |done].
  - by rewrite (vset_length _ _ _ _ Hs), (bo_len _ _ Hb).
  - intros i w'. rewrite (vget_vset _ _ _ i _ Hs). case_decide; intros; inv_some; [done|].
    by eapply bo_word.
  - intros p' Hp'. rewrite Hother by lia. by apply Hb.
  - unfold bit. by rewrite (vget_vset_eq _ _ _ _ Hs).
Qed.

Lemma one_bit k i : 0 ≤ k < 64 → 0 ≤ i < 64 →
  Z.testbit (u64 (Z.shiftl 1 k)) i = bool_decide (i = k).
Proof.
  intros Hk Hi. unfold u64. rewrite Z.mod_pow2_bits_low by lia.
  rewrite Z.shiftl_1_l. case_bool_decide as E.
  - subst. apply Z.pow2_bits_true. lia.
  - apply Z.pow2_bits_false. lia.
Qed.

Lemma word_index max bits p :
  bits_ok max bits → 0 ≤ p ≤ max → ∃ w, vget bits (p / 64) = Some w ∧ 0 ≤ w < 2 ^ 64.
Proof.
  intros Hb Hp. destruct (vget_is_Some bits (p / 64)) as [w Hw].
  { rewrite (bo_len _ _ Hb). pose proof (Z.div_pos p 64). pose proof (Z.div_le_mono p max 64). lia. }
  eauto using bo_word.
Qed.

Lemma set_bit_ok max bits p :
  bits_ok max bits → 0 ≤ p ≤ max →
  ∃ bits', set_bit bits p = Some bits' ∧ bits_ok max bits' ∧ bit bits' p = true ∧
    ∀ p', 0 ≤ p' → p' ≠ p → bit bits' p' = bit bits p'.
Proof.
  intros Hb Hp. destruct (word_index _ _ _ Hb Hp) as (w & Hw & Hwr).
  pose proof (price_split p) as [_ Hpm].
  unfold set_bit. rewrite shiftr6, land63, Hw. simpl.
  set (v := Z.lor w (u64 (Z.shiftl 1 (p mod 64)))).
  destruct (vset_is_Some bits (p / 64) v) as [bits' Hs]; [by eapply vget_lt|].
  assert (∀ i, 0 ≤ i < 64 → Z.testbit v i = Z.testbit w i || bool_decide (i = p mod 64)) as Hv.
  { intros i Hi. unfold v. rewrite Z.lor_spec, one_bit by done. done. }
  assert (0 ≤ v < 2 ^ 64) by (apply lor_range; [done|apply u64_range]).
  destruct (bit_update bits bits' max p w v) as (? & E & ?); try done.
  { intros i Hi Hne. by rewrite Hv, bool_decide_false, orb_false_r. }
  exists bits'. split_and!; try done. by rewrite E, Hv, bool_decide_true, orb_true_r by done.
Qed.

Lemma clear_bit_ok max bits p :
  bits_ok max bits → 0 ≤ p ≤ max →
  ∃ bits', clear_bit bits p = Some bits' ∧ bits_ok max bits' ∧ bit bits' p = false ∧
    ∀ p', 0 ≤ p' → p' ≠ p → bit bits' p' = bit bits p'.
Proof.
  intros Hb Hp. destruct (word_index _ _ _ Hb Hp) as (w & Hw & Hwr).
  pose proof (price_split p) as [_ Hpm].
  unfold clear_bit. rewrite shiftr6, land63, Hw. simpl.
  set (v := Z.land w (Z.lxor all_ones (u64 (Z.shiftl 1 (p mod 64))))).
  destruct (vset_is_Some bits (p / 64) v) as [bits' Hs]; [by eapply vget_lt|].
  assert (∀ i, 0 ≤ i < 64 → Z.testbit v i = Z.testbit w i && negb (bool_decide (i = p mod 64))) as Hv.
  { intros i Hi. unfold v, all_ones. change (2 ^ 64 - 1) with (Z.ones 64).
    rewrite Z.land_spec, Z.lxor_spec, one_bit, Z.ones_spec_low by (done || lia). done. }
  assert (0 ≤ v < 2 ^ 64) by (by apply land_range).
  destruct (bit_update bits bits' max p w v) as (? & E & ?); try done.
  { intros i Hi Hne. by rewrite Hv, bool_decide_false, andb_true_r. }
  exists bits'. split_and!; try done. by rewrite E, Hv, bool_decide_true, andb_false_r by done.
Qed.

Lemma bits_init_ok max : 0 ≤ max → bits_ok max (replicate (Z.to_nat (max / 64 + 1)) 0).
Proof.
  intros Hm. pose proof (Z.div_pos max 64).
  assert (∀ i w, vget (replicate (Z.to_nat (max / 64 + 1)) 0) i = Some w → w = 0) as H0.
  { intros i w [_ Hi]%vget_spec. by apply lookup_replicate in Hi as [-> _]. }
  split.
  - rewrite length_replicate. lia.
  - intros i w ->%H0. lia.
  - intros p _. unfold bit. destruct (vget _ _) as [w|] eqn:E; [|done].
    apply H0 in E as ->. apply Z.bits_0.
Qed.

Lemma bit_init max p : bit (replicate (Z.to_nat (max / 64 + 1)) 0) p = false.
Proof.
  unfold bit. destruct (vget _ _) as [w|] eqn:E; [|done].
  apply vget_spec in E as [_ E]. apply lookup_replicate in E as [-> _]. apply Z.bits_0.
Qed.
