(* ===== verification/Book.v ===== *)
(** [include/matchbox/book.hpp] and [src/book.cpp]: one instrument's order
    book.  A [Level&] is the pair of its side and its price, an [Order&] is a
    pool slot; the pool is threaded explicitly because the book writes the
    intrusive links into it. *)
From S2P Require Import Prelude Types Pool Bitmap.

Record Level := mkLevel { l_head : Z; l_tail : Z; l_qty : Z; l_count : Z }.

Definition Level_default : Level := mkLevel kNull kNull 0 0.

Definition set_head (v : Z) (l : Level) : Level := mkLevel v (l_tail l) (l_qty l) (l_count l).
Definition set_tail (v : Z) (l : Level) : Level := mkLevel (l_head l) v (l_qty l) (l_count l).
Definition set_lqty (v : Z) (l : Level) : Level := mkLevel (l_head l) (l_tail l) v (l_count l).
Definition set_count (v : Z) (l : Level) : Level := mkLevel (l_head l) (l_tail l) (l_qty l) v.

Record Book := mkBook {
  max_price_ : Z; resting_ : Z;
  levels_ : Sides (list Level); bits_ : Sides (list Z); best_ : Sides Z }.

Definition set_resting (v : Z) (b : Book) : Book :=
  mkBook (max_price_ b) v (levels_ b) (bits_ b) (best_ b).
Definition set_bits (s : Side) (v : list Z) (b : Book) : Book :=
  mkBook (max_price_ b) (resting_ b) (levels_ b) (sset s v (bits_ b)) (best_ b).
Definition set_best (s : Side) (v : Z) (b : Book) : Book :=
  mkBook (max_price_ b) (resting_ b) (levels_ b) (bits_ b) (sset s v (best_ b)).

(** [Book::Book]: every level default-initialised, every bitmap word 0. *)
Definition Book_init (max_price : Z) : Book :=
  let lv := replicate (Z.to_nat (max_price + 1)) Level_default in
  let bt := replicate (Z.to_nat (Z.shiftr max_price 6 + 1)) 0 in
  mkBook max_price 0 (mkSides lv lv) (mkSides bt bt) (mkSides kNoPrice kNoPrice).

Definition valid_price (b : Book) (p : Z) : bool := (1 <=? p) && (p <=? max_price_ b).

Definition best (b : Book) (s : Side) : Z := sget s (best_ b).

(** [levels_[s][p]], read and written. *)
Definition level (b : Book) (s : Side) (p : Z) : option Level := vget (sget s (levels_ b)) p.

Definition set_level (b : Book) (s : Side) (p : Z) (l : Level) : option Book :=
  lv ← vset (sget s (levels_ b)) p l;
  Some (mkBook (max_price_ b) (resting_ b) (sset s lv (levels_ b)) (bits_ b) (best_ b)).

(** [if (a != kNull) pool_.at(a).next = v; else lvl.head = v;] *)
Definition link_next (pool : Pool) (lvl : Level) (a v : Z) : option (Pool * Level) :=
  if negb (a =? kNull) then pool ← upd pool a (set_next v); Some (pool, lvl)
  else Some (pool, set_head v lvl).

(** [if (a != kNull) pool_.at(a).prev = v; else lvl.tail = v;] *)
Definition link_prev (pool : Pool) (lvl : Level) (a v : Z) : option (Pool * Level) :=
  if negb (a =? kNull) then pool ← upd pool a (set_prev v); Some (pool, lvl)
  else Some (pool, set_tail v lvl).

(** [Book::insert]: rest order [o] at the back of its level. *)
Definition insert (pool : Pool) (b : Book) (o : Z) : option (Pool * Book) :=
  ord ← at_ pool o;
  let s := o_side ord in
  let px := o_price ord in
  lvl ← level b s px;
  pool ← upd pool o (set_prev (l_tail lvl));
  pool ← upd pool o (set_next kNull);
  '(pool, lvl) ← link_next pool lvl (l_tail lvl) o;
  let lvl := set_tail o lvl in
  let lvl := set_lqty (u32 (l_qty lvl + o_qty ord)) lvl in
  let lvl := set_count (u32 (l_count lvl + 1)) lvl in
  b ← set_level b s px lvl;
  let b := set_resting (u64 (resting_ b + 1)) b in
  if l_count lvl =? 1 then
    bt ← set_bit (sget s (bits_ b)) px;
    let b := set_bits s bt b in
    let better := match s with Buy => best b s <? px | Sell => px <? best b s end in
    Some (pool, if (best b s =? kNoPrice) || better then set_best s px b else b)
  else Some (pool, b).

(** [Book::level_emptied] *)
Definition level_emptied (b : Book) (s : Side) (p : Z) : option Book :=
  bt ← clear_bit (sget s (bits_ b)) p;
  let b := set_bits s bt b in
  if best b s =? p then
    r ← match s with
        | Buy => scan_down (sget s (bits_ b)) (p - 1)
        | Sell => scan_up (max_price_ b) (sget s (bits_ b)) (p + 1)
        end;
    Some (set_best s r b)
  else Some b.

(** [Book::unlink] of order [o] from the level [levels_[ls][lp]]. *)
Definition unlink (pool : Pool) (b : Book) (ls : Side) (lp : Z) (o : Z) : option (Pool * Book) :=
  ord ← at_ pool o;
  lvl ← level b ls lp;
  '(pool, lvl) ← link_next pool lvl (o_prev ord) (o_next ord);
  '(pool, lvl) ← link_prev pool lvl (o_next ord) (o_prev ord);
  let lvl := set_lqty (u32 (l_qty lvl - o_qty ord)) lvl in
  let lvl := set_count (u32 (l_count lvl - 1)) lvl in
  b ← set_level b ls lp lvl;
  let b := set_resting (u64 (resting_ b - 1)) b in
  pool ← upd pool o (set_next kNull);
  pool ← upd pool o (set_prev kNull);
  if l_count lvl =? 0 then
    b ← level_emptied b (o_side ord) (o_price ord);
    Some (pool, b)
  else Some (pool, b).

(** [Book::remove] *)
Definition remove (pool : Pool) (b : Book) (o : Z) : option (Pool * Book) :=
  ord ← at_ pool o;
  unlink pool b (o_side ord) (o_price ord) o.

(** [Book::reduce]: shrink in place, keeping queue position. *)
Definition reduce (pool : Pool) (b : Book) (o new_qty : Z) : option (Pool * Book) :=
  ord ← at_ pool o;
  lvl ← level b (o_side ord) (o_price ord);
  b ← set_level b (o_side ord) (o_price ord)
        (set_lqty (u32 (l_qty lvl - u32 (o_qty ord - new_qty))) lvl);
  pool ← upd pool o (set_qty new_qty);
  Some (pool, b).

(** [Book::crosses] *)
Definition crosses (taker : Side) (taker_px book_px : Z) : bool :=
  match taker with Buy => book_px <=? taker_px | Sell => taker_px <=? book_px end.

(** [Book::top] *)
Definition top (b : Book) : option TopOfBook :=
  let bid := sget Buy (best_ b) in
  let ask := sget Sell (best_ b) in
  bq ← (if negb (bid =? kNoPrice) then l_qty <$> level b Buy bid else Some 0);
  aq ← (if negb (ask =? kNoPrice) then l_qty <$> level b Sell ask else Some 0);
  Some (mkTop bid ask bq aq).

(** ** [Book::match]

    [on_fill] is the template's callback; it may change the pool and its
    captured state of type [St].  [filled] is the running result. *)
Section Match.
Context {St : Type} (on_fill : Z → Z → Z → Pool → St → option (Pool * St)).

(** One iteration of the inner loop: the head of level [(s, px)] against [taker]. *)
Definition fill_one (taker : Z) (s : Side) (px : Z) (pool : Pool) (b : Book) (st : St) (filled : Z) :
    option (Pool * Book * St * Z) :=
  lvl ← level b s px;
  let maker := l_head lvl in
  mk ← at_ pool maker;
  tk ← at_ pool taker;
  let q := Z.min (o_qty tk) (o_qty mk) in
  pool ← upd pool maker (λ o, set_qty (u32 (o_qty o - q)) o);
  pool ← upd pool maker (λ o, set_filled (u32 (o_filled o + q)) o);
  pool ← upd pool taker (λ o, set_qty (u32 (o_qty o - q)) o);
  pool ← upd pool taker (λ o, set_filled (u32 (o_filled o + q)) o);
  b ← set_level b s px (set_lqty (u32 (l_qty lvl - q)) lvl);
  let filled := u32 (filled + q) in
  mk ← at_ pool maker;
  '(pool, b) ← (if o_qty mk =? 0 then unlink pool b s px maker else Some (pool, b));
  '(pool, st) ← on_fill maker px q pool st;
  Some (pool, b, st, filled).

Fixpoint match_level (fuel : nat) (taker : Z) (s : Side) (px : Z)
    (pool : Pool) (b : Book) (st : St) (filled : Z) : option (Pool * Book * St * Z) :=
  match fuel with
  | O => None
  | S fuel =>
      tk ← at_ pool taker;
      lvl ← level b s px;
      if (0 <? o_qty tk) && negb (l_head lvl =? kNull) then
        '(pool, b, st, filled) ← fill_one taker s px pool b st filled;
        match_level fuel taker s px pool b st filled
      else Some (pool, b, st, filled)
  end.

(** Iterations either loop can take: every iteration that goes on unlinks a maker. *)
Definition match_fuel (pool : Pool) : nat := S (S (length (slots_ pool))).

Fixpoint match_loop (fuel : nat) (taker : Z) (s : Side)
    (pool : Pool) (b : Book) (st : St) (filled : Z) : option (Pool * Book * St * Z) :=
  match fuel with
  | O => None
  | S fuel =>
      tk ← at_ pool taker;
      if negb (0 <? o_qty tk) then Some (pool, b, st, filled) else
      let px := best b s in
      if px =? kNoPrice then Some (pool, b, st, filled) else
      if bool_decide (o_type tk = Limit) && negb (crosses (o_side tk) (o_price tk) px)
      then Some (pool, b, st, filled) else
      '(pool, b, st, filled) ← match_level (match_fuel pool) taker s px pool b st filled;
      match_loop fuel taker s pool b st filled
  end.

Definition match_ (pool : Pool) (b : Book) (taker : Z) (st : St) : option (Pool * Book * St * Z) :=
  tk ← at_ pool taker;
  match_loop (match_fuel pool) taker (opposite (o_side tk)) pool b st 0.
End Match.

#[global] Arguments match_fuel : simpl never.
