(* ===== verification/Links.v ===== *)
(** The intrusive doubly-linked lists that [Book] threads through the order
    pool: a segment predicate over slots, the effect of the link writes, and
    the "only links changed" relation between pools that frames them. *)
From S2P Require Import Prelude Types Pool Book.

(** [dseg p a l n]: the slots [l] are linked in order, the first points back
    to [a], the last points on to [n]. *)
Fixpoint dseg (p : Pool) (a : Z) (l : list Z) (n : Z) : Prop :=
  match l with
  | [] => True
  | x :: l' =>
      (∃ o, at_ p x = Some o ∧ o_prev o = a ∧ o_next o = fst_or n l') ∧ dseg p x l' n
  end.

(** An order without its links. *)
Definition core (o : Order) : Order := set_prev kNull (set_next kNull o).

(** [p'] is [p] except for the links of the slots in [D]. *)
Record relinked (p p' : Pool) (D : list Z) : Prop := {
  rl_len : length (slots_ p') = length (slots_ p);
  rl_head : free_head_ p' = free_head_ p;
  rl_live : live_ p' = live_ p;
  rl_out : ∀ y, y ∉ D → at_ p' y = at_ p y;
  rl_core : ∀ y, core <$> at_ p' y = core <$> at_ p y }.

(** ** Segments *)
Lemma dseg_frame p p' a l n :
  (∀ y, y ∈ l → at_ p' y = at_ p y) → dseg p a l n → dseg p' a l n.
Proof.
  revert a. induction l as [|x l IH]; intros a; simpl; [done|].
  intros H [(o & ? & ?) ?]. split; [exists o; rewrite H by set_solver; done|].
  apply IH; [set_solver|done].
Qed.

Lemma dseg_app p a l1 l2 n :
  dseg p a (l1 ++ l2) n ↔ dseg p a l1 (fst_or n l2) ∧ dseg p (lst_or a l1) l2 n.
Proof.
  revert a. induction l1 as [|x l1 IH]; intros a; simpl; [tauto|].
  rewrite IH, fst_or_app. tauto.
Qed.

Lemma dseg_in p a l n x : dseg p a l n → x ∈ l → is_Some (at_ p x).
Proof.
  revert a. induction l as [|y l IH]; intros a; simpl; [by intros _ ?%not_elem_of_nil|].
  intros [(o & ? & _) ?] [->|?]%elem_of_cons; eauto.
Qed.

Lemma dseg_set_next p p' a l y n n' o :
  dseg p a (l ++ [y]) n → NoDup (l ++ [y]) → at_ p y = Some o →
  at_ p' y = Some (set_next n' o) → (∀ z, z ≠ y → at_ p' z = at_ p z) →
  dseg p' a (l ++ [y]) n'.
Proof.
  rewrite !dseg_app, NoDup_app. simpl. intros [H1 [(o' & E & Hp & _) _]] (_ & Hd & _) Eo Ey Hz.
  split.
  - eapply dseg_frame; [|done]. intros z Hin. apply Hz. set_solver.
  - split; [|done]. exists (set_next n' o). split_and!; [done| |done]. simpl. congruence.
Qed.

Lemma dseg_set_prev p p' a a' l y n o :
  dseg p a (y :: l) n → NoDup (y :: l) → at_ p y = Some o →
  at_ p' y = Some (set_prev a' o) → (∀ z, z ≠ y → at_ p' z = at_ p z) →
  dseg p' a' (y :: l) n.
Proof.
  rewrite NoDup_cons. simpl. intros [(o' & E & _ & Hn) H] (Hd & _) Eo Ey Hz.
  split.
  - exists (set_prev a' o). split_and!; [done|done|]. simpl. congruence.
  - eapply dseg_frame; [|done]. intros z Hin. apply Hz. set_solver.
Qed.

(** ** Relinking *)
Lemma relinked_refl p D : relinked p p D.
Proof. by split. Qed.

Lemma relinked_trans p1 p2 p3 D :
  relinked p1 p2 D → relinked p2 p3 D → relinked p1 p3 D.
Proof.
  intros H1 H2. split.
  - by rewrite (rl_len _ _ _ H2), (rl_len _ _ _ H1).
  - by rewrite (rl_head _ _ _ H2), (rl_head _ _ _ H1).
  - by rewrite (rl_live _ _ _ H2), (rl_live _ _ _ H1).
  - intros y Hy. by rewrite (rl_out _ _ _ H2), (rl_out _ _ _ H1).
  - intros y. by rewrite (rl_core _ _ _ H2), (rl_core _ _ _ H1).
Qed.

Lemma relinked_weaken p p' D D' : D ⊆ D' → relinked p p' D → relinked p p' D'.
Proof. intros HD H. split; try apply H. intros y Hy. apply H. set_solver. Qed.

Lemma relinked_at p p' D y o :
  relinked p p' D → at_ p y = Some o → ∃ o', at_ p' y = Some o' ∧ core o' = core o.
Proof.
  intros H E. pose proof (rl_core _ _ _ H y) as Hc. rewrite E in Hc. simpl in Hc.
  by apply fmap_Some in Hc as (o' & ? & ?); eauto.
Qed.

Lemma relinked_at_inv p p' D y o' :
  relinked p p' D → at_ p' y = Some o' → ∃ o, at_ p y = Some o ∧ core o' = core o.
Proof.
  intros H E. pose proof (rl_core _ _ _ H y) as Hc. rewrite E in Hc. simpl in Hc.
  symmetry in Hc. by apply fmap_Some in Hc as (o & ? & ?); eauto.
Qed.

(** A link write is a relinking. *)
Lemma upd_relinked p x o f D :
  at_ p x = Some o → x ∈ D → core (f o) = core o →
  ∃ p', upd p x f = Some p' ∧ relinked p p' D ∧ at_ p' x = Some (f o) ∧
    (∀ y, y ≠ x → at_ p' y = at_ p y).
Proof.
  intros E Hx Hc. destruct (upd_Some p x o f E) as (p' & Hp & Hpx & Hpy & ? & ? & ?).
  exists p'. split_and!; try done. split; try done.
  - intros y Hy. apply Hpy. set_solver.
  - intros y. destruct (decide (y = x)) as [->|]; [|by rewrite Hpy].
    rewrite Hpx, E. simpl. congruence.
Qed.

Lemma core_fields o o' :
  core o' = core o →
  o_id o' = o_id o ∧ o_tag o' = o_tag o ∧ o_session o' = o_session o ∧ o_symbol o' = o_symbol o ∧
  o_side o' = o_side o ∧ o_type o' = o_type o ∧ o_tif o' = o_tif o ∧ o_live o' = o_live o ∧
  o_price o' = o_price o ∧ o_qty o' = o_qty o ∧ o_filled o' = o_filled o ∧ o_gen o' = o_gen o.
Proof. destruct o, o'. unfold core. simpl. naive_solver. Qed.

(** The pool invariant only reads links of dead slots. *)
Lemma relinked_pool_ok p p' D fl :
  pool_ok p fl → relinked p p' D → (∀ x, x ∈ D → x ∉ fl) → pool_ok p' fl.
Proof.
  intros H R HD. split; rewrite ?(rl_len _ _ _ R), ?(rl_head _ _ _ R), ?(rl_live _ _ _ R); try apply H.
  - eapply free_chain_frame; [|apply H]. intros x Hx. apply R. set_solver.
  - intros x o' (o & E & C%core_fields)%(relinked_at_inv _ _ _ _ _ R) L.
    destruct C as (_&_&_&_&_&_&_& EL &_). eapply po_cover; eauto; congruence.
  - intros x o' (o & E & C%core_fields)%(relinked_at_inv _ _ _ _ _ R).
    pose proof (po_gen _ _ H _ _ E). destruct C as (_&_&_&_&_&_&_&_&_&_&_& ->). done.
  - intros x o' (o & E & C%core_fields)%(relinked_at_inv _ _ _ _ _ R) L.
    destruct C as (-> &_&_&_&_&_&_& EL &_&_&_& ->). eapply po_id; eauto; congruence.
Qed.

(** ** The two link helpers *)
Lemma link_next_ok p lvl l n v :
  Z.of_nat (length (slots_ p)) ≤ kNull → dseg p kNull l n → NoDup l →
  ∃ p' lvl', link_next p lvl (lst_or kNull l) v = Some (p', lvl') ∧
    dseg p' kNull l v ∧ relinked p p' l ∧
    l_head lvl' = match l with [] => v | _ => l_head lvl end ∧
    l_tail lvl' = l_tail lvl ∧ l_qty lvl' = l_qty lvl ∧ l_count lvl' = l_count lvl.
Proof.
  intros Hcap Hd Hnd. unfold link_next.
  destruct l as [|y l _] using rev_ind.
  { simpl. exists p, (set_head v lvl). split_and!; done. }
  rewrite lst_or_app. destruct (dseg_in _ _ _ _ y Hd) as [o Ho]; [set_solver|].
  pose proof (at_range _ _ _ Ho). destruct (Z.eqb_spec y kNull); [lia|]. simpl.
  destruct (upd_relinked p y o (set_next v) (l ++ [y]) Ho) as (p' & -> & R & Hy & Hz);
    [set_solver|done|].
  exists p', lvl. split; [done|]. split; [by eapply dseg_set_next|].
  split_and!; try done. by destruct l.
Qed.

Lemma link_prev_ok p lvl l a v :
  Z.of_nat (length (slots_ p)) ≤ kNull → dseg p a l kNull → NoDup l →
  ∃ p' lvl', link_prev p lvl (fst_or kNull l) v = Some (p', lvl') ∧
    dseg p' v l kNull ∧ relinked p p' l ∧
    l_tail lvl' = match l with [] => v | _ => l_tail lvl end ∧
    l_head lvl' = l_head lvl ∧ l_qty lvl' = l_qty lvl ∧ l_count lvl' = l_count lvl.
Proof.
  intros Hcap Hd Hnd. unfold link_prev. destruct l as [|y l]; simpl.
  { exists p, (set_tail v lvl). split_and!; done. }
  destruct (dseg_in _ _ _ _ y Hd) as [o Ho]; [set_solver|].
  pose proof (at_range _ _ _ Ho). destruct (Z.eqb_spec y kNull); [lia|]. simpl.
  destruct (upd_relinked p y o (set_prev v) (y :: l) Ho) as (p' & -> & R & Hy & Hz);
    [set_solver|done|].
  exists p', lvl. split; [done|]. split; [by eapply dseg_set_prev|done].
Qed.
