(* ===== verification/Queues.v ===== *)
(** The abstract contents of a book: for each side and price the queue of
    resting slots, and the price-time priority order obtained by reading the
    queues best price first. *)
From S2P Require Import Prelude Types.

(** [queues]: the FIFO of slots at each side and price. *)
Definition queues : Type := Side → Z → list Z.

Definition qupd (q : queues) (s : Side) (p : Z) (l : list Z) : queues :=
  λ s' p', if decide (s = s') then if decide (p = p') then l else q s' p' else q s' p'.

(** [better s a b]: on side [s], price [a] has strictly higher priority than [b]. *)
Definition better (s : Side) (a b : Z) : Prop :=
  match s with Buy => b < a | Sell => a < b end.

(** Prices [1..max], highest priority first. *)
Definition prices (s : Side) (max : Z) : list Z :=
  match s with Buy => reverse (seqZ 1 max) | Sell => seqZ 1 max end.

(** The side's resting slots in price-time priority. *)
Definition flat (max : Z) (q : queues) (s : Side) : list Z := concat (q s <$> prices s max).

Definition total (max : Z) (q : queues) : Z :=
  Z.of_nat (length (flat max q Buy)) + Z.of_nat (length (flat max q Sell)).

(** [r] is the best non-empty price of a side, [kNoPrice] when all are empty. *)
Definition is_best (s : Side) (f : Z → list Z) (r : Z) : Prop :=
  (r = kNoPrice ∧ ∀ p, f p = []) ∨
  (r ≠ kNoPrice ∧ f r ≠ [] ∧ ∀ p, f p ≠ [] → p = r ∨ better s r p).

(** Queues are compared pointwise. *)
#[export] Instance queues_equiv : Equiv queues := λ q q', ∀ s p, q s p = q' s p.
#[export] Instance queues_equivalence : Equivalence (≡@{queues}).
Proof.
  split.
  - intros q s p. done.
  - intros q q' H s p. symmetry. apply H.
  - intros q1 q2 q3 H1 H2 s p. etrans; [apply H1|apply H2].
Qed.

Lemma qupd_eq q s p l : qupd q s p l s p = l.
Proof. unfold qupd. by rewrite !decide_True. Qed.

Lemma qupd_ne_price q s p p' l : p ≠ p' → qupd q s p l s p' = q s p'.
Proof. intros. unfold qupd. by rewrite decide_True, decide_False. Qed.

Lemma qupd_ne_side q s s' p p' l : s ≠ s' → qupd q s p l s' p' = q s' p'.
Proof. intros. unfold qupd. by rewrite decide_False. Qed.

(** Either the read hits the updated queue, or it sees the old one. *)
Lemma qupd_cases q s p l s' p' :
  (s' = s ∧ p' = p ∧ qupd q s p l s' p' = l) ∨
  ((s', p') ≠ (s, p) ∧ qupd q s p l s' p' = q s' p').
Proof. unfold qupd. repeat case_decide; naive_solver. Qed.

Lemma qupd_same q s p : qupd q s p (q s p) ≡ q.
Proof.
  intros s' p'. destruct (qupd_cases q s p (q s p) s' p') as [(-> & -> & ->)|[_ ->]]; done.
Qed.

Lemma qupd_qupd q s p l l' : qupd (qupd q s p l) s p l' ≡ qupd q s p l'.
Proof. intros s' p'. unfold qupd. repeat case_decide; done. Qed.

(** ** Splitting the priority order at a price *)
Lemma prices_split s max p :
  1 ≤ p ≤ max →
  ∃ P1 P2, prices s max = P1 ++ p :: P2 ∧
    (∀ p', p' ∈ P1 → better s p' p) ∧ (∀ p', p' ∈ P2 → better s p p').
Proof.
  intros Hp.
  assert (seqZ 1 max = seqZ 1 (p - 1) ++ p :: seqZ (p + 1) (max - p)) as E.
  { replace max with ((p - 1) + (max - p + 1)) at 1 by lia.
    rewrite seqZ_app by lia. f_equal. rewrite seqZ_cons by lia. f_equal; [lia|f_equal; lia]. }
  destruct s; simpl; rewrite E.
  - exists (reverse (seqZ (p + 1) (max - p))), (reverse (seqZ 1 (p - 1))).
    rewrite reverse_app, reverse_cons, <- app_assoc. split_and!; [done|..];
      intros p'; rewrite elem_of_reverse, elem_of_seqZ; lia.
  - exists (seqZ 1 (p - 1)), (seqZ (p + 1) (max - p)). split_and!; [done|..];
      intros p'; rewrite elem_of_seqZ; lia.
Qed.

Lemma better_irrefl s p : ¬ better s p p.
Proof. destruct s; simpl; lia. Qed.

Lemma better_trans s a b c : better s a b → better s b c → better s a c.
Proof. destruct s; simpl; lia. Qed.

Lemma better_total s a b : a = b ∨ better s a b ∨ better s b a.
Proof. destruct s; simpl; lia. Qed.

Lemma concat_fmap_ext (f g : Z → list Z) P :
  (∀ p, p ∈ P → f p = g p) → concat (f <$> P) = concat (g <$> P).
Proof.
  induction P as [|p P IH]; intros H; [done|]. rewrite !fmap_cons. simpl.
  rewrite (H p) by set_solver. rewrite IH; [done|]. set_solver.
Qed.

Lemma elem_of_concat_fmap (f : Z → list Z) P x :
  x ∈ concat (f <$> P) ↔ ∃ p, p ∈ P ∧ x ∈ f p.
Proof.
  rewrite list_elem_of_In, in_concat. setoid_rewrite <- list_elem_of_In. split.
  - intros (l & Hl & Hx). apply list_elem_of_fmap in Hl as (p & -> & ?). eauto.
  - intros (p & Hp & Hx). exists (f p). split; [|done]. apply list_elem_of_fmap. eauto.
Qed.

(** The slots ahead of level [p], the level, the slots behind it. *)
Lemma flat_split max q s p :
  1 ≤ p ≤ max →
  ∃ pre post, flat max q s = pre ++ q s p ++ post ∧
    (∀ l, flat max (qupd q s p l) s = pre ++ l ++ post) ∧
    (∀ x, x ∈ pre → ∃ p', better s p' p ∧ 1 ≤ p' ≤ max ∧ x ∈ q s p') ∧
    (∀ x, x ∈ post → ∃ p', better s p p' ∧ 1 ≤ p' ≤ max ∧ x ∈ q s p').
Proof.
  intros Hp. destruct (prices_split s max p Hp) as (P1 & P2 & E & H1 & H2).
  assert (∀ p', p' ∈ P1 ++ p :: P2 → 1 ≤ p' ≤ max) as Hr.
  { intros p'. rewrite <- E. destruct s; simpl; rewrite ?elem_of_reverse, elem_of_seqZ; lia. }
  exists (concat (q s <$> P1)), (concat (q s <$> P2)).
  unfold flat. rewrite E, fmap_app, fmap_cons, concat_app. simpl. split_and!.
  - done.
  - intros l. rewrite fmap_app, fmap_cons, concat_app. simpl. rewrite qupd_eq. f_equal; [|f_equal].
    + apply concat_fmap_ext. intros p' Hp'. apply qupd_ne_price. intros ->.
      by eapply better_irrefl, H1.
    + apply concat_fmap_ext. intros p' Hp'. apply qupd_ne_price. intros ->.
      by eapply better_irrefl, H2.
  - intros x (p' & ? & ?)%elem_of_concat_fmap. exists p'. split_and!; auto; apply Hr; set_solver.
  - intros x (p' & ? & ?)%elem_of_concat_fmap. exists p'. split_and!; auto; apply Hr; set_solver.
Qed.

Lemma flat_ext max (q q' : queues) s : (∀ p, q s p = q' s p) → flat max q s = flat max q' s.
Proof. intros H. apply concat_fmap_ext. auto. Qed.

#[export] Instance flat_proper max : Proper ((≡) ==> (=) ==> (=)) (flat max).
Proof. intros q q' Hq s s' <-. apply flat_ext. intros p. apply Hq. Qed.

#[export] Instance total_proper max : Proper ((≡) ==> (=)) (total max).
Proof. intros q q' Hq. unfold total. by rewrite Hq. Qed.

Lemma flat_other max q s s' p l : s ≠ s' → flat max (qupd q s p l) s' = flat max q s'.
Proof. intros. apply flat_ext. intros. by apply qupd_ne_side. Qed.

Lemma elem_of_flat max q s x : x ∈ flat max q s ↔ ∃ p, 1 ≤ p ≤ max ∧ x ∈ q s p.
Proof.
  unfold flat. rewrite elem_of_concat_fmap.
  split; intros (p & Hp & Hx); exists p; (split; [|done]);
    destruct s; simpl in *; rewrite ?elem_of_reverse, elem_of_seqZ in *; lia.
Qed.

Lemma total_qupd max q s p l :
  1 ≤ p ≤ max →
  total max (qupd q s p l) = total max q - Z.of_nat (length (q s p)) + Z.of_nat (length l).
Proof.
  intros Hp. destruct (flat_split max q s p Hp) as (pre & post & E & El & _).
  assert (Z.of_nat (length (flat max (qupd q s p l) s)) =
    Z.of_nat (length (flat max q s)) - Z.of_nat (length (q s p)) + Z.of_nat (length l)).
  { rewrite El, E, !length_app. lia. }
  unfold total.
  destruct s; [rewrite (flat_other max q Buy Sell) by done|rewrite (flat_other max q Sell Buy) by done]; lia.
Qed.

(** With every better level empty, level [r] is a prefix of the priority order. *)
Lemma flat_front max q s r :
  (∀ p, better s p r → q s p = []) → 1 ≤ r ≤ max →
  ∃ post, flat max q s = q s r ++ post ∧
    (∀ l, flat max (qupd q s r l) s = l ++ post) ∧
    (∀ x, x ∈ post → ∃ p, better s r p ∧ 1 ≤ p ≤ max ∧ x ∈ q s p).
Proof.
  intros Hf Hr. destruct (flat_split max q s r Hr) as (pre & post & E & El & Hpre & Hpost).
  assert (pre = []) as ->.
  { destruct pre as [|x pre]; [done|]. destruct (Hpre x) as (p' & Hbt & _ & Hx); [set_solver|].
    rewrite Hf in Hx by done. set_solver. }
  eauto.
Qed.

Lemma is_best_front s f r : is_best s f r → r ≠ kNoPrice → ∀ p, better s p r → f p = [].
Proof.
  intros [[-> _]|(_ & _ & Hb)] Hn p Hp; [done|].
  destruct (f p) eqn:E; [done|]. destruct (Hb p) as [->|Hb']; [by rewrite E|..].
  - by apply better_irrefl in Hp.
  - pose proof (better_trans _ _ _ _ Hp Hb') as []%better_irrefl.
Qed.

Lemma flat_nil max q s : (∀ p, q s p = []) → flat max q s = [].
Proof.
  intros H. destruct (flat max q s) as [|x l] eqn:E; [done|].
  assert (x ∈ flat max q s) as (p & _ & Hx)%elem_of_flat by (rewrite E; set_solver).
  rewrite H in Hx. set_solver.
Qed.
