(* ===== verification/BookInv.v ===== *)
(** The representation invariant of [Book] and what each operation does to
    it: a level record describes its linked queue, the bitmap marks exactly
    the non-empty prices, [best_] is the best of them and [resting_] counts
    the orders. *)
From S2P Require Import Prelude Types Pool Bitmap Book Links Queues.

(** An order resting at side [s] and price [p] of symbol [sym]. *)
Record rests (sym : Z) (s : Side) (p : Z) (o : Order) : Prop := {
  rs_live : o_live o = true;
  rs_symbol : o_symbol o = sym;
  rs_side : o_side o = s;
  rs_price : o_price o = p;
  rs_type : o_type o = Limit;
  rs_tif : o_tif o = GTC;
  rs_qty : 0 ≤ o_qty o < 2 ^ 32 }.

Definition qty_of (pool : Pool) (x : Z) : Z :=
  match at_ pool x with Some o => o_qty o | None => 0 end.

(** The level record [lvl] describes the queue [l]. *)
Record level_ok (pool : Pool) (sym : Z) (s : Side) (p : Z) (lvl : Level) (l : list Z) : Prop := {
  lk_head : l_head lvl = fst_or kNull l;
  lk_tail : l_tail lvl = lst_or kNull l;
  lk_count : l_count lvl = Z.of_nat (length l);
  lk_qty : l_qty lvl = u32 (zsum (qty_of pool <$> l));
  lk_nodup : NoDup l;
  lk_dseg : dseg pool kNull l kNull;
  lk_rests : ∀ x, x ∈ l → ∃ o, at_ pool x = Some o ∧ rests sym s p o }.

(** The flat level arrays describe the queues [q]. *)
Record levels_ok (pool : Pool) (b : Book) (sym : Z) (q : queues) : Prop := {
  lo_max : 0 ≤ max_price_ b;
  lo_len : ∀ s, Z.of_nat (length (sget s (levels_ b))) = max_price_ b + 1;
  lo_level : ∀ s p, 0 ≤ p ≤ max_price_ b →
    ∃ lvl, level b s p = Some lvl ∧ level_ok pool sym s p lvl (q s p);
  lo_dom : ∀ s p, q s p ≠ [] → 1 ≤ p ≤ max_price_ b }.

(** Bitmap, best prices and resting count agree with the queues [q]. *)
Record index_ok (b : Book) (q : queues) : Prop := {
  ix_bits : ∀ s, bits_ok (max_price_ b) (sget s (bits_ b));
  ix_bit : ∀ s p, 0 ≤ p → bit (sget s (bits_ b)) p = true ↔ q s p ≠ [];
  ix_best : ∀ s, is_best s (q s) (sget s (best_ b));
  ix_resting : resting_ b = u64 (total (max_price_ b) q) }.

Record book_ok (pool : Pool) (b : Book) (sym : Z) (q : queues) : Prop := {
  bk_levels : levels_ok pool b sym q;
  bk_index : index_ok b q }.

#[export] Instance book_ok_proper pool b sym : Proper ((≡) ==> iff) (book_ok pool b sym).
Proof.
  assert (∀ q q' : queues, q ≡ q' → book_ok pool b sym q → book_ok pool b sym q') as H.
  { intros q q' Hq [[] []]. split; split; try done.
    - intros s p Hp. rewrite <- (Hq s p). by apply lo_level0.
    - intros s p. rewrite <- (Hq s p). apply lo_dom0.
    - intros s p Hp. rewrite <- (Hq s p). by apply ix_bit0.
    - intros s. destruct (ix_best0 s) as [[? Hn]|(? & ? & Hn)]; [left|right].
      + split; [done|]. intros p. rewrite <- (Hq s p). apply Hn.
      + split_and!; [done|by rewrite <- (Hq s _)|]. intros p. rewrite <- (Hq s p). apply Hn.
    - by rewrite <- Hq. }
  intros q q' Hq. split; apply H; [done|by symmetry].
Qed.

(** ** Frames *)
Lemma rests_core sym s p o o' : core o' = core o → rests sym s p o → rests sym s p o'.
Proof.
  intros (?&?&?&?&?&?&?&?&?&?&?&?)%core_fields []. split; congruence || (rewrite ?H8; done).
Qed.

Lemma qty_of_at pool x o : at_ pool x = Some o → qty_of pool x = o_qty o.
Proof. intros E. unfold qty_of. by rewrite E. Qed.

Lemma qty_of_relinked p p' D x : relinked p p' D → qty_of p' x = qty_of p x.
Proof.
  intros R. unfold qty_of. destruct (at_ p x) as [o|] eqn:E.
  - destruct (relinked_at _ _ _ _ _ R E) as (o' & -> & C%core_fields). by destruct_and!.
  - pose proof (rl_core _ _ _ R x) as Hc. rewrite E in Hc. simpl in Hc.
    by destruct (at_ p' x).
Qed.

Lemma level_ok_frame pool pool' sym s p lvl l :
  (∀ y, y ∈ l → at_ pool' y = at_ pool y) →
  level_ok pool sym s p lvl l → level_ok pool' sym s p lvl l.
Proof.
  intros Hf []. split; try done.
  - rewrite lk_qty0. do 2 f_equal. apply list_fmap_ext. intros i y Hy. unfold qty_of.
    rewrite Hf; [done|]. by eapply list_elem_of_lookup_2.
  - by eapply dseg_frame.
  - intros x Hx. rewrite Hf by done. auto.
Qed.

Lemma book_ok_frame pool pool' b sym q :
  (∀ s p y, y ∈ q s p → at_ pool' y = at_ pool y) →
  book_ok pool b sym q → book_ok pool' b sym q.
Proof.
  intros Hf [[] ?]. split; [|done]. split; try done.
  intros s p Hp. destruct (lo_level0 s p Hp) as (lvl & ? & ?).
  exists lvl. split; [done|]. eapply level_ok_frame; [|done]. intros. by eapply Hf.
Qed.

(** A queued slot holds an order of that side and price. *)
Lemma queued pool b sym q s p x :
  book_ok pool b sym q → x ∈ q s p →
  1 ≤ p ≤ max_price_ b ∧ ∃ o, at_ pool x = Some o ∧ rests sym s p o.
Proof.
  intros [HL _] Hx. assert (1 ≤ p ≤ max_price_ b) as Hp.
  { apply (lo_dom _ _ _ _ HL s). intros E. rewrite E in Hx. set_solver. }
  split; [done|]. destruct (lo_level _ _ _ _ HL s p) as (lvl & _ & Hl); [lia|].
  by eapply lk_rests.
Qed.

(** A slot is queued in one place only. *)
Lemma queued_unique pool b sym q s p s' p' x :
  book_ok pool b sym q → x ∈ q s p → x ∈ q s' p' → s' = s ∧ p' = p.
Proof.
  intros H Hx Hx'. destruct (queued _ _ _ _ _ _ _ H Hx) as (_ & o & E & []).
  destruct (queued _ _ _ _ _ _ _ H Hx') as (_ & o' & E' & []).
  rewrite E in E'. inv_some. done.
Qed.

(** Replace one level's record and queue; the others are framed. *)
Lemma levels_ok_update pool pool' b b1 sym q s p lvl l :
  levels_ok pool b sym q → 1 ≤ p ≤ max_price_ b →
  set_level b s p lvl = Some b1 → level_ok pool' sym s p lvl l →
  (∀ s' p' y, (s', p') ≠ (s, p) → y ∈ q s' p' → at_ pool' y = at_ pool y) →
  levels_ok pool' b1 sym (qupd q s p l).
Proof.
  intros HL Hp Hs Hl Hf. unfold set_level in Hs. inv_bind Hs. inv_some.
  destruct HL. split; simpl; try done.
  - intros s'. rewrite sget_sset. case_decide; subst; [|done].
    by rewrite (vset_length _ _ _ _ E).
  - intros s' p' Hp'. unfold level. simpl.
    destruct (qupd_cases q s p l s' p') as [(-> & -> & ->)|[Hne ->]].
    + exists lvl. rewrite sget_sset_eq, (vget_vset_eq _ _ _ _ E). done.
    + destruct (lo_level0 s' p' Hp') as (lvl' & Hlv & Hok). exists lvl'. split.
      * rewrite sget_sset. case_decide; subst; [|done].
        rewrite (vget_vset_ne _ _ _ _ _ E); [done|]. naive_solver.
      * eapply level_ok_frame; [|done]. intros y Hy. by eapply Hf.
  - intros s' p'. destruct (qupd_cases q s p l s' p') as [(-> & -> & ->)|[Hne ->]]; [done|apply lo_dom0].
Qed.

Lemma set_level_Some pool b sym q s p lvl :
  levels_ok pool b sym q → 0 ≤ p ≤ max_price_ b →
  ∃ b1, set_level b s p lvl = Some b1 ∧ max_price_ b1 = max_price_ b ∧
    resting_ b1 = resting_ b ∧ bits_ b1 = bits_ b ∧ best_ b1 = best_ b.
Proof.
  intros HL Hp. unfold set_level.
  destruct (vset_is_Some (sget s (levels_ b)) p lvl) as [lv ->];
    [rewrite (lo_len _ _ _ _ HL); lia|].
  simpl. eexists. done.
Qed.

Lemma index_ok_levels b b1 q :
  max_price_ b1 = max_price_ b → resting_ b1 = resting_ b → bits_ b1 = bits_ b →
  best_ b1 = best_ b → index_ok b q → index_ok b1 q.
Proof. intros E1 E2 E3 E4 []. split; rewrite ?E1, ?E2, ?E3, ?E4; done. Qed.

(** ** The index under a queue change *)

(** The level stays non-empty: bitmap and best price stay as they are. *)
Lemma index_ok_busy b q s p l d :
  index_ok b q → 1 ≤ p ≤ max_price_ b → q s p ≠ [] → l ≠ [] →
  Z.of_nat (length l) = Z.of_nat (length (q s p)) + d →
  index_ok (set_resting (u64 (resting_ b + d)) b) (qupd q s p l).
Proof.
  intros [] Hp Hq Hl Hd. split; simpl; try done.
  - intros s' p' Hp'. rewrite ix_bit0 by done.
    destruct (qupd_cases q s p l s' p') as [(-> & -> & ->)|[_ ->]]; tauto.
  - intros s'. specialize (ix_best0 s'). destruct ix_best0 as [[Hr Hn]|(Hr & Hn & Hb)].
    + left. split; [done|]. intros p'.
      destruct (qupd_cases q s p l s' p') as [(-> & -> & ->)|[_ ->]]; [|done].
      by rewrite Hn in Hq.
    + right. split_and!; [done|..].
      * destruct (qupd_cases q s p l s' (sget s' (best_ b))) as [(-> & -> & ->)|[_ ->]]; done.
      * intros p' Hp'. apply Hb. intros E. apply Hp'.
        destruct (qupd_cases q s p l s' p') as [(-> & -> & ->)|[_ ->]]; [congruence|done].
  - rewrite ix_resting0, total_qupd by done. unfold u64. rewrite Zplus_mod_idemp_l.
    f_equal. lia.
Qed.

(** One side's queue, bitmap and best price change together. *)
Lemma index_ok_change b b2 q s p l bt d :
  index_ok b q → 1 ≤ p ≤ max_price_ b →
  Z.of_nat (length l) = Z.of_nat (length (q s p)) + d →
  bits_ok (max_price_ b) bt →
  (∀ p', 0 ≤ p' → bit bt p' = true ↔ qupd q s p l s p' ≠ []) →
  max_price_ b2 = max_price_ b → bits_ b2 = sset s bt (bits_ b) →
  resting_ b2 = u64 (resting_ b + d) →
  (∀ s', s' ≠ s → sget s' (best_ b2) = sget s' (best_ b)) →
  is_best s (qupd q s p l s) (sget s (best_ b2)) →
  index_ok b2 (qupd q s p l).
Proof.
  intros [] Hp Hd Hbt Hbit E1 E2 E3 E4 Hb. split; rewrite ?E1, ?E2, ?E3.
  - intros s'. rewrite sget_sset. case_decide; subst; done.
  - intros s' p' Hp'. rewrite sget_sset. case_decide; subst; [by apply Hbit|].
    rewrite qupd_ne_side by done. by apply ix_bit0.
  - intros s'. destruct (decide (s' = s)) as [->|Hs]; [done|]. rewrite E4 by done.
    specialize (ix_best0 s').
    destruct ix_best0 as [[? Hn]|(? & ? & Hn)]; [left|right]; split_and!; try done;
      intros; rewrite ?qupd_ne_side in * by done; auto.
  - rewrite ix_resting0, total_qupd by done. unfold u64. rewrite Zplus_mod_idemp_l.
    f_equal. lia.
Qed.

(** The first order of an empty level. *)
Lemma index_ok_first b q s p l bt :
  index_ok b q → 1 ≤ p ≤ max_price_ b → q s p = [] → length l = 1%nat →
  bits_ok (max_price_ b) bt → bit bt p = true →
  (∀ p', 0 ≤ p' → p' ≠ p → bit bt p' = bit (sget s (bits_ b)) p') →
  let b1 := set_bits s bt (set_resting (u64 (resting_ b + 1)) b) in
  let better := match s with Buy => best b1 s <? p | Sell => p <? best b1 s end in
  index_ok (if (best b1 s =? kNoPrice) || better then set_best s p b1 else b1) (qupd q s p l).
Proof.
  intros HI Hp Hq Hl Hbt Hbp Hbo b1 better.
  assert (l ≠ []) as Hne by (by destruct l).
  assert (∀ p', 0 ≤ p' → bit bt p' = true ↔ qupd q s p l s p' ≠ []) as Hbit.
  { intros p' Hp'. destruct (qupd_cases q s p l s p') as [(_ & -> & ->)|[Hn ->]]; [tauto|].
    rewrite <- (ix_bit _ _ HI) by done. rewrite Hbo; [done..|naive_solver]. }
  assert (∀ p', p' ≠ p → qupd q s p l s p' = q s p') as Hoth by (intros; by apply qupd_ne_price).
  pose proof (ix_best _ _ HI s) as Hb. unfold best in *. simpl in *.
  destruct ((sget s (best_ b) =? kNoPrice) || better) eqn:Hc;
    apply (index_ok_change b _ q s p l bt 1); try done; simpl; try (rewrite Hq, Hl; simpl; lia).
  - intros s' Hs. by rewrite sget_sset_ne.
  - rewrite sget_sset_eq. right. split_and!; [unfold kNoPrice; lia|by rewrite qupd_eq|].
    intros p' Hp'. destruct (decide (p' = p)) as [->|Hn]; [by left|]. right.
    rewrite Hoth in Hp' by done. destruct Hb as [[? Hb]|(Hr & _ & Hb)]; [by rewrite Hb in Hp'|].
    apply orb_true_iff in Hc as [Hc%Z.eqb_eq|Hc]; [done|].
    destruct (Hb p' Hp') as [->|Hb']; destruct s; simpl in *; subst better; lia.
  - apply orb_false_iff in Hc as [Hc1%Z.eqb_neq Hc2].
    destruct Hb as [[? Hb]|(Hr & Hn & Hb)]; [done|].
    assert (sget s (best_ b) ≠ p) as Hbp' by (intros E; by rewrite E in Hn).
    right. split_and!; [done|by rewrite Hoth|]. intros p' Hp'.
    destruct (decide (p' = p)) as [->|]; [|rewrite Hoth in Hp' by done; by apply Hb].
    right. destruct s; simpl in *; subst better; lia.
Qed.

(** Re-scanning after the best level [p] emptied. *)
Lemma rescan_up max bits (f : Z → list Z) p r :
  lowest_from max bits (p + 1) r → 1 ≤ p → (∀ p', 0 ≤ p' → bit bits p' = true ↔ f p' ≠ []) →
  (∀ p', f p' ≠ [] → p < p') → is_best Sell f r.
Proof.
  intros Hl Hp Hbit Hlt. destruct Hl as [[-> Hn]|(Hr & Hb & Hn)].
  - left. split; [done|]. intros p'. destruct (f p') eqn:E; [done|].
    assert (f p' ≠ []) as Hf by (by rewrite E). pose proof (Hlt _ Hf).
    apply Hbit in Hf; [|lia]. rewrite Hn in Hf; [done|lia].
  - right. split_and!; [unfold kNoPrice; lia|apply Hbit; [lia|done]|].
    intros p' Hf. pose proof (Hlt _ Hf). apply Hbit in Hf; [|lia].
    destruct (decide (p' < r)); [by rewrite Hn in Hf by lia|]. simpl. lia.
Qed.

Lemma rescan_down max bits (f : Z → list Z) p r :
  (p - 1 < 1 ∧ r = kNoPrice ∨ 1 ≤ p - 1 ∧ highest_to max bits (p - 1) r) →
  (∀ p', 0 ≤ p' → bit bits p' = true ↔ f p' ≠ []) →
  (∀ p', f p' ≠ [] → 1 ≤ p' < p) → is_best Buy f r.
Proof.
  intros Hl Hbit Hlt.
  assert ((∀ p', 1 ≤ p' < p → bit bits p' = false) → is_best Buy f kNoPrice) as Hnone.
  { intros Hn. left. split; [done|]. intros p'. destruct (f p') eqn:E; [done|].
    assert (f p' ≠ []) as Hf by (by rewrite E). pose proof (Hlt _ Hf).
    apply Hbit in Hf; [|lia]. by rewrite Hn in Hf. }
  destruct Hl as [[? ->]|[? [[-> Hn]|(Hr & Hr' & Hb & Hn)]]].
  - apply Hnone. lia.
  - apply Hnone. intros. apply Hn. lia.
  - right. split_and!; [unfold kNoPrice; lia|apply Hbit; [lia|done]|].
    intros p' Hf. pose proof (Hlt _ Hf). apply Hbit in Hf; [|lia].
    destruct (decide (r < p')); [by rewrite Hn in Hf by lia|]. simpl. lia.
Qed.

(** The last order of a level leaves: [level_emptied]. *)
Lemma index_ok_emptied b q s p :
  index_ok b q → (∀ s p, q s p ≠ [] → 1 ≤ p ≤ max_price_ b) → length (q s p) = 1%nat →
  ∃ b1, level_emptied (set_resting (u64 (resting_ b - 1)) b) s p = Some b1 ∧
    index_ok b1 (qupd q s p []) ∧ max_price_ b1 = max_price_ b ∧ levels_ b1 = levels_ b.
Proof.
  intros HI Hdom Hq. assert (q s p ≠ []) as Hne by (by destruct (q s p)).
  pose proof (Hdom s p Hne) as Hp.
  destruct (clear_bit_ok (max_price_ b) (sget s (bits_ b)) p) as (bt & Hbt & Hok & Hbp & Hbo);
    [apply HI|lia|].
  assert (∀ p', 0 ≤ p' → bit bt p' = true ↔ qupd q s p [] s p' ≠ []) as Hbit.
  { intros p' Hp'. destruct (qupd_cases q s p [] s p') as [(_ & -> & ->)|[Hn ->]].
    - rewrite Hbp. naive_solver.
    - rewrite Hbo, (ix_bit _ _ HI) by naive_solver. done. }
  assert (Z.of_nat (length (@nil Z)) = Z.of_nat (length (q s p)) + -1) as Hd by (rewrite Hq; done).
  unfold level_emptied. simpl. rewrite Hbt. simpl. unfold best. simpl. rewrite sget_sset_eq.
  pose proof (ix_best _ _ HI s) as Hbest. destruct Hbest as [[? Hn]|(Hr & Hrq & Hb)]; [by rewrite Hn in Hne|].
  destruct (Z.eqb_spec (sget s (best_ b)) p) as [E|E].
  - assert (∀ p', qupd q s p [] s p' ≠ [] → 1 ≤ p' ≤ max_price_ b ∧ better s p p') as Hrest.
    { intros p'. destruct (qupd_cases q s p [] s p') as [(_ & -> & ->)|[Hn ->]]; [done|].
      intros Hf. split; [by apply (Hdom s)|]. rewrite E in Hb. destruct (Hb p' Hf); naive_solver. }
    assert (∃ r, match s with Buy => scan_down bt (p - 1) | Sell => scan_up (max_price_ b) bt (p + 1) end
      = Some r ∧ is_best s (qupd q s p [] s) r) as (r & -> & Hbr).
    { destruct s.
      - destruct (scan_down_ok (max_price_ b) bt (p - 1)) as (r & -> & Hr'); [done|lia|].
        exists r. split; [done|]. eapply rescan_down; [done..|].
        intros p' Hf. specialize (Hrest p' Hf). simpl in Hrest. lia.
      - destruct (scan_up_ok (max_price_ b) bt (p + 1)) as (r & -> & Hr'); [done|lia|].
        exists r. split; [done|]. eapply rescan_up; [done|lia|done|].
        intros p' Hf. specialize (Hrest p' Hf). simpl in Hrest. lia. }
    simpl. eexists. split; [done|]. split_and!; try done.
    apply (index_ok_change b _ q s p [] bt (-1)); try done.
    + intros s' Hs. simpl. by rewrite sget_sset_ne.
    + simpl. by rewrite sget_sset_eq.
  - eexists. split; [done|]. split_and!; try done.
    apply (index_ok_change b _ q s p [] bt (-1)); try done. simpl.
    right. split_and!; [done|by rewrite qupd_ne_price|].
    intros p'. destruct (qupd_cases q s p [] s p') as [(_ & -> & ->)|[Hn ->]]; [done|auto].
Qed.
