(* ===== verification/BookOps.v ===== *)
(** [Book]'s mutating operations keep the representation invariant and change
    the abstract queues as intended: [insert] appends to a queue, [unlink] /
    [remove] delete from one, [reduce] and a partial fill keep it in place. *)
From S2P Require Import Prelude Types Pool Bitmap Book Links Queues BookInv.

(** The pool is small enough for slot numbers to differ from [kNull]. *)
Abbreviation fits pool := (Z.of_nat (length (slots_ pool)) ≤ kNull).

Lemma dseg_valid pool l a n x : dseg pool a l n → x ∈ l → 0 ≤ x < Z.of_nat (length (slots_ pool)).
Proof. intros H Hx. destruct (dseg_in _ _ _ _ _ H Hx) as [o ?]. by eapply at_range. Qed.

Lemma queue_length pool sym s p lvl l :
  level_ok pool sym s p lvl l → Z.of_nat (length l) ≤ Z.of_nat (length (slots_ pool)).
Proof.
  intros []. apply slots_length; [done|]. intros x. by eapply dseg_valid.
Qed.

Lemma qsum_relinked p p' D (l : list Z) : relinked p p' D → qty_of p' <$> l = qty_of p <$> l.
Proof. intros R. apply list_fmap_ext. intros. by eapply qty_of_relinked. Qed.

Lemma rests_relinked p p' D sym s px (l : list Z) :
  relinked p p' D → (∀ x, x ∈ l → ∃ o, at_ p x = Some o ∧ rests sym s px o) →
  ∀ x, x ∈ l → ∃ o, at_ p' x = Some o ∧ rests sym s px o.
Proof.
  intros R H x Hx. destruct (H x Hx) as (o & E & Hr).
  destruct (relinked_at _ _ _ _ _ R E) as (o' & ? & ?). eauto using rests_core.
Qed.

(** ** Unlinking *)

(** The link writes of [unlink], on the level alone. *)
Lemma unlink_level pool sym s p lvl l1 x l2 ord :
  fits pool → level_ok pool sym s p lvl (l1 ++ x :: l2) → at_ pool x = Some ord →
  ∃ pool1 lvl1 pool2 lvl2 pool3 pool4,
    link_next pool lvl (o_prev ord) (o_next ord) = Some (pool1, lvl1) ∧
    link_prev pool1 lvl1 (o_next ord) (o_prev ord) = Some (pool2, lvl2) ∧
    upd pool2 x (set_next kNull) = Some pool3 ∧
    upd pool3 x (set_prev kNull) = Some pool4 ∧
    at_ pool4 x = Some (core ord) ∧
    relinked pool pool4 (l1 ++ x :: l2) ∧
    level_ok pool4 sym s p
      (set_count (u32 (l_count lvl2 - 1)) (set_lqty (u32 (l_qty lvl2 - o_qty ord)) lvl2)) (l1 ++ l2).
Proof.
  intros Hcap Hl Ex. pose proof (queue_length _ _ _ _ _ _ Hl) as Hlen.
  destruct Hl as [Hh Ht Hc Hq Hnd Hd Hr].
  apply dseg_app in Hd as [Hd1 [(o & E & Hp & Hn) Hd2]]. rewrite Ex in E. inv_some. simpl in Hd1.
  apply NoDup_app in Hnd as (Hnd1 & Hdisj & [Hx2 Hnd2]%NoDup_cons).
  assert (x ∉ l1) as Hx1 by (intros Hin; apply (Hdisj x Hin); set_solver).
  rewrite Hp, Hn.
  destruct (link_next_ok pool lvl l1 x (fst_or kNull l2)) as
    (pool1 & lvl1 & EL1 & Hs1 & R1 & Hh1 & Ht1 & Hq1 & Hc1); [done..|].
  assert (dseg pool1 x l2 kNull) as Hd2'.
  { eapply dseg_frame; [|done]. intros y Hy. apply R1. intros ?. apply (Hdisj y); set_solver. }
  destruct (link_prev_ok pool1 lvl1 l2 x (lst_or kNull l1)) as
    (pool2 & lvl2 & EL2 & Hs2 & R2 & Ht2 & Hh2 & Hq2 & Hc2); [by rewrite (rl_len _ _ _ R1)|done..|].
  assert (at_ pool2 x = Some o) as Ex2 by (by rewrite (rl_out _ _ _ R2), (rl_out _ _ _ R1)).
  destruct (upd_relinked pool2 x o (set_next kNull) [x] Ex2) as (pool3 & EU3 & R3 & Ex3 & Hy3);
    [set_solver|done|].
  destruct (upd_relinked pool3 x _ (set_prev kNull) [x] Ex3) as (pool4 & EU4 & R4 & Ex4 & Hy4);
    [set_solver|done|].
  assert (relinked pool pool4 (l1 ++ x :: l2)) as R.
  { eapply relinked_trans; [eapply relinked_weaken, R1; set_solver|].
    eapply relinked_trans; [eapply relinked_weaken, R2; set_solver|].
    eapply relinked_trans; [eapply relinked_weaken, R3|eapply relinked_weaken, R4]; set_solver. }
  assert (∀ y, y ≠ x → at_ pool4 y = at_ pool2 y) as Hy by (intros; by rewrite Hy4, Hy3).
  exists pool1, lvl1, pool2, lvl2, pool3, pool4. split_and!; try done.
  rewrite length_app in Hc, Hlen. simpl in Hc, Hlen. unfold kNull in *. split; simpl.
  - rewrite Hh2, Hh1, Hh, fst_or_app. destruct l1; done.
  - rewrite Ht2, Ht1, Ht. destruct l2 as [|y l2]; [by rewrite app_nil_r|].
    by rewrite !lst_or_app_cons.
  - rewrite Hc2, Hc1, Hc, length_app, u32_small; lia.
  - rewrite Hq2, Hq1, Hq, (qsum_relinked _ _ _ _ R), !fmap_app, !zsum_app, fmap_cons, zsum_cons.
    autorewrite with words. rewrite (qty_of_at _ _ _ Ex). f_equal. lia.
  - apply NoDup_app. split_and!; [done| |done]. intros y Hy1 Hy2. apply (Hdisj y Hy1). set_solver.
  - apply dseg_app. split.
    + eapply dseg_frame; [|eapply (dseg_frame pool1 pool2); [|exact Hs1]].
      * intros y Hy'. apply Hy. set_solver.
      * intros y Hy'. apply R2. intros ?. apply (Hdisj y); set_solver.
    + eapply dseg_frame; [|exact Hs2]. intros y Hy'. apply Hy. set_solver.
  - eapply rests_relinked; [done|]. intros y Hy'. apply Hr. set_solver.
Qed.

Lemma unlink_ok pool b sym q s p l1 x l2 ord :
  fits pool → book_ok pool b sym q → q s p = l1 ++ x :: l2 → at_ pool x = Some ord →
  ∃ pool' b', unlink pool b s p x = Some (pool', b') ∧
    book_ok pool' b' sym (qupd q s p (l1 ++ l2)) ∧ max_price_ b' = max_price_ b ∧
    relinked pool pool' (q s p) ∧ at_ pool' x = Some (core ord).
Proof.
  intros Hcap HB Eq Ex. assert (x ∈ q s p) as Hx by (rewrite Eq; set_solver).
  destruct (queued _ _ _ _ _ _ _ HB Hx) as (Hp & o & E & Hrs). rewrite Ex in E. inv_some.
  destruct HB as [HL HI]. destruct (lo_level _ _ _ _ HL s p) as (lvl & Elvl & Hl); [lia|].
  rewrite Eq in Hl.
  destruct (unlink_level _ _ _ _ _ _ _ _ _ Hcap Hl Ex) as
    (pool1 & lvl1 & pool2 & lvl2 & pool3 & pool4 & E1 & E2 & E3 & E4 & Hx4 & R & Hl').
  unfold unlink. rewrite Ex, Elvl. simpl. rewrite E1. simpl. rewrite E2. simpl.
  set (lvl' := set_count _ _) in *.
  destruct (set_level_Some pool b sym q s p lvl') as (b1 & Eb & Em & Er & Ebt & Ebs); [done|lia|].
  rewrite Eb. simpl. rewrite E3. simpl. rewrite E4. simpl.
  assert (levels_ok pool4 b1 sym (qupd q s p (l1 ++ l2))) as HL'.
  { eapply levels_ok_update; try done. intros s' p' y Hne Hy. apply R.
    rewrite <- Eq. intros Hy'. apply Hne.
    by destruct (queued_unique pool b sym q s p s' p' y) as [-> ->]. }
  pose proof (index_ok_levels b b1 q Em Er Ebt Ebs HI) as HI1.
  pose proof (lk_count _ _ _ _ _ _ Hl') as Hcnt. simpl in Hcnt. rewrite Hcnt, (rs_side _ _ _ _ Hrs), (rs_price _ _ _ _ Hrs).
  rewrite Eq in *. destruct (Z.eqb_spec (Z.of_nat (length (l1 ++ l2))) 0) as [Hz|Hz].
  - assert (l1 ++ l2 = []) as Hnil by (apply nil_length_inv; lia).
    destruct (index_ok_emptied b1 q s p) as (b2 & Eb2 & HI2 & Em2 & El2); [done|..].
    { intros s' p'. rewrite Em. apply HL. }
    { apply app_eq_nil in Hnil as [-> ->]. by rewrite Eq. }
    rewrite Eb2. simpl. eexists _, _. split; [done|]. rewrite Hnil in *. split_and!; try done; [|congruence].
    split; [|done]. destruct HL'. split; rewrite ?El2, ?Em2; try done.
    unfold level. by rewrite El2.
  - eexists _, _. split; [done|]. split_and!; try done. split; [by destruct HL'; split|].
    rewrite <- Em in Hp. apply (index_ok_busy b1 q s p (l1 ++ l2) (-1)); try done.
    + rewrite Eq. by destruct l1.
    + intros Hn. by rewrite Hn in Hz.
    + rewrite Eq, !length_app. simpl. lia.
Qed.

(** ** Appending *)

(** The link writes of [insert], on the level alone. *)
Lemma insert_level pool sym s p lvl l x ord :
  fits pool → level_ok pool sym s p lvl l → at_ pool x = Some ord → x ∉ l →
  rests sym s p ord → Z.of_nat (length l) < Z.of_nat (length (slots_ pool)) →
  ∃ pool1 pool2 pool3 lvl3,
    upd pool x (set_prev (l_tail lvl)) = Some pool1 ∧
    upd pool1 x (set_next kNull) = Some pool2 ∧
    link_next pool2 lvl (l_tail lvl) x = Some (pool3, lvl3) ∧
    relinked pool pool3 (x :: l) ∧
    level_ok pool3 sym s p
      (set_count (u32 (l_count lvl3 + 1)) (set_lqty (u32 (l_qty lvl3 + o_qty ord)) (set_tail x lvl3)))
      (l ++ [x]).
Proof.
  intros Hcap [Hh Ht Hc Hq Hnd Hd Hr] Ex Hx Hrs Hlen.
  destruct (upd_relinked pool x ord (set_prev (l_tail lvl)) [x] Ex) as (pool1 & E1 & R1 & Ex1 & Hy1);
    [set_solver|done|].
  destruct (upd_relinked pool1 x _ (set_next kNull) [x] Ex1) as (pool2 & E2 & R2 & Ex2 & Hy2);
    [set_solver|done|].
  assert (dseg pool2 kNull l kNull) as Hd2.
  { eapply dseg_frame; [|done]. intros y Hy. rewrite Hy2, Hy1; [done|set_solver..]. }
  destruct (link_next_ok pool2 lvl l kNull x) as
    (pool3 & lvl3 & E3 & Hs & R3 & Hh3 & Ht3 & Hq3 & Hc3); try done.
  { by rewrite (rl_len _ _ _ R2), (rl_len _ _ _ R1). }
  assert (relinked pool pool3 (x :: l)) as R.
  { eapply relinked_trans; [eapply relinked_weaken, R1; set_solver|].
    eapply relinked_trans; [eapply relinked_weaken, R2|eapply relinked_weaken, R3]; set_solver. }
  exists pool1, pool2, pool3, lvl3. rewrite Ht. split_and!; try done; [by rewrite <- Ht..|].
  unfold kNull in *. split; simpl.
  - rewrite Hh3, Hh. by destruct l.
  - by rewrite lst_or_app.
  - rewrite Hc3, Hc, length_app, u32_small; simpl; lia.
  - rewrite Hq3, Hq, (qsum_relinked _ _ _ _ R), fmap_app, zsum_app. autorewrite with words.
    rewrite fmap_cons, zsum_cons, (qty_of_at _ _ _ Ex).
    f_equal. simpl. lia.
  - apply NoDup_app. split_and!; [done|set_solver|apply NoDup_singleton].
  - apply dseg_app. split; [done|]. split; [|done].
    exists (set_next kNull (set_prev (l_tail lvl) ord)). split_and!; [|done..].
    by rewrite (rl_out _ _ _ R3).
  - apply (rests_relinked _ _ _ _ _ _ _ R). intros y [?|Hy]%elem_of_app; [by apply Hr|].
    apply list_elem_of_singleton in Hy as ->. eauto.
Qed.

Lemma insert_ok pool b sym q s p x ord :
  fits pool → book_ok pool b sym q → at_ pool x = Some ord → rests sym s p ord →
  1 ≤ p ≤ max_price_ b → (∀ s' p', x ∉ q s' p') →
  ∃ pool' b', insert pool b x = Some (pool', b') ∧
    book_ok pool' b' sym (qupd q s p (q s p ++ [x])) ∧ max_price_ b' = max_price_ b ∧
    relinked pool pool' (x :: q s p).
Proof.
  intros Hcap HB Ex Hrs Hp Hx. pose proof HB as [HL HI].
  destruct (lo_level _ _ _ _ HL s p) as (lvl & Elvl & Hl); [lia|].
  assert (Z.of_nat (length (q s p)) < Z.of_nat (length (slots_ pool))) as Hlen.
  { pose proof (slots_length pool (x :: q s p)) as H. simpl in H. apply Z.le_succ_l.
    rewrite <- Nat2Z.inj_succ. apply H; [constructor; [done|apply Hl]|].
    intros y [->|Hy]%elem_of_cons; [by eapply at_range|]. eapply dseg_valid; [apply Hl|done]. }
  destruct (insert_level _ _ _ _ _ _ _ _ Hcap Hl Ex (Hx s p) Hrs Hlen) as
    (pool1 & pool2 & pool3 & lvl3 & E1 & E2 & E3 & R & Hl').
  unfold insert. rewrite Ex. simpl. rewrite (rs_side _ _ _ _ Hrs), (rs_price _ _ _ _ Hrs), Elvl.
  simpl. rewrite E1. simpl. rewrite E2. simpl. rewrite E3. simpl.
  set (lvl' := set_count _ _) in *.
  destruct (set_level_Some pool b sym q s p lvl') as (b1 & Eb & Em & Er & Ebt & Ebs); [done|lia|].
  rewrite Eb. simpl.
  assert (levels_ok pool3 b1 sym (qupd q s p (q s p ++ [x]))) as HL'.
  { eapply levels_ok_update; try done. intros s' p' y Hne Hy. apply R.
    intros [->|Hy']%elem_of_cons; [by apply Hx in Hy|]. apply Hne.
    by destruct (queued_unique pool b sym q s p s' p' y) as [-> ->]. }
  pose proof (index_ok_levels b b1 q Em Er Ebt Ebs HI) as HI1. rewrite <- Em in Hp.
  pose proof (lk_count _ _ _ _ _ _ Hl') as Hcnt. simpl in Hcnt. rewrite Hcnt, length_app. simpl.
  destruct (Z.eqb_spec (Z.of_nat (length (q s p) + 1)) 1) as [Hz|Hz].
  - assert (q s p = []) as Hnil by (apply nil_length_inv; lia).
    destruct (set_bit_ok (max_price_ b1) (sget s (bits_ b1)) p) as (bt & Ebit & Hok & Hbp & Hbo);
      [apply HI1|lia|].
    rewrite Ebit. simpl. eexists _, _. split; [done|].
    pose proof (index_ok_first b1 q s p (q s p ++ [x]) bt HI1 Hp Hnil ltac:(rewrite Hnil; done) Hok Hbp Hbo)
      as HI2. simpl in HI2.
    set (b2 := if _ || _ then _ else _) in *.
    assert (max_price_ b2 = max_price_ b1 ∧ levels_ b2 = levels_ b1) as [Em2 El2]
      by (unfold b2; destruct (_ || _); done).
    split_and!; [|congruence|done]. split; [|done].
    destruct HL'. split; rewrite ?El2, ?Em2; try done. unfold level. by rewrite El2.
  - eexists _, _. split; [done|]. split_and!; try done. split; [by destruct HL'; split|].
    apply (index_ok_busy b1 q s p (q s p ++ [x]) 1); try done.
    + intros Hn. rewrite Hn in Hz. done.
    + by destruct (q s p).
    + rewrite length_app. simpl. lia.
Qed.

(** ** Quantity changes in place *)

(** [o'] is [o] with another quantity and fill count. *)
Definition same_but_qty (o o' : Order) : Prop :=
  o' = set_filled (o_filled o') (set_qty (o_qty o') o).

Lemma adjust_level pool pool' sym s p lvl l x o o' :
  level_ok pool sym s p lvl l → x ∈ l → at_ pool x = Some o → at_ pool' x = Some o' →
  (∀ y, y ≠ x → at_ pool' y = at_ pool y) → same_but_qty o o' → 0 ≤ o_qty o' < 2 ^ 32 →
  level_ok pool' sym s p (set_lqty (u32 (l_qty lvl - (o_qty o - o_qty o'))) lvl) l.
Proof.
  intros [Hh Ht Hc Hq Hnd Hd Hr] Hx Ex Ex' Hy Hsame Hqr. split; simpl; try done.
  - apply list_elem_of_split in Hx as (l1 & l2 & ->).
    apply NoDup_app in Hnd as (_ & Hdisj & [Hx2 _]%NoDup_cons).
    assert (x ∉ l1) by (intros Hin; apply (Hdisj x Hin); set_solver).
    assert (∀ l' : list Z, x ∉ l' → qty_of pool' <$> l' = qty_of pool <$> l') as Hsame'.
    { intros l' Hl'. apply list_fmap_ext. intros i y Hi. unfold qty_of. rewrite Hy; [done|].
      intros ->. by apply Hl', (list_elem_of_lookup_2 _ i). }
    rewrite Hq. autorewrite with words. f_equal. rewrite !fmap_app, !fmap_cons, !zsum_app, !zsum_cons.
    rewrite !Hsame', (qty_of_at _ _ _ Ex), (qty_of_at _ _ _ Ex') by done. lia.
  - clear Hh Ht Hc Hq Hnd Hr Hx. revert Hd. generalize kNull at 1 3 as a.
    induction l as [|y l IH]; intros a; simpl; [done|]. intros [(o1 & E & Hp & Hn) Hd].
    split; [|by apply IH]. destruct (decide (y = x)) as [->|Hne].
    + rewrite Ex in E. inv_some. exists o'. split_and!; [done|by rewrite Hsame..].
    + exists o1. by rewrite Hy.
  - intros y Hyl. destruct (decide (y = x)) as [->|Hne]; [|rewrite Hy; auto].
    exists o'. split; [done|]. destruct (Hr x Hyl) as (o1 & E & Hrs). rewrite Ex in E. inv_some.
    rewrite Hsame. destruct Hrs. split; simpl; done.
Qed.

Lemma adjust_ok pool pool' b sym q s p x o o' lvl :
  book_ok pool b sym q → x ∈ q s p → level b s p = Some lvl →
  at_ pool x = Some o → at_ pool' x = Some o' → (∀ y, y ≠ x → at_ pool' y = at_ pool y) →
  same_but_qty o o' → 0 ≤ o_qty o' < 2 ^ 32 →
  ∃ b', set_level b s p (set_lqty (u32 (l_qty lvl - (o_qty o - o_qty o'))) lvl) = Some b' ∧
    book_ok pool' b' sym q ∧ max_price_ b' = max_price_ b ∧ best_ b' = best_ b.
Proof.
  intros HB Hx Elvl Ex Ex' Hy Hsame Hqr. pose proof (queued _ _ _ _ _ _ _ HB Hx) as (Hp & _).
  destruct (lo_level _ _ _ _ (bk_levels _ _ _ _ HB) s p) as (lvl' & E & Hl); [lia|].
  rewrite Elvl in E. inv_some.
  set (lvl1 := set_lqty _ _).
  destruct (set_level_Some pool b sym q s p lvl1) as (b1 & Eb & Em & Er & Ebt & Ebs); [apply HB|lia|].
  exists b1. split_and!; try done. rewrite <- (qupd_same q s p). split.
  - eapply levels_ok_update; [apply HB|done..| |].
    + by eapply adjust_level.
    + intros s' p' y Hne Hyq. apply Hy. intros ->. apply Hne.
      by destruct (queued_unique pool b sym q s p s' p' x) as [-> ->].
  - assert (book_ok pool b sym (qupd q s p (q s p))) as [_ ?] by (by rewrite (qupd_same q s p)).
    by eapply (index_ok_levels b b1).
Qed.

Lemma reduce_ok pool b sym q s p x o n :
  book_ok pool b sym q → x ∈ q s p → at_ pool x = Some o → 0 ≤ n ≤ o_qty o →
  ∃ pool' b', reduce pool b x n = Some (pool', b') ∧ book_ok pool' b' sym q ∧
    max_price_ b' = max_price_ b ∧
    upd pool x (set_qty n) = Some pool' ∧ at_ pool' x = Some (set_qty n o) ∧
    (∀ y, y ≠ x → at_ pool' y = at_ pool y).
Proof.
  intros HB Hx Ex Hn. pose proof (queued _ _ _ _ _ _ _ HB Hx) as (Hp & o1 & E & Hrs).
  rewrite Ex in E. inv_some. destruct Hrs as [? ? Hs Hpx ? ? Hq].
  destruct (lo_level _ _ _ _ (bk_levels _ _ _ _ HB) s p) as (lvl & Elvl & _); [lia|].
  destruct (upd_Some pool x o1 (set_qty n) Ex) as (pool' & Eu & Ex' & Hy & _).
  destruct (adjust_ok pool pool' b sym q s p x o1 (set_qty n o1) lvl) as (b' & Eb & HB' & Em & _);
    try done; [simpl; lia|].
  unfold reduce. rewrite Ex. simpl. rewrite Hs, Hpx, Elvl. simpl.
  rewrite u32_sub_r. simpl in Eb. rewrite Eb. simpl. rewrite Eu. simpl. eauto 10.
Qed.

Lemma remove_ok pool b sym q s p l1 x l2 ord :
  fits pool → book_ok pool b sym q → q s p = l1 ++ x :: l2 → at_ pool x = Some ord →
  ∃ pool' b', remove pool b x = Some (pool', b') ∧
    book_ok pool' b' sym (qupd q s p (l1 ++ l2)) ∧ max_price_ b' = max_price_ b ∧
    relinked pool pool' (q s p) ∧ at_ pool' x = Some (core ord).
Proof.
  intros Hcap HB Eq Ex. assert (x ∈ q s p) as Hx by (rewrite Eq; set_solver).
  destruct (queued _ _ _ _ _ _ _ HB Hx) as (_ & o & E & []). rewrite Ex in E. inv_some.
  unfold remove. rewrite Ex. simpl. by eapply unlink_ok.
Qed.

(** ** Reading the top of the book *)

(** Aggregate quantity shown for the best price of a side. *)
Definition best_qty (pool : Pool) (q : queues) (s : Side) (r : Z) : Z :=
  if r =? kNoPrice then 0 else u32 (zsum (qty_of pool <$> q s r)).

Lemma best_range pool b sym q s :
  book_ok pool b sym q → sget s (best_ b) ≠ kNoPrice →
  1 ≤ sget s (best_ b) ≤ max_price_ b ∧ q s (sget s (best_ b)) ≠ [].
Proof.
  intros [HL HI] Hn. destruct (ix_best _ _ HI s) as [[? _]|(_ & Hq & _)]; [done|].
  split; [by apply (lo_dom _ _ _ _ HL s)|done].
Qed.

Lemma top_ok pool b sym q :
  book_ok pool b sym q →
  top b = Some (mkTop (sget Buy (best_ b)) (sget Sell (best_ b))
    (best_qty pool q Buy (sget Buy (best_ b))) (best_qty pool q Sell (sget Sell (best_ b)))).
Proof.
  intros HB.
  assert (∀ s, (if negb (sget s (best_ b) =? kNoPrice) then l_qty <$> level b s (sget s (best_ b)) else Some 0)
    = Some (best_qty pool q s (sget s (best_ b)))) as H.
  { intros s. unfold best_qty. destruct (Z.eqb_spec (sget s (best_ b)) kNoPrice); [done|]. simpl.
    destruct (best_range _ _ _ _ s HB) as [? _]; [done|].
    destruct (lo_level _ _ _ _ (bk_levels _ _ _ _ HB) s (sget s (best_ b))) as (lvl & -> & Hl); [lia|].
    simpl. by rewrite (lk_qty _ _ _ _ _ _ Hl). }
  pose proof (H Buy) as H1. pose proof (H Sell) as H2. unfold top. simpl in *.
  rewrite H1. simpl. by rewrite H2.
Qed.

Lemma Book_init_ok pool max sym : 0 ≤ max → book_ok pool (Book_init max) sym (λ _ _, []).
Proof.
  intros Hm. split; split.
  - done.
  - intros s. destruct s; simpl; rewrite length_replicate; lia.
  - intros s p Hp. exists Level_default. simpl in Hp. split.
    + unfold level. apply vget_spec. split; [lia|].
      destruct s; simpl; apply lookup_replicate; split; (done || lia).
    + split; try done; [apply NoDup_nil_2|]. intros x Hx. set_solver.
  - done.
  - intros s. simpl. rewrite shiftr6. destruct s; by apply bits_init_ok.
  - intros s p _. simpl. rewrite shiftr6. destruct s; simpl; rewrite bit_init; done.
  - intros s. left. split; [by destruct s|done].
  - simpl. unfold total. by rewrite !flat_nil.
Qed.
