(* ===== verification/Engine.v ===== *)
(** [include/matchbox/engine.hpp] and [src/engine.cpp]: the single-threaded
    matching engine over N books that share one order pool.  [sink_] is the
    sequence of [EventSink::on_event] calls made so far; the wall clock
    [now_ns()] is an argument of [process]. *)
From S2P Require Import Prelude Types Pool Book.

Inductive CommandKind := CmdNew | CmdCancel | CmdReplace.

Record Command := mkCommand {
  c_kind : CommandKind; c_side : Side; c_type : OrderType; c_tif : Tif;
  c_symbol : Z; c_session : Z; c_tag : Z; c_order_id : Z; c_price : Z; c_qty : Z }.

Inductive EventKind := EvAccepted | EvRejected | EvFill | EvCancelled | EvReplaced | EvTrade | EvTop.

#[export] Instance EventKind_eq_dec : EqDecision EventKind.
Proof. solve_decision. Defined.

Record Event := mkEvent {
  e_kind : EventKind; e_side : Side; e_reason : RejectReason; e_maker : bool;
  e_symbol : Z; e_session : Z; e_tag : Z; e_order_id : Z; e_price : Z; e_qty : Z;
  e_remaining : Z; e_top : TopOfBook; e_ts_ns : Z }.

#[export] Instance Event_eq_dec : EqDecision Event.
Proof. solve_decision. Defined.

Record Config := mkConfig { symbols : Z; max_price : Z; max_orders : Z }.

(** [class Engine]; [books_[i]] is the book of symbol [i]. *)
Record Engine := mkEngine {
  cfg_ : Config; sink_ : list Event; pool_ : Pool; books_ : list Book; now_ns_ : Z }.

Definition Engine_init (cfg : Config) (sink : list Event) : Engine :=
  mkEngine cfg sink (Pool_init (max_orders cfg))
    (replicate (Z.to_nat (symbols cfg)) (Book_init (max_price cfg))) 0.

Definition set_now (now : Z) (e : Engine) : Engine :=
  mkEngine (cfg_ e) (sink_ e) (pool_ e) (books_ e) now.
Definition set_pool (p : Pool) (e : Engine) : Engine :=
  mkEngine (cfg_ e) (sink_ e) p (books_ e) (now_ns_ e).
Definition set_sink (l : list Event) (e : Engine) : Engine :=
  mkEngine (cfg_ e) l (pool_ e) (books_ e) (now_ns_ e).

(** [*books_[sym] = b] *)
Definition set_book (sym : Z) (b : Book) (e : Engine) : option Engine :=
  bs ← vset (books_ e) sym b;
  Some (mkEngine (cfg_ e) (sink_ e) (pool_ e) bs (now_ns_ e)).

(** [sink_.on_event(ev)] *)
Definition on_event (ev : Event) (e : Engine) : Engine := set_sink (sink_ e ++ [ev]) e.

(** [Engine::base] *)
Definition base (now : Z) (k : EventKind) (o : Order) : Event :=
  mkEvent k (o_side o) RNone false (o_symbol o) (o_session o) (o_tag o) (o_id o) (o_price o)
    (o_qty o) (o_qty o) TopOfBook_default now.

(** [m.price = px; m.qty = q; m.maker = mk] on an event built by [base]. *)
Definition with_fill (mk : bool) (px q : Z) (e : Event) : Event :=
  mkEvent (e_kind e) (e_side e) (e_reason e) mk (e_symbol e) (e_session e) (e_tag e)
    (e_order_id e) px q (e_remaining e) (e_top e) (e_ts_ns e).

(** The market-data events built in place by [match_and_rest] and [process]. *)
Definition trade_event (now : Z) (o : Order) (px q : Z) : Event :=
  mkEvent EvTrade (o_side o) RNone false (o_symbol o) 0 0 0 px q 0 TopOfBook_default now.

Definition top_event (now sym : Z) (t : TopOfBook) : Event :=
  mkEvent EvTop Buy RNone false sym 0 0 0 0 0 0 t now.

Definition reject_event (now : Z) (c : Command) (r : RejectReason) : Event :=
  mkEvent EvRejected Buy r false (c_symbol c) (c_session c) (c_tag c) (c_order_id c) 0 0 0
    TopOfBook_default now.

(** [Engine::reject] *)
Definition reject (c : Command) (r : RejectReason) (e : Engine) : Engine :=
  on_event (reject_event (now_ns_ e) c r) e.

(** The lambda [match_and_rest] passes to [Book::match], capturing the taker [o]. *)
Definition on_fill (now : Z) (o : Z) (maker px q : Z) (pool : Pool) (sink : list Event) :
    option (Pool * list Event) :=
  mk ← at_ pool maker;
  tk ← at_ pool o;
  let sink := sink ++ [with_fill true px q (base now EvFill mk)] in
  let sink := sink ++ [with_fill false px q (base now EvFill tk)] in
  let sink := sink ++ [trade_event now tk px q] in
  pool ← (if o_qty mk =? 0 then free pool maker else Some pool);
  Some (pool, sink).

(** [Engine::match_and_rest] *)
Definition match_and_rest (sym : Z) (o : Z) (e : Engine) : option Engine :=
  book ← vget (books_ e) sym;
  '(pool, book, sink, _) ← match_ (on_fill (now_ns_ e) o) (pool_ e) book o (sink_ e);
  e ← set_book sym book (set_sink sink (set_pool pool e));
  ord ← at_ (pool_ e) o;
  if o_qty ord =? 0 then
    pool ← free (pool_ e) o;
    Some (set_pool pool e)
  else if bool_decide (o_type ord = Market) || bool_decide (o_tif ord = IOC) then
    let e := on_event (base (now_ns_ e) EvCancelled ord) e in
    pool ← free (pool_ e) o;
    Some (set_pool pool e)
  else
    '(pool, book) ← insert (pool_ e) book o;
    set_book sym book (set_pool pool e).

(** The member assignments of [on_new] on the freshly allocated order. *)
Definition assign_order (c : Command) (o : Order) : Order :=
  mkOrder (o_id o) (c_tag c) (c_session c) (c_symbol c) (c_side c) (c_type c) (c_tif c) (o_live o)
    (match c_type c with Limit => c_price c | Market => 0 end) (c_qty c)
    (o_filled o) (o_prev o) (o_next o) (o_gen o).

(** [Engine::on_new] *)
Definition on_new (c : Command) (sym : Z) (e : Engine) : option Engine :=
  book ← vget (books_ e) sym;
  if c_qty c =? 0 then Some (reject c BadQty e) else
  if bool_decide (c_type c = Limit) && negb (valid_price book (c_price c))
  then Some (reject c BadPrice e) else
  '(pool, ptr) ← alloc (pool_ e);
  match ptr with
  | None => Some (reject c BookFull (set_pool pool e))
  | Some o =>
      pool ← upd pool o (assign_order c);
      ord ← at_ pool o;
      let e := on_event (base (now_ns_ e) EvAccepted ord) (set_pool pool e) in
      match_and_rest sym o e
  end.

(** [Engine::on_cancel] *)
Definition on_cancel (sym : Z) (o : Z) (e : Engine) : option Engine :=
  book ← vget (books_ e) sym;
  '(pool, book) ← remove (pool_ e) book o;
  e ← set_book sym book (set_pool pool e);
  ord ← at_ (pool_ e) o;
  let e := on_event (base (now_ns_ e) EvCancelled ord) e in
  pool ← free (pool_ e) o;
  Some (set_pool pool e).

(** [Engine::on_replace] *)
Definition on_replace (c : Command) (sym : Z) (o : Z) (e : Engine) : option Engine :=
  book ← vget (books_ e) sym;
  if c_qty c =? 0 then Some (reject c BadQty e) else
  if negb (valid_price book (c_price c)) then Some (reject c BadPrice e) else
  ord ← at_ (pool_ e) o;
  if (c_price c =? o_price ord) && (c_qty c <=? o_qty ord) then
    '(pool, book) ← reduce (pool_ e) book o (c_qty c);
    e ← set_book sym book (set_pool pool e);
    ord ← at_ (pool_ e) o;
    Some (on_event (base (now_ns_ e) EvReplaced ord) e)
  else
    '(pool, book) ← remove (pool_ e) book o;
    pool ← upd pool o (set_price (c_price c));
    pool ← upd pool o (set_qty (c_qty c));
    e ← set_book sym book (set_pool pool e);
    ord ← at_ (pool_ e) o;
    match_and_rest sym o (on_event (base (now_ns_ e) EvReplaced ord) e).

(** The part of [process] after the target book is known: run the handler
    between two readings of the top of the book and report a change. *)
Definition run_on_book (c : Command) (sym : Z) (o : Z) (e : Engine) : option Engine :=
  book ← vget (books_ e) sym;
  before ← top book;
  e ← match c_kind c with
      | CmdNew => on_new c sym e
      | CmdCancel => on_cancel sym o e
      | CmdReplace => on_replace c sym o e
      end;
  book ← vget (books_ e) sym;
  after ← top book;
  if negb (top_eqb after before) then Some (on_event (top_event (now_ns_ e) sym after) e)
  else Some e.

(** [Engine::process]; [now] is what the clock returns. *)
Definition process (now : Z) (c : Command) (e : Engine) : option Engine :=
  let e := set_now now e in
  match c_kind c with
  | CmdNew =>
      if Z.of_nat (length (books_ e)) <=? c_symbol c then Some (reject c BadSymbol e)
      else run_on_book c (c_symbol c) kNull e
  | _ =>
      match find (pool_ e) (c_order_id c) with
      | None => Some (reject c UnknownOrder e)
      | Some o =>
          ord ← at_ (pool_ e) o;
          if negb (o_session ord =? c_session c) then Some (reject c NotOwner e)
          else run_on_book c (o_symbol ord) o e
      end
  end.

(** A run of the engine: each command with the clock reading it sees. *)
Fixpoint run (cs : list (Z * Command)) (e : Engine) : option Engine :=
  match cs with
  | [] => Some e
  | (now, c) :: cs => e ← process now c e; run cs e
  end.
