(* ===== verification/Spec.v ===== *)
(** The abstract specification of the matching engine: each side of a book is
    one list of orders in price-time priority.  Matching consumes the list
    from its head, resting inserts behind every order of the same or a better
    price, cancelling deletes, shrinking updates in place.  No slots, links,
    levels, bitmaps or loops with fuel. *)
From S2P Require Import Prelude Types Book Engine.

(** What the outside world can tell about a resting order. *)
Record AOrder := mkAOrder {
  a_id : Z; a_tag : Z; a_session : Z; a_symbol : Z; a_side : Side; a_price : Z; a_qty : Z }.

Definition a_set_qty (v : Z) (a : AOrder) : AOrder :=
  mkAOrder (a_id a) (a_tag a) (a_session a) (a_symbol a) (a_side a) (a_price a) v.
Definition a_set_price (v : Z) (a : AOrder) : AOrder :=
  mkAOrder (a_id a) (a_tag a) (a_session a) (a_symbol a) (a_side a) v (a_qty a).

Abbreviation ABook := (Sides (list AOrder)).

(** The whole exchange: the price limit and every symbol's book. *)
Record Exchange := mkExchange { m_max_price : Z; m_books : list ABook }.

(** ** Events about an abstract order *)
Definition abase (now : Z) (k : EventKind) (a : AOrder) : Event :=
  mkEvent k (a_side a) RNone false (a_symbol a) (a_session a) (a_tag a) (a_id a) (a_price a)
    (a_qty a) (a_qty a) TopOfBook_default now.

Definition atrade (now : Z) (a : AOrder) (px q : Z) : Event :=
  mkEvent EvTrade (a_side a) RNone false (a_symbol a) 0 0 0 px q 0 TopOfBook_default now.

(** Maker fill, taker fill, trade: the three events of one execution. *)
Definition fill_events (now : Z) (m t : AOrder) (px q : Z) : list Event :=
  [with_fill true px q (abase now EvFill m); with_fill false px q (abase now EvFill t);
   atrade now t px q].

(** ** Matching *)
Definition acrosses (ty : OrderType) (t : AOrder) (px : Z) : bool :=
  match ty with Market => true | Limit => crosses (a_side t) (a_price t) px end.

(** Execute taker [t] against the opposite side in priority order: the events,
    what is left of the taker, what is left of the side. *)
Fixpoint amatch (now : Z) (ty : OrderType) (t : AOrder) (makers : list AOrder) :
    list Event * AOrder * list AOrder :=
  match makers with
  | [] => ([], t, [])
  | m :: rest =>
      if (0 <? a_qty t) && acrosses ty t (a_price m) then
        let q := Z.min (a_qty t) (a_qty m) in
        let m' := a_set_qty (a_qty m - q) m in
        let t' := a_set_qty (a_qty t - q) t in
        let evs := fill_events now m' t' (a_price m) q in
        if a_qty m' =? 0 then
          let '(evs', t'', rest') := amatch now ty t' rest in (evs ++ evs', t'', rest')
        else (evs, t', m' :: rest)
      else ([], t, makers)
  end.

(** [a] goes behind every order with the same or a better price. *)
Definition betterb (s : Side) (a b : Z) : bool :=
  match s with Buy => b <? a | Sell => a <? b end.

Fixpoint arest (a : AOrder) (l : list AOrder) : list AOrder :=
  match l with
  | [] => [a]
  | m :: l' => if betterb (a_side a) (a_price a) (a_price m) then a :: l else m :: arest a l'
  end.

Definition amatch_and_rest (now : Z) (ty : OrderType) (tif : Tif) (t : AOrder) (bk : ABook) :
    list Event * ABook :=
  let '(evs, t', rest) := amatch now ty t (sget (opposite (a_side t)) bk) in
  let bk := sset (opposite (a_side t)) rest bk in
  if a_qty t' =? 0 then (evs, bk)
  else if bool_decide (ty = Market) || bool_decide (tif = IOC)
  then (evs ++ [abase now EvCancelled t'], bk)
  else (evs, sset (a_side t) (arest t' (sget (a_side t) bk)) bk).

(** ** Top of book *)
Definition aside_best (l : list AOrder) : Z :=
  match l with [] => kNoPrice | a :: _ => a_price a end.

(** The displayed quantity is a 32-bit sum over the best price level. *)
Definition aside_qty (l : list AOrder) : Z :=
  match l with
  | [] => 0
  | a :: _ => u32 (zsum (a_qty <$> filter (λ m, a_price m = a_price a) l))
  end.

Definition atop (bk : ABook) : TopOfBook :=
  mkTop (aside_best (sget Buy bk)) (aside_best (sget Sell bk))
    (aside_qty (sget Buy bk)) (aside_qty (sget Sell bk)).

(** ** Commands *)
Definition all_orders (m : Exchange) : list AOrder :=
  concat ((λ bk, sd0 bk ++ sd1 bk) <$> m_books m).

Definition afind (id : Z) (m : Exchange) : option AOrder :=
  List.find (λ a, a_id a =? id) (all_orders m).

Definition avalid_price (m : Exchange) (p : Z) : bool := (1 <=? p) && (p <=? m_max_price m).

Definition anew_order (c : Command) (id : Z) : AOrder :=
  mkAOrder id (c_tag c) (c_session c) (c_symbol c) (c_side c)
    (match c_type c with Limit => c_price c | Market => 0 end) (c_qty c).

Definition anew (now : Z) (newid : option Z) (c : Command) (m : Exchange) (bk : ABook) :
    list Event * ABook :=
  if c_qty c =? 0 then ([reject_event now c BadQty], bk) else
  if bool_decide (c_type c = Limit) && negb (avalid_price m (c_price c))
  then ([reject_event now c BadPrice], bk) else
  match newid with
  | None => ([reject_event now c BookFull], bk)
  | Some id =>
      let t := anew_order c id in
      let '(evs, bk) := amatch_and_rest now (c_type c) (c_tif c) t bk in
      (abase now EvAccepted t :: evs, bk)
  end.

Definition adrop (a : AOrder) (bk : ABook) : ABook :=
  sset (a_side a) (filter (λ m, a_id m ≠ a_id a) (sget (a_side a) bk)) bk.

Definition acancel (now : Z) (a : AOrder) (bk : ABook) : list Event * ABook :=
  ([abase now EvCancelled a], adrop a bk).

Definition areplace (now : Z) (c : Command) (m : Exchange) (a : AOrder) (bk : ABook) :
    list Event * ABook :=
  if c_qty c =? 0 then ([reject_event now c BadQty], bk) else
  if negb (avalid_price m (c_price c)) then ([reject_event now c BadPrice], bk) else
  if (c_price c =? a_price a) && (c_qty c <=? a_qty a) then
    let a' := a_set_qty (c_qty c) a in
    ([abase now EvReplaced a'],
     sset (a_side a) ((λ m, if a_id m =? a_id a then a' else m) <$> sget (a_side a) bk) bk)
  else
    let a' := a_set_qty (c_qty c) (a_set_price (c_price c) a) in
    let '(evs, bk) := amatch_and_rest now Limit GTC a' (adrop a bk) in
    (abase now EvReplaced a' :: evs, bk).

(** Run a handler on symbol [sym]'s book and report a changed top. *)
Definition aon_book (now : Z) (sym : Z) (m : Exchange) (f : ABook → list Event * ABook) :
    list Event * Exchange :=
  match vget (m_books m) sym with
  | None => ([], m)
  | Some bk =>
      let '(evs, bk') := f bk in
      let evs' := if top_eqb (atop bk') (atop bk) then [] else [top_event now sym (atop bk')] in
      (evs ++ evs',
       mkExchange (m_max_price m) (default (m_books m) (vset (m_books m) sym bk')))
  end.

(** One command against the market; [newid] is the id a new order would get,
    [None] when the pool is exhausted. *)
Definition aprocess (now : Z) (newid : option Z) (c : Command) (m : Exchange) : list Event * Exchange :=
  match c_kind c with
  | CmdNew =>
      if Z.of_nat (length (m_books m)) <=? c_symbol c then ([reject_event now c BadSymbol], m)
      else aon_book now (c_symbol c) m (anew now newid c m)
  | k =>
      match afind (c_order_id c) m with
      | None => ([reject_event now c UnknownOrder], m)
      | Some a =>
          if negb (a_session a =? c_session c) then ([reject_event now c NotOwner], m)
          else aon_book now (a_symbol a) m
                 (match k with CmdCancel => acancel now a | _ => areplace now c m a end)
      end
  end.
