(* ===== verification/MatchRefine.v ===== *)
(** [Book::match] with the engine's callback implements the abstract matching
    of [Spec.amatch]: every iteration of the nested loops is one step of the
    abstract list traversal, and the loops stop within their fuel. *)
From S2P Require Import Prelude Types Pool Bitmap Book Links Queues BookInv BookOps Engine Spec.

(** The abstract view of an order and of a pool slot. *)
Definition to_a (o : Order) : AOrder :=
  mkAOrder (o_id o) (o_tag o) (o_session o) (o_symbol o) (o_side o) (o_price o) (o_qty o).

Definition aorder (pool : Pool) (x : Z) : AOrder := to_a (default Order_default (at_ pool x)).

(** State of the matching loop: pool and book are consistent, every queued
    order has quantity left, and the taker [t] is live but not queued. *)
Record minv (pool : Pool) (b : Book) (fl : list Z) (sym : Z) (q : queues) (t : Z) (T : Order) : Prop := {
  mi_pool : pool_ok pool fl;
  mi_book : book_ok pool b sym q;
  mi_pos : ∀ s p x, x ∈ q s p → 0 < qty_of pool x;
  mi_taker : at_ pool t = Some T;
  mi_live : o_live T = true;
  mi_out : ∀ s p, t ∉ q s p;
  mi_qty : 0 ≤ o_qty T < 2 ^ 32 }.

(** An order after a fill of [qf]. *)
Definition take_qty (qf : Z) (o : Order) : Order :=
  set_filled (u32 (o_filled o + qf)) (set_qty (o_qty o - qf) o).

Lemma to_a_core o o' : core o' = core o → to_a o' = to_a o.
Proof.
  intros C%core_fields. destruct C as (? & ? & ? & ? & ? & _ & _ & _ & ? & ? & _).
  unfold to_a. congruence.
Qed.

Lemma aorder_at pool x o : at_ pool x = Some o → aorder pool x = to_a o.
Proof. intros E. unfold aorder. by rewrite E. Qed.

Lemma aorder_frame pool pool' x : at_ pool' x = at_ pool x → aorder pool' x = aorder pool x.
Proof. intros E. unfold aorder. by rewrite E. Qed.

Lemma aorder_relinked p p' D x : relinked p p' D → aorder p' x = aorder p x.
Proof.
  intros R. unfold aorder. destruct (at_ p x) as [o|] eqn:E; simpl.
  - destruct (relinked_at _ _ _ _ _ R E) as (o' & -> & C). by apply to_a_core.
  - pose proof (rl_core _ _ _ R x) as Hc. rewrite E in Hc. by destruct (at_ p' x).
Qed.

Lemma aorders_ext pool pool' (l : list Z) :
  (∀ x, x ∈ l → aorder pool' x = aorder pool x) → aorder pool' <$> l = aorder pool <$> l.
Proof. intros H. apply list_fmap_ext. intros i x Hx. apply H. by eapply list_elem_of_lookup_2. Qed.

(** ** One fill *)

(** The quantity updates of one iteration, up to the level write. *)
Lemma fill_quantities pool b fl sym q t T s px x l lvl M :
  minv pool b fl sym q t T → q s px = x :: l → level b s px = Some lvl → at_ pool x = Some M →
  let qf := Z.min (o_qty T) (o_qty M) in
  ∃ p1 p2 p3 p4 b1,
    upd pool x (λ o, set_qty (u32 (o_qty o - qf)) o) = Some p1 ∧
    upd p1 x (λ o, set_filled (u32 (o_filled o + qf)) o) = Some p2 ∧
    upd p2 t (λ o, set_qty (u32 (o_qty o - qf)) o) = Some p3 ∧
    upd p3 t (λ o, set_filled (u32 (o_filled o + qf)) o) = Some p4 ∧
    set_level b s px (set_lqty (u32 (l_qty lvl - qf)) lvl) = Some b1 ∧
    at_ p4 x = Some (take_qty qf M) ∧ at_ p4 t = Some (take_qty qf T) ∧
    (∀ y, y ≠ x → y ≠ t → at_ p4 y = at_ pool y) ∧
    pool_ok p4 fl ∧ book_ok p4 b1 sym q ∧ max_price_ b1 = max_price_ b ∧
    length (slots_ p4) = length (slots_ pool).
Proof.
  intros [HP HB Hpos Ht HL Hout HTq] Eq Elvl Ex qf.
  assert (x ∈ q s px) as Hx by (rewrite Eq; set_solver).
  assert (x ≠ t) as Hxt by (intros ->; by apply (Hout s px)).
  destruct (queued _ _ _ _ _ _ _ HB Hx) as (Hp & M1 & E & HM). rewrite Ex in E. inv_some.
  pose proof (rs_qty _ _ _ _ HM) as HMq.
  assert (0 ≤ qf ∧ qf ≤ o_qty T ∧ qf ≤ o_qty M1) as (? & ? & ?) by (unfold qf; lia).
  assert (take_qty qf M1 = set_filled (u32 (o_filled M1 + qf)) (set_qty (u32 (o_qty M1 - qf)) M1)) as EM
    by (unfold take_qty; rewrite (u32_small (o_qty M1 - qf)) by lia; done).
  assert (take_qty qf T = set_filled (u32 (o_filled T + qf)) (set_qty (u32 (o_qty T - qf)) T)) as ET
    by (unfold take_qty; rewrite (u32_small (o_qty T - qf)) by lia; done).
  destruct (upd_Some pool x M1 (λ o, set_qty (u32 (o_qty o - qf)) o) Ex) as (p1 & U1 & A1 & N1 & L1 & _).
  destruct (upd_Some p1 x _ (λ o, set_filled (u32 (o_filled o + qf)) o) A1) as (p2 & U2 & A2 & N2 & L2 & _).
  assert (at_ p2 t = Some T) as Ht2 by (by rewrite N2, N1 by done).
  destruct (upd_Some p2 t T (λ o, set_qty (u32 (o_qty o - qf)) o) Ht2) as (p3 & U3 & A3 & N3 & L3 & _).
  destruct (upd_Some p3 t _ (λ o, set_filled (u32 (o_filled o + qf)) o) A3) as (p4 & U4 & A4 & N4 & L4 & _).
  assert (at_ p2 x = Some (take_qty qf M1)) as A2' by (rewrite A2, EM; done).
  assert (at_ p4 t = Some (take_qty qf T)) as A4' by (rewrite A4, ET; done).
  destruct (adjust_ok pool p2 b sym q s px x M1 (take_qty qf M1) lvl) as (b1 & Eb & HB1 & Em & _);
    try done; [by intros y Hy; rewrite N2, N1 by done|simpl; lia|].
  replace (o_qty M1 - o_qty (take_qty qf M1)) with qf in Eb by (simpl; lia).
  assert (pool_ok p4 fl) as HP4.
  { eapply upd_ok; [eapply upd_ok; [eapply upd_ok; [eapply upd_ok; [exact HP|exact U1|]|exact U2|]
      |exact U3|]|exact U4|].
    all: intros o Ho; rewrite ?Ex, ?A1, ?Ht2, ?A3 in Ho; inv_some; simpl; try done;
      split_and!; done || apply HM. }
  exists p1, p2, p3, p4, b1. split_and!; try done.
  - by rewrite N4, N3 by done.
  - intros y ? ?. by rewrite N4, N3, N2, N1 by done.
  - eapply book_ok_frame; [|exact HB1]. intros s' p' y Hy.
    assert (y ≠ t) by (intros ->; by eapply Hout). by rewrite N4, N3 by done.
  - congruence.
Qed.

(** ** Transitions of the loop state *)

(** The concrete loop variables with the ghost free list, queues and taker. *)
Record MS := mkMS {
  ms_pool : Pool; ms_book : Book; ms_sink : list Event; ms_fl : list Z; ms_q : queues; ms_T : Order }.

Definition ms_inv (sym t : Z) (m : MS) : Prop :=
  minv (ms_pool m) (ms_book m) (ms_fl m) sym (ms_q m) t (ms_T m).

(** The side's slots and orders in priority order. *)
Definition ms_slots (s : Side) (m : MS) : list Z := flat (max_price_ (ms_book m)) (ms_q m) s.
Definition ms_view (s : Side) (m : MS) : list AOrder := aorder (ms_pool m) <$> ms_slots s m.

Definition prepend (evs : list Event) (r : list Event * AOrder * list AOrder) :
    list Event * AOrder * list AOrder :=
  let '(e, t, l) := r in (evs ++ e, t, l).

(** The effect of some iterations: abstractly a prefix of [amatch]; concretely
    only the taker and the makers of side [s] change, and makers that left the
    book are dead. *)
Record mtrans (now t : Z) (s : Side) (m m' : MS) : Prop := {
  mt_len : length (slots_ (ms_pool m')) = length (slots_ (ms_pool m));
  mt_max : max_price_ (ms_book m') = max_price_ (ms_book m);
  mt_T : same_but_qty (ms_T m) (ms_T m') ∧ o_qty (ms_T m') ≤ o_qty (ms_T m);
  mt_own : ∀ s' p, s' ≠ s → ms_q m' s' p = ms_q m s' p;
  mt_sub : ∀ p x, x ∈ ms_q m' s p → x ∈ ms_q m s p;
  mt_out : ∀ y, y ≠ t → y ∉ ms_slots s m → at_ (ms_pool m') y = at_ (ms_pool m) y;
  mt_dead : ∀ y, y ∈ ms_slots s m → y ∉ ms_slots s m' →
    ∃ o, at_ (ms_pool m') y = Some o ∧ o_live o = false;
  mt_match : ∃ evs, ms_sink m' = ms_sink m ++ evs ∧
    amatch now (o_type (ms_T m)) (to_a (ms_T m)) (ms_view s m) =
    prepend evs (amatch now (o_type (ms_T m')) (to_a (ms_T m')) (ms_view s m')) }.

Lemma prepend_nil r : prepend [] r = r.
Proof. by destruct r as [[? ?] ?]. Qed.

Lemma prepend_prepend e1 e2 r : prepend e1 (prepend e2 r) = prepend (e1 ++ e2) r.
Proof. destruct r as [[? ?] ?]. simpl. by rewrite app_assoc. Qed.

Lemma mtrans_refl now t s m : mtrans now t s m m.
Proof.
  split; try done.
  - split; [|done]. unfold same_but_qty. by destruct (ms_T m).
  - exists []. by rewrite app_nil_r, prepend_nil.
Qed.

Lemma ms_slots_sub now t s m m' y :
  mtrans now t s m m' → t ∉ ms_slots s m → y ∈ ms_slots s m' → y ∈ ms_slots s m ∧ y ≠ t.
Proof.
  intros H Ht. unfold ms_slots. rewrite (mt_max _ _ _ _ _ H), elem_of_flat. intros (p & Hp & Hy).
  assert (y ∈ flat (max_price_ (ms_book m)) (ms_q m) s) as Hin.
  { apply elem_of_flat. exists p. split; [done|]. by eapply mt_sub. }
  split; [done|]. by intros ->.
Qed.

Lemma mtrans_trans now t s m1 m2 m3 :
  t ∉ ms_slots s m1 → mtrans now t s m1 m2 → mtrans now t s m2 m3 → mtrans now t s m1 m3.
Proof.
  intros Ht H1 H2. split.
  - by rewrite (mt_len _ _ _ _ _ H2), (mt_len _ _ _ _ _ H1).
  - by rewrite (mt_max _ _ _ _ _ H2), (mt_max _ _ _ _ _ H1).
  - destruct (mt_T _ _ _ _ _ H1) as [E1 ?], (mt_T _ _ _ _ _ H2) as [E2 ?].
    split; [|lia]. unfold same_but_qty in *. rewrite E2 at 1. rewrite E1. done.
  - intros s' p Hs. by rewrite (mt_own _ _ _ _ _ H2), (mt_own _ _ _ _ _ H1).
  - intros p x Hx. by eapply (mt_sub _ _ _ _ _ H1), (mt_sub _ _ _ _ _ H2).
  - intros y Hy Hn. rewrite (mt_out _ _ _ _ _ H2); [by apply H1|done|].
    intros Hin. by destruct (ms_slots_sub _ _ _ _ _ _ H1 Ht Hin).
  - intros y Hy Hn. destruct (decide (y ∈ ms_slots s m2)) as [Hin|Hin]; [by apply H2|].
    destruct (mt_dead _ _ _ _ _ H1 y Hy Hin) as (o & E & L). exists o.
    rewrite (mt_out _ _ _ _ _ H2); [done| |done]. by intros ->.
  - destruct (mt_match _ _ _ _ _ H1) as (e1 & S1 & A1), (mt_match _ _ _ _ _ H2) as (e2 & S2 & A2).
    exists (e1 ++ e2). rewrite S2, S1, app_assoc, A1, A2, prepend_prepend. done.
Qed.

(** ** Unfolding the abstract match *)
Lemma amatch_done now ty t l : a_qty t ≤ 0 → amatch now ty t l = ([], t, l).
Proof. intros H. destruct l; simpl; [done|]. by destruct (Z.ltb_spec 0 (a_qty t)); [lia|]. Qed.

Lemma amatch_stop now ty t m l :
  acrosses ty t (a_price m) = false → amatch now ty t (m :: l) = ([], t, m :: l).
Proof. intros H. simpl. by rewrite H, andb_false_r. Qed.

Lemma amatch_step now ty t m l :
  0 < a_qty t → acrosses ty t (a_price m) = true →
  let q := Z.min (a_qty t) (a_qty m) in
  let m' := a_set_qty (a_qty m - q) m in
  let t' := a_set_qty (a_qty t - q) t in
  amatch now ty t (m :: l) =
  prepend (fill_events now m' t' (a_price m) q)
    (if a_qty m - q =? 0 then amatch now ty t' l else ([], t', m' :: l)).
Proof.
  intros Ht Hc. simpl. rewrite Hc. destruct (Z.ltb_spec 0 (a_qty t)); [|lia]. simpl.
  destruct (_ =? 0); [|done]. by destruct (amatch _ _ _ l) as [[? ?] ?].
Qed.

Lemma fill_events_base now M T px qf :
  [with_fill true px qf (base now EvFill M); with_fill false px qf (base now EvFill T);
   trade_event now T px qf] = fill_events now (to_a M) (to_a T) px qf.
Proof. done. Qed.

Lemma on_fill_run now t x px qf pool sink M T :
  at_ pool x = Some M → at_ pool t = Some T →
  on_fill now t x px qf pool sink =
  (pool' ← (if o_qty M =? 0 then free pool x else Some pool);
   Some (pool', sink ++ fill_events now (to_a M) (to_a T) px qf)).
Proof.
  intros Ex Et. unfold on_fill. rewrite Ex. simpl. rewrite Et. simpl. rewrite <- !app_assoc. done.
Qed.

(** The maker at the front of the best level is executed. *)
Lemma front_slots m sym t s px x l :
  ms_inv sym t m → ms_q m s px = x :: l → (∀ p, better s p px → ms_q m s p = []) →
  ∃ post, ms_slots s m = x :: l ++ post ∧
    (∀ l', flat (max_price_ (ms_book m)) (qupd (ms_q m) s px l') s = l' ++ post) ∧
    (∀ y, y ∈ l ++ post → y ≠ x ∧ y ≠ t) ∧ t ∉ ms_slots s m.
Proof.
  intros HI Eq Hf. pose proof (mi_book _ _ _ _ _ _ _ HI) as HB.
  assert (x ∈ ms_q m s px) as Hx by (rewrite Eq; set_solver).
  destruct (queued _ _ _ _ _ _ _ HB Hx) as [Hp _].
  destruct (flat_front (max_price_ (ms_book m)) (ms_q m) s px Hf Hp) as (post & E & El & Hpost).
  assert (∀ p y, y ∈ ms_q m s p → y ≠ t) as Ht
    by (intros p y Hy ->; by eapply (mi_out _ _ _ _ _ _ _ HI)).
  destruct (lo_level _ _ _ _ (bk_levels _ _ _ _ HB) s px) as (lvl & _ & Hl); [lia|].
  pose proof (lk_nodup _ _ _ _ _ _ Hl) as Hnd. rewrite Eq in Hnd. apply NoDup_cons in Hnd as [Hxl _].
  exists post. rewrite Eq in E. split_and!; [done|done| |].
  - intros y [Hy|Hy]%elem_of_app.
    + split; [by intros ->|]. apply (Ht px). rewrite Eq. set_solver.
    + destruct (Hpost y Hy) as (p & Hb & _ & Hyp). split; [|by eapply Ht].
      intros ->. destruct (queued_unique _ _ _ _ _ _ _ _ _ HB Hx Hyp) as [_ ->].
      by apply better_irrefl in Hb.
  - unfold ms_slots. intros (p & _ & Hy)%elem_of_flat. by eapply (Ht p).
Qed.

(** What one fill leaves behind, common to both cases. *)
Lemma fill_one_code now t s px pool b sink filled lvl x M T p1 p2 p3 p4 b1 :
  level b s px = Some lvl → l_head lvl = x → at_ pool x = Some M → at_ pool t = Some T →
  let qf := Z.min (o_qty T) (o_qty M) in
  upd pool x (λ o, set_qty (u32 (o_qty o - qf)) o) = Some p1 →
  upd p1 x (λ o, set_filled (u32 (o_filled o + qf)) o) = Some p2 →
  upd p2 t (λ o, set_qty (u32 (o_qty o - qf)) o) = Some p3 →
  upd p3 t (λ o, set_filled (u32 (o_filled o + qf)) o) = Some p4 →
  set_level b s px (set_lqty (u32 (l_qty lvl - qf)) lvl) = Some b1 →
  at_ p4 x = Some (take_qty qf M) →
  fill_one (on_fill now t) t s px pool b sink filled =
  ('(p5, b2) ← (if o_qty M - qf =? 0 then unlink p4 b1 s px x else Some (p4, b1));
   '(p6, sink') ← on_fill now t x px qf p5 sink;
   Some (p6, b2, sink', u32 (filled + qf))).
Proof.
  intros El Eh Ex Et qf U1 U2 U3 U4 Eb E4. unfold fill_one. rewrite El. simpl. rewrite Eh, Ex. simpl.
  rewrite Et. simpl. fold qf. rewrite U1. simpl. rewrite U2. simpl. rewrite U3. simpl. rewrite U4. simpl.
  rewrite Eb. simpl. rewrite E4. simpl. done.
Qed.

(** Quantities of queued orders other than the maker are untouched. *)
Lemma pos_frame pool pool' (q : queues) x t :
  (∀ s p y, y ∈ q s p → 0 < qty_of pool y) → (∀ s p, t ∉ q s p) →
  (∀ y, y ≠ x → y ≠ t → qty_of pool' y = qty_of pool y) →
  ∀ s p y, y ∈ q s p → y ≠ x → 0 < qty_of pool' y.
Proof.
  intros Hpos Ht Hy s p y Hin Hne. rewrite Hy; [by eapply Hpos|done|].
  intros ->. by eapply Ht.
Qed.

Lemma amatch_fill now T M px l :
  0 < o_qty T → acrosses (o_type T) (to_a T) px = true → o_price M = px →
  let qf := Z.min (o_qty T) (o_qty M) in
  amatch now (o_type T) (to_a T) (to_a M :: l) =
  prepend (fill_events now (to_a (take_qty qf M)) (to_a (take_qty qf T)) px qf)
    (if o_qty M - qf =? 0 then amatch now (o_type T) (to_a (take_qty qf T)) l
     else ([], to_a (take_qty qf T), to_a (take_qty qf M) :: l)).
Proof. intros HT Hc <- qf. by rewrite (amatch_step now _ (to_a T) (to_a M)). Qed.

(** Removing [x] from its queue leaves every other queued slot, and not [x]. *)
Lemma removed_queue pool b sym q s p l1 x l2 :
  book_ok pool b sym q → q s p = l1 ++ x :: l2 →
  ∀ s' p' y, y ∈ qupd q s p (l1 ++ l2) s' p' ↔ y ∈ q s' p' ∧ y ≠ x.
Proof.
  intros HB Eq s' p' y. assert (x ∈ q s p) as Hq by (rewrite Eq; set_solver).
  destruct (qupd_cases q s p (l1 ++ l2) s' p') as [(-> & -> & ->)|[Hn ->]].
  - destruct (lo_level _ _ _ _ (bk_levels _ _ _ _ HB) s p) as (lvl & _ & Hl).
    { destruct (queued _ _ _ _ _ _ _ HB Hq). lia. }
    pose proof (lk_nodup _ _ _ _ _ _ Hl) as Hnd. rewrite Eq in *.
    apply NoDup_app in Hnd as (_ & Hd & [Hx2 _]%NoDup_cons).
    assert (x ∉ l1) by (intros Hx1; apply (Hd x Hx1); set_solver). set_solver.
  - split; [|tauto]. intros Hy. split; [done|]. intros ->. apply Hn.
    by destruct (queued_unique _ _ _ _ _ _ _ _ _ HB Hq Hy) as [-> ->].
Qed.

(** The two outcomes of one iteration, after the quantity updates. *)
Section FillOutcome.
Context (now sym t : Z) (s : Side) (px : Z) (m : MS) (x : Z) (l post : list Z) (M : Order)
  (p4 : Pool) (b1 : Book).
Let qf : Z := Z.min (o_qty (ms_T m)) (o_qty M).
Let evs : list Event := fill_events now (to_a (take_qty qf M)) (to_a (take_qty qf (ms_T m))) px qf.
Hypothesis HI : ms_inv sym t m.
Hypothesis Eq : ms_q m s px = x :: l.
Hypothesis Esl : ms_slots s m = x :: l ++ post.
Hypothesis El : ∀ l', flat (max_price_ (ms_book m)) (qupd (ms_q m) s px l') s = l' ++ post.
Hypothesis Hne : ∀ y, y ∈ l ++ post → y ≠ x ∧ y ≠ t.
Hypothesis Hxt : x ≠ t.
Hypothesis Ex : at_ (ms_pool m) x = Some M.
Hypothesis HM : rests sym s px M.
Hypothesis HMpos : 0 < o_qty M.
Hypothesis HT : 0 < o_qty (ms_T m).
Hypothesis Hc : acrosses (o_type (ms_T m)) (to_a (ms_T m)) px = true.
Hypothesis Ax : at_ p4 x = Some (take_qty qf M).
Hypothesis At : at_ p4 t = Some (take_qty qf (ms_T m)).
Hypothesis An : ∀ y, y ≠ x → y ≠ t → at_ p4 y = at_ (ms_pool m) y.
Hypothesis HP4 : pool_ok p4 (ms_fl m).
Hypothesis HB4 : book_ok p4 b1 sym (ms_q m).
Hypothesis Em4 : max_price_ b1 = max_price_ (ms_book m).
Hypothesis Len4 : length (slots_ p4) = length (slots_ (ms_pool m)).

Lemma view_front : ms_view s m = to_a M :: (aorder (ms_pool m) <$> l ++ post).
Proof. unfold ms_view. by rewrite Esl, fmap_cons, (aorder_at _ _ _ Ex). Qed.

Lemma qf_bounds : 0 < qf ∧ qf ≤ o_qty (ms_T m) ∧ qf ≤ o_qty M.
Proof. unfold qf. lia. Qed.

Lemma taker_trans :
  same_but_qty (ms_T m) (take_qty qf (ms_T m)) ∧ o_qty (take_qty qf (ms_T m)) ≤ o_qty (ms_T m).
Proof. split; [done|]. simpl. pose proof qf_bounds. lia. Qed.

Lemma fill_kept :
  o_qty M - qf ≠ 0 →
  let m' := mkMS p4 b1 (ms_sink m ++ evs) (ms_fl m) (ms_q m) (take_qty qf (ms_T m)) in
  on_fill now t x px qf p4 (ms_sink m) = Some (p4, ms_sink m ++ evs) ∧
  ms_inv sym t m' ∧ mtrans now t s m m' ∧ o_qty (ms_T m') = 0.
Proof.
  intros Hz m'. pose proof qf_bounds. pose proof HI as [HP HB Hpos Ht HL Hout HTq].
  assert (o_qty (ms_T m) - qf = 0) as HT0 by (unfold qf in *; lia).
  assert (ms_view s m' = to_a (take_qty qf M) :: (aorder (ms_pool m) <$> l ++ post)) as Hv'.
  { unfold ms_view, ms_slots. simpl. rewrite Em4. fold (ms_slots s m).
    rewrite Esl, fmap_cons, (aorder_at _ _ _ Ax). f_equal. apply aorders_ext.
    intros y [? ?]%Hne. by apply aorder_frame, An. }
  split_and!; [| |split|done]; simpl; try done.
  - rewrite (on_fill_run _ _ _ _ _ _ _ _ _ Ax At). simpl.
    destruct (Z.eqb_spec (o_qty M - qf) 0); done.
  - split; simpl; try done; [|lia]. intros s' p' y Hy.
    destruct (decide (y = x)) as [->|Hyx]; [rewrite (qty_of_at _ _ _ Ax); simpl; lia|].
    unfold qty_of. rewrite An; [by apply (Hpos s' p')|done|]. intros ->. by apply (Hout s' p').
  - apply taker_trans.
  - intros y Hy Hn. apply An; [|done]. intros ->. apply Hn. rewrite Esl. set_solver.
  - intros y Hy Hn. destruct Hn. unfold ms_slots. simpl. by rewrite Em4.
  - exists evs. split; [done|]. rewrite view_front, Hv'.
    rewrite (amatch_fill now _ M px) by (done || apply HM). fold qf evs.
    destruct (Z.eqb_spec (o_qty M - qf) 0); [done|]. f_equal.
    rewrite amatch_done; [done|]. simpl. lia.
Qed.

Lemma fill_removed :
  o_qty M - qf = 0 →
  ∃ p5 b5 p6,
    let m' := mkMS p6 b5 (ms_sink m ++ evs) (x :: ms_fl m) (qupd (ms_q m) s px l)
                (take_qty qf (ms_T m)) in
    unlink p4 b1 s px x = Some (p5, b5) ∧
    on_fill now t x px qf p5 (ms_sink m) = Some (p6, ms_sink m ++ evs) ∧
    ms_inv sym t m' ∧ mtrans now t s m m'.
Proof.
  intros Hz. pose proof qf_bounds. pose proof HI as [HP HB Hpos Ht HL Hout HTq].
  destruct (unlink_ok p4 b1 sym (ms_q m) s px [] x l (take_qty qf M)) as
    (p5 & b5 & EU & HB5 & Em5 & R5 & Ax5); [apply HP4|done..|]. simpl in HB5.
  assert (pool_ok p5 (ms_fl m)) as HP5.
  { apply (relinked_pool_ok p4 p5 (ms_q m s px)); [done..|]. intros y Hy.
    destruct (queued _ _ _ _ _ _ _ HB4 Hy) as (_ & o & Eo & Ho). exact (live_not_free _ _ _ _ HP4 Eo (rs_live _ _ _ _ Ho)). }
  destruct (free_spec p5 (ms_fl m) x _ HP5 Ax5) as (p6 & EF & HP6 & Ax6 & An6 & Len6); [apply HM|].
  assert (at_ p5 t = Some (take_qty qf (ms_T m))) as At5.
  { rewrite (rl_out _ _ _ R5); [done|]. apply Hout. }
  assert (∀ y, y ≠ x → y ∉ ms_q m s px → at_ p6 y = at_ p4 y) as An46.
  { intros y ? ?. rewrite An6 by done. by apply R5. }
  assert (∀ y, y ≠ x → y ≠ t → aorder p6 y = aorder (ms_pool m) y ∧ qty_of p6 y = qty_of (ms_pool m) y)
    as Hsame.
  { intros y Hyx Hyt. split.
    - rewrite (aorder_frame p5) by (by apply An6). rewrite (aorder_relinked _ _ _ _ R5).
      by apply aorder_frame, An.
    - unfold qty_of at 1. rewrite An6 by done. change (qty_of p5 y = qty_of (ms_pool m) y).
      rewrite (qty_of_relinked _ _ _ _ R5). unfold qty_of. by rewrite An. }
  set (m' := mkMS p6 b5 (ms_sink m ++ evs) (x :: ms_fl m) (qupd (ms_q m) s px l) (take_qty qf (ms_T m))).
  pose proof (removed_queue _ _ _ _ s px [] x l HB Eq) as Hsub. simpl in Hsub.
  assert (ms_slots s m' = l ++ post) as Hs' by (unfold ms_slots; simpl; rewrite Em5, Em4; apply El).
  assert (ms_view s m' = aorder (ms_pool m) <$> l ++ post) as Hv'.
  { unfold ms_view. rewrite Hs'. apply aorders_ext. intros y [? ?]%Hne. by apply Hsame. }
  exists p5, b5, p6. split_and!; [done| | |split]; simpl.
  - rewrite (on_fill_run _ _ _ _ _ _ _ _ _ Ax5 At5). simpl. rewrite Hz, EF. done.
  - split; simpl; try done; [| | |by intros s' p' ?%Hsub; naive_solver|lia].
    + eapply book_ok_frame; [|exact HB5]. intros s' p' y [_ Hyx]%Hsub. by apply An6.
    + intros s' p' y [Hy Hyx]%Hsub. assert (y ≠ t) by (intros ->; by apply (Hout s' p')).
      destruct (Hsame y) as [_ ->]; [done..|]. by apply (Hpos s' p').
    + rewrite An6 by done. done.
  - by rewrite Len6, (rl_len _ _ _ R5), Len4.
  - congruence.
  - apply taker_trans.
  - intros s' p' Hs. by apply qupd_ne_side.
  - intros p y ?%Hsub. naive_solver.
  - intros y Hy Hn. rewrite Esl in Hn. rewrite An46; [apply An; set_solver|set_solver|].
    rewrite Eq. set_solver.
  - intros y Hy Hn. rewrite Esl in Hy. fold m' in Hn. rewrite Hs' in Hn. assert (y = x) as -> by set_solver.
    eexists. split; [exact Ax6|done].
  - exists evs. split; [done|]. fold m'. rewrite view_front, Hv'.
    rewrite (amatch_fill now _ M px) by (done || apply HM). fold qf evs. by rewrite Hz.
Qed.
End FillOutcome.

Lemma fill_step now sym t s px m x l filled :
  ms_inv sym t m → ms_q m s px = x :: l → (∀ p, better s p px → ms_q m s p = []) →
  0 < o_qty (ms_T m) → acrosses (o_type (ms_T m)) (to_a (ms_T m)) px = true →
  ∃ m' filled',
    fill_one (on_fill now t) t s px (ms_pool m) (ms_book m) (ms_sink m) filled =
      Some (ms_pool m', ms_book m', ms_sink m', filled') ∧
    ms_inv sym t m' ∧ mtrans now t s m m' ∧ (∀ p, better s p px → ms_q m' s p = []) ∧
    ((ms_q m' s px = l ∧ ms_fl m' = x :: ms_fl m) ∨
     (ms_q m' s px = x :: l ∧ ms_fl m' = ms_fl m ∧ o_qty (ms_T m') = 0)).
Proof.
  intros HI Eq Hf HT Hc.
  destruct (front_slots m sym t s px x l HI Eq Hf) as (post & Esl & El & Hne & Htn).
  pose proof HI as [HP HB Hpos Ht HL Hout HTq].
  assert (x ∈ ms_q m s px) as Hx by (rewrite Eq; set_solver).
  assert (x ≠ t) as Hxt by (intros ->; by apply (Hout s px)).
  destruct (queued _ _ _ _ _ _ _ HB Hx) as (Hp & M & Ex & HM).
  pose proof (Hpos s px x Hx) as HMpos. rewrite (qty_of_at _ _ _ Ex) in HMpos.
  destruct (lo_level _ _ _ _ (bk_levels _ _ _ _ HB) s px) as (lvl & Elvl & Hl); [lia|].
  assert (l_head lvl = x) as Eh by (rewrite (lk_head _ _ _ _ _ _ Hl), Eq; done).
  destruct (fill_quantities _ _ _ _ _ _ _ _ _ _ _ _ _ HI Eq Elvl Ex) as
    (p1 & p2 & p3 & p4 & b1 & U1 & U2 & U3 & U4 & Eb & Ax & At & An & HP4 & HB4 & Em4 & Len4).
  rewrite (fill_one_code now t s px _ _ _ filled lvl x M (ms_T m) p1 p2 p3 p4 b1) by done.
  destruct (Z.eqb_spec (o_qty M - Z.min (o_qty (ms_T m)) (o_qty M)) 0) as [Hz|Hz].
  - destruct (fill_removed now sym t s px m x l post M p4 b1) as (p5 & b5 & p6 & EU & EF & HI' & HT');
      try done.
    rewrite EU. simpl. rewrite EF. simpl. match type of HI' with ms_inv _ _ ?m' => exists m' end.
    eexists. split; [reflexivity|]. split_and!; try done.
    + intros p Hb. simpl. rewrite qupd_ne_price; [by apply Hf|]. intros ->. by apply better_irrefl in Hb.
    + left. simpl. by rewrite qupd_eq.
  - destruct (fill_kept now sym t s px m x l post M p4 b1) as (EF & HI' & HT' & HT0); try done.
    simpl. rewrite EF. simpl. match type of HI' with ms_inv _ _ ?m' => exists m' end.
    eexists. split; [reflexivity|]. split_and!; try done. by right.
Qed.

(** ** The loops *)
Lemma taker_notin sym t s m : ms_inv sym t m → t ∉ ms_slots s m.
Proof. intros HI (p & _ & Hy)%elem_of_flat. by apply (mi_out _ _ _ _ _ _ _ HI s p). Qed.

(** The taker's type, side and limit do not change while it matches. *)
Lemma acrosses_same T T' px :
  same_but_qty T T' → acrosses (o_type T') (to_a T') px = acrosses (o_type T) (to_a T) px.
Proof. intros ->. done. Qed.

Lemma match_level_ok now sym t s px fuel m filled :
  ms_inv sym t m → 1 ≤ px ≤ max_price_ (ms_book m) → (∀ p, better s p px → ms_q m s p = []) →
  acrosses (o_type (ms_T m)) (to_a (ms_T m)) px = true →
  ((if (o_qty (ms_T m) =? 0)%Z then 0 else length (ms_q m s px)) < fuel)%nat →
  ∃ m' filled',
    match_level (on_fill now t) fuel t s px (ms_pool m) (ms_book m) (ms_sink m) filled =
      Some (ms_pool m', ms_book m', ms_sink m', filled') ∧
    ms_inv sym t m' ∧ mtrans now t s m m' ∧
    (o_qty (ms_T m') = 0 ∨ ms_q m' s px = []) ∧
    (length (ms_fl m') + length (ms_q m' s px) = length (ms_fl m) + length (ms_q m s px))%nat.
Proof.
  revert m filled. induction fuel as [|fuel IH]; intros m filled HI Hp Hf Hc Hfuel; [lia|].
  pose proof HI as [HP HB Hpos Ht HL Hout HTq].
  destruct (lo_level _ _ _ _ (bk_levels _ _ _ _ HB) s px) as (lvl & Elvl & Hl); [lia|].
  simpl. rewrite Ht. simpl. rewrite Elvl. simpl. rewrite (lk_head _ _ _ _ _ _ Hl).
  destruct (Z.ltb_spec 0 (o_qty (ms_T m))) as [HT|HT]; simpl; cycle 1.
  { exists m, filled. split_and!; try done; [apply mtrans_refl|left; lia]. }
  destruct (ms_q m s px) as [|x l] eqn:Eq; simpl.
  { exists m, filled. split_and!; try done; [apply mtrans_refl|by right|by rewrite Eq]. }
  assert (x ∈ ms_q m s px) as Hx by (rewrite Eq; set_solver).
  destruct (queued _ _ _ _ _ _ _ HB Hx) as (_ & M & Ex & _).
  pose proof (slot_lt_kNull _ _ _ _ HP Ex). destruct (Z.eqb_spec x kNull); [lia|]. simpl.
  destruct (fill_step now sym t s px m x l filled HI Eq Hf HT Hc) as
    (m1 & filled1 & -> & HI1 & HT1 & Hf1 & Hcase). simpl.
  destruct (Z.eqb_spec (o_qty (ms_T m)) 0); [lia|].
  destruct (IH m1 filled1) as (m2 & filled2 & -> & HI2 & HT2 & Hend & Hlen); try done.
  - by rewrite (mt_max _ _ _ _ _ HT1).
  - by rewrite (acrosses_same (ms_T m)) by apply HT1.
  - destruct Hcase as [[-> _]|(_ & _ & ->)]; simpl in *; [case_match|]; lia.
  - exists m2, filled2. split_and!; try done.
    + eapply mtrans_trans; [by apply taker_notin with sym|done..].
    + rewrite Hlen. destruct Hcase as [[-> ->]|(-> & -> & _)]; simpl; lia.
Qed.

(** At a best price that does not cross, matching stops. *)
Lemma front_stops now sym t s px m :
  ms_inv sym t m → ms_q m s px ≠ [] → (∀ p, better s p px → ms_q m s p = []) →
  acrosses (o_type (ms_T m)) (to_a (ms_T m)) px = false →
  amatch now (o_type (ms_T m)) (to_a (ms_T m)) (ms_view s m) = ([], to_a (ms_T m), ms_view s m).
Proof.
  intros HI Hne Hfront Hc. destruct (ms_q m s px) as [|x l] eqn:Eq; [done|].
  destruct (front_slots m sym t s px x l HI Eq Hfront) as (post & Esl & _).
  assert (x ∈ ms_q m s px) as Hx by (rewrite Eq; set_solver).
  destruct (queued _ _ _ _ _ _ _ (mi_book _ _ _ _ _ _ _ HI) Hx) as (_ & M & Ex & HM).
  unfold ms_view. rewrite Esl, fmap_cons, (aorder_at _ _ _ Ex). apply amatch_stop.
  simpl. by rewrite (rs_price _ _ _ _ HM).
Qed.

Lemma match_loop_ok now sym t s fuel m filled :
  ms_inv sym t m → s = opposite (o_side (ms_T m)) →
  ((if (o_qty (ms_T m) =? 0)%Z then 0 else length (slots_ (ms_pool m)) - length (ms_fl m)) < fuel)%nat →
  ∃ m' filled',
    match_loop (on_fill now t) fuel t s (ms_pool m) (ms_book m) (ms_sink m) filled =
      Some (ms_pool m', ms_book m', ms_sink m', filled') ∧
    ms_inv sym t m' ∧ mtrans now t s m m' ∧
    amatch now (o_type (ms_T m')) (to_a (ms_T m')) (ms_view s m') = ([], to_a (ms_T m'), ms_view s m').
Proof.
  revert m filled. induction fuel as [|fuel IH]; intros m filled HI Hs Hfuel; [lia|].
  pose proof HI as [HP HB Hpos Ht HL Hout HTq].
  cbn [match_loop]. rewrite Ht. cbn [mbind option_bind].
  destruct (Z.ltb_spec 0 (o_qty (ms_T m))) as [HT|HT]; cbn [negb]; cycle 1.
  { exists m, filled. split_and!; try done; [apply mtrans_refl|by apply amatch_done]. }
  unfold best. pose proof (ix_best _ _ (bk_index _ _ _ _ HB) s) as Hbest.
  destruct (Z.eqb_spec (sget s (best_ (ms_book m))) kNoPrice) as [Hn|Hn].
  { exists m, filled. split_and!; try done; [apply mtrans_refl|].
    destruct Hbest as [[_ Hnil]|[? _]]; [|done].
    unfold ms_view, ms_slots. rewrite flat_nil by done. done. }
  set (px := sget s (best_ (ms_book m))) in *.
  pose proof (is_best_front _ _ _ Hbest Hn) as Hfront.
  destruct (best_range _ _ _ _ s HB Hn) as [Hpx Hne]. fold px in Hpx, Hne.
  assert (bool_decide (o_type (ms_T m) = Limit) && negb (crosses (o_side (ms_T m)) (o_price (ms_T m)) px)
    = negb (acrosses (o_type (ms_T m)) (to_a (ms_T m)) px)) as ->
    by (unfold acrosses; by destruct (o_type (ms_T m))).
  destruct (acrosses _ _ px) eqn:Hc; cbn [negb]; cycle 1.
  { exists m, filled. split_and!; try done; [apply mtrans_refl|by eapply front_stops]. }
  assert (length (ms_q m s px) ≤ length (slots_ (ms_pool m)))%nat as Hql.
  { destruct (lo_level _ _ _ _ (bk_levels _ _ _ _ HB) s px) as (lvl & _ & Hl); [lia|].
    pose proof (queue_length _ _ _ _ _ _ Hl). lia. }
  destruct (match_level_ok now sym t s px (match_fuel (ms_pool m)) m filled) as
    (m1 & filled1 & -> & HI1 & HT1 & Hend & Hlen); try done.
  { unfold match_fuel. case_match; lia. }
  simpl. destruct (Z.eqb_spec (o_qty (ms_T m)) 0); [lia|].
  destruct (IH m1 filled1) as (m2 & filled2 & -> & HI2 & HT2 & Ha); try done.
  - destruct (mt_T _ _ _ _ _ HT1) as [-> _]. done.
  - rewrite (mt_len _ _ _ _ _ HT1). pose proof (live_room _ _ _ _ HP Ht HL) as Hroom. simpl in Hroom.
    destruct Hend as [->|Hnil]; [simpl; lia|].
    rewrite Hnil in Hlen. simpl in Hlen. assert (length (ms_q m s px) ≠ 0)%nat by (by destruct (ms_q m s px)).
    pose proof (fl_length _ _ (mi_pool _ _ _ _ _ _ _ HI1)) as Hfl.
    rewrite (mt_len _ _ _ _ _ HT1) in Hfl. case_match; lia.
  - exists m2, filled2. split_and!; try done.
    eapply mtrans_trans; [by apply taker_notin with sym|done..].
Qed.

(** [Book::match] as a whole. *)
Lemma match_ok now sym t m :
  ms_inv sym t m →
  let s := opposite (o_side (ms_T m)) in
  ∃ m' filled',
    match_ (on_fill now t) (ms_pool m) (ms_book m) t (ms_sink m) =
      Some (ms_pool m', ms_book m', ms_sink m', filled') ∧
    ms_inv sym t m' ∧ mtrans now t s m m' ∧
    ∃ evs, ms_sink m' = ms_sink m ++ evs ∧
      amatch now (o_type (ms_T m)) (to_a (ms_T m)) (ms_view s m) = (evs, to_a (ms_T m'), ms_view s m').
Proof.
  intros HI s. unfold match_. rewrite (mi_taker _ _ _ _ _ _ _ HI). simpl.
  destruct (match_loop_ok now sym t s (match_fuel (ms_pool m)) m 0 HI eq_refl) as
    (m' & filled' & E & HI' & HT' & Ha).
  { unfold match_fuel. case_match; lia. }
  exists m', filled'. split_and!; try done.
  destruct (mt_match _ _ _ _ _ HT') as (evs & Es & Em). exists evs. split; [done|].
  rewrite Em, Ha. simpl. by rewrite app_nil_r.
Qed.
