(* ===== verification/Abs.v ===== *)
(** The abstraction function from the engine's memory to the specification's
    exchange: walk every level's links, concatenate the levels best price
    first, and read each slot as an abstract order. *)
From S2P Require Import Prelude Types Pool Bitmap Book Links Queues BookInv BookOps Engine Spec MatchRefine.

(** Follow [next] links from slot [x]. *)
Fixpoint walk (fuel : nat) (pool : Pool) (x : Z) : list Z :=
  match fuel with
  | O => []
  | S fuel =>
      if x =? kNull then [] else
      match at_ pool x with Some o => x :: walk fuel pool (o_next o) | None => [] end
  end.

Definition queues_of (pool : Pool) (b : Book) : queues := λ s p,
  match level b s p with
  | Some lvl => walk (S (length (slots_ pool))) pool (l_head lvl)
  | None => []
  end.

Definition view (pool : Pool) (max : Z) (q : queues) (s : Side) : list AOrder :=
  aorder pool <$> flat max q s.

Definition vbook (pool : Pool) (max : Z) (q : queues) : ABook :=
  mkSides (view pool max q Buy) (view pool max q Sell).

Definition abs_book (pool : Pool) (b : Book) : ABook := vbook pool (max_price_ b) (queues_of pool b).

Definition abs (e : Engine) : Exchange :=
  mkExchange (max_price (cfg_ e)) (abs_book (pool_ e) <$> books_ e).

(** ** The walk reads the queue *)
Lemma walk_dseg pool a l fuel :
  fits pool → dseg pool a l kNull → (length l < fuel)%nat → walk fuel pool (fst_or kNull l) = l.
Proof.
  intros Hfit. revert a fuel. induction l as [|x l IH]; intros a fuel Hd Hf.
  { by destruct fuel. }
  destruct fuel as [|fuel]; simpl in *; [lia|]. destruct Hd as [(o & E & _ & Hn) Hd].
  pose proof (at_range _ _ _ E). destruct (Z.eqb_spec x kNull); [lia|].
  rewrite E, Hn. f_equal. eapply IH; [done|lia].
Qed.

Lemma queues_of_ok pool b sym q : fits pool → book_ok pool b sym q → queues_of pool b ≡ q.
Proof.
  intros Hfit HB s p. unfold queues_of. destruct (decide (0 ≤ p ≤ max_price_ b)) as [Hp|Hp].
  - destruct (lo_level _ _ _ _ (bk_levels _ _ _ _ HB) s p Hp) as (lvl & -> & Hl).
    rewrite (lk_head _ _ _ _ _ _ Hl). eapply walk_dseg; [done|apply Hl|].
    pose proof (queue_length _ _ _ _ _ _ Hl). lia.
  - assert (q s p = []) as ->.
    { destruct (q s p) eqn:E; [done|].
      assert (1 ≤ p ≤ max_price_ b); [|lia].
      apply (lo_dom _ _ _ _ (bk_levels _ _ _ _ HB) s). by rewrite E. }
    unfold level. rewrite vget_None; [done|]. rewrite (lo_len _ _ _ _ (bk_levels _ _ _ _ HB)). lia.
Qed.

Lemma abs_book_ok pool b sym q :
  fits pool → book_ok pool b sym q → abs_book pool b = vbook pool (max_price_ b) q.
Proof.
  intros Hfit HB. unfold abs_book, vbook, view.
  by rewrite !(flat_proper _ _ _ (queues_of_ok _ _ _ _ Hfit HB) _ _ eq_refl).
Qed.

Lemma sget_vbook pool max q s : sget s (vbook pool max q) = view pool max q s.
Proof. by destruct s. Qed.

(** ** Locating a slot in the priority order *)
Lemma flat_locate pool b sym q s p l1 x l2 :
  book_ok pool b sym q → q s p = l1 ++ x :: l2 →
  ∃ A B, flat (max_price_ b) q s = A ++ x :: B ∧
    flat (max_price_ b) (qupd q s p (l1 ++ l2)) s = A ++ B ∧ x ∉ A ++ B.
Proof.
  intros HB Eq. assert (x ∈ q s p) as Hx by (rewrite Eq; set_solver).
  destruct (queued _ _ _ _ _ _ _ HB Hx) as [Hp _].
  destruct (flat_split (max_price_ b) q s p Hp) as (pre & post & E & El & Hpre & Hpost).
  destruct (lo_level _ _ _ _ (bk_levels _ _ _ _ HB) s p) as (lvl & _ & Hl); [lia|].
  pose proof (lk_nodup _ _ _ _ _ _ Hl) as Hnd. rewrite Eq in Hnd.
  apply NoDup_app in Hnd as (_ & Hd & [Hx2 _]%NoDup_cons).
  exists (pre ++ l1), (l2 ++ post). rewrite E, El, Eq, <- !app_assoc. simpl. split_and!; try done.
  assert (∀ p', better s p' p ∨ better s p p' → x ∉ q s p') as Hother.
  { intros p' Hb Hx'. destruct (queued_unique _ _ _ _ _ _ _ _ _ HB Hx Hx') as [_ ->].
    destruct Hb as [[]%better_irrefl|[]%better_irrefl]. }
  rewrite !elem_of_app. intros [Hi|[Hi|[Hi|Hi]]].
  - destruct (Hpre x Hi) as (p' & ? & _ & ?). eapply Hother; eauto.
  - apply (Hd x Hi). set_solver.
  - done.
  - destruct (Hpost x Hi) as (p' & ? & _ & ?). eapply Hother; eauto.
Qed.

(** Orders in the priority list are at their side and price. *)
Lemma view_elem pool b sym q s x :
  book_ok pool b sym q → x ∈ flat (max_price_ b) q s →
  ∃ o, at_ pool x = Some o ∧ rests sym s (o_price o) o ∧ x ∈ q s (o_price o).
Proof.
  intros HB (p & _ & Hx)%elem_of_flat.
  destruct (queued _ _ _ _ _ _ _ HB Hx) as (_ & o & E & Ho). exists o.
  by rewrite (rs_price _ _ _ _ Ho).
Qed.

(** ** Top of book *)
Lemma side_top_ok pool b sym q s :
  book_ok pool b sym q →
  aside_best (view pool (max_price_ b) q s) = sget s (best_ b) ∧
  aside_qty (view pool (max_price_ b) q s) = best_qty pool q s (sget s (best_ b)).
Proof.
  intros HB. unfold best_qty, view.
  destruct (Z.eqb_spec (sget s (best_ b)) kNoPrice) as [Hn|Hn].
  { assert (∀ p, q s p = []) as Hnil.
    { destruct (ix_best _ _ (bk_index _ _ _ _ HB) s) as [[_ ?]|[? _]]; done. }
    rewrite flat_nil by done. done. }
  destruct (best_range _ _ _ _ s HB Hn) as [Hr Hne]. set (r := sget s (best_ b)) in *.
  destruct (flat_front (max_price_ b) q s r) as (post & E & _ & Hpost); [|done|].
  { by apply is_best_front, Hn; apply (ix_best _ _ (bk_index _ _ _ _ HB)). }
  assert (∀ p y, y ∈ q s p → a_price (aorder pool y) = p) as Hpx.
  { intros p y Hy. destruct (queued _ _ _ _ _ _ _ HB Hy) as (_ & o & Eo & Ho).
    rewrite (aorder_at _ _ _ Eo). apply Ho. }
  rewrite E, fmap_app. destruct (q s r) as [|x l] eqn:Eq; [done|].
  assert (a_price (aorder pool x) = r) as Hxr by (apply Hpx; rewrite Eq; set_solver).
  assert (aside_best ((aorder pool <$> x :: l) ++ (aorder pool <$> post)) = a_price (aorder pool x)) as ->
    by done.
  split; [done|].
  assert (aside_qty ((aorder pool <$> x :: l) ++ (aorder pool <$> post)) =
    u32 (zsum (a_qty <$> filter (λ m, a_price m = a_price (aorder pool x))
      ((aorder pool <$> x :: l) ++ (aorder pool <$> post))))) as -> by done.
  rewrite Hxr, filter_app, filter_all, filter_none, app_nil_r.
  - do 2 f_equal. rewrite <- list_fmap_compose. apply list_fmap_ext. intros i y Hy.
    assert (y ∈ q s r) as Hyq by (rewrite Eq; by eapply list_elem_of_lookup_2).
    destruct (queued _ _ _ _ _ _ _ HB Hyq) as (_ & o & Eo & Ho).
    unfold compose. by rewrite (aorder_at _ _ _ Eo), (qty_of_at _ _ _ Eo).
  - intros m (y & -> & Hy)%list_elem_of_fmap Hbad. destruct (Hpost y Hy) as (p & Hb & _ & Hyp).
    rewrite (Hpx p y Hyp) in Hbad. subst p. by apply better_irrefl in Hb.
  - intros m (y & -> & Hy)%list_elem_of_fmap. apply Hpx. by rewrite Eq.
Qed.

Lemma atop_ok pool b sym q :
  book_ok pool b sym q → top b = Some (atop (vbook pool (max_price_ b) q)).
Proof.
  intros HB. rewrite (top_ok _ _ _ _ HB). unfold atop. rewrite !sget_vbook.
  destruct (side_top_ok _ _ _ _ Buy HB) as [-> ->]. destruct (side_top_ok _ _ _ _ Sell HB) as [-> ->]. done.
Qed.

(** ** Removing, inserting and changing one order in the view *)
Lemma view_drop pool b sym q s p l1 x l2 o :
  book_ok pool b sym q → q s p = l1 ++ x :: l2 → at_ pool x = Some o →
  (∀ y oy, at_ pool y = Some oy → o_live oy = true → o_id oy = o_id o → y = x) →
  view pool (max_price_ b) (qupd q s p (l1 ++ l2)) s =
  filter (λ m, a_id m ≠ o_id o) (view pool (max_price_ b) q s).
Proof.
  intros HB Eq Ex Hid. destruct (flat_locate _ _ _ _ _ _ _ _ _ HB Eq) as (A & B & E & E' & Hn).
  assert (∀ m, m ∈ aorder pool <$> A ++ B → a_id m ≠ o_id o) as Hne.
  { intros m (y & -> & Hy)%list_elem_of_fmap Hbad.
    destruct (view_elem _ _ _ _ s y HB) as (oy & Ey & Hoy & _); [rewrite E; set_solver|].
    rewrite (aorder_at _ _ _ Ey) in Hbad. assert (y = x) as -> by (eapply Hid; eauto; apply Hoy). done. }
  unfold view. rewrite E, E', !fmap_app, fmap_cons. rewrite fmap_app in Hne.
  rewrite filter_app, filter_cons_False; [|rewrite (aorder_at _ _ _ Ex); naive_solver].
  rewrite !filter_all; [done|set_solver..].
Qed.

Lemma arest_split a A B :
  (∀ m, m ∈ A → betterb (a_side a) (a_price a) (a_price m) = false) →
  (∀ m, m ∈ B → betterb (a_side a) (a_price a) (a_price m) = true) →
  arest a (A ++ B) = A ++ a :: B.
Proof.
  induction A as [|m A IH]; intros HA HB; simpl.
  - destruct B as [|m B]; [done|]. simpl. by rewrite (HB m) by set_solver.
  - rewrite (HA m) by set_solver. f_equal. apply IH; [set_solver|done].
Qed.

Lemma betterb_spec s a b : betterb s a b = true ↔ better s a b.
Proof. destruct s; simpl; lia. Qed.

Lemma view_rest pool b sym q s p x o :
  book_ok pool b sym q → 1 ≤ p ≤ max_price_ b → at_ pool x = Some o → o_side o = s → o_price o = p →
  view pool (max_price_ b) (qupd q s p (q s p ++ [x])) s =
  arest (to_a o) (view pool (max_price_ b) q s).
Proof.
  intros HB Hp Ex Hs Hpx.
  destruct (flat_split (max_price_ b) q s p Hp) as (pre & post & E & El & Hpre & Hpost).
  assert (∀ p' y, y ∈ q s p' → a_price (aorder pool y) = p') as Hprice.
  { intros p' y Hy. destruct (queued _ _ _ _ _ _ _ HB Hy) as (_ & oy & Ey & Hoy).
    rewrite (aorder_at _ _ _ Ey). apply Hoy. }
  unfold view. rewrite E, El.
  replace (pre ++ (q s p ++ [x]) ++ post) with ((pre ++ q s p) ++ x :: post) by (by rewrite <- !app_assoc).
  rewrite (app_assoc pre), (fmap_app _ (pre ++ q s p)), (fmap_app _ (pre ++ q s p)), fmap_cons, (aorder_at _ _ _ Ex).
  rewrite arest_split; [done|..]; simpl; rewrite Hs, Hpx.
  - intros m Hm. apply not_true_is_false. rewrite betterb_spec. intros Hb.
    apply list_elem_of_fmap in Hm as (y & -> & [Hy|Hy]%elem_of_app).
    + destruct (Hpre y Hy) as (p' & Hb' & _ & Hyp). rewrite (Hprice p' y Hyp) in Hb.
      pose proof (better_trans _ _ _ _ Hb Hb') as []%better_irrefl.
    + rewrite (Hprice p y Hy) in Hb. by apply better_irrefl in Hb.
  - intros m (y & -> & Hy)%list_elem_of_fmap. apply betterb_spec.
    destruct (Hpost y Hy) as (p' & Hb' & _ & Hyp). by rewrite (Hprice p' y Hyp).
Qed.

Lemma view_frame pool pool' max q s :
  (∀ y, y ∈ flat max q s → aorder pool' y = aorder pool y) →
  view pool' max q s = view pool max q s.
Proof. apply aorders_ext. Qed.
