(* ===== verification/EngineInv.v ===== *)
(** The engine invariant: one pool shared by all books, every live order
    queued in exactly the book, side and price its fields name (except an
    order in flight while it is being matched). *)
From S2P Require Import Prelude Types Pool Bitmap Book Links Queues BookInv BookOps Engine Spec MatchRefine Abs.

Record engine_inv (e : Engine) (fl : list Z) (qs : Z → queues) (t : option Z) : Prop := {
  ei_pool : pool_ok (pool_ e) fl;
  ei_book : ∀ sym b, vget (books_ e) sym = Some b →
    book_ok (pool_ e) b sym (qs sym) ∧ max_price_ b = max_price (cfg_ e);
  ei_pos : ∀ sym b s p x, vget (books_ e) sym = Some b → x ∈ qs sym s p → 0 < qty_of (pool_ e) x;
  ei_queued : ∀ x o, at_ (pool_ e) x = Some o → o_live o = true → Some x ≠ t →
    is_Some (vget (books_ e) (o_symbol o)) ∧ x ∈ qs (o_symbol o) (o_side o) (o_price o) }.

(** The invariant between commands. *)
Definition engine_ok (e : Engine) : Prop := ∃ fl qs, engine_inv e fl qs None.

Definition qsupd (qs : Z → queues) (sym : Z) (q : queues) : Z → queues :=
  λ sym', if decide (sym = sym') then q else qs sym'.

(** Symbol [sym]'s book as the specification sees it. *)
Definition eabs (e : Engine) (sym : Z) : option ABook :=
  abs_book (pool_ e) <$> vget (books_ e) sym.

Lemma qsupd_eq qs sym q : qsupd qs sym q sym = q.
Proof. unfold qsupd. by rewrite decide_True. Qed.

Lemma qsupd_ne qs sym sym' q : sym ≠ sym' → qsupd qs sym q sym' = qs sym'.
Proof. intros. unfold qsupd. by rewrite decide_False. Qed.

Lemma eabs_ok e fl qs t sym b :
  engine_inv e fl qs t → vget (books_ e) sym = Some b →
  eabs e sym = Some (vbook (pool_ e) (max_price (cfg_ e)) (qs sym)).
Proof.
  intros H Eb. unfold eabs. rewrite Eb. simpl. destruct (ei_book _ _ _ _ H _ _ Eb) as [HB Hm].
  rewrite (abs_book_ok _ _ _ _ (po_cap _ _ (ei_pool _ _ _ _ H)) HB). by rewrite Hm.
Qed.

(** A slot queued for another symbol is not one of this symbol's. *)
Lemma queued_symbol e fl qs t sym b s p x :
  engine_inv e fl qs t → vget (books_ e) sym = Some b → x ∈ qs sym s p →
  ∃ o, at_ (pool_ e) x = Some o ∧ rests sym s p o.
Proof.
  intros H Eb Hx. destruct (ei_book _ _ _ _ H _ _ Eb) as [HB _].
  by destruct (queued _ _ _ _ _ _ _ HB Hx) as (_ & ?).
Qed.

(** Replace the pool and one book; the slots of the other symbols are framed. *)
Lemma engine_inv_update e fl qs t sym b b' bs' pool' fl' q' t' sink' :
  engine_inv e fl qs t → vget (books_ e) sym = Some b → vset (books_ e) sym b' = Some bs' →
  pool_ok pool' fl' → book_ok pool' b' sym q' → max_price_ b' = max_price_ b →
  (∀ s p x, x ∈ q' s p → 0 < qty_of pool' x) →
  (∀ sym' b'' s p y, sym' ≠ sym → vget (books_ e) sym' = Some b'' → y ∈ qs sym' s p →
     at_ pool' y = at_ (pool_ e) y) →
  (∀ x o, at_ pool' x = Some o → o_live o = true → Some x ≠ t' →
     (o_symbol o = sym ∧ x ∈ q' (o_side o) (o_price o)) ∨
     (o_symbol o ≠ sym ∧ at_ (pool_ e) x = Some o ∧ Some x ≠ t)) →
  let e' := mkEngine (cfg_ e) sink' pool' bs' (now_ns_ e) in
  engine_inv e' fl' (qsupd qs sym q') t' ∧
  eabs e' sym = Some (vbook pool' (max_price (cfg_ e)) q') ∧
  (∀ sym', sym' ≠ sym → eabs e' sym' = eabs e sym') ∧
  vget bs' sym = Some b'.
Proof.
  intros H Eb Ebs HP HB Hmax Hpos Hf Hq e'.
  assert (vget bs' sym = Some b') as Eb' by (by eapply vget_vset_eq).
  assert (∀ sym', sym' ≠ sym → vget bs' sym' = vget (books_ e) sym') as Hne.
  { intros sym' Hs. by eapply vget_vset_ne. }
  pose proof (ei_book _ _ _ _ H _ _ Eb) as [_ Hmx].
  assert (engine_inv e' fl' (qsupd qs sym q') t') as HI.
  { split; simpl; [done|..].
    - intros sym' b''. destruct (decide (sym' = sym)) as [->|Hs].
      + rewrite Eb', qsupd_eq. intros. inv_some. split; [done|congruence].
      + rewrite Hne, qsupd_ne by done. intros Eb''. destruct (ei_book _ _ _ _ H _ _ Eb'') as [HB'' ?].
        split; [|done]. eapply book_ok_frame; [|done]. intros s p y Hy. by eapply Hf.
    - intros sym' b'' s p x. destruct (decide (sym' = sym)) as [->|Hs].
      + rewrite qsupd_eq. intros _. apply Hpos.
      + rewrite Hne, qsupd_ne by done. intros Eb'' Hx. unfold qty_of.
        rewrite (Hf sym' b'' s p x) by done. by eapply (ei_pos _ _ _ _ H sym').
    - intros x o E L Ht. destruct (Hq x o E L Ht) as [[-> Hx]|(Hs & E' & Ht')].
      + rewrite qsupd_eq, Eb'. eauto.
      + rewrite qsupd_ne, Hne by done. by apply (ei_queued _ _ _ _ H). }
  split_and!; [done| | |done].
  - pose proof (eabs_ok e' fl' (qsupd qs sym q') t' sym b' HI Eb') as ->.
    simpl. by rewrite qsupd_eq.
  - intros sym' Hs. unfold eabs. simpl. rewrite Hne by done.
    destruct (vget (books_ e) sym') as [b''|] eqn:Eb''; [|done]. simpl. f_equal.
    destruct (ei_book _ _ _ _ H _ _ Eb'') as [HB'' _].
    rewrite (abs_book_ok _ _ _ _ (po_cap _ _ (ei_pool _ _ _ _ H)) HB'').
    assert (book_ok pool' b'' sym' (qs sym')) as HB3.
    { eapply book_ok_frame; [|done]. intros s p y Hy. by eapply Hf. }
    rewrite (abs_book_ok _ _ _ _ (po_cap _ _ HP) HB3). unfold vbook.
    f_equal; apply view_frame; intros y (p & _ & Hy)%elem_of_flat; apply aorder_frame; by eapply Hf.
Qed.

(** Ids of live orders determine the slot. *)
Lemma live_id_slot e fl qs t x o :
  engine_inv e fl qs t → at_ (pool_ e) x = Some o → o_live o = true →
  ∀ y oy, at_ (pool_ e) y = Some oy → o_live oy = true → o_id oy = o_id o → y = x.
Proof. intros H E L y oy Ey Ly Hid. eapply live_id_inj; [apply H|done..]. Qed.

(** What a command handler does to the engine: the specification's result for
    symbol [sym], nothing for the others. *)
Record handled (e e' : Engine) (sym : Z) (r : list Event * ABook) : Prop := {
  hd_ok : engine_ok e';
  hd_sink : sink_ e' = sink_ e ++ fst r;
  hd_cfg : cfg_ e' = cfg_ e;
  hd_now : now_ns_ e' = now_ns_ e;
  hd_len : length (books_ e') = length (books_ e);
  hd_sym : eabs e' sym = Some (snd r);
  hd_other : ∀ sym', sym' ≠ sym → eabs e' sym' = eabs e sym' }.

(** A rejected command leaves the books alone. *)
Lemma handled_reject e sym c r bk :
  engine_ok e → eabs e sym = Some bk →
  handled e (reject c r e) sym ([reject_event (now_ns_ e) c r], bk).
Proof. intros (fl & qs & []) Eb. split; try done. exists fl, qs. by split. Qed.
