(* ===== verification/EngineRefine.v ===== *)
(** Every handler of [Engine] implements its specification and keeps the
    engine invariant. *)
From S2P Require Import Prelude Types Pool Bitmap Book Links Queues BookInv BookOps Engine Spec.
From S2P Require Import MatchRefine Abs EngineInv.

Lemma set_book_eq sym b e bs :
  vset (books_ e) sym b = Some bs →
  set_book sym b e = Some (mkEngine (cfg_ e) (sink_ e) (pool_ e) bs (now_ns_ e)).
Proof. intros E. unfold set_book. by rewrite E. Qed.

(** Writing a vector element twice. *)
Lemma vset_vset {A} (l l1 l2 : list A) i x y :
  vset l i x = Some l1 → vset l1 i y = Some l2 → vset l i y = Some l2.
Proof.
  intros E1 E2. pose proof (vset_lt _ _ _ _ E1) as Hlt.
  destruct (vset_is_Some l i y Hlt) as [l3 E3]. rewrite E3. f_equal. apply vget_ext. intros j.
  rewrite (vget_vset _ _ _ j _ E3), (vget_vset _ _ _ j _ E2), (vget_vset _ _ _ j _ E1).
  by case_decide.
Qed.

(** ** Matching and resting *)
Section MatchAndRest.
Context (e : Engine) (fl : list Z) (qs : Z → queues) (t sym : Z) (b : Book) (T : Order).
Hypothesis HE : engine_inv e fl qs (Some t).
Hypothesis Eb : vget (books_ e) sym = Some b.
Hypothesis Et : at_ (pool_ e) t = Some T.
Hypothesis Tlive : o_live T = true.
Hypothesis Tsym : o_symbol T = sym.
Hypothesis Tqty : 0 < o_qty T < 2 ^ 32.
Hypothesis Tprice : o_type T = Limit → 1 ≤ o_price T ≤ max_price_ b.
Hypothesis Tout : ∀ sym' b' s p, vget (books_ e) sym' = Some b' → t ∉ qs sym' s p.

Let s : Side := opposite (o_side T).
Let m : MS := mkMS (pool_ e) b (sink_ e) fl (qs sym) T.
Let max : Z := max_price (cfg_ e).

Lemma start_inv : ms_inv sym t m.
Proof.
  destruct (ei_book _ _ _ _ HE _ _ Eb) as [HB _]. split; simpl; try done.
  - apply HE.
  - intros s' p x. by eapply (ei_pos _ _ _ _ HE).
  - intros s' p. by eapply Tout.
  - lia.
Qed.

Lemma book_max : max_price_ b = max.
Proof. by destruct (ei_book _ _ _ _ HE _ _ Eb). Qed.

Section AfterMatch.
Context (m1 : MS).
Hypothesis HI1 : ms_inv sym t m1.
Hypothesis HT1 : mtrans (now_ns_ e) t s m m1.

Lemma after_other sym' b' s' p y :
  sym' ≠ sym → vget (books_ e) sym' = Some b' → y ∈ qs sym' s' p →
  y ≠ t ∧ (∀ s'' p', y ∉ ms_q m1 s'' p') ∧ at_ (ms_pool m1) y = at_ (pool_ e) y.
Proof.
  intros Hs Eb' Hy. assert (y ≠ t) as Hyt by (intros ->; by eapply Tout).
  destruct (queued_symbol _ _ _ _ _ _ _ _ _ HE Eb' Hy) as (o & Eo & Ho).
  assert (∀ s'' p', y ∉ qs sym s'' p') as Hn.
  { intros s'' p' Hin. destruct (queued_symbol _ _ _ _ _ _ _ _ _ HE Eb Hin) as (o' & Eo' & Ho').
    rewrite Eo in Eo'. inv_some. apply Hs. by rewrite <- (rs_symbol _ _ _ _ Ho), <- (rs_symbol _ _ _ _ Ho'). }
  split_and!; [done| |].
  - intros s'' p' Hin. destruct (decide (s'' = s)) as [->|Hss].
    + apply (Hn s p'). by apply (mt_sub _ _ _ _ _ HT1).
    + rewrite (mt_own _ _ _ _ _ HT1) in Hin by done. by apply (Hn s'' p').
  - apply (mt_out _ _ _ _ _ HT1); [done|]. intros (p' & _ & Hin)%elem_of_flat. by apply (Hn s p').
Qed.

Lemma after_queued x o :
  at_ (ms_pool m1) x = Some o → o_live o = true → x ≠ t →
  (o_symbol o = sym ∧ x ∈ ms_q m1 (o_side o) (o_price o)) ∨
  (o_symbol o ≠ sym ∧ at_ (pool_ e) x = Some o).
Proof.
  intros Ex L Hx. destruct (decide (x ∈ ms_slots s m)) as [Hin|Hin].
  - destruct (decide (x ∈ ms_slots s m1)) as [Hin1|Hin1]; cycle 1.
    { destruct (mt_dead _ _ _ _ _ HT1 x Hin Hin1) as (o' & Ex' & L'). congruence. }
    left. apply elem_of_flat in Hin1 as (p & _ & Hq).
    destruct (queued _ _ _ _ _ _ _ (mi_book _ _ _ _ _ _ _ HI1) Hq) as (_ & o' & Ex' & Ho).
    rewrite Ex in Ex'. inv_some. split; [apply Ho|]. by rewrite (rs_side _ _ _ _ Ho), (rs_price _ _ _ _ Ho).
  - rewrite (mt_out _ _ _ _ _ HT1) in Ex by done. simpl in Ex.
    destruct (ei_queued _ _ _ _ HE x o Ex L) as [_ Hq]; [congruence|].
    destruct (decide (o_symbol o = sym)) as [Es|]; [left|by right].
    split; [done|]. rewrite Es in Hq. rewrite (mt_own _ _ _ _ _ HT1); [done|].
    intros Hside. apply Hin, elem_of_flat. exists (o_price o). rewrite <- Hside. split; [|done].
    destruct (ei_book _ _ _ _ HE _ _ Eb) as [HB _]. by destruct (queued _ _ _ _ _ _ _ HB Hq).
Qed.

Lemma after_own : view (ms_pool m1) max (ms_q m1) (o_side T) = view (pool_ e) max (qs sym) (o_side T).
Proof.
  unfold view. rewrite (flat_ext max (ms_q m1) (qs sym)); cycle 1.
  { intros p. rewrite (mt_own _ _ _ _ _ HT1); [done|]. unfold s. by destruct (o_side T). }
  apply aorders_ext. intros y (p & _ & Hy)%elem_of_flat. apply aorder_frame.
  assert (y ≠ t) by (intros ->; by eapply Tout). apply (mt_out _ _ _ _ _ HT1); [done|].
  intros (p' & _ & Hy')%elem_of_flat. destruct (ei_book _ _ _ _ HE _ _ Eb) as [HB _].
  destruct (queued_unique _ _ _ _ _ _ _ _ _ HB Hy Hy') as [E _].
  unfold s in E. by destruct (o_side T).
Qed.

(** The taker leaves the engine: fully filled, or its remainder cancelled. *)
Lemma finish_free sink' bs' :
  vset (books_ e) sym (ms_book m1) = Some bs' →
  ∃ pool', free (ms_pool m1) t = Some pool' ∧
    let e' := mkEngine (cfg_ e) sink' pool' bs' (now_ns_ e) in
    engine_ok e' ∧ eabs e' sym = Some (vbook (ms_pool m1) max (ms_q m1)) ∧
    (∀ sym', sym' ≠ sym → eabs e' sym' = eabs e sym').
Proof.
  intros Ebs. pose proof HI1 as [HP HB Hpos Ht HL Hout HTq].
  destruct (free_spec _ _ _ _ HP Ht HL) as (pool' & EF & HP' & At & An & _).
  exists pool'. split; [done|]. intros e'.
  assert (∀ s' p y, y ∈ ms_q m1 s' p → y ≠ t) as Hyt by (intros s' p y Hy ->; by apply (Hout s' p)).
  edestruct (engine_inv_update e fl qs (Some t) sym b (ms_book m1) bs' pool' (t :: ms_fl m1) (ms_q m1) None sink')
    as (HI' & Habs & Hoth & _); try done.
  - eapply book_ok_frame; [|done]. intros s' p y Hy. apply An. by eapply Hyt.
  - apply HT1.
  - intros s' p x Hx. unfold qty_of. rewrite An by (by eapply Hyt). by apply (Hpos s' p).
  - intros sym' b' s' p y Hs Eb' Hy. destruct (after_other _ _ _ _ _ Hs Eb' Hy) as (? & _ & E).
    by rewrite An.
  - intros x o Ex L _. destruct (decide (x = t)) as [->|Hx]; [rewrite At in Ex; by inv_some|].
    rewrite An in Ex by done. destruct (after_queued x o Ex L Hx) as [?|[? ?]]; [by left|right].
    split_and!; [done|done|congruence].
  - split_and!; [by eexists _, _|etransitivity; [exact Habs|]|done]. f_equal. unfold vbook.
    f_equal; apply view_frame; intros y (p & _ & Hy)%elem_of_flat; apply aorder_frame, An; by eapply Hyt.
Qed.

(** Only the side opposite the taker has changed in the book's view. *)
Lemma after_book :
  sset s (ms_view s m1) (vbook (pool_ e) max (qs sym)) = vbook (ms_pool m1) max (ms_q m1).
Proof.
  apply sides_ext. intros s'. rewrite sget_sset. case_decide as Ed.
  - subst s'. unfold ms_view, ms_slots. rewrite sget_vbook, (mt_max _ _ _ _ _ HT1). simpl. by rewrite book_max.
  - assert (s' = o_side T) as -> by (unfold s in Ed; destruct s', (o_side T); done).
    rewrite !sget_vbook. symmetry. by apply after_own.
Qed.

(** The remainder rests at the back of its level. *)
Lemma finish_rest sink' :
  o_type T = Limit → o_tif T = GTC → 0 < o_qty (ms_T m1) →
  ∃ pool' b', insert (ms_pool m1) (ms_book m1) t = Some (pool', b') ∧
    ∀ bs', vset (books_ e) sym b' = Some bs' →
    let e' := mkEngine (cfg_ e) sink' pool' bs' (now_ns_ e) in
    engine_ok e' ∧
    eabs e' sym = Some (sset (o_side T) (arest (to_a (ms_T m1)) (view (ms_pool m1) max (ms_q m1) (o_side T)))
      (vbook (ms_pool m1) max (ms_q m1))) ∧
    (∀ sym', sym' ≠ sym → eabs e' sym' = eabs e sym').
Proof.
  intros Hty Htif Hq. pose proof HI1 as [HP HB Hpos Ht HL Hout HTq].
  destruct (mt_T _ _ _ _ _ HT1) as [ETT _]. simpl in ETT. set (T' := ms_T m1) in *.
  assert (o_side T' = o_side T ∧ o_price T' = o_price T ∧ o_symbol T' = sym ∧ o_type T' = Limit ∧ o_tif T' = GTC)
    as (ES & EP & EY & ETY & ETF) by (rewrite ETT; done).
  assert (max_price_ (ms_book m1) = max) as Emax by (rewrite (mt_max _ _ _ _ _ HT1); apply book_max).
  assert (1 ≤ o_price T ≤ max_price_ (ms_book m1)) as Hp by (rewrite Emax, <- book_max; auto).
  set (p := o_price T) in *. set (sd := o_side T) in *.
  assert (rests sym sd p T') as HR by (split; done).
  destruct (insert_ok (ms_pool m1) (ms_book m1) sym (ms_q m1) sd p t T') as
    (pool' & b' & EI & HB' & Em' & R); try done; [apply HP|].
  exists pool', b'. split; [done|]. intros bs' Ebs e'. set (q' := qupd (ms_q m1) sd p (ms_q m1 sd p ++ [t])) in *.
  assert (∀ s' p' y, y ∈ ms_q m1 s' p' → y ∈ q' s' p') as Hsub.
  { intros s' p' y. unfold q'. destruct (qupd_cases (ms_q m1) sd p (ms_q m1 sd p ++ [t]) s' p')
      as [(-> & -> & ->)|[_ ->]]; set_solver. }
  edestruct (engine_inv_update e fl qs (Some t) sym b b' bs' pool' (ms_fl m1) q' None sink')
    as (HI' & Habs & Hoth & _); try done.
  - eapply relinked_pool_ok; [exact HP|exact R|]. intros y [->|Hy]%elem_of_cons.
    + by eapply live_not_free.
    + destruct (queued _ _ _ _ _ _ _ HB Hy) as (_ & o & Eo & Ho). eapply live_not_free; [done..|apply Ho].
  - rewrite Em'. apply HT1.
  - intros s' p' x Hx. rewrite (qty_of_relinked _ _ _ _ R). unfold q' in Hx.
    destruct (qupd_cases (ms_q m1) sd p (ms_q m1 sd p ++ [t]) s' p') as [(-> & -> & E)|[_ E]];
      rewrite E in Hx; [|by apply (Hpos s' p')].
    apply elem_of_app in Hx as [Hx|Hx]; [by apply (Hpos sd p)|].
    apply list_elem_of_singleton in Hx as ->. by rewrite (qty_of_at _ _ _ Ht).
  - intros sym' b'' s' p' y Hs Eb' Hy. destruct (after_other _ _ _ _ _ Hs Eb' Hy) as (? & Hn & E).
    rewrite (rl_out _ _ _ R); [done|]. specialize (Hn sd p). set_solver.
  - intros x o Ex L _. destruct (relinked_at_inv _ _ _ _ _ R Ex) as (o1 & Ex1 & C).
    pose proof (core_fields _ _ C) as (_ & _ & _ & C1 & C2 & _ & _ & C3 & C4 & _).
    destruct (decide (x = t)) as [->|Hx].
    { left. rewrite Ht in Ex1. inv_some. rewrite C1, C2, C4, ES, EP. split; [done|].
      unfold q'. rewrite qupd_eq. set_solver. }
    destruct (after_queued x o1 Ex1) as [[Hs Hin]|[Hs E]]; [congruence|done|left|right].
    + rewrite C1, C2, C4. split; [done|by apply Hsub].
    + rewrite C1. split_and!; [done| |congruence]. rewrite E, <- Ex1, <- Ex. symmetry. apply R.
      intros [->|Hin]%elem_of_cons; [done|].
      destruct (queued _ _ _ _ _ _ _ HB Hin) as (_ & o2 & Eo2 & []). rewrite Ex1 in Eo2. inv_some. done.
  - split_and!; [by eexists _, _|etransitivity; [exact Habs|]|done]. f_equal.
    assert (∀ s', view pool' max q' s' = view (ms_pool m1) max q' s') as Hv.
    { intros s'. apply view_frame. intros y _. by eapply aorder_relinked. }
    apply sides_ext. intros s'. rewrite sget_vbook, Hv, sget_sset. fold max. rewrite <- Emax. case_decide as Ed.
    + subst s'. by eapply view_rest.
    + rewrite sget_vbook. unfold view, q'. by rewrite flat_other.
Qed.
End AfterMatch.

Lemma match_and_rest_ok :
  ∃ e' bk, match_and_rest sym t e = Some e' ∧ eabs e sym = Some bk ∧
    handled e e' sym (amatch_and_rest (now_ns_ e) (o_type T) (o_tif T) (to_a T) bk).
Proof.
  pose proof (eabs_ok _ _ _ _ _ _ HE Eb) as Habs. fold max in Habs.
  destruct (match_ok (now_ns_ e) sym t m start_inv) as (m1 & filled & EM & HI1 & HT1 & evs & Es & Ea).
  simpl in EM, HT1, Es, Ea. fold s in HT1, Ea.
  assert (max_price_ (ms_book m1) = max) as Emax by (rewrite (mt_max _ _ _ _ _ HT1); apply book_max).
  destruct (vset_is_Some (books_ e) sym (ms_book m1)) as [bs1 Ebs1]; [by eapply vget_lt|].
  assert (ms_view s m = view (pool_ e) max (qs sym) s) as Ev0
    by (unfold ms_view, ms_slots; simpl; rewrite book_max; done).
  set (bk := vbook (pool_ e) max (qs sym)) in *.
  pose proof (after_book m1 HT1) as Ebk1. fold bk in Ebk1.
  assert (length bs1 = length (books_ e)) as Hlen1 by (by eapply vset_length).
  cut (∃ e', match_and_rest sym t e = Some e' ∧
    handled e e' sym (amatch_and_rest (now_ns_ e) (o_type T) (o_tif T) (to_a T) bk));
    [intros (e' & ? & ?); by exists e', bk|].
  unfold match_and_rest, amatch_and_rest. rewrite Eb. cbn [mbind option_bind]. rewrite EM.
  cbn [mbind option_bind].
  rewrite (set_book_eq sym (ms_book m1) (set_sink (ms_sink m1) (set_pool (ms_pool m1) e)) bs1 Ebs1). simpl.
  rewrite (mi_taker _ _ _ _ _ _ _ HI1). simpl. change (a_side (to_a T)) with (o_side T).
  change (opposite (o_side T)) with s. unfold bk at 1. rewrite sget_vbook, <- Ev0, Ea, Ebk1.
  change (a_qty (to_a (ms_T m1))) with (o_qty (ms_T m1)).
  destruct (mt_T _ _ _ _ _ HT1) as [ETT _]. simpl in ETT.
  assert (o_type (ms_T m1) = o_type T ∧ o_tif (ms_T m1) = o_tif T) as [-> ->] by (rewrite ETT; done).
  destruct (Z.eqb_spec (o_qty (ms_T m1)) 0) as [Hz|Hz].
  { destruct (finish_free m1 HI1 HT1 (ms_sink m1) bs1 Ebs1) as (pool' & -> & Hok & Hsym & Hoth).
    eexists. split; [reflexivity|]. by split. }
  destruct (bool_decide (o_type T = Market) || bool_decide (o_tif T = IOC)) eqn:Hk.
  { destruct (finish_free m1 HI1 HT1 (ms_sink m1 ++ [base (now_ns_ e) EvCancelled (ms_T m1)]) bs1 Ebs1)
      as (pool' & -> & Hok & Hsym & Hoth).
    eexists. split; [reflexivity|]. split; try done. simpl.
    by rewrite Es, <- app_assoc. }
  apply orb_false_iff in Hk as [Hk1%bool_decide_eq_false Hk2%bool_decide_eq_false].
  destruct (finish_rest m1 HI1 HT1 (ms_sink m1)) as (pool' & b' & EI & Hfin).
  { by destruct (o_type T). }
  { by destruct (o_tif T). }
  { pose proof (mi_qty _ _ _ _ _ _ _ HI1). lia. }
  rewrite EI. cbn [mbind option_bind].
  destruct (vset_is_Some bs1 sym b') as [bs2 Ebs2]; [rewrite Hlen1; by eapply vget_lt|].
  erewrite (set_book_eq sym b') by (simpl; exact Ebs2). simpl.
  destruct (Hfin bs2) as (Hok & Hsym & Hoth); [by eapply vset_vset|].
  eexists. split; [reflexivity|]. split; try done.
  - simpl. by rewrite (vset_length _ _ _ _ Ebs2).
  - etransitivity; [exact Hsym|]. simpl. by rewrite sget_vbook.
Qed.
End MatchAndRest.
