(* ===== verification/Handlers.v ===== *)
(** The command handlers [on_new], [on_cancel], [on_replace] and [process]
    against their specifications. *)
From S2P Require Import Prelude Types Pool Bitmap Book Links Queues BookInv BookOps Engine Spec.
From S2P Require Import MatchRefine Abs EngineInv EngineRefine.

(** [t] is in no queue of the engine. *)
Definition unqueued (e : Engine) (qs : Z → queues) (t : Z) : Prop :=
  ∀ sym b s p, vget (books_ e) sym = Some b → t ∉ qs sym s p.

(** ** Changes of the pool that no queue sees *)
Lemma engine_inv_pool e fl qs t pool' fl' t' sink' now' :
  engine_inv e fl qs t → pool_ok pool' fl' →
  (∀ sym b s p y, vget (books_ e) sym = Some b → y ∈ qs sym s p → at_ pool' y = at_ (pool_ e) y) →
  (∀ x o, at_ pool' x = Some o → o_live o = true → Some x ≠ t' →
     at_ (pool_ e) x = Some o ∧ Some x ≠ t) →
  let e' := mkEngine (cfg_ e) sink' pool' (books_ e) now' in
  engine_inv e' fl' qs t' ∧ ∀ sym, eabs e' sym = eabs e sym.
Proof.
  intros H HP Hf Hq e'.
  assert (∀ sym b, vget (books_ e) sym = Some b → book_ok pool' b sym (qs sym)) as HB'.
  { intros sym b Eb. destruct (ei_book _ _ _ _ H _ _ Eb) as [HB _].
    eapply book_ok_frame; [|done]. intros s p y. by eapply Hf. }
  split; [split; simpl; [done|..]|].
  - intros sym b Eb. split; [by apply HB'|by apply (ei_book _ _ _ _ H _ _ Eb)].
  - intros sym b s p x Eb Hx. unfold qty_of. rewrite (Hf sym b s p x Eb Hx). by eapply (ei_pos _ _ _ _ H).
  - intros x o E L Ht. destruct (Hq x o E L Ht) as [E' Ht']. by apply (ei_queued _ _ _ _ H).
  - intros sym. unfold eabs. simpl. destruct (vget (books_ e) sym) as [b|] eqn:Eb; [|done]. simpl. f_equal.
    rewrite (abs_book_ok _ _ _ _ (po_cap _ _ HP) (HB' sym b Eb)).
    destruct (ei_book _ _ _ _ H _ _ Eb) as [HB _].
    rewrite (abs_book_ok _ _ _ _ (po_cap _ _ (ei_pool _ _ _ _ H)) HB). unfold vbook.
    f_equal; apply view_frame; intros y (p & _ & Hy)%elem_of_flat; apply aorder_frame; by eapply Hf.
Qed.

(** Queued slots are live. *)
Lemma queued_live e fl qs t sym b s p x :
  engine_inv e fl qs t → vget (books_ e) sym = Some b → x ∈ qs sym s p → x ∉ fl.
Proof.
  intros H Eb Hx. destruct (queued_symbol _ _ _ _ _ _ _ _ _ H Eb Hx) as (o & E & Ho).
  eapply live_not_free; [apply H|done|apply Ho].
Qed.

(** Overwrite the order in flight. *)
Lemma inflight_write e fl qs t T f pool' sink' :
  engine_inv e fl qs (Some t) → unqueued e qs t → at_ (pool_ e) t = Some T → o_live T = true →
  upd (pool_ e) t f = Some pool' →
  o_live (f T) = true → o_gen (f T) = o_gen T → o_id (f T) = o_id T →
  let e' := mkEngine (cfg_ e) sink' pool' (books_ e) (now_ns_ e) in
  engine_inv e' fl qs (Some t) ∧ unqueued e' qs t ∧ at_ pool' t = Some (f T) ∧
  ∀ sym, eabs e' sym = eabs e sym.
Proof.
  intros H Hu Et L EU L' G I e'.
  destruct (upd_Some (pool_ e) t T f Et) as (p1 & E1 & At & An & _). rewrite EU in E1. inv_some.
  destruct (engine_inv_pool e fl qs (Some t) p1 fl (Some t) sink' (now_ns_ e)) as [H' Ha]; try done.
  - eapply upd_ok; [apply H|done|]. intros o Eo. rewrite Et in Eo. by inv_some.
  - intros sym b s p y Eb Hy. apply An. intros ->. by eapply Hu.
  - intros x o Ex Lx Hx. rewrite An in Ex by congruence. done.
Qed.

(** Free the order in flight. *)
Lemma inflight_free e fl qs t T sink' :
  engine_inv e fl qs (Some t) → unqueued e qs t → at_ (pool_ e) t = Some T → o_live T = true →
  ∃ pool', free (pool_ e) t = Some pool' ∧
    let e' := mkEngine (cfg_ e) sink' pool' (books_ e) (now_ns_ e) in
    engine_ok e' ∧ ∀ sym, eabs e' sym = eabs e sym.
Proof.
  intros H Hu Et L.
  destruct (free_spec _ _ _ _ (ei_pool _ _ _ _ H) Et L) as (pool' & EF & HP' & At & An & _).
  exists pool'. split; [done|].
  destruct (engine_inv_pool e fl qs (Some t) pool' (t :: fl) None sink' (now_ns_ e)) as [H' Ha]; try done.
  - intros sym b s p y Eb Hy. apply An. intros ->. by eapply Hu.
  - intros x o Ex Lx _. destruct (decide (x = t)) as [->|Hx]; [rewrite At in Ex; by inv_some|].
    rewrite An in Ex by done. split; [done|congruence].
  - split; [|done]. by eexists _, _.
Qed.

Lemma handled_prefix e e1 e' sym evs r :
  handled e1 e' sym r → sink_ e1 = sink_ e ++ evs → cfg_ e1 = cfg_ e → now_ns_ e1 = now_ns_ e →
  length (books_ e1) = length (books_ e) → (∀ sym', sym' ≠ sym → eabs e1 sym' = eabs e sym') →
  handled e e' sym (evs ++ fst r, snd r).
Proof.
  intros [] E1 E2 E3 E4 E5. split; simpl; try congruence.
  - by rewrite app_assoc, <- E1.
  - intros sym' Hs. rewrite <- E5 by done. auto.
Qed.

(** ** Taking an order out of its book *)

Lemma detach_ok e fl qs sym b x o bk :
  engine_inv e fl qs None → vget (books_ e) sym = Some b → at_ (pool_ e) x = Some o →
  o_live o = true → o_symbol o = sym → eabs e sym = Some bk →
  ∃ pool1 b1 bs1 q1, remove (pool_ e) b x = Some (pool1, b1) ∧
    vset (books_ e) sym b1 = Some bs1 ∧ at_ pool1 x = Some (core o) ∧
    ∀ sink', let e1 := mkEngine (cfg_ e) sink' pool1 bs1 (now_ns_ e) in
    engine_inv e1 fl (qsupd qs sym q1) (Some x) ∧ unqueued e1 (qsupd qs sym q1) x ∧
    eabs e1 sym = Some (adrop (to_a o) bk) ∧ (∀ sym', sym' ≠ sym → eabs e1 sym' = eabs e sym') ∧
    vget bs1 sym = Some b1 ∧ max_price_ b1 = max_price_ b.
Proof.
  intros H Eb Ex L Es Ebk. destruct (ei_book _ _ _ _ H _ _ Eb) as [HB Hmax].
  destruct (ei_queued _ _ _ _ H x o Ex L) as [_ Hq]; [done|]. rewrite Es in Hq.
  set (s := o_side o) in *. set (p := o_price o) in *.
  pose proof Hq as (l1 & l2 & Eq)%list_elem_of_split.
  pose proof (ei_pool _ _ _ _ H) as HP.
  destruct (remove_ok (pool_ e) b sym (qs sym) s p l1 x l2 o (po_cap _ _ HP) HB Eq Ex) as
    (pool1 & b1 & ER & HB1 & Em1 & R & Ex1).
  destruct (vset_is_Some (books_ e) sym b1) as [bs1 Ebs]; [by eapply vget_lt|].
  set (q1 := qupd (qs sym) s p (l1 ++ l2)) in *.
  pose proof (removed_queue _ _ _ _ _ _ _ _ _ HB Eq) as Hsub. fold q1 in Hsub.
  assert (∀ sym' b' s' p' y, sym' ≠ sym → vget (books_ e) sym' = Some b' → y ∈ qs sym' s' p' → y ∉ qs sym s p) as Hoth.
  { intros sym' b' s' p' y Hne Eb' Hy Hy'.
    destruct (queued_symbol _ _ _ _ _ _ _ _ _ H Eb' Hy) as (oy & Ey & []).
    destruct (queued_symbol _ _ _ _ _ _ _ _ _ H Eb Hy') as (oy' & Ey' & []). congruence. }
  exists pool1, b1, bs1, q1. split_and!; try done. intros sink' e1.
  edestruct (engine_inv_update e fl qs None sym b b1 bs1 pool1 fl q1 (Some x) sink')
    as (HI' & Habs & Ho' & Eb1); try done.
  - eapply relinked_pool_ok; [done..|]. intros y Hy. by eapply queued_live.
  - intros s' p' y [Hy _]%Hsub. rewrite (qty_of_relinked _ _ _ _ R). by eapply (ei_pos _ _ _ _ H).
  - intros sym' b' s' p' y Hne Eb' Hy. apply R. by eapply Hoth.
  - intros y oy Ey Ly Hyx. destruct (relinked_at_inv _ _ _ _ _ R Ey) as (o1 & Ey1 & C).
    pose proof (core_fields _ _ C) as (_ & _ & _ & C1 & C2 & _ & _ & C3 & C4 & _).
    destruct (ei_queued _ _ _ _ H y o1 Ey1) as [[b' Eb'] Hyq]; [congruence|done|].
    destruct (decide (o_symbol oy = sym)) as [E|E]; [left|right].
    + split; [done|]. rewrite C2, C4. rewrite C1 in E. rewrite E in Hyq. apply Hsub. split; [done|congruence].
    + split_and!; [done| |done]. rewrite <- Ey. symmetry. apply R. rewrite C1 in E. by eapply Hoth.
  - split_and!; try done.
    + intros sym' b' s' p' Eb'. destruct (decide (sym' = sym)) as [->|Hne].
      * rewrite qsupd_eq. intros [_ ?]%Hsub. done.
      * rewrite qsupd_ne by done. simpl in Eb'. rewrite (vget_vset_ne _ _ _ _ _ Ebs) in Eb' by done.
        intros Hy. by eapply Hoth.
    + etransitivity; [exact Habs|]. f_equal. rewrite (eabs_ok _ _ _ _ _ _ H Eb) in Ebk. inv_some.
      assert (∀ s', view pool1 (max_price (cfg_ e)) q1 s' = view (pool_ e) (max_price (cfg_ e)) q1 s') as Hv.
      { intros s'. apply view_frame. intros y _. by eapply aorder_relinked. }
      apply sides_ext. intros s'. rewrite sget_vbook, Hv. unfold adrop. rewrite sget_sset, !sget_vbook, <- Hmax.
      change (a_side (to_a o)) with s. case_decide as Ed; subst.
      * eapply (view_drop (pool_ e) b); try done. by eapply live_id_slot.
      * unfold view, q1. by rewrite flat_other.
Qed.

(** ** Handlers *)
Lemma on_cancel_ok e fl qs sym b x o bk :
  engine_inv e fl qs None → vget (books_ e) sym = Some b → at_ (pool_ e) x = Some o →
  o_live o = true → o_symbol o = sym → eabs e sym = Some bk →
  ∃ e', on_cancel sym x e = Some e' ∧ handled e e' sym (acancel (now_ns_ e) (to_a o) bk).
Proof.
  intros H Eb Ex L Es Ebk.
  destruct (detach_ok _ _ _ _ _ _ _ _ H Eb Ex L Es Ebk) as
    (pool1 & b1 & bs1 & q1 & ER & Ebs & Ex1 & Hdet).
  set (sink' := sink_ e ++ [base (now_ns_ e) EvCancelled (core o)]).
  destruct (Hdet sink') as (HI1 & Hu & Ha & Ho & _).
  destruct (inflight_free _ _ _ _ _ sink' HI1 Hu Ex1 L) as (pool2 & EF & Hok & Ha2).
  unfold on_cancel. rewrite Eb. simpl. rewrite ER. cbn [mbind option_bind].
  rewrite (set_book_eq sym b1 (set_pool pool1 e) bs1 Ebs). simpl. rewrite Ex1. simpl.
  simpl in EF. rewrite EF. simpl. eexists. split; [reflexivity|].
  split; simpl; try done.
  - by rewrite (vset_length _ _ _ _ Ebs).
  - etransitivity; [apply Ha2|exact Ha].
  - intros sym' Hs. etransitivity; [apply Ha2|by apply Ho].
Qed.

Lemma valid_price_ok e fl qs t sym b p :
  engine_inv e fl qs t → vget (books_ e) sym = Some b → avalid_price (abs e) p = valid_price b p.
Proof.
  intros H Eb. destruct (ei_book _ _ _ _ H _ _ Eb) as [_ Hm]. unfold avalid_price, valid_price. simpl.
  by rewrite Hm.
Qed.

Lemma valid_price_range b p : valid_price b p = true → 1 ≤ p ≤ max_price_ b.
Proof. unfold valid_price. rewrite andb_true_iff. lia. Qed.

Lemma on_new_ok e fl qs sym b c bk :
  engine_inv e fl qs None → vget (books_ e) sym = Some b → eabs e sym = Some bk →
  c_symbol c = sym → 0 ≤ c_qty c < 2 ^ 32 →
  ∃ e', on_new c sym e = Some e' ∧
    handled e e' sym (anew (now_ns_ e) (next_id (pool_ e)) c (abs e) bk).
Proof.
  intros H Eb Ebk Es Hq. assert (engine_ok e) as Hok by (by eexists _, _).
  unfold on_new, anew. rewrite Eb. cbn [mbind option_bind]. rewrite (valid_price_ok _ _ _ _ _ _ _ H Eb).
  destruct (Z.eqb_spec (c_qty c) 0) as [Hz|Hz].
  { eexists. split; [done|]. by apply handled_reject. }
  destruct (bool_decide (c_type c = Limit) && negb (valid_price b (c_price c))) eqn:Hv.
  { eexists. split; [done|]. by apply handled_reject. }
  destruct fl as [|x fl].
  { pose proof (ei_pool _ _ _ _ H) as HP. rewrite (alloc_full _ HP). cbn [mbind option_bind].
    assert (next_id (pool_ e) = None) as -> by (unfold next_id; by rewrite (po_head _ _ HP)).
    eexists. split; [done|]. destruct e. by apply handled_reject. }
  destruct (alloc_spec _ _ _ (ei_pool _ _ _ _ H)) as (p1 & o0 & EA & E0 & HP1 & Ax & Enid & An & _).
  rewrite EA, Enid. cbn [mbind option_bind].
  destruct (upd_Some p1 x _ (assign_order c) Ax) as (p2 & EU & Ax2 & An2 & _). rewrite EU. simpl.
  rewrite Ax2. simpl. set (T := assign_order c (fresh_order (o_gen o0) x)) in *.
  set (ev := base (now_ns_ e) EvAccepted T).
  assert (x ∉ fl) as Hxfl by (pose proof (po_nodup _ _ (ei_pool _ _ _ _ H)) as [? _]%NoDup_cons; done).
  assert (unqueued e qs x) as Hun.
  { intros sym' b' s p Eb' Hy. pose proof (queued_live _ _ _ _ _ _ _ _ _ H Eb' Hy). set_solver. }
  destruct (engine_inv_pool e (x :: fl) qs None p2 fl (Some x) (sink_ e ++ [ev]) (now_ns_ e)) as [H2 Ha2].
  { done. }
  { eapply upd_ok; [done..|]. intros o Eo. rewrite Ax in Eo. by inv_some. }
  { intros sym' b' s p y Eb' Hy. assert (y ≠ x) by (intros ->; by eapply Hun). by rewrite An2, An. }
  { intros y o Ey Ly Hy. rewrite An2, An in Ey by congruence. done. }
  edestruct (match_and_rest_ok _ _ _ x sym b T H2) as (e' & bk2 & EM & Ebk2 & Hh); try done.
  - simpl. lia.
  - intros Hty. simpl in Hty. simpl. rewrite Hty. rewrite Hty in Hv. simpl in Hv.
    apply valid_price_range. by destruct (valid_price b (c_price c)).
  - exists e'. split; [exact EM|]. rewrite Ha2 in Ebk2. rewrite Ebk in Ebk2. inv_some.
    eapply (handled_prefix e _ e' _ [ev]) in Hh; try done.
    change (anew_order c (make_id (o_gen o0) x)) with (to_a T).
    destruct (amatch_and_rest _ _ _ _ _) as [evs bk']. exact Hh.
Qed.

(** Shrinking an order in place. *)
Lemma shrink_ok e fl qs sym b x o bk n sink' :
  engine_inv e fl qs None → vget (books_ e) sym = Some b → at_ (pool_ e) x = Some o →
  o_live o = true → o_symbol o = sym → eabs e sym = Some bk → 0 < n ≤ o_qty o →
  ∃ pool1 b1 bs1, reduce (pool_ e) b x n = Some (pool1, b1) ∧
    vset (books_ e) sym b1 = Some bs1 ∧ at_ pool1 x = Some (set_qty n o) ∧
    let e1 := mkEngine (cfg_ e) sink' pool1 bs1 (now_ns_ e) in
    engine_ok e1 ∧
    eabs e1 sym = Some (sset (o_side o)
      ((λ m, if a_id m =? o_id o then a_set_qty n (to_a o) else m) <$> sget (o_side o) bk) bk) ∧
    (∀ sym', sym' ≠ sym → eabs e1 sym' = eabs e sym').
Proof.
  intros H Eb Ex L Es Ebk Hn. destruct (ei_book _ _ _ _ H _ _ Eb) as [HB Hmax].
  destruct (ei_queued _ _ _ _ H x o Ex L) as [_ Hq]; [done|]. rewrite Es in Hq.
  destruct (reduce_ok _ _ _ _ _ _ _ _ n HB Hq Ex) as (pool1 & b1 & ER & HB1 & Em1 & EU & Ax & An); [lia|].
  destruct (vset_is_Some (books_ e) sym b1) as [bs1 Ebs]; [by eapply vget_lt|].
  exists pool1, b1, bs1. split_and!; try done.
  edestruct (engine_inv_update e fl qs None sym b b1 bs1 pool1 fl (qs sym) None sink')
    as (HI' & Habs & Ho' & _); try done.
  - eapply upd_ok; [apply H|done|]. intros o1 Eo. rewrite Ex in Eo. by inv_some.
  - intros s p y Hy. destruct (decide (y = x)) as [->|Hyx].
    + rewrite (qty_of_at _ _ _ Ax). simpl. lia.
    + unfold qty_of. rewrite An by done. by eapply (ei_pos _ _ _ _ H).
  - intros sym' b' s p y Hne Eb' Hy. apply An. intros ->.
    destruct (queued_symbol _ _ _ _ _ _ _ _ _ H Eb' Hy) as (o1 & Eo & []). congruence.
  - intros y oy Ey Ly _. destruct (decide (y = x)) as [->|Hyx].
    { left. rewrite Ax in Ey. inv_some. done. }
    rewrite An in Ey by done. destruct (ei_queued _ _ _ _ H y oy Ey Ly) as [_ Hyq]; [done|].
    destruct (decide (o_symbol oy = sym)) as [E|E]; [left|by right]. by rewrite E in Hyq.
  - split_and!; [by eexists _, _|etransitivity; [exact Habs|]|done]. f_equal.
    rewrite (eabs_ok _ _ _ _ _ _ H Eb) in Ebk. inv_some.
    apply sides_ext. intros s'. rewrite sget_sset, !sget_vbook. unfold view.
    assert (∀ y, y ∈ flat (max_price (cfg_ e)) (qs (o_symbol o)) s' → y ≠ x → o_id o ≠ a_id (aorder (pool_ e) y)) as Hid.
    { intros y Hy Hyx. rewrite <- Hmax in Hy. destruct (view_elem _ _ _ _ _ _ HB Hy) as (oy & Ey & Hoy & _).
      rewrite (aorder_at _ _ _ Ey). simpl. intros E. apply Hyx.
      eapply (live_id_slot _ _ _ _ x o H); try done. apply Hoy. }
    case_decide as Ed.
    + subst s'. rewrite <- list_fmap_compose. apply list_fmap_ext. intros i y Hi. unfold compose.
      apply list_elem_of_lookup_2 in Hi. destruct (decide (y = x)) as [->|Hyx].
      * rewrite (aorder_at _ _ _ Ax), (aorder_at _ _ _ Ex). simpl. by rewrite Z.eqb_refl.
      * destruct (Z.eqb_spec (a_id (aorder (pool_ e) y)) (o_id o)) as [E|_]; [by apply Hid in Hi; auto|].
        by apply aorder_frame, An.
    + apply aorders_ext. intros y (p & _ & Hy)%elem_of_flat. apply aorder_frame, An. intros ->.
      destruct (queued_unique _ _ _ _ _ _ _ _ _ HB Hq Hy) as [E _]. by rewrite E in Ed.
Qed.

(** The cancel-and-replace branch of [on_replace]: the order is taken out, gets
    its new price and quantity, and is matched like a new one. *)
Lemma requeue_ok e fl qs sym b c x o bk :
  engine_inv e fl qs None → vget (books_ e) sym = Some b → at_ (pool_ e) x = Some o →
  o_live o = true → o_symbol o = sym → eabs e sym = Some bk → 0 ≤ c_qty c < 2 ^ 32 → c_qty c ≠ 0 →
  valid_price b (c_price c) = true →
  ∃ e', ('(pool, book) ← remove (pool_ e) b x;
      pool ← upd pool x (set_price (c_price c));
      pool ← upd pool x (set_qty (c_qty c));
      e ← set_book sym book (set_pool pool e);
      ord ← at_ (pool_ e) x;
      match_and_rest sym x (on_event (base (now_ns_ e) EvReplaced ord) e)) = Some e' ∧
    handled e e' sym (let a' := a_set_qty (c_qty c) (a_set_price (c_price c) (to_a o)) in
      let '(evs, bk) := amatch_and_rest (now_ns_ e) Limit GTC a' (adrop (to_a o) bk) in
      (abase (now_ns_ e) EvReplaced a' :: evs, bk)).
Proof.
  intros H Eb Ex L Es Ebk Hq Hz Hv. assert (engine_ok e) as Hok by (by eexists _, _).
  destruct (detach_ok _ _ _ _ _ _ _ _ H Eb Ex L Es Ebk) as
    (pool1 & b1 & bs1 & q1 & ER & Ebs & Ex1 & Hdet).
  destruct (Hdet (sink_ e)) as (HI1 & Hu1 & Ha1 & Ho1 & Eb1 & Em1).
  rewrite ER. cbn [mbind option_bind]. set (e1 := mkEngine _ _ pool1 _ _) in HI1, Hu1, Ha1, Ho1.
  destruct (upd_Some pool1 x _ (set_price (c_price c)) Ex1) as (pool2 & EU2 & Ax2 & _).
  destruct (inflight_write e1 fl (qsupd qs sym q1) x (core o) (set_price (c_price c)) pool2 (sink_ e))
    as (HI2 & Hu2 & _ & Ha2); try done.
  rewrite EU2. cbn [mbind option_bind]. set (e2 := mkEngine _ _ pool2 _ _) in HI2, Hu2, Ha2.
  destruct (upd_Some pool2 x _ (set_qty (c_qty c)) Ax2) as (pool3 & EU3 & Ax3 & _).
  set (T := set_qty (c_qty c) (set_price (c_price c) (core o))) in *.
  set (ev := base (now_ns_ e) EvReplaced T).
  destruct (inflight_write e2 fl _ x _ (set_qty (c_qty c)) pool3 (sink_ e ++ [ev]) HI2 Hu2 Ax2)
    as (HI3 & Hu3 & _ & Ha3); try done.
  rewrite EU3. cbn [mbind option_bind]. rewrite (set_book_eq sym b1 (set_pool pool3 e) bs1 Ebs). simpl.
  rewrite Ax3. simpl. destruct (ei_queued _ _ _ _ H x o Ex L) as [_ Hxq]; [done|]. rewrite Es in Hxq.
  destruct (queued_symbol _ _ _ _ _ _ _ _ _ H Eb Hxq) as (o' & Ex' & Hrs). rewrite Ex in Ex'. inv_some.
  edestruct (match_and_rest_ok _ _ _ x (o_symbol o') b1 T HI3) as (e' & bk2 & EM & Ebk2 & Hh); try done.
  - simpl. lia.
  - intros _. simpl. rewrite Em1. by apply valid_price_range.
  - exists e'. split; [exact EM|]. rewrite Ha3, Ha2, Ha1 in Ebk2. inv_some.
    eapply (handled_prefix e _ e' _ [ev]) in Hh; try done.
    + change (o_type T) with (o_type o') in Hh. change (o_tif T) with (o_tif o') in Hh.
      rewrite (rs_type _ _ _ _ Hrs), (rs_tif _ _ _ _ Hrs) in Hh.
      change (to_a T) with (a_set_qty (c_qty c) (a_set_price (c_price c) (to_a o'))) in Hh.
      destruct (amatch_and_rest _ _ _ _ _) as [evs bk']. exact Hh.
    + simpl. by rewrite (vset_length _ _ _ _ Ebs).
    + intros sym' Hs. rewrite Ha3, Ha2. by apply Ho1.
Qed.

Lemma on_replace_ok e fl qs sym b c x o bk :
  engine_inv e fl qs None → vget (books_ e) sym = Some b → at_ (pool_ e) x = Some o →
  o_live o = true → o_symbol o = sym → eabs e sym = Some bk → 0 ≤ c_qty c < 2 ^ 32 →
  ∃ e', on_replace c sym x e = Some e' ∧
    handled e e' sym (areplace (now_ns_ e) c (abs e) (to_a o) bk).
Proof.
  intros H Eb Ex L Es Ebk Hq. assert (engine_ok e) as Hok by (by eexists _, _).
  unfold on_replace, areplace. rewrite Eb. cbn [mbind option_bind]. rewrite (valid_price_ok _ _ _ _ _ _ _ H Eb).
  destruct (Z.eqb_spec (c_qty c) 0) as [Hz|Hz].
  { eexists. split; [done|]. by apply handled_reject. }
  destruct (valid_price b (c_price c)) eqn:Hv; cbn [negb]; cycle 1.
  { eexists. split; [done|]. by apply handled_reject. }
  rewrite Ex. cbn [mbind option_bind]. change (a_price (to_a o)) with (o_price o).
  change (a_qty (to_a o)) with (o_qty o). change (a_side (to_a o)) with (o_side o).
  destruct ((c_price c =? o_price o) && (c_qty c <=? o_qty o)) eqn:Hk.
  - apply andb_true_iff in Hk as [_ Hle%Z.leb_le].
    set (ev := base (now_ns_ e) EvReplaced (set_qty (c_qty c) o)).
    destruct (shrink_ok e fl qs sym b x o bk (c_qty c) (sink_ e ++ [ev])) as
      (pool1 & b1 & bs1 & ER & Ebs & Ax & Hok1 & Ha & Ho); try done; [lia|].
    rewrite ER. cbn [mbind option_bind]. rewrite (set_book_eq sym b1 (set_pool pool1 e) bs1 Ebs). simpl.
    rewrite Ax. simpl. eexists. split; [reflexivity|]. split; simpl; try done.
    by rewrite (vset_length _ _ _ _ Ebs).
  - by eapply requeue_ok.
Qed.
