(* ===== verification/SpecProps.v ===== *)
(** Properties of the specification: conservation of quantity, the limit
    price, completeness of matching, price-time order and the uncrossed book.
    The refinement theorem transports them to the engine. *)
From S2P Require Import Prelude Types Book Queues Engine Spec.

(** ** Observations on an event sequence *)
Definition trades (evs : list Event) : list Event := filter (λ ev, e_kind ev = EvTrade) evs.
Definition traded (evs : list Event) : Z := zsum (e_qty <$> trades evs).

(** The orders of [l] a taker can execute against. *)
Definition crossing (ty : OrderType) (t : AOrder) (l : list AOrder) : list AOrder :=
  filter (λ m, acrosses ty t (a_price m) = true) l.

Definition volume (l : list AOrder) : Z := zsum (a_qty <$> l).

(** Price priority: an earlier order is at least as good as a later one. *)
Definition before (s : Side) (a b : AOrder) : Prop := ¬ better s (a_price b) (a_price a).

Record side_ok (max sym : Z) (s : Side) (l : list AOrder) : Prop := {
  sd_order : ∀ a, a ∈ l → a_side a = s ∧ a_symbol a = sym ∧ 1 ≤ a_price a ≤ max ∧ 0 < a_qty a;
  sd_sorted : StronglySorted (before s) l }.

Record abook_ok (max sym : Z) (bk : ABook) : Prop := {
  ab_side : ∀ s, side_ok max sym s (sget s bk);
  ab_uncrossed : ∀ b a, b ∈ sget Buy bk → a ∈ sget Sell bk → a_price b < a_price a }.

Definition exchange_ok (m : Exchange) : Prop :=
  ∀ sym bk, vget (m_books m) sym = Some bk → abook_ok (m_max_price m) sym bk.

(** ** Lists of orders *)
Lemma trades_app l l' : trades (l ++ l') = trades l ++ trades l'.
Proof. apply filter_app. Qed.

Lemma traded_app l l' : traded (l ++ l') = traded l + traded l'.
Proof. unfold traded. by rewrite trades_app, fmap_app, zsum_app. Qed.

Lemma traded_fill now m t px q : traded (fill_events now m t px q) = q.
Proof. unfold traded, trades, zsum. simpl. lia. Qed.

Lemma traded_nil : traded [] = 0.
Proof. done. Qed.

Lemma volume_nil : volume [] = 0.
Proof. done. Qed.

Lemma before_trans s a b c : before s a b → before s b c → before s a c.
Proof. unfold before. destruct s; simpl; lia. Qed.

Lemma volume_cons a l : volume (a :: l) = a_qty a + volume l.
Proof. done. Qed.

Lemma volume_nonneg l : (∀ a, a ∈ l → 0 < a_qty a) → 0 ≤ volume l.
Proof.
  induction l as [|a l IH]; intros H; [done|]. rewrite volume_cons.
  pose proof (H a ltac:(set_solver)). assert (0 ≤ volume l) by (apply IH; set_solver). lia.
Qed.

Lemma a_set_qty_twice v w a : a_set_qty v (a_set_qty w a) = a_set_qty v a.
Proof. done. Qed.

Lemma acrosses_set_qty ty v t px : acrosses ty (a_set_qty v t) px = acrosses ty t px.
Proof. done. Qed.

(** A taker that does not cross an order crosses none behind it. *)
Lemma before_acrosses ty t m m' :
  before (opposite (a_side t)) m m' → acrosses ty t (a_price m) = false →
  acrosses ty t (a_price m') = false.
Proof.
  unfold before, acrosses, crosses. destruct ty; [|done].
  destruct (a_side t); simpl; rewrite !Z.leb_gt; lia.
Qed.

Lemma crossing_none ty t m l :
  StronglySorted (before (opposite (a_side t))) (m :: l) →
  acrosses ty t (a_price m) = false → crossing ty t (m :: l) = [].
Proof.
  intros Hs%StronglySorted_inv Hc. destruct Hs as [_ Hall]. rewrite Forall_forall in Hall.
  unfold crossing. rewrite filter_cons_False by congruence. induction l as [|a l IH]; [done|].
  rewrite filter_cons_False; [|rewrite (before_acrosses ty t m a); [done|apply Hall; set_solver|done]].
  apply IH. intros x Hx. apply Hall. set_solver.
Qed.

(** ** Matching *)

(** What [amatch] leaves of the makers: a suffix, its first order possibly
    reduced in quantity. *)
Inductive consumed : list AOrder → list AOrder → Prop :=
  | consumed_all l l1 : consumed (l1 ++ l) l
  | consumed_part m v l l1 : 0 < v < a_qty m → consumed (l1 ++ m :: l) (a_set_qty v m :: l).

Lemma consumed_cons m l l' : consumed l l' → consumed (m :: l) l'.
Proof.
  intros [l0 l1|m' v l0 l1 Hv]; [exact (consumed_all l0 (m :: l1))|].
  exact (consumed_part m' v l0 (m :: l1) Hv).
Qed.

Lemma triple_inv {A B C} (a a' : A) (b b' : B) (c c' : C) :
  (a, b, c) = (a', b', c') → a = a' ∧ b = b' ∧ c = c'.
Proof. by intros [= -> -> ->]. Qed.

(** Run [amatch] one step in a proof. *)
Ltac amatch_cases t m Hlt Hc Hm :=
  destruct (Z.ltb_spec 0 (a_qty t)) as [Hlt|Hlt];
  [ destruct (acrosses _ t (a_price m)) eqn:Hc; simpl andb; cbn iota;
    [ cbn [a_qty a_set_qty]; destruct (Z.eqb_spec (a_qty m - Z.min (a_qty t) (a_qty m)) 0) as [Hm|Hm] | ]
  | simpl andb; cbn iota ].

Lemma amatch_spec now ty t l evs t' l' :
  amatch now ty t l = (evs, t', l') → 0 ≤ a_qty t → (∀ m, m ∈ l → 0 < a_qty m) →
  StronglySorted (before (opposite (a_side t))) l →
  t' = a_set_qty (a_qty t') t ∧ 0 ≤ a_qty t' ∧ traded evs = a_qty t - a_qty t' ∧
  traded evs = Z.min (a_qty t) (volume (crossing ty t l)) ∧
  volume l = volume l' + traded evs ∧ consumed l l' ∧
  (0 < a_qty t' → crossing ty t l' = []).
Proof.
  revert t evs t' l'. induction l as [|m l IH]; intros t evs t' l' E Hq Hpos Hs.
  { injection E as <- <- <-. change (crossing ty t []) with (@nil AOrder).
    rewrite traded_nil, volume_nil.
    split_and!; [by destruct t|done|lia|lia|lia|apply (consumed_all [] [])|done]. }
  cbn [amatch] in E. revert E. pose proof (Hpos m ltac:(set_solver)) as Hm0.
  assert (∀ a, a ∈ l → 0 < a_qty a) as Hpos' by set_solver.
  pose proof Hs as [Hs' Hall]%StronglySorted_inv.
  pose proof (volume_nonneg (crossing ty t l)) as Hv.
  assert (0 ≤ volume (crossing ty t l)) as Hv'.
  { apply Hv. intros a [_ ?]%list_elem_of_filter. auto. }
  amatch_cases t m Hlt Hc Hm.
  - destruct (amatch _ _ _ l) as [[evs1 t1] l1] eqn:E1. intros (<- & <- & <-)%triple_inv.
    destruct (IH _ _ _ _ E1) as (Ht & ? & Htr & Hmin & Hvol & Hcs & Hdone); [simpl; lia|done..|].
    simpl in Htr, Hmin. change (crossing ty (a_set_qty _ t) l) with (crossing ty t l) in Hmin.
    rewrite traded_app, traded_fill. unfold crossing. rewrite filter_cons_True by done.
    fold (crossing ty t l). rewrite !volume_cons.
    split_and!; [by rewrite Ht|done|lia|lia|lia|by apply consumed_cons|done].
  - intros (<- & <- & <-)%triple_inv. rewrite traded_fill. unfold crossing. rewrite filter_cons_True by done.
    fold (crossing ty t l). rewrite !volume_cons. simpl.
    split_and!; [by destruct t|lia|lia|lia|lia| |lia].
    apply (consumed_part m _ l []). lia.
  - intros (<- & <- & <-)%triple_inv. rewrite (crossing_none ty t m l) by done.
    rewrite traded_nil, volume_nil. split_and!; [by destruct t|done|lia|lia|lia|apply (consumed_all _ [])|done].
  - intros (<- & <- & <-)%triple_inv. rewrite traded_nil. assert (a_qty t = 0) as Hz by lia.
    assert (0 ≤ volume (crossing ty t (m :: l))).
    { apply volume_nonneg. intros a [_ ?]%list_elem_of_filter. auto. }
    split_and!; [by destruct t|done|lia|lia|lia|apply (consumed_all _ [])|lia].
Qed.

(** Every execution is at a maker's price, which the taker's limit accepts. *)
Lemma amatch_prices now ty t l evs t' l' ev :
  amatch now ty t l = (evs, t', l') → ev ∈ evs →
  ∃ m, m ∈ l ∧ e_price ev = a_price m ∧ acrosses ty t (a_price m) = true ∧ (e_kind ev = EvFill ∨ e_kind ev = EvTrade).
Proof.
  revert t evs t' l'. induction l as [|m l IH]; intros t evs t' l' E Hev; cbn [amatch] in E; revert E.
  { intros (<- & _ & _)%triple_inv. set_solver. }
  assert (∀ m' t1 q, ev ∈ fill_events now m' t1 (a_price m) q →
    e_price ev = a_price m ∧ (e_kind ev = EvFill ∨ e_kind ev = EvTrade)) as Hfe.
  { intros m' t1 q Hin. unfold fill_events in Hin.
    repeat (apply elem_of_cons in Hin as [->|Hin]; [eauto|]). set_solver. }
  amatch_cases t m Hlt Hc Hm.
  - destruct (amatch _ _ _ l) as [[evs1 t1] l1] eqn:E1. intros (<- & <- & <-)%triple_inv.
    apply elem_of_app in Hev as [Hev|Hev].
    + exists m. destruct (Hfe _ _ _ Hev). split_and!; [set_solver|done..].
    + destruct (IH _ _ _ _ E1 Hev) as (m' & Hm' & Hp & Hx & Hk). exists m'. split_and!; [set_solver|done..].
  - intros (<- & _ & _)%triple_inv. exists m. destruct (Hfe _ _ _ Hev). split_and!; [set_solver|done..].
  - intros (<- & _ & _)%triple_inv. set_solver.
  - intros (<- & _ & _)%triple_inv. set_solver.
Qed.

(** ** The operations keep a side in priority order *)
Lemma side_ok_nil max sym s : side_ok max sym s [].
Proof. split; [by intros a ?%not_elem_of_nil|constructor]. Qed.

Lemma sorted_app_r {A} (R : A → A → Prop) (l1 l2 : list A) :
  StronglySorted R (l1 ++ l2) → StronglySorted R l2.
Proof. induction l1 as [|x l1 IH]; [done|]. intros [? _]%StronglySorted_inv. auto. Qed.

Lemma side_ok_consumed max sym s l l' : side_ok max sym s l → consumed l l' → side_ok max sym s l'.
Proof.
  intros Hok Hc. destruct Hc as [l0 l1|m v l0 l1 Hv]; destruct Hok as [Ho Hs].
  - split; [intros a Ha; apply Ho, elem_of_app; by right|by eapply sorted_app_r].
  - apply sorted_app_r in Hs. apply StronglySorted_inv in Hs as [Hs Hall]. split; [|by constructor].
    intros a [->|Ha]%elem_of_cons; [|apply Ho, elem_of_app; right; by right].
    destruct (Ho m) as (? & ? & ? & ?); [apply elem_of_app; right; by left|]. simpl. split_and!; try done; lia.
Qed.

Lemma elem_of_arest a l m : m ∈ arest a l ↔ m = a ∨ m ∈ l.
Proof.
  induction l as [|x l IH]; simpl; [set_solver|].
  destruct (betterb _ _ _); [set_solver|]. rewrite elem_of_cons, IH. set_solver.
Qed.

Lemma side_ok_arest max sym a l :
  side_ok max sym (a_side a) l → a_symbol a = sym → 1 ≤ a_price a ≤ max → 0 < a_qty a →
  side_ok max sym (a_side a) (arest a l).
Proof.
  intros [Ho Hs] Hsym Hp Hq. split.
  { intros m [->|Hm]%elem_of_arest; [done|auto]. }
  clear Ho. induction Hs as [|m l Hs IH Hall]; simpl; [repeat constructor|].
  destruct (betterb _ _ _) eqn:E.
  - assert (before (a_side a) a m) as Ham.
    { revert E. unfold before, betterb. destruct (a_side a); simpl; lia. }
    constructor; [by constructor|]. constructor; [done|].
    eapply Forall_impl; [done|]. intros x. by apply before_trans.
  - constructor; [done|]. rewrite Forall_forall in *. intros x [->|Hx]%elem_of_arest; [|auto].
    revert E. unfold before, betterb. destruct (a_side a); simpl; lia.
Qed.

Lemma side_ok_filter max sym s (P : AOrder → Prop) `{∀ a, Decision (P a)} l :
  side_ok max sym s l → side_ok max sym s (filter P l).
Proof.
  intros [Ho Hs]. split; [intros a [_ ?]%list_elem_of_filter; auto|]. clear Ho.
  induction Hs as [|m l Hs IH Hall]; [constructor|]. rewrite filter_cons. case_decide; [|done].
  constructor; [done|]. rewrite Forall_forall in *. intros x [_ ?]%list_elem_of_filter. auto.
Qed.

(** Rewriting orders in place, at the same side, symbol and price. *)
Lemma side_ok_map max sym s (f : AOrder → AOrder) l :
  (∀ a, a ∈ l → a_side (f a) = a_side a ∧ a_symbol (f a) = a_symbol a ∧
     a_price (f a) = a_price a ∧ 0 < a_qty (f a)) →
  side_ok max sym s l → side_ok max sym s (f <$> l).
Proof.
  intros Hf [Ho Hs]. split.
  - intros ? (a & -> & Ha)%list_elem_of_fmap. destruct (Hf a Ha) as (-> & -> & -> & ?).
    by destruct (Ho a Ha) as (? & ? & ? & _).
  - clear Ho. induction Hs as [|m l Hs IH Hall]; [constructor|]. simpl. constructor.
    + apply IH. set_solver.
    + rewrite Forall_forall in *. intros ? (a & -> & Ha)%list_elem_of_fmap. unfold before.
      destruct (Hf a) as (_ & _ & -> & _); [set_solver|]. destruct (Hf m) as (_ & _ & -> & _); [set_solver|].
      by apply Hall.
Qed.

(** ** The operations keep the book uncrossed *)
Lemma abook_ok_sub max sym s l bk :
  abook_ok max sym bk → side_ok max sym s l →
  (∀ a, a ∈ l → ∃ a', a' ∈ sget s bk ∧ a_price a' = a_price a) → abook_ok max sym (sset s l bk).
Proof.
  intros [Hs Hu] Hl Hsub. split.
  - intros s'. rewrite sget_sset. case_decide; [by subst|done].
  - intros b a. rewrite !sget_sset. destruct s; simpl.
    + intros (b' & ? & <-)%Hsub. auto.
    + intros ? (a' & ? & <-)%Hsub. auto.
Qed.

Lemma consumed_prices l l' a : consumed l l' → a ∈ l' → ∃ a', a' ∈ l ∧ a_price a' = a_price a.
Proof.
  intros [l0 l1|m v l0 l1 Hv]; [set_solver|]. intros [->|Ha]%elem_of_cons; [exists m|exists a]; set_solver.
Qed.

Record taker_ok (max sym : Z) (ty : OrderType) (t : AOrder) : Prop := {
  tk_symbol : a_symbol t = sym;
  tk_qty : 0 < a_qty t;
  tk_price : ty = Limit → 1 ≤ a_price t ≤ max }.

Lemma amatch_and_rest_ok max sym now ty tif t bk :
  abook_ok max sym bk → taker_ok max sym ty t →
  abook_ok max sym (snd (amatch_and_rest now ty tif t bk)).
Proof.
  intros Hbk [Hsym Hq Hp]. unfold amatch_and_rest.
  pose proof (ab_side _ _ _ Hbk (opposite (a_side t))) as Hop.
  destruct (amatch _ _ _ _) as [[evs t'] l'] eqn:E.
  destruct (amatch_spec _ _ _ _ _ _ _ E) as (Ht & Hq' & _ & _ & _ & Hc & Hnone).
  { lia. }
  { intros m Hm. by apply Hop. }
  { apply Hop. }
  assert (abook_ok max sym (sset (opposite (a_side t)) l' bk)) as Hbk'.
  { apply abook_ok_sub; [done|by eapply side_ok_consumed|]. intros a. by apply consumed_prices. }
  destruct (Z.eqb_spec (a_qty t') 0) as [|Hne]; [done|].
  destruct ty; simpl; [|done]. destruct (bool_decide (tif = IOC)); [done|]. simpl.
  assert (a_side t' = a_side t ∧ a_symbol t' = a_symbol t ∧ a_price t' = a_price t) as (E1 & E2 & E3)
    by (by rewrite Ht).
  split.
  - intros s. rewrite sget_sset. case_decide; [|apply Hbk']. subst s.
    pose proof (side_ok_arest max sym t' (sget (a_side t) (sset (opposite (a_side t)) l' bk))) as Hr.
    rewrite E1, E2, E3 in Hr. apply Hr; [apply Hbk'|done|auto|lia].
  - assert (∀ m, m ∈ l' → acrosses Limit t (a_price m) = false) as Hcross.
    { intros m Hm. apply not_true_is_false. intros Hx.
      assert (m ∈ crossing Limit t l') as Hin by (by apply list_elem_of_filter).
      rewrite Hnone in Hin by lia. set_solver. }
    intros b a. rewrite !sget_sset. unfold acrosses, crosses in Hcross.
    pose proof (ab_uncrossed _ _ _ Hbk' b a) as Hu. revert Hu Hcross.
    rewrite !sget_sset. destruct (a_side t); simpl; intros Hu Hcross.
    + intros [->|Hb]%elem_of_arest Ha; [|auto]. specialize (Hcross a Ha). lia.
    + intros Hb [->|Ha]%elem_of_arest; [|auto]. specialize (Hcross b Hb). lia.
Qed.

Lemma adrop_ok max sym a bk : abook_ok max sym bk → abook_ok max sym (adrop a bk).
Proof.
  intros H. apply abook_ok_sub; [done|by apply side_ok_filter, H|].
  intros m [_ ?]%list_elem_of_filter. eauto.
Qed.

(** ** Whole commands *)
Lemma anew_ok now newid c m sym bk :
  abook_ok (m_max_price m) sym bk → c_symbol c = sym → 0 ≤ c_qty c →
  abook_ok (m_max_price m) sym (snd (anew now newid c m bk)).
Proof.
  intros H Hs Hq. unfold anew. destruct (Z.eqb_spec (c_qty c) 0); [done|].
  destruct (bool_decide (c_type c = Limit) && negb (avalid_price m (c_price c))) eqn:Ev; [done|].
  destruct newid as [id|]; [|done].
  pose proof (amatch_and_rest_ok (m_max_price m) sym now (c_type c) (c_tif c) (anew_order c id) bk H) as Ha.
  destruct (amatch_and_rest _ _ _ _ _) as [evs bk']. apply Ha. split; simpl; [done|lia|].
  intros Ht. rewrite Ht in *. simpl in Ev. unfold avalid_price in Ev. lia.
Qed.

(** The orders of one exchange have distinct ids. *)
Definition ids_unique (m : Exchange) : Prop :=
  ∀ a b, a ∈ all_orders m → b ∈ all_orders m → a_id a = a_id b → a = b.

Lemma areplace_ok now c m sym a bk :
  abook_ok (m_max_price m) sym bk → a_symbol a = sym → 0 ≤ c_qty c →
  (∀ a', a' ∈ sget (a_side a) bk → a_id a' = a_id a → a' = a) →
  abook_ok (m_max_price m) sym (snd (areplace now c m a bk)).
Proof.
  intros H Hs Hq Hid. unfold areplace. destruct (Z.eqb_spec (c_qty c) 0); [done|].
  destruct (avalid_price m (c_price c)) eqn:Ev; [|done]. cbn [negb].
  destruct ((c_price c =? a_price a) && (c_qty c <=? a_qty a)) eqn:Hk.
  - assert (∀ a', a' ∈ sget (a_side a) bk →
      let f := (λ m, if a_id m =? a_id a then a_set_qty (c_qty c) a else m) in
      a_side (f a') = a_side a' ∧ a_symbol (f a') = a_symbol a' ∧ a_price (f a') = a_price a' ∧ 0 < a_qty (f a')) as Hf.
    { intros a' Ha'. simpl. destruct (Z.eqb_spec (a_id a') (a_id a)) as [E|_].
      - rewrite (Hid _ Ha' E). simpl. split_and!; try done. lia.
      - split_and!; try done. by apply (sd_order _ _ _ _ (ab_side _ _ _ H (a_side a))). }
    apply abook_ok_sub; [done|by apply side_ok_map, H|].
    intros x (a' & -> & Ha')%list_elem_of_fmap. exists a'. split; [done|]. by destruct (Hf a' Ha') as (_ & _ & -> & _).
  - pose proof (amatch_and_rest_ok (m_max_price m) sym now Limit GTC
      (a_set_qty (c_qty c) (a_set_price (c_price c) a)) (adrop a bk) (adrop_ok _ _ _ _ H)) as Ha.
    destruct (amatch_and_rest _ _ _ _ _) as [evs bk']. apply Ha. split; simpl; [done|lia|].
    unfold avalid_price in Ev. lia.
Qed.

Lemma exchange_ok_book now sym m f :
  exchange_ok m →
  (∀ bk, vget (m_books m) sym = Some bk → abook_ok (m_max_price m) sym (snd (f bk))) →
  exchange_ok (snd (aon_book now sym m f)).
Proof.
  intros H Hf. unfold aon_book. destruct (vget (m_books m) sym) as [bk|] eqn:E; [|done].
  specialize (Hf bk eq_refl). destruct (f bk) as [evs bk']. simpl in *.
  destruct (vset_is_Some (m_books m) sym bk') as [bs Ebs]; [by eapply vget_lt|]. rewrite Ebs. simpl.
  intros sym' bk0. simpl. rewrite (vget_vset _ _ _ _ _ Ebs). case_decide; [|apply H].
  intros. subst. by inv_some.
Qed.

Lemma elem_of_vget {A} (l : list A) x : x ∈ l ↔ ∃ i, vget l i = Some x.
Proof.
  rewrite list_elem_of_lookup. split.
  - intros [n Hn]. exists (Z.of_nat n). apply vget_spec. rewrite Nat2Z.id. split; [lia|done].
  - intros [i [_ ?]%vget_spec]. eauto.
Qed.

Lemma elem_of_all_orders m a :
  a ∈ all_orders m ↔ ∃ sym bk s, vget (m_books m) sym = Some bk ∧ a ∈ sget s bk.
Proof.
  unfold all_orders. rewrite list_elem_of_In, in_concat. setoid_rewrite <- list_elem_of_In. split.
  - intros (l & (bk & -> & [sym Hs]%elem_of_vget)%list_elem_of_fmap & [Ha|Ha]%elem_of_app);
      [exists sym, bk, Buy|exists sym, bk, Sell]; done.
  - intros (sym & bk & s & E & Ha). eexists. split.
    + apply list_elem_of_fmap. exists bk. split; [done|]. apply elem_of_vget. eauto.
    + destruct s; set_solver.
Qed.

Lemma afind_elem id m a : afind id m = Some a → a ∈ all_orders m ∧ a_id a = id.
Proof. unfold afind. intros [?%list_elem_of_In ?%Z.eqb_eq]%find_some. done. Qed.

Lemma aprocess_ok now newid c m :
  exchange_ok m → ids_unique m → 0 ≤ c_qty c → exchange_ok (snd (aprocess now newid c m)).
Proof.
  intros H Hu Hq. unfold aprocess.
  destruct (c_kind c); [destruct (_ <=? _); [done|]; apply exchange_ok_book; [done|];
    intros bk E; by apply anew_ok; [apply H|..] |..].
  all: destruct (afind (c_order_id c) m) as [a|] eqn:Ea; [|done].
  all: destruct (negb _); [done|]; apply exchange_ok_book; [done|]; intros bk E.
  - by apply adrop_ok, H.
  - apply areplace_ok; [by apply H|done..|]. intros a' Ha' Hid.
    apply Hu; [apply elem_of_all_orders; eauto|by apply afind_elem in Ea as [? _]|done].
Qed.
