(* ===== verification/Process.v ===== *)
(** [Engine::process] implements the specification [aprocess]: the refinement
    theorem of the development, its consequences for a whole run of the
    engine, and the initial state. *)
From S2P Require Import Prelude Types Pool Bitmap Book Links Queues BookInv BookOps Engine Spec.
From S2P Require Import MatchRefine Abs EngineInv EngineRefine Handlers SpecProps.

(** The values a decoded command can carry: every field at its width. *)
Record command_ok (c : Command) : Prop := {
  ck_symbol : 0 ≤ c_symbol c;
  ck_qty : 0 ≤ c_qty c < 2 ^ 32 }.

#[export] Instance command_ok_dec c : Decision (command_ok c).
Proof.
  refine (cast_if (decide (0 ≤ c_symbol c ∧ 0 ≤ c_qty c < 2 ^ 32)));
    abstract (first [by split; destruct_and?|intros [? ?]; naive_solver]).
Defined.

(** ** Reading the exchange off the engine *)
Lemma vget_fmap {A B} (f : A → B) (l : list A) i : vget (f <$> l) i = f <$> vget l i.
Proof. unfold vget. case_bool_decide; [apply list_lookup_fmap|done]. Qed.

Lemma abs_vget e sym : vget (m_books (abs e)) sym = eabs e sym.
Proof. apply vget_fmap. Qed.

(** The orders of the exchange are the live slots. *)
Lemma all_orders_live e fl qs a :
  engine_inv e fl qs None →
  a ∈ all_orders (abs e) ↔ ∃ x o, at_ (pool_ e) x = Some o ∧ o_live o = true ∧ a = to_a o.
Proof.
  intros H. rewrite elem_of_all_orders. setoid_rewrite abs_vget. split.
  - intros (sym & bk & s & E & Ha). unfold eabs in E. apply fmap_Some in E as (b & Eb & ->).
    destruct (ei_book _ _ _ _ H _ _ Eb) as [HB _].
    rewrite (abs_book_ok _ _ _ _ (po_cap _ _ (ei_pool _ _ _ _ H)) HB), sget_vbook in Ha.
    apply list_elem_of_fmap in Ha as (x & -> & Hx).
    destruct (view_elem _ _ _ _ _ _ HB Hx) as (o & Eo & Ho & _). exists x, o.
    split_and!; [done|apply Ho|by apply aorder_at].
  - intros (x & o & Eo & L & ->). destruct (ei_queued _ _ _ _ H x o Eo L) as [[b Eb] Hx]; [done|].
    exists (o_symbol o), (vbook (pool_ e) (max_price (cfg_ e)) (qs (o_symbol o))), (o_side o).
    split; [by eapply eabs_ok|]. rewrite sget_vbook. unfold view.
    rewrite <- (aorder_at _ _ _ Eo). apply list_elem_of_fmap_2, elem_of_flat.
    destruct (ei_book _ _ _ _ H _ _ Eb) as [HB <-]. destruct (queued _ _ _ _ _ _ _ HB Hx). eauto.
Qed.

(** [OrderPool::find] looks up the order with that id in the whole exchange. *)
Lemma find_afind e fl qs id :
  engine_inv e fl qs None →
  match find (pool_ e) id with
  | Some x => ∃ o, at_ (pool_ e) x = Some o ∧ o_live o = true ∧ o_id o = id ∧
      afind id (abs e) = Some (to_a o)
  | None => afind id (abs e) = None
  end.
Proof.
  intros H. unfold afind.
  destruct (find (pool_ e) id) as [x|] eqn:Ef.
  - apply (find_spec _ _ _ _ (ei_pool _ _ _ _ H)) in Ef as (o & Eo & L & <-). exists o. split_and!; try done.
    destruct (List.find _ _) as [a|] eqn:E.
    + apply find_some in E as [Ha%list_elem_of_In Hid%Z.eqb_eq].
      apply (all_orders_live _ _ _ _ H) in Ha as (y & oy & Ey & Ly & ->).
      assert (y = x) as -> by (by eapply live_id_slot). congruence.
    + eapply find_none in E; [|apply list_elem_of_In, (all_orders_live _ _ _ _ H); eauto].
      simpl in E. by rewrite Z.eqb_refl in E.
  - destruct (List.find _ _) as [a|] eqn:E; [|done].
    apply find_some in E as [Ha%list_elem_of_In Hid%Z.eqb_eq].
    apply (all_orders_live _ _ _ _ H) in Ha as (y & oy & Ey & Ly & ->).
    assert (find (pool_ e) id = Some y); [|congruence].
    apply (find_spec _ _ _ _ (ei_pool _ _ _ _ H)). eauto.
Qed.

(** ** One command *)

(** The refinement relation of one step: the new state is well formed, the
    events are appended to the sink and the exchange moves as specified. *)
Record step_ok (now : Z) (e e' : Engine) (r : list Event * Exchange) : Prop := {
  so_ok : engine_ok e';
  so_sink : sink_ e' = sink_ e ++ fst r;
  so_abs : abs e' = snd r;
  so_cfg : cfg_ e' = cfg_ e;
  so_len : length (books_ e') = length (books_ e);
  so_now : now_ns_ e' = now }.

Lemma engine_top e sym bk :
  engine_ok e → eabs e sym = Some bk →
  ∃ b, vget (books_ e) sym = Some b ∧ top b = Some (atop bk).
Proof.
  intros (fl & qs & H) E. unfold eabs in E. apply fmap_Some in E as (b & Eb & ->).
  destruct (ei_book _ _ _ _ H _ _ Eb) as [HB _]. exists b. split; [done|].
  rewrite (abs_book_ok _ _ _ _ (po_cap _ _ (ei_pool _ _ _ _ H)) HB). by eapply atop_ok.
Qed.

(** A handled command and the top-of-book report make one step. *)
Lemma handled_step e e' sym bk f :
  engine_ok e → eabs e sym = Some bk → handled e e' sym (f bk) →
  ∃ b, vget (books_ e') sym = Some b ∧ top b = Some (atop (snd (f bk))) ∧
    step_ok (now_ns_ e) e
      (if negb (top_eqb (atop (snd (f bk))) (atop bk))
       then on_event (top_event (now_ns_ e') sym (atop (snd (f bk)))) e' else e')
      (aon_book (now_ns_ e) sym (abs e) f).
Proof.
  intros Hok Ebk Hh. unfold aon_book. rewrite abs_vget, Ebk.
  destruct (engine_top _ _ _ (hd_ok _ _ _ _ Hh) (hd_sym _ _ _ _ Hh)) as (b' & Eb' & Et).
  exists b'. destruct (f bk) as [evs bk'] eqn:Ef. simpl in *. split_and!; [done..|].
  assert (abs e' = mkExchange (m_max_price (abs e))
    (default (m_books (abs e)) (vset (m_books (abs e)) sym bk'))) as Habs.
  { unfold abs at 1. f_equal; [by rewrite (hd_cfg _ _ _ _ Hh)|].
    destruct (vset_is_Some (m_books (abs e)) sym bk') as [bs Ebs].
    { eapply vget_lt. by rewrite abs_vget. }
    rewrite Ebs. simpl. apply vget_ext. intros i. rewrite (vget_vset _ _ _ _ _ Ebs).
    change (vget (m_books (abs e')) i = if decide (sym = i) then Some bk' else vget (m_books (abs e)) i).
    rewrite !abs_vget. case_decide as Hi; [subst; apply Hh|by apply Hh]. }
  destruct (top_eqb (atop bk') (atop bk)); simpl; destruct Hh as [Hok' HS ? Hn ?]; simpl in *.
  - split; simpl; rewrite ?app_nil_r; congruence.
  - split; simpl; try congruence.
    + destruct Hok' as (fl & qs & []). exists fl, qs. by split.
    + by rewrite HS, Hn, app_assoc.
    + exact Habs.
Qed.

Lemma reject_step now e c r :
  engine_ok e → step_ok now e (reject c r (set_now now e)) ([reject_event now c r], abs e).
Proof. intros (fl & qs & []). split; try done. exists fl, qs. by split. Qed.

Lemma set_now_ok now e : engine_ok e → engine_ok (set_now now e).
Proof. intros (fl & qs & []). exists fl, qs. by split. Qed.

Lemma run_on_book_ok e c sym x f bk b :
  engine_ok e → eabs e sym = Some bk → vget (books_ e) sym = Some b →
  (∃ e', match c_kind c with
         | CmdNew => on_new c sym e
         | CmdCancel => on_cancel sym x e
         | CmdReplace => on_replace c sym x e
         end = Some e' ∧ handled e e' sym (f bk)) →
  ∃ e', run_on_book c sym x e = Some e' ∧
    step_ok (now_ns_ e) e e' (aon_book (now_ns_ e) sym (abs e) f).
Proof.
  intros Hok Ebk Eb (e1 & E1 & Hh). destruct (engine_top _ _ _ Hok Ebk) as (b0 & Eb0 & Et0).
  destruct (handled_step _ _ _ _ _ Hok Ebk Hh) as (b1 & Eb1 & Et1 & Hs).
  unfold run_on_book. rewrite Eb0. cbn [mbind option_bind]. rewrite Et0. cbn [mbind option_bind].
  rewrite E1. cbn [mbind option_bind]. rewrite Eb1. cbn [mbind option_bind]. rewrite Et1.
  cbn [mbind option_bind]. revert Hs. destruct (negb _); eauto.
Qed.

(** [process] is total on well-formed states and implements [aprocess]. *)
Lemma process_ok now c e :
  engine_ok e → command_ok c →
  ∃ e', process now c e = Some e' ∧
    step_ok now e e' (aprocess now (next_id (pool_ e)) c (abs e)).
Proof.
  intros Hok [Hs Hq]. pose proof (set_now_ok now e Hok) as Hok'. pose proof Hok' as (fl & qs & H).
  assert (∀ e' r, step_ok now (set_now now e) e' r → step_ok now e e' r) as Hdown by (intros ? ? []; by split).
  pose proof (find_afind _ _ _ (c_order_id c) H) as HF. simpl pool_ in HF.
  change (abs (set_now now e)) with (abs e) in HF.
  unfold process, aprocess. simpl length. rewrite length_fmap. simpl books_. simpl pool_.
  destruct (c_kind c) eqn:Ek.
  - destruct (Z.leb_spec (Z.of_nat (length (books_ e))) (c_symbol c)) as [Hl|Hl].
    { eexists. split; [done|]. by apply reject_step. }
    destruct (vget_is_Some (books_ e) (c_symbol c)) as [b Eb]; [lia|].
    pose proof (eabs_ok _ _ _ _ _ _ H Eb) as Ebk.
    edestruct (run_on_book_ok (set_now now e) c (c_symbol c) kNull) as (e' & E' & Hst); [done..| |].
    { rewrite Ek. by eapply on_new_ok. }
    eexists. split; [exact E'|]. by apply Hdown.
  - destruct (find (pool_ e) (c_order_id c)) as [x|].
    2: { rewrite HF. eexists. split; [done|]. by apply reject_step. }
    destruct HF as (o & Eo & L & Hid & ->). rewrite Eo. cbn [mbind option_bind]. simpl a_session.
    destruct (o_session o =? c_session c); simpl negb; cbn iota.
    2: { eexists. split; [done|]. by apply reject_step. }
    destruct (ei_queued _ _ _ _ H x o Eo L) as [[b Eb] _]; [done|].
    pose proof (eabs_ok _ _ _ _ _ _ H Eb) as Ebk.
    edestruct (run_on_book_ok (set_now now e) c (o_symbol o) x) as (e' & E' & Hst); [done..| |].
    { rewrite Ek. by eapply on_cancel_ok. }
    eexists. split; [exact E'|]. by apply Hdown.
  - destruct (find (pool_ e) (c_order_id c)) as [x|].
    2: { rewrite HF. eexists. split; [done|]. by apply reject_step. }
    destruct HF as (o & Eo & L & Hid & ->). rewrite Eo. cbn [mbind option_bind]. simpl a_session.
    destruct (o_session o =? c_session c); simpl negb; cbn iota.
    2: { eexists. split; [done|]. by apply reject_step. }
    destruct (ei_queued _ _ _ _ H x o Eo L) as [[b Eb] _]; [done|].
    pose proof (eabs_ok _ _ _ _ _ _ H Eb) as Ebk.
    edestruct (run_on_book_ok (set_now now e) c (o_symbol o) x) as (e' & E' & Hst); [done..| |].
    { rewrite Ek. by eapply on_replace_ok. }
    eexists. split; [exact E'|]. by apply Hdown.
Qed.

(** ** The initial engine *)
Record config_ok (cfg : Config) : Prop := {
  cc_symbols : 0 ≤ symbols cfg;
  cc_price : 0 ≤ max_price cfg;
  cc_orders : 0 ≤ max_orders cfg < 2 ^ 32 }.

Lemma Engine_init_ok cfg : config_ok cfg → engine_ok (Engine_init cfg []).
Proof.
  intros [? ? ?]. exists (seqZ 0 (max_orders cfg)), (λ _ _ _, []).
  assert (∀ sym b, vget (books_ (Engine_init cfg [])) sym = Some b → b = Book_init (max_price cfg)) as Hb.
  { intros sym b [_ E]%vget_spec. by apply lookup_replicate in E as [-> _]. }
  pose proof (Pool_init_ok (max_orders cfg)) as HP. split; [by apply HP|..].
  - intros sym b ->%Hb. split; [by apply Book_init_ok|done].
  - intros sym b s p x _ []%not_elem_of_nil.
  - intros x o E L _. exfalso. assert (x ∈ seqZ 0 (max_orders cfg)) as Hx.
    { apply at_range in E. apply elem_of_seqZ. simpl in E. rewrite length_fmap, length_seqZ in E. lia. }
    pose proof (fl_dead _ _ _ _ (HP ltac:(lia)) Hx E). congruence.
Qed.

(** ** Runs *)

(** The specification's run over the same commands, with the ids the pool hands out. *)
Inductive aruns : list (Z * Command) → Engine → Exchange → list Event → Exchange → Prop :=
  | aruns_nil e m : aruns [] e m [] m
  | aruns_cons now c cs e e1 m evs m' :
      process now c e = Some e1 →
      let r := aprocess now (next_id (pool_ e)) c m in
      aruns cs e1 (snd r) evs m' →
      aruns ((now, c) :: cs) e m (fst r ++ evs) m'.

Lemma run_ok cs e :
  engine_ok e → Forall (λ nc, command_ok (snd nc)) cs →
  ∃ e' evs, run cs e = Some e' ∧ engine_ok e' ∧ cfg_ e' = cfg_ e ∧
    length (books_ e') = length (books_ e) ∧
    sink_ e' = sink_ e ++ evs ∧ aruns cs e (abs e) evs (abs e').
Proof.
  revert e. induction cs as [|[now c] cs IH]; intros e Hok Hcs; simpl.
  { exists e, []. rewrite app_nil_r. split_and!; try done. constructor. }
  apply Forall_cons in Hcs as [Hc Hcs]. destruct (process_ok now c e Hok Hc) as (e1 & E1 & [H1 H2 H3 H4 H5 H6]).
  destruct (IH e1 H1 Hcs) as (e' & evs & Hr & Hok' & Hc' & Hl' & Hs' & Ha).
  rewrite E1. simpl. exists e', (fst (aprocess now (next_id (pool_ e)) c (abs e)) ++ evs).
  split_and!; try congruence.
  - by rewrite Hs', H2, app_assoc.
  - econstructor; [done|]. by rewrite <- H3.
Qed.
