(* ===== verification/EngineFacts.v ===== *)
(** Facts about every reachable engine state: the resting orders are exactly
    the live slots of the pool, and the exchange is in order and uncrossed. *)
From S2P Require Import Prelude Types Pool Bitmap Book Links Queues BookInv BookOps Engine Spec.
From S2P Require Import MatchRefine Abs EngineInv EngineRefine Handlers SpecProps Process.

(** ** Every resting order has its own slot *)
Lemma NoDup_concat_fmap {A B} (f : A → list B) (l : list A) :
  NoDup l → (∀ x, x ∈ l → NoDup (f x)) →
  (∀ x y b, x ∈ l → y ∈ l → b ∈ f x → b ∈ f y → x = y) → NoDup (concat (f <$> l)).
Proof.
  induction 1 as [|x l Hx Hl IH]; intros Hf Hd; simpl; [constructor|].
  apply NoDup_app. split_and!.
  - apply Hf. by left.
  - intros b Hb. rewrite list_elem_of_In, in_concat. intros (l' & Hl' & Hin).
    apply list_elem_of_In in Hl'. apply list_elem_of_In in Hin. apply list_elem_of_fmap in Hl' as (y & -> & Hy).
    apply Hx. rewrite (Hd x y b); [done|by left|by right|done|done].
  - apply IH; [intros y Hy; apply Hf; by right|]. intros y z b Hy Hz. apply Hd; by right.
Qed.

Lemma NoDup_prices s max : NoDup (prices s max).
Proof. destruct s; simpl; [rewrite reverse_Permutation|]; apply NoDup_seqZ. Qed.

Lemma flat_NoDup pool b sym q s : book_ok pool b sym q → NoDup (flat (max_price_ b) q s).
Proof.
  intros HB. apply NoDup_concat_fmap; [apply NoDup_prices|..].
  - intros p _. destruct (q s p) as [|x l] eqn:E; [constructor|].
    assert (x ∈ q s p) as Hx by (rewrite E; by left). destruct (queued _ _ _ _ _ _ _ HB Hx) as [Hp _].
    destruct (lo_level _ _ _ _ (bk_levels _ _ _ _ HB) s p) as (lvl & _ & Hl); [lia|].
    rewrite <- E. apply Hl.
  - intros p p' x _ _ Hx Hx'. by destruct (queued_unique _ _ _ _ _ _ _ _ _ HB Hx Hx').
Qed.

(** The slots of all resting orders, in the order of [all_orders]. *)
Definition resting_slots (e : Engine) (qs : Z → queues) : list Z :=
  concat ((λ sym, flat (max_price (cfg_ e)) (qs sym) Buy ++ flat (max_price (cfg_ e)) (qs sym) Sell)
            <$> seqZ 0 (Z.of_nat (length (books_ e)))).

Section Slots.
Context (e : Engine) (fl : list Z) (qs : Z → queues).
Hypothesis H : engine_inv e fl qs None.

Lemma books_seqZ : m_books (abs e) =
  (λ sym, vbook (pool_ e) (max_price (cfg_ e)) (qs sym)) <$> seqZ 0 (Z.of_nat (length (books_ e))).
Proof.
  apply vget_ext. intros i. rewrite abs_vget, vget_fmap.
  destruct (decide (0 ≤ i < Z.of_nat (length (books_ e)))) as [Hi|Hi].
  - destruct (vget_is_Some (books_ e) i) as [b Eb]; [lia|].
    rewrite (eabs_ok _ _ _ _ _ _ H Eb). assert (vget (seqZ 0 (Z.of_nat (length (books_ e)))) i = Some i) as ->;
      [|done]. apply vget_spec. split; [lia|]. apply lookup_seqZ. lia.
  - unfold eabs. rewrite !vget_None; [done|by rewrite length_seqZ, Nat2Z.id|done].
Qed.

Lemma all_orders_slots : all_orders (abs e) = aorder (pool_ e) <$> resting_slots e qs.
Proof.
  unfold all_orders, resting_slots. rewrite books_seqZ. induction (seqZ _ _) as [|sym l IH]; [done|].
  rewrite !fmap_cons. cbn [concat]. by rewrite IH, !fmap_app.
Qed.

Lemma resting_slot_spec x :
  x ∈ resting_slots e qs ↔ ∃ o, at_ (pool_ e) x = Some o ∧ o_live o = true.
Proof.
  unfold resting_slots. rewrite list_elem_of_In, in_concat. setoid_rewrite <- list_elem_of_In. split.
  - intros (l & (sym & -> & Hs%elem_of_seqZ)%list_elem_of_fmap & Hx).
    destruct (vget_is_Some (books_ e) sym) as [b Eb]; [lia|].
    destruct (ei_book _ _ _ _ H _ _ Eb) as [HB Hm]. rewrite <- Hm in Hx.
    apply elem_of_app in Hx as [Hx|Hx]; destruct (view_elem _ _ _ _ _ _ HB Hx) as (o & Eo & Ho & _);
      exists o; (split; [done|apply Ho]).
  - intros (o & Eo & L). destruct (ei_queued _ _ _ _ H x o Eo L) as [[b Eb] Hx]; [done|].
    eexists. split.
    { apply list_elem_of_fmap. exists (o_symbol o). split; [reflexivity|]. apply elem_of_seqZ.
      pose proof (vget_lt _ _ _ Eb). lia. }
    destruct (ei_book _ _ _ _ H _ _ Eb) as [HB Hm]. destruct (queued _ _ _ _ _ _ _ HB Hx) as [Hp _].
    rewrite Hm in Hp. apply elem_of_app. rewrite !elem_of_flat.
    destruct (o_side o); [left|right]; exists (o_price o); (split; [lia|done]).
Qed.

Lemma resting_slots_NoDup : NoDup (resting_slots e qs).
Proof.
  apply NoDup_concat_fmap; [apply NoDup_seqZ|..].
  - intros sym Hs%elem_of_seqZ. destruct (vget_is_Some (books_ e) sym) as [b Eb]; [lia|].
    destruct (ei_book _ _ _ _ H _ _ Eb) as [HB <-]. apply NoDup_app.
    split_and!; [by eapply flat_NoDup| |by eapply flat_NoDup].
    intros x (p & _ & Hx)%elem_of_flat (p' & _ & Hx')%elem_of_flat.
    by destruct (queued_unique _ _ _ _ _ _ _ _ _ HB Hx Hx').
  - assert (∀ sym x, sym ∈ seqZ 0 (Z.of_nat (length (books_ e))) →
      x ∈ flat (max_price (cfg_ e)) (qs sym) Buy ++ flat (max_price (cfg_ e)) (qs sym) Sell →
      ∃ o, at_ (pool_ e) x = Some o ∧ o_symbol o = sym) as Hsym.
    { intros sym x Hs%elem_of_seqZ Hx. destruct (vget_is_Some (books_ e) sym) as [b Eb]; [lia|].
      destruct (ei_book _ _ _ _ H _ _ Eb) as [HB Hm]. rewrite <- Hm in Hx.
      apply elem_of_app in Hx as [Hx|Hx]; destruct (view_elem _ _ _ _ _ _ HB Hx) as (o & Eo & Ho & _);
        exists o; (split; [done|apply Ho]). }
    intros sym sym' x Hs Hs' Hx Hx'. destruct (Hsym _ _ Hs Hx) as (o & Eo & <-).
    destruct (Hsym _ _ Hs' Hx') as (o' & Eo' & <-). congruence.
Qed.

(** Resting and free slots together are the whole slab. *)
Lemma slots_partition : resting_slots e qs ++ fl ≡ₚ seqZ 0 (Z.of_nat (length (slots_ (pool_ e)))).
Proof.
  pose proof (ei_pool _ _ _ _ H) as HP. apply NoDup_Permutation; [|apply NoDup_seqZ|].
  - apply NoDup_app. split_and!; [apply resting_slots_NoDup| |apply HP].
    intros x (o & Eo & L)%resting_slot_spec. by eapply live_not_free.
  - intros x. rewrite elem_of_app, resting_slot_spec, elem_of_seqZ. split.
    + intros [(o & ?%at_range & _)|Hx%(fl_range _ _ _ HP)]; lia.
    + intros Hx. destruct (vget_is_Some (slots_ (pool_ e)) x) as [o Eo]; [lia|].
      destruct (o_live o) eqn:L; [by left; exists o|right]. by eapply po_cover.
Qed.

Lemma live_count : live_ (pool_ e) = Z.of_nat (length (all_orders (abs e))).
Proof.
  rewrite all_orders_slots, length_fmap. pose proof (Permutation_length slots_partition) as Hl.
  rewrite length_app, length_seqZ in Hl. rewrite (po_live _ _ (ei_pool _ _ _ _ H)). lia.
Qed.

Lemma all_ids_NoDup : NoDup (a_id <$> all_orders (abs e)).
Proof.
  rewrite all_orders_slots, <- list_fmap_compose. apply NoDup_fmap_2_strong; [|apply resting_slots_NoDup].
  intros x y (o & Eo & L)%resting_slot_spec (o' & Eo' & L')%resting_slot_spec. unfold compose.
  rewrite (aorder_at _ _ _ Eo), (aorder_at _ _ _ Eo'). intros E.
  by apply (live_id_inj _ _ _ _ _ _ (ei_pool _ _ _ _ H) Eo Eo').
Qed.

(** The id of the next order is not in use. *)
Lemma next_id_fresh id : next_id (pool_ e) = Some id → id ≠ 0 ∧ ∀ a, a ∈ all_orders (abs e) → a_id a ≠ id.
Proof.
  pose proof (ei_pool _ _ _ _ H) as HP. destruct fl as [|x fl'].
  { unfold next_id. by rewrite (po_head _ _ HP). }
  destruct (alloc_spec _ _ _ HP) as (p' & o & _ & Eo & _ & _ & -> & _). intros [= <-].
  assert (0 ≤ x < 2 ^ 32) as Hx by (pose proof (slot_lt_kNull _ _ _ _ HP Eo); unfold kNull in *; lia).
  split; [apply make_id_nonzero; [apply (po_gen _ _ HP _ _ Eo)|done]|].
  intros a (y & oy & Ey & Ly & ->)%(all_orders_live _ _ _ _ H). simpl. intros E.
  rewrite (po_id _ _ HP _ _ Ey Ly) in E. assert (y = x) as ->.
  { rewrite <- (make_id_slot (o_gen o) x Hx), <- E. symmetry. apply make_id_slot.
    pose proof (slot_lt_kNull _ _ _ _ HP Ey); unfold kNull in *; lia. }
  pose proof (fl_dead _ _ x oy HP ltac:(by left) Ey). congruence.
Qed.
End Slots.

Lemma engine_ids_unique e : engine_ok e → ids_unique (abs e).
Proof.
  intros (fl & qs & H) a b (x & o & Eo & L & ->)%(all_orders_live _ _ _ _ H)
    (y & o' & Eo' & L' & ->)%(all_orders_live _ _ _ _ H) E.
  assert (x = y) as -> by (by apply (live_id_inj _ _ _ _ _ _ (ei_pool _ _ _ _ H) Eo Eo')). congruence.
Qed.

(** ** The invariant of reachable states *)
Record sound (e : Engine) : Prop := {
  sn_ok : engine_ok e;
  sn_exchange : exchange_ok (abs e) }.

Lemma sound_init cfg : config_ok cfg → sound (Engine_init cfg []).
Proof.
  intros Hc. pose proof (Engine_init_ok cfg Hc) as Hok. split; [done|].
  intros sym bk. rewrite abs_vget. unfold eabs. intros (b & Eb & ->)%fmap_Some.
  destruct (vget_spec (books_ (Engine_init cfg [])) sym b) as [Hb _]. destruct (Hb Eb) as [_ Hl].
  apply lookup_replicate in Hl as [-> _].
  rewrite (abs_book_ok _ _ sym (λ _ _, [])); [|simpl; rewrite length_fmap, length_seqZ; destruct Hc; unfold kNull; lia|
    by apply Book_init_ok, cc_price].
  unfold vbook, view. rewrite !flat_nil by done. split; [intros []; apply side_ok_nil|].
  intros b a []%not_elem_of_nil.
Qed.

Lemma sound_process now c e e' :
  sound e → command_ok c → process now c e = Some e' →
  sound e' ∧ step_ok now e e' (aprocess now (next_id (pool_ e)) c (abs e)).
Proof.
  intros [Hok Hx] Hc E. destruct (process_ok now c e Hok Hc) as (e1 & E1 & Hs).
  rewrite E in E1. inv_some. split; [|done]. split; [apply Hs|]. rewrite (so_abs _ _ _ _ Hs).
  apply aprocess_ok; [done|by apply engine_ids_unique|apply Hc].
Qed.

Lemma sound_run cs e :
  sound e → Forall (λ nc, command_ok (snd nc)) cs → ∃ e', run cs e = Some e' ∧ sound e'.
Proof.
  revert e. induction cs as [|[now c] cs IH]; intros e Hs Hcs; simpl; [by exists e|].
  apply Forall_cons in Hcs as [Hc Hcs]. destruct (process_ok now c e (sn_ok _ Hs) Hc) as (e1 & E1 & _).
  destruct (sound_process now c e e1 Hs Hc E1) as [Hs1 _]. destruct (IH e1 Hs1 Hcs) as (e' & E' & Hs').
  exists e'. by rewrite E1.
Qed.

(** The states the engine reaches from its constructor, one command at a time. *)
Inductive reachable (cfg : Config) : Engine → Prop :=
  | reach_init : config_ok cfg → reachable cfg (Engine_init cfg [])
  | reach_step now c e e' :
      reachable cfg e → command_ok c → process now c e = Some e' → reachable cfg e'.

Lemma reachable_sound cfg e : reachable cfg e → sound e.
Proof. induction 1 as [|now c e e' _ IH Hc E]; [by apply sound_init|]. by eapply sound_process. Qed.

Lemma reachable_run cfg cs e e' :
  reachable cfg e → Forall (λ nc, command_ok (snd nc)) cs → run cs e = Some e' → reachable cfg e'.
Proof.
  revert e. induction cs as [|[now c] cs IH]; intros e Hr Hcs E; simpl in E; [by inv_some|].
  apply Forall_cons in Hcs as [Hc Hcs]. apply bind_Some in E as (e1 & E1 & E).
  eapply IH; [|done|done]. by eapply reach_step.
Qed.

Lemma reachable_step cfg e now c :
  reachable cfg e → command_ok c →
  ∃ e', process now c e = Some e' ∧ reachable cfg e' ∧
    step_ok now e e' (aprocess now (next_id (pool_ e)) c (abs e)).
Proof.
  intros Hr Hc. destruct (process_ok now c e (sn_ok _ (reachable_sound _ _ Hr)) Hc) as (e' & E & Hs).
  exists e'. split_and!; try done. by eapply reach_step.
Qed.

(** A resting order's book exists. *)
Lemma order_book e a : engine_ok e → a ∈ all_orders (abs e) → is_Some (vget (m_books (abs e)) (a_symbol a)).
Proof.
  intros (fl & qs & H) (x & o & Eo & L & ->)%(all_orders_live _ _ _ _ H).
  destruct (ei_queued _ _ _ _ H x o Eo L) as [[b Eb] _]; [done|].
  rewrite abs_vget. unfold eabs. simpl. rewrite Eb. eauto.
Qed.
