(* ===== verification/SpecEvents.v ===== *)
(** What the events and the books of one specified command look like: which
    events can occur, how the volume of each side moves, which orders stay. *)
From S2P Require Import Prelude Types Pool Book Queues Engine Spec SpecProps Abs EngineInv Process EngineFacts.

(** The events a handler emits besides rejections and top-of-book reports. *)
Definition order_event (ev : Event) : Prop := e_kind ev ≠ EvRejected ∧ e_kind ev ≠ EvTop.

(** The top of book a subscriber knows after reading the events in order. *)
Definition last_top (sym : Z) (evs : list Event) : TopOfBook :=
  foldl (λ t ev, if bool_decide (e_kind ev = EvTop) && (e_symbol ev =? sym) then e_top ev else t)
    TopOfBook_default evs.

(** The guards of [Engine::process] and its handlers, in the order the code tests them. *)
Definition reject_reason (newid : option Z) (c : Command) (m : Exchange) : option RejectReason :=
  match c_kind c with
  | CmdNew =>
      if Z.of_nat (length (m_books m)) <=? c_symbol c then Some BadSymbol
      else if c_qty c =? 0 then Some BadQty
      else if bool_decide (c_type c = Limit) && negb (avalid_price m (c_price c)) then Some BadPrice
      else match newid with None => Some BookFull | Some _ => None end
  | k =>
      match afind (c_order_id c) m with
      | None => Some UnknownOrder
      | Some a =>
          if negb (a_session a =? c_session c) then Some NotOwner
          else if (match k with CmdCancel => true | _ => false end) then None
          else if c_qty c =? 0 then Some BadQty
          else if negb (avalid_price m (c_price c)) then Some BadPrice
          else None
      end
  end.

(** ** Handlers emit order events *)
Lemma amatch_and_rest_events now ty tif t bk ev :
  ev ∈ fst (amatch_and_rest now ty tif t bk) → order_event ev.
Proof.
  unfold amatch_and_rest. destruct (amatch _ _ _ _) as [[evs t'] l'] eqn:E.
  assert (ev ∈ evs → order_event ev) as Hm.
  { intros Hev. destruct (amatch_prices _ _ _ _ _ _ _ _ E Hev) as (m & _ & _ & _ & [Hk|Hk]);
      unfold order_event; rewrite Hk; done. }
  destruct (_ =? 0); [done|]. destruct (_ || _); [|done]. simpl.
  intros [? | ->%list_elem_of_singleton]%elem_of_app; [auto|done].
Qed.

Lemma anew_events now newid c m bk ev :
  c_kind c = CmdNew → (Z.of_nat (length (m_books m)) <=? c_symbol c) = false →
  reject_reason newid c m = None → ev ∈ fst (anew now newid c m bk) → order_event ev.
Proof.
  unfold reject_reason, anew. intros -> ->. destruct (_ =? 0); [done|]. destruct (_ && _); [done|].
  destruct newid as [id|]; [|done]. intros _.
  pose proof (amatch_and_rest_events now (c_type c) (c_tif c) (anew_order c id) bk ev) as Ha.
  destruct (amatch_and_rest _ _ _ _ _). by intros [->|?]%elem_of_cons; [|auto].
Qed.

Lemma areplace_events now c m a bk ev :
  (c_qty c =? 0) = false → avalid_price m (c_price c) = true →
  ev ∈ fst (areplace now c m a bk) → order_event ev.
Proof.
  unfold areplace. intros -> ->. cbn [negb]. destruct (_ && _).
  { simpl. by intros ->%list_elem_of_singleton. }
  pose proof (amatch_and_rest_events now Limit GTC (a_set_qty (c_qty c) (a_set_price (c_price c) a)) (adrop a bk) ev) as Ha.
  destruct (amatch_and_rest _ _ _ _ _). by intros [->|?]%elem_of_cons; [|auto].
Qed.

(** ** Rejections *)

Lemma aon_book_id now sym m f evs :
  (∀ bk, vget (m_books m) sym = Some bk → f bk = (evs, bk)) → is_Some (vget (m_books m) sym) →
  aon_book now sym m f = (evs, m).
Proof.
  intros Hf [bk E]. unfold aon_book. rewrite E, (Hf bk E).
  rewrite (proj2 (top_eqb_eq (atop bk) (atop bk)) eq_refl).
  rewrite app_nil_r. f_equal. destruct m as [mx bs]. simpl in *. f_equal.
  unfold vset. rewrite E. simpl. apply list_insert_id. by apply (proj1 (vget_spec _ _ _)) in E as [_ ?].
Qed.

Lemma aprocess_reject now newid c m r :
  0 ≤ c_symbol c → (∀ a, a ∈ all_orders m → is_Some (vget (m_books m) (a_symbol a))) →
  reject_reason newid c m = Some r → aprocess now newid c m = ([reject_event now c r], m).
Proof.
  unfold reject_reason, aprocess. intros Hsym Hbk. destruct (c_kind c).
  - destruct (Z.leb_spec (Z.of_nat (length (m_books m))) (c_symbol c)); [by intros [= <-]|].
    intros Hr. apply aon_book_id; [|apply vget_is_Some; lia]. intros bk _. unfold anew.
    destruct (_ =? 0); [by inv_some|]. destruct (_ && _); [by inv_some|]. destruct newid; by inv_some.
  - destruct (afind _ m) as [a|]; [|by intros [= <-]]. destruct (negb _); [by intros [= <-]|done].
  - destruct (afind _ m) as [a|] eqn:Ea; [|by intros [= <-]]. destruct (negb _); [by intros [= <-]|].
    simpl. intros Hr. apply aon_book_id; [|by apply Hbk; apply afind_elem in Ea as [? _]].
    intros bk _. unfold areplace.
    destruct (_ =? 0); [by inv_some|]. destruct (negb _); by inv_some.
Qed.

(** Every event of a command that passes the guards is an order event or the
    top-of-book report. *)
Lemma aprocess_accept_events now newid c m ev :
  reject_reason newid c m = None → ev ∈ fst (aprocess now newid c m) → e_kind ev ≠ EvRejected.
Proof.
  assert (∀ sym f, (∀ bk ev, ev ∈ fst (f bk) → order_event ev) →
    ev ∈ fst (aon_book now sym m f) → e_kind ev ≠ EvRejected) as Hon.
  { intros sym f Hf. unfold aon_book. destruct (vget (m_books m) sym) as [bk|]; [|set_solver].
    specialize (Hf bk ev). destruct (f bk) as [evs bk']. simpl in *.
    destruct (top_eqb _ _); rewrite elem_of_app; intros [?|Hx]; try (by apply Hf); [set_solver|].
    by apply list_elem_of_singleton in Hx as ->. }
  intros Hr. pose proof Hr as Hr'. unfold aprocess. unfold reject_reason in Hr. destruct (c_kind c) eqn:Ek.
  - destruct (_ <=? _) eqn:El; [done|]. apply Hon. intros bk ev'. by apply anew_events.
  - destruct (afind _ m) as [a|]; [|done]. destruct (negb _); [done|]. apply Hon.
    by intros bk ev' ->%list_elem_of_singleton.
  - destruct (afind _ m) as [a|]; [|done]. destruct (negb _); [done|]. simpl in Hr. apply Hon.
    intros bk ev'. destruct (_ =? 0) eqn:Eq; [done|]. destruct (avalid_price m _) eqn:Ev; [|done].
    by apply areplace_events.
Qed.

(** ** How much a new order executes and where the rest goes *)
Lemma volume_app l l' : volume (l ++ l') = volume l + volume l'.
Proof. unfold volume. by rewrite fmap_app, zsum_app. Qed.

Lemma volume_arest a l : volume (arest a l) = a_qty a + volume l.
Proof.
  induction l as [|m l IH]; simpl; [done|]. destruct (betterb _ _ _); [done|].
  rewrite !volume_cons, IH. lia.
Qed.

Lemma traded_order_event ev l : e_kind ev ≠ EvTrade → traded (l ++ [ev]) = traded l.
Proof.
  intros Hk. rewrite traded_app. unfold traded at 2, trades. rewrite filter_cons_False by done.
  unfold zsum. simpl. lia.
Qed.

Lemma traded_aon_book now sym m f bk :
  vget (m_books m) sym = Some bk → traded (fst (aon_book now sym m f)) = traded (fst (f bk)).
Proof.
  intros E. unfold aon_book. rewrite E. destruct (f bk) as [evs bk']. simpl.
  destruct (top_eqb _ _); [by rewrite app_nil_r|by apply traded_order_event].
Qed.

Lemma aon_book_vget now sym m f bk sym' :
  vget (m_books m) sym = Some bk →
  vget (m_books (snd (aon_book now sym m f))) sym' =
    if decide (sym = sym') then Some (snd (f bk)) else vget (m_books m) sym'.
Proof.
  intros E. unfold aon_book. rewrite E. destruct (f bk) as [evs bk']. simpl.
  destruct (vset_is_Some (m_books m) sym bk') as [bs Ebs]; [by eapply vget_lt|].
  rewrite Ebs. simpl. by rewrite (vget_vset _ _ _ _ _ Ebs).
Qed.

(** What happens to the remainder of a taker. *)
Definition rests_as (ty : OrderType) (tif : Tif) (t : AOrder) (l : list AOrder) : list AOrder :=
  if (a_qty t =? 0) || bool_decide (ty = Market) || bool_decide (tif = IOC) then l else arest t l.

Lemma amatch_and_rest_volumes max sym now ty tif t bk :
  abook_ok max sym bk → 0 < a_qty t →
  let r := amatch_and_rest now ty tif t bk in
  let opp := opposite (a_side t) in
  traded (fst r) = Z.min (a_qty t) (volume (crossing ty t (sget opp bk))) ∧
  volume (sget opp (snd r)) = volume (sget opp bk) - traded (fst r) ∧
  consumed (sget opp bk) (sget opp (snd r)) ∧
  sget (a_side t) (snd r) = rests_as ty tif (a_set_qty (a_qty t - traded (fst r)) t) (sget (a_side t) bk).
Proof.
  intros Hbk Hq. unfold amatch_and_rest. pose proof (ab_side _ _ _ Hbk (opposite (a_side t))) as Hop.
  destruct (amatch _ _ _ _) as [[evs t'] l'] eqn:E.
  destruct (amatch_spec _ _ _ _ _ _ _ E) as (Ht & Hq' & Htr & Hmin & Hvol & Hc & _).
  { lia. }
  { intros m Hm. by apply Hop. }
  { apply Hop. }
  assert (a_set_qty (a_qty t - traded evs) t = t') as Ht'.
  { rewrite Ht at 1. f_equal. lia. }
  assert (a_side t ≠ opposite (a_side t)) as Hn by (by destruct (a_side t)).
  destruct (a_qty t' =? 0) eqn:Ez; cbn [fst snd].
  { rewrite Ht'. unfold rests_as. rewrite Ez, sget_sset_eq, sget_sset_ne by done.
    split_and!; [done|lia|done|done]. }
  destruct (bool_decide (ty = Market) || bool_decide (tif = IOC)) eqn:Er; cbn [fst snd];
    [rewrite traded_order_event by done|]; rewrite Ht'; unfold rests_as; rewrite Ez; simpl orb; rewrite Er.
  - rewrite sget_sset_eq, sget_sset_ne by done. split_and!; [done|lia|done|done].
  - rewrite (sget_sset_ne (a_side t)), !sget_sset_eq, sget_sset_ne by done. split_and!; [done|lia|done|done].
Qed.

(** ** Cancelling and shrinking act on one order of the exchange *)
Definition on_sides (f : list AOrder → list AOrder) (bk : ABook) : ABook :=
  mkSides (f (sd0 bk)) (f (sd1 bk)).

Lemma all_orders_map g m f :
  (∀ l l', f (l ++ l') = f l ++ f l') → f [] = [] →
  (∀ sym, vget (m_books g) sym = on_sides f <$> vget (m_books m) sym) →
  all_orders g = f (all_orders m).
Proof.
  intros Happ Hnil Hg. unfold all_orders.
  assert (m_books g = on_sides f <$> m_books m) as ->.
  { apply vget_ext. intros i. rewrite Hg. unfold vget. case_bool_decide; [|done]. by rewrite list_lookup_fmap. }
  clear Hg. induction (m_books m) as [|bk bs IH]; [symmetry; exact Hnil|]. rewrite !fmap_cons. cbn [concat].
  by rewrite IH, !Happ.
Qed.

(** In an exchange in order, an id occurs in one book and side only. *)
Lemma id_place m a sym bk s b :
  exchange_ok m → ids_unique m → a ∈ all_orders m → vget (m_books m) sym = Some bk → b ∈ sget s bk →
  a_id b = a_id a → b = a ∧ sym = a_symbol a ∧ s = a_side a.
Proof.
  intros Hx Hu Ha E Hb Hid. assert (b = a) as ->.
  { apply Hu; [apply elem_of_all_orders; eauto|done|done]. }
  destruct (sd_order _ _ _ _ (ab_side _ _ _ (Hx sym bk E) s) a Hb) as (-> & -> & _). done.
Qed.

(** An update of one book that treats every other order as the whole-exchange
    update [f] does. *)
Lemma one_order_update now m a (h : ABook → list Event * ABook) f :
  exchange_ok m → ids_unique m → a ∈ all_orders m →
  (∀ l l', f (l ++ l') = f l ++ f l') → f [] = [] →
  (∀ l, (∀ b, b ∈ l → a_id b ≠ a_id a) → f l = l) →
  (∀ bk, vget (m_books m) (a_symbol a) = Some bk →
     snd (h bk) = sset (a_side a) (f (sget (a_side a) bk)) bk) →
  all_orders (snd (aon_book now (a_symbol a) m h)) = f (all_orders m).
Proof.
  intros Hx Hu Ha Happ Hnil Hf Hh.
  pose proof Ha as (sym & bk & s & E & Hin)%elem_of_all_orders.
  destruct (id_place _ _ _ _ _ _ Hx Hu Ha E Hin) as (_ & -> & ->); [done|].
  apply all_orders_map; [done..|]. intros sym'. rewrite (aon_book_vget _ _ _ _ bk) by done.
  assert (∀ s' bk', vget (m_books m) sym' = Some bk' → sym' ≠ a_symbol a ∨ s' ≠ a_side a →
    f (sget s' bk') = sget s' bk') as Hsame.
  { intros s' bk' E' Hne. apply Hf. intros b Hb Hid.
    destruct (id_place _ _ _ _ _ _ Hx Hu Ha E' Hb Hid) as (_ & ? & ?). naive_solver. }
  case_decide as Hs.
  - subst sym'. rewrite E, Hh by done. simpl. f_equal. unfold on_sides.
    pose proof (Hsame Buy bk E) as HB. pose proof (Hsame Sell bk E) as HS. simpl in HB, HS.
    destruct (a_side a); simpl; f_equal; symmetry; [apply HS|apply HB]; by right.
  - destruct (vget (m_books m) sym') as [bk'|] eqn:E'; [|done]. simpl. f_equal. unfold on_sides.
    pose proof (Hsame Buy bk' eq_refl) as HB. pose proof (Hsame Sell bk' eq_refl) as HS. simpl in HB, HS.
    rewrite HB, HS by (left; congruence). by destruct bk'.
Qed.

Lemma acancel_orders now m a :
  exchange_ok m → ids_unique m → a ∈ all_orders m →
  all_orders (snd (aon_book now (a_symbol a) m (acancel now a))) =
  filter (λ b, a_id b ≠ a_id a) (all_orders m).
Proof.
  intros Hx Hu Ha. apply (one_order_update now m a (acancel now a)
    (λ l, filter (λ b, a_id b ≠ a_id a) l)); try done.
  - intros. apply filter_app.
  - intros l Hl. by apply filter_all.
Qed.

Lemma ashrink_orders now c m a :
  exchange_ok m → ids_unique m → a ∈ all_orders m →
  c_qty c ≠ 0 → avalid_price m (c_price c) = true → c_price c = a_price a → c_qty c ≤ a_qty a →
  all_orders (snd (aon_book now (a_symbol a) m (areplace now c m a))) =
  (λ b, if a_id b =? a_id a then a_set_qty (c_qty c) b else b) <$> all_orders m.
Proof.
  intros Hx Hu Ha Hq Hv Hp Hle.
  apply (one_order_update now m a (areplace now c m a)
    (fmap (λ b, if a_id b =? a_id a then a_set_qty (c_qty c) b else b))); try done.
  - intros. apply fmap_app.
  - intros l Hl. rewrite <- (list_fmap_id l) at 2. apply list_fmap_ext.
    intros i b Hb%list_elem_of_lookup_2%Hl. by destruct (Z.eqb_spec (a_id b) (a_id a)).
  - intros bk E. unfold areplace. destruct (Z.eqb_spec (c_qty c) 0); [done|]. rewrite Hv. cbn [negb].
    rewrite Hp, Z.eqb_refl. destruct (Z.leb_spec (c_qty c) (a_qty a)); [|lia]. simpl. f_equal.
    apply list_fmap_ext. intros i b Hb%list_elem_of_lookup_2.
    destruct (Z.eqb_spec (a_id b) (a_id a)) as [Hid|]; [|done].
    by destruct (id_place _ _ _ _ _ _ Hx Hu Ha E Hb Hid) as (-> & _).
Qed.

(** ** Top-of-book reports *)
Lemma anew_no_top now newid c m bk ev : ev ∈ fst (anew now newid c m bk) → e_kind ev ≠ EvTop.
Proof.
  unfold anew. destruct (_ =? 0); [by intros ->%list_elem_of_singleton|].
  destruct (_ && _); [by intros ->%list_elem_of_singleton|].
  destruct newid as [id|]; [|by intros ->%list_elem_of_singleton].
  pose proof (amatch_and_rest_events now (c_type c) (c_tif c) (anew_order c id) bk ev) as Ha.
  destruct (amatch_and_rest _ _ _ _ _). by intros [->|[_ ?]%Ha]%elem_of_cons.
Qed.

Lemma areplace_no_top now c m a bk ev : ev ∈ fst (areplace now c m a bk) → e_kind ev ≠ EvTop.
Proof.
  destruct (c_qty c =? 0) eqn:E1; [unfold areplace; rewrite E1; by intros ->%list_elem_of_singleton|].
  destruct (avalid_price m (c_price c)) eqn:E2.
  - intros [_ ?]%areplace_events; done.
  - unfold areplace. rewrite E1, E2. by intros ->%list_elem_of_singleton.
Qed.

Lemma last_top_app sym l l' :
  (∀ ev, ev ∈ l' → e_kind ev ≠ EvTop ∨ e_symbol ev ≠ sym) → last_top sym (l ++ l') = last_top sym l.
Proof.
  unfold last_top. rewrite foldl_app. generalize (foldl (λ t ev, if bool_decide (e_kind ev = EvTop) && (e_symbol ev =? sym) then e_top ev else t)
    TopOfBook_default l).
  induction l' as [|ev l' IH]; intros t H; simpl; [done|].
  destruct (H ev) as [Hk|Hs]; [by left| |].
  - rewrite bool_decide_false by done. simpl. apply IH. intros ev' ?. apply H. by right.
  - destruct (Z.eqb_spec (e_symbol ev) sym); [done|]. rewrite andb_false_r. apply IH. intros ev' ?. apply H. by right.
Qed.

Lemma last_top_event sym l now t : last_top sym (l ++ [top_event now sym t]) = t.
Proof. unfold last_top. rewrite foldl_app. simpl. by rewrite Z.eqb_refl. Qed.

(** The subscriber's picture of every symbol. *)
Definition mirrored (m : Exchange) (sink : list Event) : Prop :=
  ∀ sym bk, vget (m_books m) sym = Some bk → last_top sym sink = atop bk.

Lemma mirrored_book now sym m f sink :
  mirrored m sink → (∀ bk ev, ev ∈ fst (f bk) → e_kind ev ≠ EvTop) →
  mirrored (snd (aon_book now sym m f)) (sink ++ fst (aon_book now sym m f)).
Proof.
  intros Hm Hf. destruct (vget (m_books m) sym) as [bk|] eqn:E.
  2: { unfold aon_book. rewrite E. simpl. by rewrite app_nil_r. }
  intros sym' bk'. rewrite (aon_book_vget _ _ _ _ bk) by done. unfold aon_book. rewrite E.
  specialize (Hf bk). destruct (f bk) as [evs bk1]. simpl in *. rewrite app_assoc.
  assert (last_top sym' (sink ++ evs) = last_top sym' sink) as Hev.
  { apply last_top_app. intros ev Hev. left. auto. }
  case_decide as Hs.
  - subst sym'. intros. inv_some. destruct (top_eqb (atop bk') (atop bk)) eqn:Et.
    + apply top_eqb_eq in Et. rewrite app_nil_r, Hev, Et. by apply Hm.
    + apply last_top_event.
  - intros E'. rewrite last_top_app, Hev; [by apply Hm|]. intros ev Hin. right.
    destruct (top_eqb _ _); [set_solver|]. by apply list_elem_of_singleton in Hin as ->.
Qed.

Lemma mirrored_reject m sink now c r : mirrored m sink → mirrored m (sink ++ [reject_event now c r]).
Proof.
  intros H sym bk E. rewrite last_top_app; [by apply H|]. intros ev ->%list_elem_of_singleton. by left.
Qed.

Lemma mirrored_aprocess now newid c m sink :
  mirrored m sink → mirrored (snd (aprocess now newid c m)) (sink ++ fst (aprocess now newid c m)).
Proof.
  intros H. unfold aprocess. destruct (c_kind c).
  - destruct (_ <=? _); [by apply mirrored_reject|]. apply mirrored_book; [done|]. intros bk ev. apply anew_no_top.
  - destruct (afind _ m) as [a|]; [|by apply mirrored_reject]. destruct (negb _); [by apply mirrored_reject|].
    apply mirrored_book; [done|]. by intros bk ev ->%list_elem_of_singleton.
  - destruct (afind _ m) as [a|]; [|by apply mirrored_reject]. destruct (negb _); [by apply mirrored_reject|].
    apply mirrored_book; [done|]. intros bk ev. apply areplace_no_top.
Qed.

(** ** A new order that passes the guards *)
Lemma accepted_qty newid c m :
  c_kind c = CmdNew → reject_reason newid c m = None → 0 ≤ c_qty c < 2 ^ 32 → 0 < c_qty c.
Proof.
  unfold reject_reason. intros ->. destruct (_ <=? _); [done|].
  destruct (Z.eqb_spec (c_qty c) 0); [done|]. lia.
Qed.

Lemma rests_as_cases ty tif t l q :
  q ≤ a_qty t →
  rests_as ty tif (a_set_qty (a_qty t - q) t) l =
  if bool_decide (q < a_qty t ∧ ty = Limit ∧ tif = GTC)
  then arest (a_set_qty (a_qty t - q) t) l else l.
Proof.
  intros ?. unfold rests_as. cbn [a_qty a_set_qty].
  destruct (Z.eqb_spec (a_qty t - q) 0); simpl.
  { rewrite bool_decide_false; [done|lia]. }
  destruct ty, tif; simpl; case_bool_decide; try done; exfalso; naive_solver lia.
Qed.

Section NewOrder.
Context (now : Z) (c : Command) (id : Z) (m : Exchange) (bk : ABook).
Hypotheses (Hk : c_kind c = CmdNew) (Hr : reject_reason (Some id) c m = None)
  (Hbk : vget (m_books m) (c_symbol c) = Some bk).

Lemma aprocess_new : aprocess now (Some id) c m =
  aon_book now (c_symbol c) m (λ bk,
    let '(evs, bk) := amatch_and_rest now (c_type c) (c_tif c) (anew_order c id) bk in
    (abase now EvAccepted (anew_order c id) :: evs, bk)).
Proof.
  revert Hr. unfold reject_reason, aprocess, anew. rewrite Hk. destruct (_ <=? _); [done|].
  destruct (_ =? 0); [done|]. by destruct (_ && _).
Qed.

Lemma new_traded :
  traded (fst (aprocess now (Some id) c m)) =
  traded (fst (amatch_and_rest now (c_type c) (c_tif c) (anew_order c id) bk)).
Proof.
  rewrite aprocess_new, (traded_aon_book _ _ _ _ bk) by done.
  by destruct (amatch_and_rest _ _ _ _ _) as [evs bk'].
Qed.

Lemma new_book sym' :
  vget (m_books (snd (aprocess now (Some id) c m))) sym' =
  if decide (c_symbol c = sym')
  then Some (snd (amatch_and_rest now (c_type c) (c_tif c) (anew_order c id) bk))
  else vget (m_books m) sym'.
Proof.
  rewrite aprocess_new, (aon_book_vget _ _ _ _ bk) by done.
  by destruct (amatch_and_rest _ _ _ _ _) as [evs bk'].
Qed.

Lemma new_trade_price ev :
  ev ∈ fst (aprocess now (Some id) c m) → e_kind ev = EvTrade →
  ∃ a, a ∈ sget (opposite (c_side c)) bk ∧ e_price ev = a_price a ∧
    acrosses (c_type c) (anew_order c id) (a_price a) = true.
Proof.
  rewrite aprocess_new. unfold aon_book, amatch_and_rest. rewrite Hbk.
  destruct (amatch _ _ _ _) as [[evs t'] l'] eqn:E.
  assert (ev ∈ evs → ∃ a, a ∈ sget (opposite (c_side c)) bk ∧ e_price ev = a_price a ∧
    acrosses (c_type c) (anew_order c id) (a_price a) = true) as Hin.
  { intros Hev. destruct (amatch_prices _ _ _ _ _ _ _ _ E Hev) as (a & ? & ? & ? & _). eauto. }
  intros Hev Ht. apply Hin. revert Hev.
  clear Hin. destruct (_ =? 0); [|destruct (_ || _)]; destruct (top_eqb _ _); cbn [fst snd]; intros Hev;
    repeat match goal with
    | H : _ ∈ _ :: _ |- _ => apply elem_of_cons in H as [->|H]
    | H : _ ∈ _ ++ _ |- _ => apply elem_of_app in H as [H|H]
    | H : _ ∈ [] |- _ => by apply not_elem_of_nil in H
    end; done.
Qed.
End NewOrder.

(** ** The two ways to replace an order *)
Lemma areplace_shrink now c m a bk :
  c_qty c ≠ 0 → avalid_price m (c_price c) = true → c_price c = a_price a → c_qty c ≤ a_qty a →
  areplace now c m a bk =
  ([abase now EvReplaced (a_set_qty (c_qty c) a)],
   sset (a_side a) ((λ m, if a_id m =? a_id a then a_set_qty (c_qty c) a else m) <$> sget (a_side a) bk) bk).
Proof.
  intros Hq Hv Hp Hle. unfold areplace. destruct (Z.eqb_spec (c_qty c) 0); [done|]. rewrite Hv. cbn [negb].
  rewrite Hp, Z.eqb_refl. by destruct (Z.leb_spec (c_qty c) (a_qty a)); [|lia].
Qed.

Lemma areplace_move now c m a bk :
  c_qty c ≠ 0 → avalid_price m (c_price c) = true → c_price c ≠ a_price a ∨ a_qty a < c_qty c →
  let a' := a_set_qty (c_qty c) (a_set_price (c_price c) a) in
  areplace now c m a bk =
  (abase now EvReplaced a' :: fst (amatch_and_rest now Limit GTC a' (adrop a bk)),
   snd (amatch_and_rest now Limit GTC a' (adrop a bk))).
Proof.
  intros Hq Hv Hm a'. unfold areplace. destruct (Z.eqb_spec (c_qty c) 0); [done|]. rewrite Hv. cbn [negb].
  assert ((c_price c =? a_price a) && (c_qty c <=? a_qty a) = false) as -> by lia.
  fold a'. by destruct (amatch_and_rest _ _ _ _ _).
Qed.

Lemma traded_accept ev l : e_kind ev ≠ EvTrade → traded (ev :: l) = traded l.
Proof. intros Hk. unfold traded, trades. by rewrite filter_cons_False. Qed.

Lemma rests_limit t l q :
  q ≤ a_qty t →
  rests_as Limit GTC (a_set_qty (a_qty t - q) t) l =
  if bool_decide (q < a_qty t) then arest (a_set_qty (a_qty t - q) t) l else l.
Proof.
  intros Hq. rewrite rests_as_cases by done. do 2 case_bool_decide; naive_solver.
Qed.

Lemma resting_price_valid m a : exchange_ok m → a ∈ all_orders m → avalid_price m (a_price a) = true.
Proof.
  intros Hx (sym & bk & s & E & Ha)%elem_of_all_orders.
  destruct (sd_order _ _ _ _ (ab_side _ _ _ (Hx _ _ E) s) a Ha) as (_ & _ & ? & _).
  unfold avalid_price. lia.
Qed.

(** ** The mirror along a run *)
Lemma init_mirrored cfg : config_ok cfg → mirrored (abs (Engine_init cfg [])) [].
Proof.
  intros Hc sym bk E. pose proof (Engine_init_ok cfg Hc) as Hok. rewrite abs_vget in E.
  destruct (engine_top _ _ _ Hok E) as (b & Eb & Et). apply (proj1 (vget_spec _ _ _)) in Eb as [_ Eb].
  apply lookup_replicate in Eb as [-> _]. change (Some TopOfBook_default = Some (atop bk)) in Et. change (TopOfBook_default = atop bk). congruence.
Qed.

Lemma reachable_mirrored cfg e : reachable cfg e → mirrored (abs e) (sink_ e).
Proof.
  induction 1 as [Hc|now c e e' Hr IH Hc E]; [by apply init_mirrored|].
  destruct (sound_process now c e e' (reachable_sound _ _ Hr) Hc E) as [_ Hs].
  rewrite (so_abs _ _ _ _ Hs), (so_sink _ _ _ _ Hs). by apply mirrored_aprocess.
Qed.

(** The displayed top is the last one that was told. *)
Lemma engine_mirrors cfg e sym b : reachable cfg e → vget (books_ e) sym = Some b → top b = Some (last_top sym (sink_ e)).
Proof.
  intros Hr Eb. assert (mirrored (abs e) (sink_ e)) as Hm by (by eapply reachable_mirrored).
  assert (eabs e sym = Some (abs_book (pool_ e) b)) as Ea by (unfold eabs; by rewrite Eb).
  destruct (engine_top _ _ _ (sn_ok _ (reachable_sound _ _ Hr)) Ea) as (b' & Eb' & Et).
  rewrite Eb in Eb'. inv_some. rewrite Et. f_equal. symmetry. apply (Hm sym). by rewrite abs_vget.
Qed.
