(* ===== verification/Settle.v ===== *)
(** Every command is answered: the first event of a command is the one answer
    to it, addressed to the session that sent it, and no other event of the
    command can be taken for an answer.  Private events go to sessions that sent
    a command only. *)
From S2P Require Import Prelude Types Pool Book Queues Engine Spec SpecProps Abs EngineInv Process EngineFacts SpecEvents.

(** Trades and tops go to the market-data stream, everything else to a session. *)
Definition private (ev : Event) : bool := match e_kind ev with EvTrade | EvTop => false | _ => true end.

(** [ev] answers [c]. *)
Definition answers (c : Command) (ev : Event) : Prop :=
  e_session ev = c_session c ∧
  (e_kind ev = EvRejected ∧ e_tag ev = c_tag c ∨
   match c_kind c with
   | CmdNew => e_kind ev = EvAccepted ∧ e_tag ev = c_tag c
   | CmdCancel => e_kind ev = EvCancelled ∧ e_order_id ev = c_order_id c
   | CmdReplace => e_kind ev = EvReplaced ∧ e_order_id ev = c_order_id c
   end).

(** What may follow the answer. *)
Definition follows_answer (ev : Event) : Prop :=
  e_kind ev ≠ EvAccepted ∧ e_kind ev ≠ EvRejected ∧ e_kind ev ≠ EvReplaced.

Lemma amatch_and_rest_follow now ty tif t bk : Forall follows_answer (fst (amatch_and_rest now ty tif t bk)).
Proof.
  apply Forall_forall. intros ev. unfold amatch_and_rest. destruct (amatch _ _ _ _) as [[evs t'] l'] eqn:E.
  assert (ev ∈ evs → follows_answer ev) as Hm.
  { intros Hev. destruct (amatch_prices _ _ _ _ _ _ _ _ E Hev) as (m & _ & _ & _ & [Hk|Hk]);
      unfold follows_answer; rewrite Hk; done. }
  destruct (_ =? 0); [done|]. destruct (_ || _); [|done]. simpl.
  intros [? | ->%list_elem_of_singleton]%elem_of_app; [auto|done].
Qed.

(** The events of one command: its answer, then others. *)
Definition answered_by (c : Command) (evs : list Event) : Prop :=
  ∃ ev rest, evs = ev :: rest ∧ answers c ev ∧ Forall follows_answer rest.

Lemma reject_answers now c r : answered_by c [reject_event now c r].
Proof. exists (reject_event now c r), []. split_and!; [done|split; [done|by left]|done]. Qed.

Lemma aon_book_answers now sym m f c :
  is_Some (vget (m_books m) sym) → (∀ bk, answered_by c (fst (f bk))) → answered_by c (fst (aon_book now sym m f)).
Proof.
  intros [bk E] Hf. unfold aon_book. rewrite E. destruct (Hf bk) as (ev & rest & Er & Ha & Hr).
  destruct (f bk) as [evs bk']. simpl in *. subst evs. eexists ev, _. split_and!; [reflexivity|done|].
  apply Forall_app. split; [done|]. destruct (top_eqb _ _); [done|]. by apply Forall_singleton.
Qed.

Lemma anew_answers now newid c m bk : c_kind c = CmdNew → answered_by c (fst (anew now newid c m bk)).
Proof.
  intros Ek. unfold anew. destruct (_ =? 0); [apply reject_answers|]. destruct (_ && _); [apply reject_answers|].
  destruct newid as [id|]; [|apply reject_answers].
  pose proof (amatch_and_rest_follow now (c_type c) (c_tif c) (anew_order c id) bk) as Hf.
  destruct (amatch_and_rest _ _ _ _ _) as [evs bk']. eexists _, _. split_and!; [reflexivity| |done].
  split; [done|]. right. by rewrite Ek.
Qed.

Lemma areplace_answers now c m a bk :
  c_kind c = CmdReplace → a_session a = c_session c → a_id a = c_order_id c → answered_by c (fst (areplace now c m a bk)).
Proof.
  intros Ek Es Ei. unfold areplace. destruct (_ =? 0); [apply reject_answers|]. destruct (negb _); [apply reject_answers|].
  assert (∀ a', a_session a' = a_session a → a_id a' = a_id a → answers c (abase now EvReplaced a')) as Ha.
  { intros a' E1 E2. split; [simpl; congruence|]. right. rewrite Ek. simpl. split; congruence. }
  destruct (_ && _).
  { eexists _, []. split_and!; [reflexivity|by apply Ha|done]. }
  pose proof (amatch_and_rest_follow now Limit GTC (a_set_qty (c_qty c) (a_set_price (c_price c) a)) (adrop a bk)) as Hf.
  destruct (amatch_and_rest _ _ _ _ _) as [evs bk']. eexists _, _. split_and!; [reflexivity|by apply Ha|done].
Qed.

Lemma aprocess_answers now newid c m :
  0 ≤ c_symbol c → (∀ a, a ∈ all_orders m → is_Some (vget (m_books m) (a_symbol a))) →
  answered_by c (fst (aprocess now newid c m)).
Proof.
  intros Hsym Hbk. unfold aprocess. destruct (c_kind c) eqn:Ek.
  - destruct (Z.leb_spec (Z.of_nat (length (m_books m))) (c_symbol c)); [apply reject_answers|].
    apply aon_book_answers; [apply vget_is_Some; lia|]. intros bk. by apply anew_answers.
  - destruct (afind _ m) as [a|] eqn:Ea; [|apply reject_answers]. apply afind_elem in Ea as [Ha Hi].
    destruct (Z.eqb_spec (a_session a) (c_session c)); [|apply reject_answers].
    apply aon_book_answers; [by apply Hbk|]. intros bk. eexists _, []. split_and!; [reflexivity| |done].
    split; [done|]. right. rewrite Ek. done.
  - destruct (afind _ m) as [a|] eqn:Ea; [|apply reject_answers]. apply afind_elem in Ea as [Ha Hi].
    destruct (Z.eqb_spec (a_session a) (c_session c)); [|apply reject_answers].
    apply aon_book_answers; [by apply Hbk|]. intros bk. by apply areplace_answers.
Qed.

(** ** What holds of every order and every event

    [PO] is a property of orders that survives trading, [PE] the property it
    gives the events; [PC] is what commands and the ids of new orders must bring,
    [PN] what the clock must, and [PS] what orders and commands say of symbols. *)
Section Carry.
Context (PN PS : Z → Prop) (PO : AOrder → Prop) (PE : Event → Prop) (PC : option Z → Command → Prop).

Definition all_of (l : list AOrder) : Prop := ∀ a, a ∈ l → PO a.
Definition all_book (bk : ABook) : Prop := ∀ s, all_of (sget s bk).
Definition all_exchange (m : Exchange) : Prop := ∀ sym bk, vget (m_books m) sym = Some bk → all_book bk.

Context (po_qty : ∀ a, PO a → 0 ≤ a_qty a) (po_less : ∀ a q, PO a → 0 ≤ q ≤ a_qty a → PO (a_set_qty q a)).
Context (po_symbol : ∀ a, PO a → PS (a_symbol a)) (pc_symbol : ∀ id c, PC id c → PS (c_symbol c)).
Context (pe_base : ∀ now k a, PN now → PO a → PE (abase now k a)).
Context (pe_top : ∀ now sym bk, PN now → PS sym → all_book bk → PE (top_event now sym (atop bk))).
Context (pe_fill : ∀ now m t q, PN now → PO m → PO t → 0 ≤ q ≤ a_qty m → q ≤ a_qty t →
  Forall PE (fill_events now (a_set_qty (a_qty m - q) m) (a_set_qty (a_qty t - q) t) (a_price m) q)).
Context (pe_reject : ∀ now id c r, PN now → PC id c → PE (reject_event now c r)).
Context (po_new : ∀ id c, PC (Some id) c → PO (anew_order c id)).
Context (po_replace : ∀ id c a, PC id c → PO a → PO (a_set_qty (c_qty c) (a_set_price (c_price c) a)) ∧ PO (a_set_qty (c_qty c) a)).

Definition carried (r : list Event * ABook) : Prop := Forall PE (fst r) ∧ all_book (snd r).

Lemma all_set s l bk : all_book bk → all_of l → all_book (sset s l bk).
Proof. intros Hb Hl s'. rewrite sget_sset. case_decide; [done|apply Hb]. Qed.

Lemma amatch_carry now ty t l evs t' l' :
  PN now → amatch now ty t l = (evs, t', l') → PO t → all_of l → Forall PE evs ∧ PO t' ∧ all_of l'.
Proof.
  intros Hnow. revert t evs t' l'. induction l as [|m l IH]; intros t evs t' l' E Ht Hl; cbn [amatch] in E; revert E.
  { by intros (<- & <- & <-)%triple_inv. }
  assert (PO m) as Hm0 by (apply Hl; by left).
  assert (all_of l) as Hl0 by (intros a Ha; apply Hl; by right).
  pose proof (po_qty m Hm0). pose proof (po_qty t Ht).
  pose proof (pe_fill now m t (Z.min (a_qty t) (a_qty m)) Hnow Hm0 Ht ltac:(lia) ltac:(lia)) as Hf.
  assert (PO (a_set_qty (a_qty t - Z.min (a_qty t) (a_qty m)) t)) as Ht' by (apply po_less; [done|lia]).
  amatch_cases t m Hlt Hc Hm.
  - destruct (amatch _ _ _ l) as [[evs1 t1] l1] eqn:E1. intros (<- & <- & <-)%triple_inv.
    destruct (IH _ _ _ _ E1) as (H1 & H2 & H3); [done|done|]. split_and!; [|done|done]. by apply Forall_app.
  - intros (<- & <- & <-)%triple_inv. split_and!; [done|done|].
    intros a [->|Ha]%elem_of_cons; [apply po_less; [done|lia]|by apply Hl0].
  - by intros (<- & <- & <-)%triple_inv.
  - by intros (<- & <- & <-)%triple_inv.
Qed.

Lemma all_arest a l : PO a → all_of l → all_of (arest a l).
Proof. intros Ha Hl b. rewrite elem_of_arest. intros [->|?]; [done|by apply Hl]. Qed.

Lemma amatch_and_rest_carry now ty tif t bk : PN now → PO t → all_book bk → carried (amatch_and_rest now ty tif t bk).
Proof.
  intros Hnow Ht Hb. unfold carried, amatch_and_rest. destruct (amatch _ _ _ _) as [[evs t'] l'] eqn:E.
  destruct (amatch_carry _ _ _ _ _ _ _ Hnow E Ht (Hb _)) as (H1 & H2 & H3).
  pose proof (all_set (opposite (a_side t)) l' bk Hb H3) as Hb'.
  destruct (_ =? 0); [done|]. destruct (_ || _); simpl.
  - split; [|done]. apply Forall_app. split; [done|]. apply Forall_singleton. by apply pe_base.
  - split; [done|]. apply all_set; [done|]. by apply all_arest.
Qed.

Lemma carried_cons ev r : PE ev → carried r → carried (ev :: fst r, snd r).
Proof. intros He [H1 H2]. split; [|done]. by apply Forall_cons. Qed.

Lemma anew_carry now newid c m bk : PN now → PC newid c → all_book bk → carried (anew now newid c m bk).
Proof.
  intros Hnow Hc Hb. assert (∀ r, carried ([reject_event now c r], bk)) as Hr
    by (intros r; split; [apply Forall_singleton; by eapply pe_reject|done]).
  unfold anew. destruct (_ =? 0); [done|]. destruct (_ && _); [done|]. destruct newid as [id|]; [|done].
  pose proof (po_new id c Hc) as Ho. pose proof (amatch_and_rest_carry now (c_type c) (c_tif c) _ bk Hnow Ho Hb) as H.
  destruct (amatch_and_rest _ _ _ _ _). by apply (carried_cons _ _ (pe_base now EvAccepted _ Hnow Ho)) in H.
Qed.

Lemma adrop_all a bk : all_book bk → all_book (adrop a bk).
Proof. intros Hb. apply all_set; [done|]. intros b [_ Hin]%list_elem_of_filter. by apply (Hb (a_side a)). Qed.

Lemma areplace_carry now newid c m a bk : PN now → PC newid c → PO a → all_book bk → carried (areplace now c m a bk).
Proof.
  intros Hnow Hc Ha Hb. assert (∀ r, carried ([reject_event now c r], bk)) as Hr
    by (intros r; split; [apply Forall_singleton; by eapply pe_reject|done]).
  destruct (po_replace newid c a Hc Ha) as [H1 H2].
  unfold areplace. destruct (_ =? 0); [done|]. destruct (negb _); [done|]. destruct (_ && _).
  - split; [apply Forall_singleton; by apply pe_base|]. apply all_set; [done|]. intros b (d & -> & Hd)%list_elem_of_fmap.
    destruct (_ =? _); [done|]. by apply (Hb (a_side a)).
  - pose proof (amatch_and_rest_carry now Limit GTC _ (adrop a bk) Hnow H1 (adrop_all a bk Hb)) as H.
    destruct (amatch_and_rest _ _ _ _ _). by apply (carried_cons _ _ (pe_base now EvReplaced _ Hnow H1)) in H.
Qed.

Lemma aon_book_carry now sym m f :
  PN now → PS sym → all_exchange m → (∀ bk, all_book bk → carried (f bk)) →
  Forall PE (fst (aon_book now sym m f)) ∧ all_exchange (snd (aon_book now sym m f)).
Proof.
  intros Hnow Hsym Hm Hf. unfold aon_book. destruct (vget (m_books m) sym) as [bk|] eqn:E; [|done].
  destruct (Hf bk (Hm _ _ E)) as [H1 H2]. destruct (f bk) as [evs bk']. simpl in *. split.
  - apply Forall_app. split; [done|]. destruct (top_eqb _ _); [done|]. apply Forall_singleton. by apply pe_top.
  - intros sym' bk1. simpl. destruct (vset_is_Some (m_books m) sym bk') as [l El]; [by apply vget_lt in E|]. rewrite El. simpl.
    destruct (decide (sym' = sym)) as [->|Hne].
    + rewrite (vget_vset_eq _ _ _ _ El). by intros [= <-].
    + rewrite (vget_vset_ne _ _ _ _ _ El) by congruence. apply Hm.
Qed.

Lemma aprocess_carry now newid c m :
  PN now → PC newid c → all_exchange m → Forall PE (fst (aprocess now newid c m)) ∧ all_exchange (snd (aprocess now newid c m)).
Proof.
  intros Hnow Hc Hm. assert (∀ r, Forall PE [reject_event now c r]) as Hr by (intros r; apply Forall_singleton; by eapply pe_reject).
  assert (∀ a, a ∈ all_orders m → PO a) as Hall.
  { intros a Ha. apply elem_of_all_orders in Ha as (sym & bk & s & Eb & Hin). by apply (Hm sym bk Eb s). }
  unfold aprocess. destruct (c_kind c).
  - destruct (_ <=? _); [by split; [apply Hr|]|]. apply aon_book_carry; [done|by eapply pc_symbol|done|]. intros bk. by apply anew_carry.
  - destruct (afind _ m) as [a|] eqn:Ea; [|by split; [apply Hr|]]. apply afind_elem in Ea as [Ha _]. destruct (negb _); [by split; [apply Hr|]|].
    apply aon_book_carry; [done|apply po_symbol; by apply Hall|done|]. intros bk Hb. split; [apply Forall_singleton, pe_base; [done|by apply Hall]|by apply adrop_all].
  - destruct (afind _ m) as [a|] eqn:Ea; [|by split; [apply Hr|]]. apply afind_elem in Ea as [Ha _]. destruct (negb _); [by split; [apply Hr|]|].
    apply aon_book_carry; [done|apply po_symbol; by apply Hall|done|]. intros bk Hb. eapply areplace_carry; eauto.
Qed.

Lemma run_carry cfg cs e e' :
  reachable cfg e → (∀ e, reachable cfg e → Forall (λ nc, (command_ok (snd nc) ∧ PC (next_id (pool_ e)) (snd nc)) ∧ PN (fst nc)) cs) →
  run cs e = Some e' → Forall PE (sink_ e) → all_exchange (abs e) → Forall PE (sink_ e') ∧ all_exchange (abs e').
Proof.
  revert e. induction cs as [|[now c] cs IH]; intros e Hr Hcs E Hk Hx; simpl in E; [by inv_some|].
  pose proof (Hcs e Hr) as [[[Hc HC] HN] _]%Forall_cons. simpl in Hc, HC, HN. destruct (reachable_step _ _ now _ Hr Hc) as (e1 & E1 & Hr1 & Hs).
  rewrite E1 in E. simpl in E. destruct (aprocess_carry now (next_id (pool_ e)) c (abs e) HN HC Hx) as [H1 H2].
  apply (IH e1 Hr1); [|done|rewrite (so_sink _ _ _ _ Hs); by apply Forall_app|by rewrite (so_abs _ _ _ _ Hs)].
  intros e2 Hr2. by pose proof (Hcs e2 Hr2) as [_ ?]%Forall_cons.
Qed.
End Carry.

(** The exchange starts empty. *)
Lemma init_no_orders cfg : config_ok cfg → all_orders (abs (Engine_init cfg [])) = [].
Proof.
  intros Hc. destruct (Engine_init_ok _ Hc) as (fl & qs & H). apply length_zero_iff_nil.
  pose proof (live_count _ _ _ H) as El. cbn [live_ pool_ Engine_init Pool_init] in El. lia.
Qed.

Lemma init_all cfg (PO : AOrder → Prop) : config_ok cfg → all_exchange PO (abs (Engine_init cfg [])).
Proof.
  intros Hc sym bk E s a Ha. assert (a ∈ all_orders (abs (Engine_init cfg []))) as Hin by (apply elem_of_all_orders; eauto).
  rewrite init_no_orders in Hin by done. by apply not_elem_of_nil in Hin.
Qed.

(** ** Who gets private events *)
Definition known (S : Z → Prop) (ev : Event) : Prop := private ev = true → S (e_session ev).

Lemma run_known cfg (S : Z → Prop) cs e' :
  config_ok cfg → Forall (λ nc, command_ok (snd nc) ∧ S (c_session (snd nc))) cs → run cs (Engine_init cfg []) = Some e' →
  Forall (known S) (sink_ e').
Proof.
  intros Hc Hcs E.
  eapply (run_carry (λ _, True) (λ _, True) (λ a, S (a_session a) ∧ 0 ≤ a_qty a) (known S) (λ _ c, command_ok c ∧ S (c_session c)));
    [..|by apply reach_init| |exact E|done|by apply init_all].
  - by intros a [_ ?].
  - intros a q [? ?] ?. split; [done|simpl; lia].
  - done.
  - done.
  - intros now k a _ [? _] _. done.
  - done.
  - intros now m t q _ [Hm _] [Ht _] _ _. repeat (apply Forall_cons; split; [by intros ?|]). constructor.
  - intros now id c r _ [_ ?] _. done.
  - intros id c [[_ ?] ?]. split; [done|]. simpl. lia.
  - intros id c a [[_ ?] _] [? _]. split; (split; [done|simpl; lia]).
  - intros e _. eapply Forall_impl; [exact Hcs|]. intros nc [? ?]. by split_and!.
Qed.

(** ** Widths *)

(** The members of a command and of an event, at their widths. *)
Record command_wide (c : Command) : Prop := {
  cw_tag : 0 ≤ c_tag c < 2 ^ 64;
  cw_id : 0 ≤ c_order_id c < 2 ^ 64;
  cw_price : - 2 ^ 63 ≤ c_price c < 2 ^ 63;
  cw_qty : 0 ≤ c_qty c < 2 ^ 32;
  cw_symbol : 0 ≤ c_symbol c < 2 ^ 16 }.

Record event_ok (e : Event) : Prop := {
  ev_tag : 0 ≤ e_tag e < 2 ^ 64;
  ev_id : 0 ≤ e_order_id e < 2 ^ 64;
  ev_price : - 2 ^ 63 ≤ e_price e < 2 ^ 63;
  ev_qty : 0 ≤ e_qty e < 2 ^ 32;
  ev_remaining : 0 ≤ e_remaining e < 2 ^ 32;
  ev_symbol : 0 ≤ e_symbol e < 2 ^ 16;
  ev_ts : 0 ≤ e_ts_ns e < 2 ^ 64;
  ev_bid : - 2 ^ 63 ≤ t_bid (e_top e) < 2 ^ 63;
  ev_ask : - 2 ^ 63 ≤ t_ask (e_top e) < 2 ^ 63;
  ev_bid_qty : 0 ≤ t_bid_qty (e_top e) < 2 ^ 32;
  ev_ask_qty : 0 ≤ t_ask_qty (e_top e) < 2 ^ 32 }.

Definition order_wide (a : AOrder) : Prop :=
  0 ≤ a_tag a < 2 ^ 64 ∧ 0 ≤ a_id a < 2 ^ 64 ∧ - 2 ^ 63 ≤ a_price a < 2 ^ 63 ∧ 0 ≤ a_qty a < 2 ^ 32 ∧
  0 ≤ a_symbol a < 2 ^ 16.

Lemma next_id_wide cfg e id : reachable cfg e → next_id (pool_ e) = Some id → 0 ≤ id < 2 ^ 64.
Proof.
  intros Hr E. pose proof (reachable_sound _ _ Hr) as [(fl & qs & Hok) _]. pose proof (ei_pool _ _ _ _ Hok) as HP.
  unfold next_id in E. destruct (_ =? _); [done|]. apply fmap_Some in E as (o & Eo & ->).
  pose proof (po_gen _ _ HP _ _ Eo) as Hg. pose proof (po_cap _ _ HP) as Hcap. pose proof (at_range _ _ _ Eo) as Hx. unfold kNull in Hcap.
  pose proof (make_id_slot (o_gen o) (free_head_ (pool_ e)) ltac:(lia)) as Hs.
  pose proof (make_id_gen (o_gen o) (free_head_ (pool_ e)) ltac:(lia)) as Hd. unfold u32 in Hs. rewrite Z.shiftr_div_pow2 in Hd by lia.
  pose proof (Z.div_mod (make_id (o_gen o) (free_head_ (pool_ e))) (2 ^ 32) ltac:(lia)). lia.
Qed.

Lemma side_wide l :
  all_of order_wide l → - 2 ^ 63 ≤ aside_best l < 2 ^ 63 ∧ 0 ≤ aside_qty l < 2 ^ 32.
Proof.
  intros Hl. destruct l as [|a l]; simpl; [unfold kNoPrice; lia|]. split; [|apply u32_range].
  destruct (Hl a) as (_ & _ & ? & _); [by left|done].
Qed.

(** Every event of a run is within the widths of [struct Event]: nothing is cut
    when it is put on the wire. *)
Lemma run_wide cfg cs e' :
  config_ok cfg → Forall (λ nc, (command_ok (snd nc) ∧ command_wide (snd nc)) ∧ 0 ≤ fst nc < 2 ^ 64) cs →
  run cs (Engine_init cfg []) = Some e' → Forall event_ok (sink_ e').
Proof.
  intros Hc Hcs E.
  eapply (run_carry (λ now, 0 ≤ now < 2 ^ 64) (λ sym, 0 ≤ sym < 2 ^ 16) order_wide event_ok
      (λ id c, command_wide c ∧ from_option (λ i, 0 ≤ i < 2 ^ 64) True id));
    [..|by apply reach_init| |exact E|done|by apply init_all]; unfold order_wide.
  - intros a Ha. lia.
  - intros a q Ha Hq. simpl. lia.
  - intros a Ha. lia.
  - intros id c [[] _]. done.
  - intros now k a Hn Ha. split; simpl; unfold kNoPrice; lia.
  - intros now sym bk Hn Hs Hb. destruct (side_wide _ (Hb Buy)), (side_wide _ (Hb Sell)). split; simpl in *; lia.
  - intros now m t q Hn Hm Ht H1 H2. repeat (apply Forall_cons; split; [split; simpl; unfold kNoPrice; lia|]). constructor.
  - intros now id c r Hn [[] _]. split; simpl; unfold kNoPrice; lia.
  - intros id c [[] Hid]. simpl in *. destruct (c_type c); lia.
  - intros id c a [[] _] Ha. simpl. lia.
  - intros e Hr. eapply Forall_impl; [exact Hcs|]. intros nc [[? ?] ?]. split_and!; [done|done| |lia|lia].
    destruct (next_id (pool_ e)) as [id|] eqn:Ei; [|done]. simpl. by eapply next_id_wide.
Qed.

(** ** A whole run *)

(** The events of each command of a sequential run: what [process] adds to the sink. *)
Fixpoint run_blocks (cs : list (Z * Command)) (e : Engine) : option (list (list Event) * Engine) :=
  match cs with
  | [] => Some ([], e)
  | (now, c) :: cs =>
      e1 ← process now c e;
      '(blocks, e') ← run_blocks cs e1;
      Some (drop (length (sink_ e)) (sink_ e1) :: blocks, e')
  end.

(** The blocks of the commands in one run of a new engine, at some readings of the clock. *)
Definition engine_blocks (cfg : Config) (cmds : list Command) (blocks : list (list Event)) : Prop :=
  ∃ cs e, cs.*2 = cmds ∧ Forall (λ nc, 0 ≤ fst nc < 2 ^ 64) cs ∧ run_blocks cs (Engine_init cfg []) = Some (blocks, e).

Lemma run_settled cfg cs e e' :
  reachable cfg e → Forall (λ nc, command_ok (snd nc)) cs → run cs e = Some e' →
  ∃ blocks, run_blocks cs e = Some (blocks, e') ∧ sink_ e' = sink_ e ++ concat blocks ∧
    Forall2 (λ nc b, answered_by (snd nc) b) cs blocks.
Proof.
  revert e. induction cs as [|[now c] cs IH]; intros e Hr Hcs E; simpl in E |- *.
  { inv_some. exists []. by rewrite app_nil_r. }
  apply Forall_cons in Hcs as [Hc Hcs]. simpl in Hc. destruct (reachable_step _ _ now _ Hr Hc) as (e1 & E1 & Hr1 & Hs).
  rewrite E1 in E |- *. simpl in E |- *. destruct (IH e1 Hr1 Hcs E) as (blocks & -> & Ee & Hb). simpl.
  pose proof (so_sink _ _ _ _ Hs) as Es. eexists. split; [done|]. rewrite Ee, Es, drop_app_length. split; [by simpl; rewrite app_assoc|].
  constructor; [|done]. pose proof (reachable_sound _ _ Hr) as [Hok _].
  apply aprocess_answers; [apply Hc|]. intros a. by apply order_book.
Qed.
