(* ===== verification/Demo.v ===== *)
(** A small trading session on which the theorems are evaluated. *)
From S2P Require Import Prelude Types Pool Book Engine Process EngineFacts.

(** ** A session to evaluate: two symbols, prices to 64, eight slots *)
Module Demo.
Definition cfg : Config := mkConfig 2 64 8.
Definition limit (s : Side) (sym session tag px q : Z) : Command :=
  mkCommand CmdNew s Limit GTC sym session tag 0 px q.
Definition ioc (s : Side) (sym session tag px q : Z) : Command :=
  mkCommand CmdNew s Limit IOC sym session tag 0 px q.
Definition market (s : Side) (sym session tag q : Z) : Command :=
  mkCommand CmdNew s Market GTC sym session tag 0 0 q.
Definition cancel (session id : Z) : Command := mkCommand CmdCancel Buy Limit GTC 0 session 0 id 0 0.
Definition replace (session id px q : Z) : Command :=
  mkCommand CmdReplace Buy Limit GTC 0 session 0 id px q.

(** Two asks at 50 and one at 52, two bids at 47, one of them on symbol 1. *)
Definition cmds : list (Z * Command) :=
  [(1, limit Sell 0 7 1 50 10); (2, limit Sell 0 8 2 50 5); (3, limit Sell 0 7 3 52 20);
   (4, limit Buy 0 9 4 47 6); (5, limit Buy 1 9 5 47 6)].
Definition start : Engine := Engine_init cfg [].
Definition state : Engine := default start (run cmds start).
(** The ids of slots 0 and 3 in their first generation. *)
Definition ask0 : Z := make_id 1 0.
Definition bid3 : Z := make_id 1 3.

Lemma cfg_ok : config_ok cfg.
Proof. split; simpl; lia. Qed.

Lemma cmds_ok : Forall (λ nc, command_ok (snd nc)) cmds.
Proof. apply (bool_decide_unpack _). vm_compute. done. Qed.

Lemma reached : reachable cfg state.
Proof.
  apply (reachable_run cfg cmds start); [apply reach_init, cfg_ok|apply cmds_ok|]. vm_compute. reflexivity.
Qed.
End Demo.
