(* ===== verification/BookTheorems.v ===== *)
(** The theorems about the order slab, the price bitmap and [Book] on their own. *)
From S2P Require Import Prelude Types Pool Bitmap Book Links Queues BookInv BookOps Engine Spec.
From S2P Require Import MatchRefine Abs EngineInv Process EngineFacts Demo.

(** ** The order slab *)

(** [alloc] on a pool with a free slot returns a live, otherwise empty order
    whose id is new among the live orders and not 0, and touches no other slot;
    on an exhausted pool it returns null and changes nothing. *)
Theorem alloc_fresh (p : Pool) (fl : list Z) :
  pool_ok p fl →
  match fl with
  | [] => alloc p = Some (p, None)
  | x :: fl' => ∃ p' o, alloc p = Some (p', Some x) ∧ pool_ok p' fl' ∧ at_ p' x = Some o ∧
      o_live o = true ∧ o_qty o = 0 ∧ o_prev o = kNull ∧ o_next o = kNull ∧ o_id o ≠ 0 ∧
      find p (o_id o) = None ∧ find p' (o_id o) = Some x ∧
      live_ p' = live_ p + 1 ∧ ∀ y, y ≠ x → at_ p' y = at_ p y
  end.
Proof.
  intros H. destruct fl as [|x fl]; [by apply alloc_full|].
  destruct (alloc_spec _ _ _ H) as (p' & o & EA & Eo & HP' & Ax & _ & An & Hlen).
  pose proof (slot_lt_kNull _ _ _ _ H Eo) as Hx.
  exists p', (fresh_order (o_gen o) x). split_and!; try done.
  - apply make_id_nonzero; [apply (po_gen _ _ H _ _ Eo)|unfold kNull in *; lia].
  - destruct (find p _) as [y|] eqn:E; [|done].
    apply (find_spec _ _ _ _ H) in E as (oy & Ey & Ly & Hid). rewrite (po_id _ _ H _ _ Ey Ly) in Hid.
    apply (f_equal u32) in Hid. simpl in Hid.
    rewrite !make_id_slot in Hid by (pose proof (slot_lt_kNull _ _ _ _ H Ey); unfold kNull in *; lia). subst y.
    pose proof (fl_dead _ _ x oy H ltac:(by left) Ey). congruence.
  - apply (find_spec _ _ _ _ HP'). eauto.
  - rewrite (po_live _ _ H), (po_live _ _ HP'), Hlen. simpl. lia.
Qed.

(** [free] returns a live slot to the head of the free list and retires its
    id: a lookup of the freed id fails, the slot is the next one handed out, its
    new order has a different id, and the old id is still not found. *)
Theorem free_retires_id (p : Pool) (fl : list Z) (x : Z) (o : Order) :
  pool_ok p fl → at_ p x = Some o → o_live o = true →
  ∃ p' p'' o'', free p x = Some p' ∧ pool_ok p' (x :: fl) ∧ live_ p' = live_ p - 1 ∧
    find p' (o_id o) = None ∧
    alloc p' = Some (p'', Some x) ∧ at_ p'' x = Some o'' ∧ o_id o'' ≠ o_id o ∧
    find p'' (o_id o) = None ∧ ∀ y, y ≠ x → at_ p'' y = at_ p y.
Proof.
  intros H Eo L. destruct (free_spec _ _ _ _ H Eo L) as (p' & EF & HP' & Ax & An & Hlen).
  destruct (alloc_spec _ _ _ HP') as (p'' & o1 & EA & Eo1 & HP'' & Ax2 & _ & An2 & _).
  rewrite Ax in Eo1. inv_some. pose proof (slot_lt_kNull _ _ _ _ H Eo) as Hx.
  pose proof (bump_gen_range _ (po_gen _ _ H _ _ Eo)) as [_ Hg].
  assert (0 ≤ x < 2 ^ 32) as Hx32 by (unfold kNull in *; lia).
  assert (make_id (bump_gen (o_gen o)) x ≠ o_id o) as Hid.
  { rewrite (po_id _ _ H _ _ Eo L). intros E. apply (f_equal (λ i, Z.shiftr i 32)) in E.
    by rewrite !make_id_gen in E. }
  eexists p', p'', _. split_and!; try done.
  - rewrite (po_live _ _ H), (po_live _ _ HP'), Hlen. simpl. lia.
  - destruct (find p' _) as [y|] eqn:E; [|done].
    apply (find_spec _ _ _ _ HP') in E as (oy & Ey & Ly & Hy). destruct (decide (y = x)) as [->|Hne].
    + rewrite Ax in Ey. by inv_some.
    + rewrite An in Ey by done. exfalso. by apply Hne, (live_id_inj _ _ _ _ _ _ H Ey Eo).
  - destruct (find p'' _) as [y|] eqn:E; [|done].
    apply (find_spec _ _ _ _ HP'') in E as (oy & Ey & Ly & Hy). destruct (decide (y = x)) as [->|Hne].
    + rewrite Ax2 in Ey. inv_some. done.
    + rewrite An2, An in Ey by done. exfalso. by apply Hne, (live_id_inj _ _ _ _ _ _ H Ey Eo).
  - intros y Hy. by rewrite An2, An.
Qed.

(** ** The price bitmap *)

(** Prices 3 and 70 of 0..100 marked. *)
Lemma demo_bits_ok : bits_ok 100 [2 ^ 3; 2 ^ 6].
Proof.
  assert (∀ b, bits_ok 100 b → set_bit b 3 = Some [2 ^ 3; 0] → bits_ok 100 [2 ^ 3; 0]) as H1.
  { intros b Hb E. destruct (set_bit_ok 100 b 3 Hb) as (b' & E' & Hb' & _); [lia|]. congruence. }
  destruct (set_bit_ok 100 [2 ^ 3; 0] 70) as (b' & E' & Hb' & _); [|lia|vm_compute in E'; by inv_some].
  apply (H1 [0; 0]); [|reflexivity]. apply (bits_init_ok 100). lia.
Qed.

(** [scan_down] terminates and returns the highest marked price in 0..from,
    or [kNoPrice] when there is none (or [from] is below 1). *)
Lemma scan_down_highest (max : Z) (bits : list Z) (from : Z) :
  bits_ok max bits → from ≤ max →
  ∃ r, scan_down bits from = Some r ∧
    (r = kNoPrice ∧ (1 ≤ from → ∀ p, 0 ≤ p ≤ from → bit bits p = false) ∨
     0 ≤ r ≤ from ∧ bit bits r = true ∧ ∀ p, r < p ≤ from → bit bits p = false).
Proof.
  intros Hb Hf. destruct (scan_down_ok _ _ _ Hb Hf) as (r & E & [[? ->]|[? [[-> Hn]|(? & ? & ? & ?)]]]);
    exists r || exists kNoPrice; (split; [done|]).
  - left. split; [done|lia].
  - by left.
  - right. split_and!; [lia..|done|done].
Qed.

(** C33: The word-wise bitmap scans are exact: [scan_up] terminates and returns the
    lowest marked price at or above its argument, [scan_down] the highest marked
    price at or below its, or [kNoPrice] when there is none (or when [scan_down]
    starts below 1). *)
Theorem scans_nearest (max : Z) (bits : list Z) (lo hi : Z) :
  bits_ok max bits → 0 ≤ lo → hi ≤ max →
  (∃ r, scan_up max bits lo = Some r ∧
    (r = kNoPrice ∧ (∀ p, lo ≤ p → bit bits p = false) ∨
     lo ≤ r ≤ max ∧ bit bits r = true ∧ ∀ p, lo ≤ p < r → bit bits p = false)) ∧
  ∃ r, scan_down bits hi = Some r ∧
    (r = kNoPrice ∧ (1 ≤ hi → ∀ p, 0 ≤ p ≤ hi → bit bits p = false) ∨
     0 ≤ r ≤ hi ∧ bit bits r = true ∧ ∀ p, r < p ≤ hi → bit bits p = false).
Proof. intros Hb Hlo Hhi. split; [by apply scan_up_ok|by eapply scan_down_highest]. Qed.

Lemma scans_nearest_witness :
  let bits := [2 ^ 3; 2 ^ 6] in
  (∃ r, scan_up 100 bits 4 = Some r ∧
    (r = kNoPrice ∧ (∀ p, 4 ≤ p → bit bits p = false) ∨
     4 ≤ r ≤ 100 ∧ bit bits r = true ∧ ∀ p, 4 ≤ p < r → bit bits p = false)) ∧
  ∃ r, scan_down bits 69 = Some r ∧
    (r = kNoPrice ∧ (1 ≤ 69 → ∀ p, 0 ≤ p ≤ 69 → bit bits p = false) ∨
     0 ≤ r ≤ 69 ∧ bit bits r = true ∧ ∀ p, r < p ≤ 69 → bit bits p = false).
Proof. apply (scans_nearest 100 [2 ^ 3; 2 ^ 6] 4 69); [apply demo_bits_ok|lia|lia]. Defined.

Example demo_scans : scan_up 100 [2 ^ 3; 2 ^ 6] 4 = Some 70 ∧ scan_down [2 ^ 3; 2 ^ 6] 69 = Some 3.
Proof. split; vm_compute; reflexivity. Qed.

(** ** Book operations on the linked queues

    [queues_of pool b s p] is what following the [next] links from the level's
    head finds, so these theorems speak about the memory the code leaves. *)

(** A book of a reachable engine, with the queues its links spell. *)
Lemma reachable_book cfg e sym b :
  reachable cfg e → vget (books_ e) sym = Some b →
  fits (pool_ e) ∧ book_ok (pool_ e) b sym (queues_of (pool_ e) b).
Proof.
  intros Hr Eb. pose proof (reachable_sound _ _ Hr) as [(fl & qs & H) _].
  pose proof (po_cap _ _ (ei_pool _ _ _ _ H)) as Hfit. destruct (ei_book _ _ _ _ H _ _ Eb) as [HB _].
  split; [done|]. by rewrite (queues_of_ok _ _ _ _ Hfit HB).
Qed.

Lemma relinked_fits p p' D : fits p → relinked p p' D → fits p'.
Proof. intros Hf HR. by rewrite (rl_len _ _ _ HR). Qed.

(** [insert] puts the order at the tail of its price level: following the
    links afterwards finds the old queue with the new slot last, and every other
    level unchanged; bitmap, best price and counters agree with the new queues. *)
Theorem insert_appends (pool : Pool) (b : Book) (sym x : Z) (ord : Order) :
  fits pool → book_ok pool b sym (queues_of pool b) → at_ pool x = Some ord →
  rests sym (o_side ord) (o_price ord) ord → 1 ≤ o_price ord ≤ max_price_ b →
  (∀ s p, x ∉ queues_of pool b s p) →
  ∃ pool' b', insert pool b x = Some (pool', b') ∧
    queues_of pool' b' ≡ qupd (queues_of pool b) (o_side ord) (o_price ord)
      (queues_of pool b (o_side ord) (o_price ord) ++ [x]) ∧
    book_ok pool' b' sym (queues_of pool' b').
Proof.
  intros Hfit HB Ex Hrs Hp Hx.
  destruct (insert_ok _ _ _ _ _ _ _ _ Hfit HB Ex Hrs Hp Hx) as (pool' & b' & E & HB' & _ & HR).
  exists pool', b'. pose proof (queues_of_ok _ _ _ _ (relinked_fits _ _ _ Hfit HR) HB') as Hq.
  split_and!; [done|done|]. by rewrite Hq.
Qed.

(** C32: [remove] takes one order out of the middle of its queue: following the
    links afterwards finds the same slots in the same order without it, on every
    level; bitmap, best price and counters agree with the new queues. *)
Theorem remove_unlinks (pool : Pool) (b : Book) (sym x : Z) (ord : Order) :
  fits pool → book_ok pool b sym (queues_of pool b) → at_ pool x = Some ord →
  x ∈ queues_of pool b (o_side ord) (o_price ord) →
  ∃ pool' b', remove pool b x = Some (pool', b') ∧
    queues_of pool' b' ≡ (λ s p, filter (λ y, y ≠ x) (queues_of pool b s p)) ∧
    book_ok pool' b' sym (queues_of pool' b').
Proof.
  intros Hfit HB Ex Hx. pose proof Hx as (l1 & l2 & Eq)%list_elem_of_split.
  destruct (remove_ok _ _ _ _ _ _ _ _ _ _ Hfit HB Eq Ex) as (pool' & b' & E & HB' & _ & HR & _).
  exists pool', b'. pose proof (queues_of_ok _ _ _ _ (relinked_fits _ _ _ Hfit HR) HB') as Hq.
  split_and!; [done| |by rewrite Hq]. rewrite Hq. intros s p.
  destruct (qupd_cases (queues_of pool b) (o_side ord) (o_price ord) (l1 ++ l2) s p) as [(-> & -> & ->)|[Hne ->]].
  - destruct (queued _ _ _ _ _ _ _ HB Hx) as [Hp _].
    destruct (lo_level _ _ _ _ (bk_levels _ _ _ _ HB) (o_side ord) (o_price ord)) as (lvl & _ & Hl); [lia|].
    pose proof (lk_nodup _ _ _ _ _ _ Hl) as Hnd. rewrite Eq in *.
    apply NoDup_app in Hnd as (_ & Hd & [Hx2 _]%NoDup_cons).
    rewrite filter_app, filter_cons_False by naive_solver.
    rewrite !filter_all; [done| |]; intros y Hy ->; [done|]. apply (Hd x Hy). by left.
  - rewrite filter_all; [done|]. intros y Hy ->. apply Hne.
    by destruct (queued_unique _ _ _ _ _ _ _ _ _ HB Hx Hy) as [-> ->].
Qed.

(** The first of the two asks at 50. *)
Lemma remove_unlinks_witness :
  let pool := pool_ Demo.state in
  let b := default (Book_init 64) (vget (books_ Demo.state) 0) in
  ∃ pool' b', remove pool b 0 = Some (pool', b') ∧
    queues_of pool' b' ≡ (λ s p, filter (λ y, y ≠ 0) (queues_of pool b s p)) ∧
    book_ok pool' b' 0 (queues_of pool' b').
Proof.
  destruct (reachable_book Demo.cfg Demo.state 0 (default (Book_init 64) (vget (books_ Demo.state) 0)))
    as [Hf HB]; [apply Demo.reached|vm_compute; reflexivity|].
  apply (remove_unlinks _ _ 0 0 (default Order_default (at_ (pool_ Demo.state) 0)) Hf HB).
  - vm_compute. reflexivity.
  - apply (bool_decide_unpack _). vm_compute. exact I.
Defined.

(** [reduce] changes the quantity in place: every queue keeps its slots and
    their order, only the one order's quantity changes, and the level's displayed
    quantity is again the (32-bit) sum of its orders. *)
Theorem reduce_in_place (pool : Pool) (b : Book) (sym x n : Z) (ord : Order) :
  fits pool → book_ok pool b sym (queues_of pool b) → at_ pool x = Some ord →
  x ∈ queues_of pool b (o_side ord) (o_price ord) → 0 ≤ n ≤ o_qty ord →
  ∃ pool' b' lvl, reduce pool b x n = Some (pool', b') ∧
    queues_of pool' b' ≡ queues_of pool b ∧ book_ok pool' b' sym (queues_of pool' b') ∧
    at_ pool' x = Some (set_qty n ord) ∧ (∀ y, y ≠ x → at_ pool' y = at_ pool y) ∧
    level b' (o_side ord) (o_price ord) = Some lvl ∧
    l_qty lvl = u32 (zsum (qty_of pool' <$> queues_of pool b (o_side ord) (o_price ord))).
Proof.
  intros Hfit HB Ex Hx Hn.
  destruct (reduce_ok _ _ _ _ _ _ _ _ n HB Hx Ex Hn) as (pool' & b' & E & HB' & Em & EU & Ax & An).
  assert (fits pool') as Hfit'.
  { destruct (upd_Some pool x ord (set_qty n) Ex) as (p1 & E1 & _ & _ & Hl & _). rewrite EU in E1. inv_some.
    by rewrite Hl. }
  pose proof (queues_of_ok _ _ _ _ Hfit' HB') as Hq. destruct (queued _ _ _ _ _ _ _ HB Hx) as [Hp _].
  destruct (lo_level _ _ _ _ (bk_levels _ _ _ _ HB') (o_side ord) (o_price ord)) as (lvl & El & Hl); [lia|].
  exists pool', b', lvl. split_and!; try done; [by rewrite Hq|apply Hl].
Qed.
