(* ===== verification/EngineTheorems.v ===== *)
(** The theorems about [Engine]: what [process] guarantees in every state the
    engine can reach. *)
From S2P Require Import Prelude Types Pool Bitmap Book Links Queues BookInv BookOps Engine Spec.
From S2P Require Import MatchRefine Abs EngineInv EngineRefine Handlers SpecProps Process EngineFacts SpecEvents Demo.

(** ** Safety of the whole engine *)

(** C3: From the constructor's state every sequence of commands is processed to
    the end: no read or write outside the slab, the level arrays or the book
    vector, and every loop terminates. *)
Theorem run_never_faults (cfg : Config) (cs : list (Z * Command)) :
  config_ok cfg → Forall (λ nc, command_ok (snd nc)) cs → is_Some (run cs (Engine_init cfg [])).
Proof.
  intros Hc Hcs. destruct (sound_run cs _ (sound_init cfg Hc) Hcs) as (e & E & _). eauto.
Qed.

Lemma run_never_faults_witness : is_Some (run Demo.cmds Demo.start).
Proof. apply (run_never_faults Demo.cfg Demo.cmds); [apply Demo.cfg_ok|apply Demo.cmds_ok]. Defined.

(** C1: [process] implements the specification: in every reachable state and for
    every command it returns, appends exactly the specified events to the sink
    and moves the abstract exchange exactly as specified. *)
Theorem process_refines (cfg : Config) (e : Engine) (now : Z) (c : Command) :
  reachable cfg e → command_ok c →
  ∃ e', process now c e = Some e' ∧ reachable cfg e' ∧
    sink_ e' = sink_ e ++ fst (aprocess now (next_id (pool_ e)) c (abs e)) ∧
    abs e' = snd (aprocess now (next_id (pool_ e)) c (abs e)).
Proof.
  intros Hr Hc. destruct (reachable_step _ _ now _ Hr Hc) as (e' & E & Hr' & Hs).
  exists e'. split_and!; try done; apply Hs.
Qed.

Lemma process_refines_witness :
  ∃ e', process 6 (Demo.limit Buy 0 9 6 51 12) Demo.state = Some e' ∧ reachable Demo.cfg e' ∧
    sink_ e' = sink_ Demo.state ++
      fst (aprocess 6 (next_id (pool_ Demo.state)) (Demo.limit Buy 0 9 6 51 12) (abs Demo.state)) ∧
    abs e' = snd (aprocess 6 (next_id (pool_ Demo.state)) (Demo.limit Buy 0 9 6 51 12) (abs Demo.state)).
Proof. apply (process_refines Demo.cfg); [apply Demo.reached|split; simpl; lia]. Defined.

(** C7: A reachable book is never crossed: its displayed best bid is below its
    displayed best ask, whenever both exist. *)
Theorem book_never_crossed (cfg : Config) (e : Engine) (sym : Z) (b : Book) :
  reachable cfg e → vget (books_ e) sym = Some b →
  ∃ t, top b = Some t ∧ (t_bid t ≠ kNoPrice → t_ask t ≠ kNoPrice → t_bid t < t_ask t).
Proof.
  intros Hr Eb. pose proof (reachable_sound _ _ Hr) as [Hok Hx].
  assert (eabs e sym = Some (abs_book (pool_ e) b)) as Ea by (unfold eabs; by rewrite Eb).
  destruct (engine_top _ _ _ Hok Ea) as (b' & Eb' & Et). rewrite Eb in Eb'. inv_some.
  eexists. split; [done|]. rewrite <- abs_vget in Ea. pose proof (ab_uncrossed _ _ _ (Hx _ _ Ea)) as Hu.
  revert Hu. generalize (abs_book (pool_ e) b'). intros [[|b l] [|a l']] Hu; simpl; try done.
  intros _ _. apply Hu; by left.
Qed.

Lemma book_never_crossed_witness :
  ∃ t, top (default (Book_init 64) (vget (books_ Demo.state) 0)) = Some t ∧
    (t_bid t ≠ kNoPrice → t_ask t ≠ kNoPrice → t_bid t < t_ask t).
Proof.
  apply (book_never_crossed Demo.cfg Demo.state 0); [apply Demo.reached|vm_compute; reflexivity].
Defined.

(** C12: Price-time priority is kept: in every reachable state each side of each
    book is sorted best price first, and every resting order has positive
    quantity, a valid price and the symbol and side of the book it is in. *)
Theorem price_priority (cfg : Config) (e : Engine) (sym : Z) (bk : ABook) (s : Side) :
  reachable cfg e → vget (m_books (abs e)) sym = Some bk →
  StronglySorted (before s) (sget s bk) ∧
  ∀ a, a ∈ sget s bk → a_side a = s ∧ a_symbol a = sym ∧ 1 ≤ a_price a ≤ m_max_price (abs e) ∧ 0 < a_qty a.
Proof.
  intros Hr E. pose proof (reachable_sound _ _ Hr) as [_ Hx].
  destruct (ab_side _ _ _ (Hx sym bk E) s). done.
Qed.

Lemma price_priority_witness :
  StronglySorted (before Sell) (sget Sell (default (mkSides [] []) (vget (m_books (abs Demo.state)) 0))) ∧
  ∀ a, a ∈ sget Sell (default (mkSides [] []) (vget (m_books (abs Demo.state)) 0)) →
    a_side a = Sell ∧ a_symbol a = 0 ∧ 1 ≤ a_price a ≤ m_max_price (abs Demo.state) ∧ 0 < a_qty a.
Proof.
  apply (price_priority Demo.cfg Demo.state 0); [apply Demo.reached|vm_compute; reflexivity].
Defined.

(** C13: No slot leaks and no id is shared: in every reachable state the pool's
    live counter is the number of resting orders, the resting orders have
    distinct ids, and [find] succeeds exactly on their ids. *)
Theorem pool_matches_books (cfg : Config) (e : Engine) :
  reachable cfg e →
  live_ (pool_ e) = Z.of_nat (length (all_orders (abs e))) ∧
  NoDup (a_id <$> all_orders (abs e)) ∧
  ∀ id, is_Some (find (pool_ e) id) ↔ id ∈ a_id <$> all_orders (abs e).
Proof.
  intros Hr. pose proof (reachable_sound _ _ Hr) as [(fl & qs & H) _].
  split_and!; [by eapply live_count|by eapply all_ids_NoDup|]. intros id.
  rewrite list_elem_of_fmap. setoid_rewrite (all_orders_live _ _ _ _ H). split.
  - intros [x (o & Eo & L & <-)%(find_spec _ _ _ _ (ei_pool _ _ _ _ H))]. exists (to_a o). split; [done|]. by exists x, o.
  - intros (a & -> & x & o & Eo & L & ->). exists x. apply (find_spec _ _ _ _ (ei_pool _ _ _ _ H)). eauto.
Qed.

Lemma pool_matches_books_witness :
  live_ (pool_ Demo.state) = 5 ∧ live_ (pool_ Demo.state) = Z.of_nat (length (all_orders (abs Demo.state))) ∧
  NoDup (a_id <$> all_orders (abs Demo.state)) ∧
  ∀ id, is_Some (find (pool_ Demo.state) id) ↔ id ∈ a_id <$> all_orders (abs Demo.state).
Proof. split; [vm_compute; reflexivity|apply (pool_matches_books Demo.cfg), Demo.reached]. Defined.

(** ** New orders *)

(** C9: A new order that passes the guards executes as much as the book allows:
    the quantity it trades is the smaller of its own quantity and the volume
    resting on the opposite side at acceptable prices; that side loses exactly
    this volume, from the front of the queue; other symbols are untouched. *)
Theorem new_order_executes (cfg : Config) (e : Engine) (now : Z) (c : Command) (id : Z) (bk : ABook) :
  reachable cfg e → command_ok c → c_kind c = CmdNew → next_id (pool_ e) = Some id →
  reject_reason (Some id) c (abs e) = None → vget (m_books (abs e)) (c_symbol c) = Some bk →
  ∃ e' evs bk', process now c e = Some e' ∧ sink_ e' = sink_ e ++ evs ∧
    vget (m_books (abs e')) (c_symbol c) = Some bk' ∧
    let opp := opposite (c_side c) in
    traded evs = Z.min (c_qty c) (volume (crossing (c_type c) (anew_order c id) (sget opp bk))) ∧
    volume (sget opp bk') = volume (sget opp bk) - traded evs ∧
    consumed (sget opp bk) (sget opp bk') ∧
    ∀ sym', sym' ≠ c_symbol c → vget (m_books (abs e')) sym' = vget (m_books (abs e)) sym'.
Proof.
  intros Hr Hc Hk Hid Hrej Hbk. destruct (reachable_step _ _ now _ Hr Hc) as (e' & E & _ & Hs).
  pose proof (reachable_sound _ _ Hr) as [_ Hx]. pose proof (accepted_qty _ _ _ Hk Hrej (ck_qty _ Hc)) as Hq.
  pose proof (new_traded now c id _ _ Hk Hrej Hbk) as Ht.
  pose proof (amatch_and_rest_volumes _ _ now (c_type c) (c_tif c) (anew_order c id) _ (Hx _ _ Hbk) Hq)
    as (H1 & H2 & H3 & _).
  rewrite Hid in Hs. eexists e', _, _. split_and!; [done|apply Hs|..].
  - rewrite (so_abs _ _ _ _ Hs), (new_book _ _ _ _ bk) by done. by rewrite decide_True.
  - cbv zeta. rewrite Ht. split_and!; [exact H1|exact H2|exact H3|]. intros sym' Hne. rewrite (so_abs _ _ _ _ Hs), (new_book _ _ _ _ bk) by done. by rewrite decide_False.
Qed.

(** The order that fills both asks at 50 and takes 3 of the ask at 52. *)
Lemma new_order_executes_witness :
  ∃ e' evs bk', process 6 (Demo.limit Buy 0 9 6 52 18) Demo.state = Some e' ∧
    sink_ e' = sink_ Demo.state ++ evs ∧ vget (m_books (abs e')) 0 = Some bk' ∧
    traded evs = 18 ∧ volume (sget Sell bk') = 17.
Proof.
  destruct (new_order_executes Demo.cfg Demo.state 6 (Demo.limit Buy 0 9 6 52 18) (make_id 1 5)
    (default (mkSides [] []) (vget (m_books (abs Demo.state)) 0))) as (e' & evs & bk' & H1 & H2 & H3 & H4 & H5 & _).
  - apply Demo.reached.
  - split; simpl; lia.
  - reflexivity.
  - vm_compute. reflexivity.
  - vm_compute. reflexivity.
  - vm_compute. reflexivity.
  - exists e', evs, bk'. rewrite H4 in H5. split_and!; [exact H1|exact H2|exact H3|..].
    + etransitivity; [exact H4|]. vm_compute. reflexivity.
    + etransitivity; [exact H5|]. vm_compute. reflexivity.
Defined.

(** C10: What is left of a new order rests exactly when it is a GTC limit order,
    behind every order of the same or a better price; a market or IOC order
    leaves its own side as it was. *)
Theorem new_order_remainder (cfg : Config) (e : Engine) (now : Z) (c : Command) (id : Z) (bk : ABook) :
  reachable cfg e → command_ok c → c_kind c = CmdNew → next_id (pool_ e) = Some id →
  reject_reason (Some id) c (abs e) = None → vget (m_books (abs e)) (c_symbol c) = Some bk →
  ∃ e' evs bk', process now c e = Some e' ∧ sink_ e' = sink_ e ++ evs ∧
    vget (m_books (abs e')) (c_symbol c) = Some bk' ∧
    let left := a_set_qty (c_qty c - traded evs) (anew_order c id) in
    sget (c_side c) bk' =
      if bool_decide (traded evs < c_qty c ∧ c_type c = Limit ∧ c_tif c = GTC)
      then arest left (sget (c_side c) bk) else sget (c_side c) bk.
Proof.
  intros Hr Hc Hk Hid Hrej Hbk. destruct (reachable_step _ _ now _ Hr Hc) as (e' & E & _ & Hs).
  pose proof (reachable_sound _ _ Hr) as [_ Hx]. pose proof (accepted_qty _ _ _ Hk Hrej (ck_qty _ Hc)) as Hq.
  pose proof (new_traded now c id _ _ Hk Hrej Hbk) as Ht.
  pose proof (amatch_and_rest_volumes _ _ now (c_type c) (c_tif c) (anew_order c id) _ (Hx _ _ Hbk) Hq)
    as (H1 & _ & _ & H4).
  rewrite Hid in Hs. eexists e', _, _. split_and!; [done|apply Hs|..].
  - rewrite (so_abs _ _ _ _ Hs), (new_book _ _ _ _ bk) by done. by rewrite decide_True.
  - cbv zeta. rewrite Ht. change (c_side c) with (a_side (anew_order c id)) at 1. rewrite H4.
    apply rests_as_cases. simpl in H1. rewrite H1. simpl. lia.
Qed.

(** The remainder of an oversized IOC order does not rest, that of a GTC order does. *)
Lemma new_order_remainder_witness :
  ∃ e' evs bk', process 6 (Demo.ioc Buy 0 9 6 50 18) Demo.state = Some e' ∧
    sink_ e' = sink_ Demo.state ++ evs ∧ vget (m_books (abs e')) 0 = Some bk' ∧
    sget Buy bk' = if bool_decide (traded evs < 18 ∧ Limit = Limit ∧ IOC = GTC)
      then arest (a_set_qty (18 - traded evs) (anew_order (Demo.ioc Buy 0 9 6 50 18) (make_id 1 5)))
        (sget Buy (default (mkSides [] []) (vget (m_books (abs Demo.state)) 0)))
      else sget Buy (default (mkSides [] []) (vget (m_books (abs Demo.state)) 0)).
Proof.
  apply (new_order_remainder Demo.cfg Demo.state 6 (Demo.ioc Buy 0 9 6 50 18) (make_id 1 5)
    (default (mkSides [] []) (vget (m_books (abs Demo.state)) 0))).
  - apply Demo.reached.
  - split; simpl; lia.
  - reflexivity.
  - vm_compute. reflexivity.
  - vm_compute. reflexivity.
  - vm_compute. reflexivity.
Defined.

(** C11: Every trade of a new order is at the price of an order that was resting
    on the opposite side, and never worse than the order's limit. *)
Theorem limit_price_respected (cfg : Config) (e e' : Engine) (now : Z) (c : Command) (id : Z) (bk : ABook) (ev : Event) :
  reachable cfg e → command_ok c → c_kind c = CmdNew → next_id (pool_ e) = Some id →
  reject_reason (Some id) c (abs e) = None → vget (m_books (abs e)) (c_symbol c) = Some bk →
  process now c e = Some e' → ev ∈ drop (length (sink_ e)) (sink_ e') → e_kind ev = EvTrade →
  (∃ a, a ∈ sget (opposite (c_side c)) bk ∧ e_price ev = a_price a) ∧
  (c_type c = Limit → match c_side c with Buy => e_price ev ≤ c_price c | Sell => c_price c ≤ e_price ev end).
Proof.
  intros Hr Hc Hk Hid Hrej Hbk E Hev Ht. destruct (reachable_step _ _ now _ Hr Hc) as (e1 & E1 & _ & Hs).
  rewrite E in E1. inv_some. rewrite (so_sink _ _ _ _ Hs), drop_app_length, Hid in Hev.
  destruct (new_trade_price _ _ _ _ _ Hk Hrej Hbk _ Hev Ht) as (a & Ha & Hp & Hx). split; [eauto|].
  intros Hty. unfold acrosses, anew_order, crosses in Hx. simpl in Hx. rewrite Hty, <- Hp in Hx. revert Hx.
  destruct (c_side c); lia.
Qed.

(** The second trade of the sweep that reaches the ask at 52. *)
Lemma limit_price_respected_witness :
  let c := Demo.limit Buy 0 9 6 52 18 in
  let e' := default Demo.start (process 6 c Demo.state) in
  let ev := default (reject_event 0 c RNone) ((trades (drop (length (sink_ Demo.state)) (sink_ e'))) !! 2%nat) in
  (∃ a, a ∈ sget Sell (default (mkSides [] []) (vget (m_books (abs Demo.state)) 0)) ∧ e_price ev = a_price a) ∧
  (Limit = Limit → e_price ev ≤ 52).
Proof.
  apply (limit_price_respected Demo.cfg Demo.state
    (default Demo.start (process 6 (Demo.limit Buy 0 9 6 52 18) Demo.state)) 6 (Demo.limit Buy 0 9 6 52 18)
    (make_id 1 5) (default (mkSides [] []) (vget (m_books (abs Demo.state)) 0))).
  - apply Demo.reached.
  - split; simpl; lia.
  - reflexivity.
  - vm_compute. reflexivity.
  - vm_compute. reflexivity.
  - vm_compute. reflexivity.
  - vm_compute. reflexivity.
  - apply (bool_decide_unpack _). vm_compute. exact I.
  - vm_compute. reflexivity.
Defined.

(** ** Cancel and replace *)

(** C15: A cancel by the owner takes exactly that order out: all other orders of
    all books stay, in the same order, the id is no longer known to the pool,
    and the first event reports the cancelled order. *)
Theorem cancel_removes (cfg : Config) (e : Engine) (now : Z) (c : Command) (a : AOrder) :
  reachable cfg e → command_ok c → c_kind c = CmdCancel →
  afind (c_order_id c) (abs e) = Some a → a_session a = c_session c →
  ∃ e' evs, process now c e = Some e' ∧ sink_ e' = sink_ e ++ abase now EvCancelled a :: evs ∧
    all_orders (abs e') = filter (λ b, a_id b ≠ c_order_id c) (all_orders (abs e)) ∧
    find (pool_ e') (c_order_id c) = None.
Proof.
  intros Hr Hc Hk Hf Hses. destruct (reachable_step _ _ now _ Hr Hc) as (e' & E & Hr' & Hs).
  pose proof (reachable_sound _ _ Hr) as [Hok Hx]. pose proof (afind_elem _ _ _ Hf) as [Ha Hid].
  destruct (order_book _ _ Hok Ha) as [bk Ebk].
  assert (aprocess now (next_id (pool_ e)) c (abs e) = aon_book now (a_symbol a) (abs e) (acancel now a)) as Ep.
  { unfold aprocess. by rewrite Hk, Hf, Hses, Z.eqb_refl. }
  assert (all_orders (abs e') = filter (λ b, a_id b ≠ c_order_id c) (all_orders (abs e))) as Hall.
  { rewrite (so_abs _ _ _ _ Hs), Ep, acancel_orders; [by rewrite Hid|done|by apply engine_ids_unique|done]. }
  exists e'. eexists. split_and!; [done| |done|].
  - rewrite (so_sink _ _ _ _ Hs), Ep. unfold aon_book. rewrite Ebk. simpl. done.
  - destruct (so_ok _ _ _ _ Hs) as (fl & qs & H'). pose proof (find_afind _ _ _ (c_order_id c) H') as HF.
    destruct (find (pool_ e') (c_order_id c)) as [x|]; [|done]. destruct HF as (o & _ & _ & Hio & Ho%afind_elem).
    rewrite Hall in Ho. destruct Ho as [[Hne _]%list_elem_of_filter ?]. done.
Qed.

Lemma cancel_removes_witness :
  let c := Demo.cancel 7 Demo.ask0 in
  let a := mkAOrder Demo.ask0 1 7 0 Sell 50 10 in
  ∃ e' evs, process 6 c Demo.state = Some e' ∧ sink_ e' = sink_ Demo.state ++ abase 6 EvCancelled a :: evs ∧
    all_orders (abs e') = filter (λ b, a_id b ≠ c_order_id c) (all_orders (abs Demo.state)) ∧
    find (pool_ e') (c_order_id c) = None.
Proof.
  apply (cancel_removes Demo.cfg).
  - apply Demo.reached.
  - split; simpl; lia.
  - reflexivity.
  - vm_compute. reflexivity.
  - reflexivity.
Defined.

(** C16: A replace at the same price that does not increase the size keeps the
    order's place: every order of the exchange stays where it is and only the
    quantity of the replaced one changes. *)
Theorem shrink_keeps_place (cfg : Config) (e : Engine) (now : Z) (c : Command) (a : AOrder) :
  reachable cfg e → command_ok c → c_kind c = CmdReplace →
  afind (c_order_id c) (abs e) = Some a → a_session a = c_session c →
  c_price c = a_price a → 0 < c_qty c ≤ a_qty a →
  ∃ e' evs, process now c e = Some e' ∧
    sink_ e' = sink_ e ++ abase now EvReplaced (a_set_qty (c_qty c) a) :: evs ∧
    all_orders (abs e') =
      (λ b, if a_id b =? c_order_id c then a_set_qty (c_qty c) b else b) <$> all_orders (abs e).
Proof.
  intros Hr Hc Hk Hf Hses Hp Hq. destruct (reachable_step _ _ now _ Hr Hc) as (e' & E & Hr' & Hs).
  pose proof (reachable_sound _ _ Hr) as [Hok Hx]. pose proof (afind_elem _ _ _ Hf) as [Ha Hid].
  destruct (order_book _ _ Hok Ha) as [bk Ebk].
  assert (avalid_price (abs e) (c_price c) = true) as Hv.
  { rewrite Hp. by eapply resting_price_valid. }
  assert (aprocess now (next_id (pool_ e)) c (abs e) = aon_book now (a_symbol a) (abs e) (areplace now c (abs e) a)) as Ep.
  { unfold aprocess. by rewrite Hk, Hf, Hses, Z.eqb_refl. }
  exists e'. eexists. split_and!; [done| |].
  - rewrite (so_sink _ _ _ _ Hs), Ep. unfold aon_book. rewrite Ebk, areplace_shrink by (done || lia). done.
  - rewrite (so_abs _ _ _ _ Hs), Ep, ashrink_orders; try done; [by rewrite Hid|by apply engine_ids_unique|lia..].
Qed.

Lemma shrink_keeps_place_witness :
  let c := Demo.replace 7 Demo.ask0 50 4 in
  let a := mkAOrder Demo.ask0 1 7 0 Sell 50 10 in
  ∃ e' evs, process 6 c Demo.state = Some e' ∧
    sink_ e' = sink_ Demo.state ++ abase 6 EvReplaced (a_set_qty (c_qty c) a) :: evs ∧
    all_orders (abs e') =
      (λ b, if a_id b =? c_order_id c then a_set_qty (c_qty c) b else b) <$> all_orders (abs Demo.state).
Proof.
  apply (shrink_keeps_place Demo.cfg).
  - apply Demo.reached.
  - split; simpl; lia.
  - reflexivity.
  - vm_compute. reflexivity.
  - reflexivity.
  - reflexivity.
  - simpl. lia.
Defined.

(** C17: Any other valid replace gives up the order's place: it leaves its queue,
    executes at the new price like a new limit order, and what is left rests
    under the same id behind the orders already there. *)
Theorem replace_requeues (cfg : Config) (e : Engine) (now : Z) (c : Command) (a : AOrder) (bk : ABook) :
  reachable cfg e → command_ok c → c_kind c = CmdReplace →
  afind (c_order_id c) (abs e) = Some a → a_session a = c_session c →
  vget (m_books (abs e)) (a_symbol a) = Some bk →
  0 < c_qty c → 1 ≤ c_price c ≤ max_price (cfg_ e) → (c_price c ≠ a_price a ∨ a_qty a < c_qty c) →
  ∃ e' evs bk', process now c e = Some e' ∧ sink_ e' = sink_ e ++ evs ∧
    vget (m_books (abs e')) (a_symbol a) = Some bk' ∧
    let t := a_set_qty (c_qty c) (a_set_price (c_price c) a) in
    let opp := opposite (a_side a) in
    traded evs = Z.min (c_qty c) (volume (crossing Limit t (sget opp bk))) ∧
    consumed (sget opp bk) (sget opp bk') ∧
    sget (a_side a) bk' =
      let others := filter (λ b, a_id b ≠ c_order_id c) (sget (a_side a) bk) in
      if bool_decide (traded evs < c_qty c) then arest (a_set_qty (c_qty c - traded evs) t) others else others.
Proof.
  intros Hr Hc Hk Hf Hses Ebk Hq Hp Hmove. destruct (reachable_step _ _ now _ Hr Hc) as (e' & E & Hr' & Hs).
  pose proof (reachable_sound _ _ Hr) as [Hok Hx]. pose proof (afind_elem _ _ _ Hf) as [Ha Hid].
  set (t := a_set_qty (c_qty c) (a_set_price (c_price c) a)).
  assert (aprocess now (next_id (pool_ e)) c (abs e) = aon_book now (a_symbol a) (abs e) (areplace now c (abs e) a)) as Ep.
  { unfold aprocess. by rewrite Hk, Hf, Hses, Z.eqb_refl. }
  rewrite Ep in Hs. eexists e', _, _. split_and!; [done|apply Hs|..].
  { rewrite (so_abs _ _ _ _ Hs), (aon_book_vget _ _ _ _ bk) by done. by rewrite decide_True. }
  rewrite (traded_aon_book _ _ _ _ bk), areplace_move by (done || (unfold avalid_price; simpl; lia)). fold t.
  pose proof (amatch_and_rest_volumes _ _ now Limit GTC t _ (adrop_ok _ _ a _ (Hx _ _ Ebk)) Hq) as (H1 & _ & H3 & H4).
  assert (sget (opposite (a_side a)) (adrop a bk) = sget (opposite (a_side a)) bk) as Eo
    by (unfold adrop; by rewrite sget_sset_ne by (by destruct (a_side a))).
  change (a_side t) with (a_side a) in *. rewrite Eo in H1, H3. cbn [fst snd]. rewrite traded_accept by done.
  split_and!; [exact H1|exact H3|]. rewrite H4. change (a_qty t) with (c_qty c) in *.
  rewrite <- Hid. unfold adrop at 2. rewrite sget_sset_eq. apply (rests_limit t). change (a_qty t) with (c_qty c). rewrite H1. lia.
Qed.

(** The bid at 47 moves to 52 and grows to 40: it takes everything and rests there. *)
Lemma replace_requeues_witness :
  ∃ e' evs bk', process 6 (Demo.replace 9 Demo.bid3 52 40) Demo.state = Some e' ∧
    sink_ e' = sink_ Demo.state ++ evs ∧ vget (m_books (abs e')) 0 = Some bk' ∧ traded evs = 35.
Proof.
  destruct (replace_requeues Demo.cfg Demo.state 6 (Demo.replace 9 Demo.bid3 52 40)
    (mkAOrder Demo.bid3 4 9 0 Buy 47 6) (default (mkSides [] []) (vget (m_books (abs Demo.state)) 0)))
    as (e' & evs & bk' & H1 & H2 & H3 & H4 & _).
  - apply Demo.reached.
  - split; simpl; lia.
  - reflexivity.
  - vm_compute. reflexivity.
  - reflexivity.
  - vm_compute. reflexivity.
  - simpl. lia.
  - vm_compute. done.
  - left. simpl. lia.
  - exists e', evs, bk'. split_and!; [exact H1|exact H2|exact H3|]. etransitivity; [exact H4|]. vm_compute. reflexivity.
Defined.

(** ** Rejections and market data *)

(** C14: The error behaviour is exactly the guards in order: a command some
    guard refuses leaves every resting order as it was and is answered by the
    one rejection with that guard's reason; any other command is never rejected. *)
Theorem rejection_exact (cfg : Config) (e : Engine) (now : Z) (c : Command) :
  reachable cfg e → command_ok c →
  ∃ e', process now c e = Some e' ∧
    match reject_reason (next_id (pool_ e)) c (abs e) with
    | Some r => sink_ e' = sink_ e ++ [reject_event now c r] ∧ abs e' = abs e
    | None => ∀ ev, ev ∈ drop (length (sink_ e)) (sink_ e') → e_kind ev ≠ EvRejected
    end.
Proof.
  intros Hr Hc. destruct (reachable_step _ _ now _ Hr Hc) as (e' & E & _ & Hs). exists e'. split; [done|].
  pose proof (reachable_sound _ _ Hr) as [Hok Hx].
  destruct (reject_reason _ c (abs e)) as [r|] eqn:Er.
  - rewrite (aprocess_reject now _ c _ r (ck_symbol _ Hc) (λ a, order_book e a Hok) Er) in Hs.
    split; apply Hs.
  - intros ev Hev. rewrite (so_sink _ _ _ _ Hs), drop_app_length in Hev. by eapply aprocess_accept_events.
Qed.

(** Another session's cancel is refused as [NotOwner]. *)
Lemma rejection_exact_witness :
  ∃ e', process 6 (Demo.cancel 9 Demo.ask0) Demo.state = Some e' ∧
    sink_ e' = sink_ Demo.state ++ [reject_event 6 (Demo.cancel 9 Demo.ask0) NotOwner] ∧
    abs e' = abs Demo.state.
Proof.
  destruct (rejection_exact Demo.cfg Demo.state 6 (Demo.cancel 9 Demo.ask0)) as (e' & E & H).
  - apply Demo.reached.
  - split; simpl; lia.
  - exists e'. split; [exact E|].
    assert (reject_reason (next_id (pool_ Demo.state)) (Demo.cancel 9 Demo.ask0) (abs Demo.state) = Some NotOwner)
      as Er by (vm_compute; reflexivity).
    rewrite Er in H. exact H.
Defined.

(** C8: Market data mirrors the book: a subscriber who keeps the last
    top-of-book event of a symbol always knows the top of that symbol's book. *)
Theorem market_data_mirrors (cfg : Config) (e : Engine) (sym : Z) (b : Book) :
  reachable cfg e → vget (books_ e) sym = Some b → top b = Some (last_top sym (sink_ e)).
Proof. apply engine_mirrors. Qed.

Lemma market_data_mirrors_witness :
  last_top 0 (sink_ Demo.state) = mkTop 47 50 6 15 ∧
  top (default (Book_init 64) (vget (books_ Demo.state) 0)) = Some (last_top 0 (sink_ Demo.state)).
Proof.
  split; [vm_compute; reflexivity|].
  apply (market_data_mirrors Demo.cfg); [apply Demo.reached|vm_compute; reflexivity].
Defined.

(** The displayed size at the best price is a 32-bit sum: two orders of
    2^31 at one price are both accepted and rest, and the top of book shows the
    price with quantity 0. *)
Theorem top_quantity_wraps :
  let big := Demo.limit Buy 0 9 1 40 (2 ^ 31) in
  let e := default Demo.start (run [(1, big); (2, big)] Demo.start) in
  reachable Demo.cfg e ∧ live_ (pool_ e) = 2 ∧ a_qty <$> all_orders (abs e) = [2 ^ 31; 2 ^ 31] ∧
  top (default (Book_init 64) (vget (books_ e) 0)) = Some (mkTop 40 kNoPrice 0 0).
Proof.
  split_and!; [|vm_compute; reflexivity..].
  apply (reachable_run Demo.cfg [(1, Demo.limit Buy 0 9 1 40 (2 ^ 31)); (2, Demo.limit Buy 0 9 1 40 (2 ^ 31))] Demo.start).
  - apply reach_init, Demo.cfg_ok.
  - repeat constructor; simpl; lia.
  - vm_compute. reflexivity.
Qed.
