(* ===== verification/Protocol.v ===== *)
(** The wire protocol of [include/matchbox/protocol.hpp]: packed little-endian
    frames.  A struct is a record; its byte image is given by a format built
    from integer fields in declaration order, so [read] and [append] (the two
    [memcpy]s of the source) are one definition for all messages.  The class
    [Wire] is the interface of a message type, with its laws in [WireOk]. *)
From S2P Require Import Prelude.

(** ** Bytes *)
Definition byte (z : Z) : Prop := 0 ≤ z < 256.

(** The [n] little-endian bytes of [z]. *)
Fixpoint le (n : nat) (z : Z) : list Z :=
  match n with O => [] | S n => z mod 256 :: le n (z / 256) end.

Fixpoint le_val (l : list Z) : Z :=
  match l with [] => 0 | b :: l => b + 256 * le_val l end.

(** ** Formats: how a value of type [A] lies in memory *)
Record format (A : Type) := mkFormat {
  f_size : nat;
  f_enc : A → list Z;
  f_dec : list Z → A;
  f_valid : A → Prop }.
Arguments mkFormat {A} _ _ _ _.
Arguments f_size {A} _.
Arguments f_enc {A} _ _.
Arguments f_dec {A} _ _.
Arguments f_valid {A} _ _.

(** Decoding reads the first [f_size] bytes of what it is given. *)
Record format_ok {A} (f : format A) : Prop := {
  fo_size : ∀ a, f_valid f a → length (f_enc f a) = f_size f;
  fo_bytes : ∀ a, f_valid f a → Forall byte (f_enc f a);
  fo_dec_enc : ∀ a l, f_valid f a → f_dec f (f_enc f a ++ l) = a;
  fo_valid : ∀ l, Forall byte l → (f_size f ≤ length l)%nat → f_valid f (f_dec f l);
  fo_enc_dec : ∀ l, Forall byte l → (f_size f ≤ length l)%nat → f_enc f (f_dec f l) = take (f_size f) l }.

(** [uintN_t], [int64_t], [uint8_t pad[n]] *)
Definition uint (n : nat) : format Z :=
  mkFormat n (le n) (λ l, le_val (take n l)) (λ z, 0 ≤ z < 256 ^ Z.of_nat n).

Definition int64 : format Z :=
  mkFormat 8 (λ z, le 8 (u64 z)) (λ l, i64 (le_val (take 8 l))) (λ z, - 2 ^ 63 ≤ z < 2 ^ 63).

Definition padding (n : nat) : format (list Z) :=
  mkFormat n id (take n) (λ l, length l = n ∧ Forall byte l).

(** Members in sequence. *)
Definition seq {A B} (fa : format A) (fb : format B) : format (A * B) :=
  mkFormat (f_size fa + f_size fb) (λ p, f_enc fa (fst p) ++ f_enc fb (snd p))
    (λ l, (f_dec fa l, f_dec fb (drop (f_size fa) l)))
    (λ p, f_valid fa (fst p) ∧ f_valid fb (snd p)).

(** The struct [B] whose members are the tuple [A]. *)
Definition struct {A B} (f : format A) (mk : A → B) (members : B → A) : format B :=
  mkFormat (f_size f) (λ b, f_enc f (members b)) (λ l, mk (f_dec f l)) (λ b, f_valid f (members b)).

Declare Scope wire_scope.
Delimit Scope wire_scope with wire.
Infix "⊗" := seq (at level 34, left associativity) : wire_scope.

(** ** Format lemmas *)
Lemma length_le n z : length (le n z) = n.
Proof. revert z. induction n; intros; simpl; auto. Qed.

Lemma le_bytes n z : Forall byte (le n z).
Proof. revert z. induction n; intros; simpl; constructor; auto. apply Z.mod_pos_bound. lia. Qed.

Lemma le_val_le n z : le_val (le n z) = z mod 256 ^ Z.of_nat n.
Proof.
  revert z. induction n as [|n IH]; intros z; cbn [le le_val].
  { simpl. by rewrite Z.mod_1_r. }
  rewrite IH, Nat2Z.inj_succ, Z.pow_succ_r by lia.
  rewrite (Z.rem_mul_r z 256) by lia. lia.
Qed.

Lemma le_val_range l : Forall byte l → 0 ≤ le_val l < 256 ^ Z.of_nat (length l).
Proof.
  induction 1 as [|b l Hb Hl IH]; [simpl; lia|]. cbn [le_val length]. unfold byte in Hb.
  rewrite Nat2Z.inj_succ, Z.pow_succ_r by lia. lia.
Qed.

Lemma le_le_val l : Forall byte l → le (length l) (le_val l) = l.
Proof.
  induction 1 as [|b l Hb Hl IH]; [done|]. cbn [le_val length le]. unfold byte in Hb.
  replace (b + 256 * le_val l) with (b + le_val l * 256) by lia.
  rewrite Z.mod_add, Z.div_add by lia. rewrite Z.mod_small, Z.div_small by lia.
  by rewrite Z.add_0_l, IH.
Qed.

Lemma u64_i64 z : 0 ≤ z < 2 ^ 64 → u64 (i64 z) = z.
Proof.
  intros Hz. unfold i64. destruct (decide (z < 2 ^ 63)).
  - rewrite (Z.mod_small (z + 2 ^ 63)) by lia. replace (z + 2 ^ 63 - 2 ^ 63) with z by lia. by apply u64_small.
  - replace (z + 2 ^ 63) with (z - 2 ^ 63 + 1 * 2 ^ 64) by lia. rewrite Z.mod_add, (Z.mod_small (z - 2 ^ 63)) by lia.
    unfold u64. replace (z - 2 ^ 63 - 2 ^ 63) with (z + (-1) * 2 ^ 64) by lia. rewrite Z.mod_add by lia.
    by apply Z.mod_small.
Qed.

Lemma i64_u64 z : - 2 ^ 63 ≤ z < 2 ^ 63 → i64 (u64 z) = z.
Proof.
  intros Hz. unfold i64, u64. rewrite Zplus_mod_idemp_l, Z.mod_small; lia.
Qed.

Lemma i64_range z : - 2 ^ 63 ≤ i64 z < 2 ^ 63.
Proof. unfold i64. pose proof (Z.mod_pos_bound (z + 2 ^ 63) (2 ^ 64)). lia. Qed.

Lemma take_bytes n (l : list Z) : Forall byte l → (n ≤ length l)%nat → Forall byte (take n l) ∧ length (take n l) = n.
Proof. intros Hb Hl. split; [by apply Forall_take|]. rewrite length_take. lia. Qed.

Lemma uint_ok n : format_ok (uint n).
Proof.
  split; cbn -[Z.pow].
  - intros. apply length_le.
  - intros. apply le_bytes.
  - intros a l Ha. rewrite take_app_le, take_ge by (by rewrite length_le).
    rewrite le_val_le. by apply Z.mod_small.
  - intros l Hb [Ht Hlen]%(take_bytes n); [|done]. pose proof (le_val_range _ Ht) as Hr.
    by rewrite Hlen in Hr.
  - intros l Hb [Ht Hlen]%(take_bytes n); [|done]. pose proof (le_le_val _ Ht) as Hr.
    by rewrite Hlen in Hr.
Qed.

Lemma int64_ok : format_ok int64.
Proof.
  pose proof (uint_ok 8) as HU. split; unfold int64; cbn [f_size f_enc f_dec f_valid].
  - intros. apply length_le.
  - intros. apply le_bytes.
  - intros a l Ha. etransitivity; [apply (f_equal i64)|by apply i64_u64].
    apply (fo_dec_enc _ HU). apply u64_range.
  - intros l _ _. apply i64_range.
  - intros l Hb Hl. rewrite u64_i64; [by apply (fo_enc_dec _ HU)|]. by apply (fo_valid _ HU).
Qed.

Lemma padding_ok n : format_ok (padding n).
Proof.
  split; cbn.
  - by intros a [? _].
  - by intros a [_ ?].
  - intros a l [<- _]. apply take_app_length.
  - intros l Hb Hl. destruct (take_bytes n l Hb Hl). done.
  - done.
Qed.

Lemma seq_ok {A B} (fa : format A) (fb : format B) : format_ok fa → format_ok fb → format_ok (seq fa fb).
Proof.
  intros Ha Hb. split; cbn.
  - intros [a b] [Va Vb]. rewrite length_app, (fo_size _ Ha), (fo_size _ Hb); done.
  - intros [a b] [Va Vb]. apply Forall_app. split; [by apply Ha|by apply Hb].
  - intros [a b] l [Va Vb]. cbn in *. rewrite <- app_assoc, (fo_dec_enc _ Ha) by done. f_equal.
    rewrite drop_app_length' by (symmetry; by apply Ha). by apply Hb.
  - intros l Hl Hlen. split; [apply Ha; [done|lia]|].
    apply Hb; [by apply Forall_drop|rewrite length_drop; lia].
  - intros l Hl Hlen. rewrite (fo_enc_dec _ Ha) by (done || lia).
    rewrite (fo_enc_dec _ Hb) by (first [by apply Forall_drop|rewrite length_drop; lia]).
    apply take_take_drop.
Qed.

Lemma struct_ok {A B} (f : format A) (mk : A → B) (members : B → A) :
  format_ok f → (∀ b, mk (members b) = b) → (∀ a, members (mk a) = a) → format_ok (struct f mk members).
Proof.
  intros Hf E1 E2. split; cbn; intros.
  - by apply Hf.
  - by apply Hf.
  - by rewrite (fo_dec_enc _ Hf), E1.
  - rewrite E2. by apply Hf.
  - rewrite E2. by apply Hf.
Qed.

#[export] Hint Resolve uint_ok int64_ok padding_ok seq_ok struct_ok : matchbox.

(** ** namespace matchbox::wire *)
Module wire.
Definition kVersion : Z := 1.
Definition kMaxFrame : Z := 64.

Inductive MsgType :=
  | MsgNewOrder | MsgCancelOrder | MsgReplaceOrder | MsgSubscribe | MsgAck | MsgReject
  | MsgFill | MsgCancelled | MsgReplaced | MsgTrade | MsgTop | MsgHeartbeat | MsgGap.

#[global] Instance MsgType_eq_dec : EqDecision MsgType.
Proof. solve_decision. Defined.

Definition MsgType_val (t : MsgType) : Z :=
  match t with
  | MsgNewOrder => 1
  | MsgCancelOrder => 2
  | MsgReplaceOrder => 3
  | MsgSubscribe => 4
  | MsgAck => 16
  | MsgReject => 17
  | MsgFill => 18
  | MsgCancelled => 19
  | MsgReplaced => 20
  | MsgTrade => 32
  | MsgTop => 33
  | MsgHeartbeat => 34
  | MsgGap => 35
  end.

(** [static_cast<MsgType>(byte)], [None] when no enumerator has the value. *)
Definition MsgType_of (b : Z) : option MsgType :=
  List.find (λ t, MsgType_val t =? b)
    [MsgNewOrder; MsgCancelOrder; MsgReplaceOrder; MsgSubscribe;
     MsgAck; MsgReject; MsgFill; MsgCancelled; MsgReplaced;
     MsgTrade; MsgTop; MsgHeartbeat; MsgGap].

Record Header := mkHeader { len : Z; type : Z; version : Z; seq : Z }.

Definition Header_format : format Header :=
  struct (uint 2 ⊗ uint 1 ⊗ uint 1 ⊗ uint 4)%wire
    (λ '(l, t, v, s), mkHeader l t v s) (λ h, (len h, type h, version h, seq h)).

Definition Header_zero : Header := mkHeader 0 0 0 0.

Record NewOrder := mkNewOrder {
  no_hdr : Header; no_tag : Z; no_symbol : Z; no_side : Z; no_type : Z; no_tif : Z;
  no_pad : list Z; no_price : Z; no_qty : Z; no_pad2 : Z }.

Definition NewOrder_format : format NewOrder :=
  struct (Header_format ⊗ uint 8 ⊗ uint 2 ⊗ uint 1 ⊗ uint 1 ⊗ uint 1 ⊗ padding 3 ⊗ int64 ⊗ uint 4
      ⊗ uint 4)%wire
    (λ '(h, x0, x1, x2, x3, x4, x5, x6, x7, x8), mkNewOrder h x0 x1 x2 x3 x4 x5 x6 x7 x8)
    (λ m, (no_hdr m, no_tag m, no_symbol m, no_side m, no_type m, no_tif m, no_pad m, no_price m,
      no_qty m, no_pad2 m)).

Record CancelOrder := mkCancelOrder {
  co_hdr : Header; co_tag : Z; co_order_id : Z }.

Definition CancelOrder_format : format CancelOrder :=
  struct (Header_format ⊗ uint 8 ⊗ uint 8)%wire
    (λ '(h, x0, x1), mkCancelOrder h x0 x1)
    (λ m, (co_hdr m, co_tag m, co_order_id m)).

Record ReplaceOrder := mkReplaceOrder {
  ro_hdr : Header; ro_tag : Z; ro_order_id : Z; ro_price : Z; ro_qty : Z; ro_pad : Z }.

Definition ReplaceOrder_format : format ReplaceOrder :=
  struct (Header_format ⊗ uint 8 ⊗ uint 8 ⊗ int64 ⊗ uint 4 ⊗ uint 4)%wire
    (λ '(h, x0, x1, x2, x3, x4), mkReplaceOrder h x0 x1 x2 x3 x4)
    (λ m, (ro_hdr m, ro_tag m, ro_order_id m, ro_price m, ro_qty m, ro_pad m)).

Record Subscribe := mkSubscribe {
  su_hdr : Header; su_from_seq : Z }.

Definition Subscribe_format : format Subscribe :=
  struct (Header_format ⊗ uint 8)%wire
    (λ '(h, x0), mkSubscribe h x0)
    (λ m, (su_hdr m, su_from_seq m)).

Record Ack := mkAck {
  ak_hdr : Header; ak_tag : Z; ak_order_id : Z }.

Definition Ack_format : format Ack :=
  struct (Header_format ⊗ uint 8 ⊗ uint 8)%wire
    (λ '(h, x0, x1), mkAck h x0 x1)
    (λ m, (ak_hdr m, ak_tag m, ak_order_id m)).

Record Reject := mkReject {
  rj_hdr : Header; rj_tag : Z; rj_reason : Z; rj_pad : list Z }.

Definition Reject_format : format Reject :=
  struct (Header_format ⊗ uint 8 ⊗ uint 1 ⊗ padding 7)%wire
    (λ '(h, x0, x1, x2), mkReject h x0 x1 x2)
    (λ m, (rj_hdr m, rj_tag m, rj_reason m, rj_pad m)).

Record Fill := mkFill {
  fl_hdr : Header; fl_order_id : Z; fl_price : Z; fl_qty : Z; fl_remaining : Z; fl_maker : Z;
  fl_pad : list Z }.

Definition Fill_format : format Fill :=
  struct (Header_format ⊗ uint 8 ⊗ int64 ⊗ uint 4 ⊗ uint 4 ⊗ uint 1 ⊗ padding 7)%wire
    (λ '(h, x0, x1, x2, x3, x4, x5), mkFill h x0 x1 x2 x3 x4 x5)
    (λ m, (fl_hdr m, fl_order_id m, fl_price m, fl_qty m, fl_remaining m, fl_maker m, fl_pad m)).

Record Cancelled := mkCancelled {
  ca_hdr : Header; ca_order_id : Z; ca_remaining : Z; ca_pad : Z }.

Definition Cancelled_format : format Cancelled :=
  struct (Header_format ⊗ uint 8 ⊗ uint 4 ⊗ uint 4)%wire
    (λ '(h, x0, x1, x2), mkCancelled h x0 x1 x2)
    (λ m, (ca_hdr m, ca_order_id m, ca_remaining m, ca_pad m)).

Record Replaced := mkReplaced {
  rp_hdr : Header; rp_order_id : Z; rp_price : Z; rp_qty : Z; rp_pad : Z }.

Definition Replaced_format : format Replaced :=
  struct (Header_format ⊗ uint 8 ⊗ int64 ⊗ uint 4 ⊗ uint 4)%wire
    (λ '(h, x0, x1, x2, x3), mkReplaced h x0 x1 x2 x3)
    (λ m, (rp_hdr m, rp_order_id m, rp_price m, rp_qty m, rp_pad m)).

Record Trade := mkTrade {
  tr_hdr : Header; tr_symbol : Z; tr_aggressor : Z; tr_pad : list Z; tr_price : Z; tr_qty : Z;
  tr_pad2 : Z; tr_ts_ns : Z }.

Definition Trade_format : format Trade :=
  struct (Header_format ⊗ uint 2 ⊗ uint 1 ⊗ padding 5 ⊗ int64 ⊗ uint 4 ⊗ uint 4 ⊗ uint 8)%wire
    (λ '(h, x0, x1, x2, x3, x4, x5, x6), mkTrade h x0 x1 x2 x3 x4 x5 x6)
    (λ m, (tr_hdr m, tr_symbol m, tr_aggressor m, tr_pad m, tr_price m, tr_qty m, tr_pad2 m,
      tr_ts_ns m)).

Record Top := mkTop {
  tp_hdr : Header; tp_symbol : Z; tp_pad : list Z; tp_bid : Z; tp_ask : Z; tp_bid_qty : Z;
  tp_ask_qty : Z }.

Definition Top_format : format Top :=
  struct (Header_format ⊗ uint 2 ⊗ padding 6 ⊗ int64 ⊗ int64 ⊗ uint 4 ⊗ uint 4)%wire
    (λ '(h, x0, x1, x2, x3, x4, x5), mkTop h x0 x1 x2 x3 x4 x5)
    (λ m, (tp_hdr m, tp_symbol m, tp_pad m, tp_bid m, tp_ask m, tp_bid_qty m, tp_ask_qty m)).

Record Heartbeat := mkHeartbeat {
  hb_hdr : Header; hb_ts_ns : Z; hb_head_seq : Z }.

Definition Heartbeat_format : format Heartbeat :=
  struct (Header_format ⊗ uint 8 ⊗ uint 8)%wire
    (λ '(h, x0, x1), mkHeartbeat h x0 x1)
    (λ m, (hb_hdr m, hb_ts_ns m, hb_head_seq m)).

Record Gap := mkGap {
  gp_hdr : Header; gp_from : Z; gp_resumed_at : Z }.

Definition Gap_format : format Gap :=
  struct (Header_format ⊗ uint 8 ⊗ uint 8)%wire
    (λ '(h, x0, x1), mkGap h x0 x1)
    (λ m, (gp_hdr m, gp_from m, gp_resumed_at m)).


(** A message type: the template parameter [M] of [make], [read] and [append]. *)
Class Wire (M : Type) := {
  kType : MsgType;
  w_format : format M;
  hdr : M → Header;
  set_hdr : Header → M → M;
  zero : M }.

Definition sizeof (M : Type) `{Wire M} : Z := Z.of_nat (f_size (A := M) w_format).

#[global] Instance NewOrder_wire : Wire NewOrder := {
  kType := MsgNewOrder; w_format := NewOrder_format; hdr := no_hdr;
  set_hdr h m := mkNewOrder h (no_tag m) (no_symbol m) (no_side m) (no_type m) (no_tif m) (no_pad
      m) (no_price m) (no_qty m) (no_pad2 m);
  zero := mkNewOrder Header_zero 0 0 0 0 0 (replicate 3 0) 0 0 0 }.

#[global] Instance CancelOrder_wire : Wire CancelOrder := {
  kType := MsgCancelOrder; w_format := CancelOrder_format; hdr := co_hdr;
  set_hdr h m := mkCancelOrder h (co_tag m) (co_order_id m);
  zero := mkCancelOrder Header_zero 0 0 }.

#[global] Instance ReplaceOrder_wire : Wire ReplaceOrder := {
  kType := MsgReplaceOrder; w_format := ReplaceOrder_format; hdr := ro_hdr;
  set_hdr h m := mkReplaceOrder h (ro_tag m) (ro_order_id m) (ro_price m) (ro_qty m) (ro_pad m);
  zero := mkReplaceOrder Header_zero 0 0 0 0 0 }.

#[global] Instance Subscribe_wire : Wire Subscribe := {
  kType := MsgSubscribe; w_format := Subscribe_format; hdr := su_hdr;
  set_hdr h m := mkSubscribe h (su_from_seq m);
  zero := mkSubscribe Header_zero 0 }.

#[global] Instance Ack_wire : Wire Ack := {
  kType := MsgAck; w_format := Ack_format; hdr := ak_hdr;
  set_hdr h m := mkAck h (ak_tag m) (ak_order_id m);
  zero := mkAck Header_zero 0 0 }.

#[global] Instance Reject_wire : Wire Reject := {
  kType := MsgReject; w_format := Reject_format; hdr := rj_hdr;
  set_hdr h m := mkReject h (rj_tag m) (rj_reason m) (rj_pad m);
  zero := mkReject Header_zero 0 0 (replicate 7 0) }.

#[global] Instance Fill_wire : Wire Fill := {
  kType := MsgFill; w_format := Fill_format; hdr := fl_hdr;
  set_hdr h m := mkFill h (fl_order_id m) (fl_price m) (fl_qty m) (fl_remaining m) (fl_maker m)
      (fl_pad m);
  zero := mkFill Header_zero 0 0 0 0 0 (replicate 7 0) }.

#[global] Instance Cancelled_wire : Wire Cancelled := {
  kType := MsgCancelled; w_format := Cancelled_format; hdr := ca_hdr;
  set_hdr h m := mkCancelled h (ca_order_id m) (ca_remaining m) (ca_pad m);
  zero := mkCancelled Header_zero 0 0 0 }.

#[global] Instance Replaced_wire : Wire Replaced := {
  kType := MsgReplaced; w_format := Replaced_format; hdr := rp_hdr;
  set_hdr h m := mkReplaced h (rp_order_id m) (rp_price m) (rp_qty m) (rp_pad m);
  zero := mkReplaced Header_zero 0 0 0 0 }.

#[global] Instance Trade_wire : Wire Trade := {
  kType := MsgTrade; w_format := Trade_format; hdr := tr_hdr;
  set_hdr h m := mkTrade h (tr_symbol m) (tr_aggressor m) (tr_pad m) (tr_price m) (tr_qty m)
      (tr_pad2 m) (tr_ts_ns m);
  zero := mkTrade Header_zero 0 0 (replicate 5 0) 0 0 0 0 }.

#[global] Instance Top_wire : Wire Top := {
  kType := MsgTop; w_format := Top_format; hdr := tp_hdr;
  set_hdr h m := mkTop h (tp_symbol m) (tp_pad m) (tp_bid m) (tp_ask m) (tp_bid_qty m)
      (tp_ask_qty m);
  zero := mkTop Header_zero 0 (replicate 6 0) 0 0 0 0 }.

#[global] Instance Heartbeat_wire : Wire Heartbeat := {
  kType := MsgHeartbeat; w_format := Heartbeat_format; hdr := hb_hdr;
  set_hdr h m := mkHeartbeat h (hb_ts_ns m) (hb_head_seq m);
  zero := mkHeartbeat Header_zero 0 0 }.

#[global] Instance Gap_wire : Wire Gap := {
  kType := MsgGap; w_format := Gap_format; hdr := gp_hdr;
  set_hdr h m := mkGap h (gp_from m) (gp_resumed_at m);
  zero := mkGap Header_zero 0 0 }.

(** [size_for], on the type byte of a header: 0 for an unknown type. *)
Definition size_for (t : Z) : Z :=
  match MsgType_of t with
  | Some MsgNewOrder => sizeof NewOrder
  | Some MsgCancelOrder => sizeof CancelOrder
  | Some MsgReplaceOrder => sizeof ReplaceOrder
  | Some MsgAck => sizeof Ack
  | Some MsgReject => sizeof Reject
  | Some MsgFill => sizeof Fill
  | Some MsgCancelled => sizeof Cancelled
  | Some MsgReplaced => sizeof Replaced
  | Some MsgTrade => sizeof Trade
  | Some MsgTop => sizeof Top
  | Some MsgSubscribe => sizeof Subscribe
  | Some MsgHeartbeat => sizeof Heartbeat
  | Some MsgGap => sizeof Gap
  | None => 0
  end.

(** [make<M>(seq)]: a zeroed message with its header filled in. *)
Definition make (M : Type) `{Wire M} (seq : Z) : M :=
  set_hdr (mkHeader (sizeof M) (MsgType_val (kType (M := M))) kVersion seq) zero.

(** [read<M>(p)]: a [memcpy] of [sizeof(M)] bytes; [None] if they are not all there. *)
Definition read (M : Type) `{Wire M} (p : list Z) : option M :=
  if Z.of_nat (length p) <? sizeof M then None else Some (f_dec w_format p).

Definition read_header (p : list Z) : option Header :=
  if Z.of_nat (length p) <? 8 then None else Some (f_dec Header_format p).

(** The bytes of the object [m] in memory. *)
Definition bytes_of {M} `{Wire M} (m : M) : list Z := f_enc w_format m.

(** [append(buf, m)] *)
Definition append {M} `{Wire M} (buf : list Z) (m : M) : list Z := buf ++ bytes_of m.

(** Every member is within the width of its type. *)
Definition valid {M} `{Wire M} (m : M) : Prop := f_valid w_format m.

(** ** The laws of a message type *)
Class WireOk (M : Type) `{Wire M} : Prop := {
  wk_format : format_ok (A := M) w_format;
  wk_hdr : ∀ h (m : M), hdr (set_hdr h m) = h;
  wk_prefix : ∀ (m : M) l, valid m → f_dec Header_format (bytes_of m ++ l) = hdr m;
  wk_hdr_valid : ∀ m : M, valid m → f_valid Header_format (hdr m);
  wk_set : ∀ h (m : M), f_valid Header_format h → valid m → valid (set_hdr h m);
  wk_zero : valid (M := M) zero;
  wk_size_for : size_for (MsgType_val (kType (M := M))) = sizeof M;
  wk_max : 8 ≤ sizeof M ≤ kMaxFrame }.

Lemma Header_ok : format_ok Header_format.
Proof. apply struct_ok; [auto with matchbox|by intros []|by intros [[[? ?] ?] ?]]. Qed.

Lemma header_first l h : f_valid Header_format h → f_dec Header_format (f_enc Header_format h ++ l) = h.
Proof. apply Header_ok. Qed.

(** Discharge the laws for one struct. *)
Ltac wire_ok :=
  split;
  [ apply struct_ok; [repeat (apply seq_ok; [|by auto using uint_ok, int64_ok, padding_ok]); apply Header_ok
                     |by intros []|by intros; repeat match goal with p : _ * _ |- _ => destruct p end]
  | done
  | intros m l Hv; unfold bytes_of; cbn -[Header_format le u64]; rewrite <- !app_assoc;
    apply header_first; cbn -[Header_format Z.pow] in Hv; tauto
  | intros m Hv; cbn -[Header_format Z.pow] in Hv; tauto
  | intros h m Hh Hv; unfold valid in *; cbn -[Header_format Z.pow] in *; tauto
  | unfold valid; cbn; unfold byte; repeat split; try lia; repeat constructor; lia
  | reflexivity
  | vm_compute; split; discriminate ].

#[global] Instance NewOrder_wire_ok : WireOk NewOrder.
Proof. wire_ok. Qed.
#[global] Instance CancelOrder_wire_ok : WireOk CancelOrder.
Proof. wire_ok. Qed.
#[global] Instance ReplaceOrder_wire_ok : WireOk ReplaceOrder.
Proof. wire_ok. Qed.
#[global] Instance Subscribe_wire_ok : WireOk Subscribe.
Proof. wire_ok. Qed.
#[global] Instance Ack_wire_ok : WireOk Ack.
Proof. wire_ok. Qed.
#[global] Instance Reject_wire_ok : WireOk Reject.
Proof. wire_ok. Qed.
#[global] Instance Fill_wire_ok : WireOk Fill.
Proof. wire_ok. Qed.
#[global] Instance Cancelled_wire_ok : WireOk Cancelled.
Proof. wire_ok. Qed.
#[global] Instance Replaced_wire_ok : WireOk Replaced.
Proof. wire_ok. Qed.
#[global] Instance Trade_wire_ok : WireOk Trade.
Proof. wire_ok. Qed.
#[global] Instance Top_wire_ok : WireOk Top.
Proof. wire_ok. Qed.
#[global] Instance Heartbeat_wire_ok : WireOk Heartbeat.
Proof. wire_ok. Qed.
#[global] Instance Gap_wire_ok : WireOk Gap.
Proof. wire_ok. Qed.
End wire.

(** A fresh message has every member in range. *)
Lemma make_valid (M : Type) `{WK : wire.WireOk M} seq : 0 ≤ seq < 2 ^ 32 → wire.valid (wire.make M seq).
Proof.
  intros Hs. apply wire.wk_set; [|apply wire.wk_zero]. pose proof (wire.wk_max (M := M)) as Hmax.
  cbn -[Z.pow wire.sizeof]. unfold wire.kMaxFrame, wire.kVersion in *.
  assert (0 ≤ wire.MsgType_val (wire.kType (M := M)) < 256 ^ Z.of_nat 1) by (destruct (wire.kType (M := M)); simpl; lia).
  change (256 ^ Z.of_nat 2) with 65536. change (256 ^ Z.of_nat 1) with 256 in *. change (256 ^ Z.of_nat 4) with (2 ^ 32).
  lia.
Qed.

(** Prove that every member of a message given by its members is in range. *)
Ltac wire_valid :=
  unfold wire.valid; cbn; unfold wire.kVersion;
  repeat match goal with
  | |- context [wire.sizeof ?M] => let v := eval vm_compute in (wire.sizeof M) in change (wire.sizeof M) with v
  | |- _ ∧ _ => split
  | |- Forall _ (_ :: _) => apply Forall_cons_2; [unfold byte; lia|]
  | |- Forall _ [] => apply Forall_nil_2
  | |- length _ = _ => reflexivity
  | |- _ => lia
  end.
