(* ===== verification/Ring.v ===== *)
(** [include/matchbox/replay_ring.hpp]: the ring of serialized market-data
    frames, as the byte buffer it is.  The specification is the list of all
    frames ever appended; the ring holds its last [capacity] entries. *)
From S2P Require Import Prelude Protocol.

Record ReplayRing := mkRing { buf_ : list Z; mask_ : Z; head_ : Z }.

(** [buf_((size_t(1) << capacity_log2) * kMaxFrame), mask_((size_t(1) << capacity_log2) - 1)]:
    both in [size_t].  The shift is defined below 64; from 58 on the product
    wraps to 0 and the buffer is empty. *)
Definition Ring_init (capacity_log2 : Z) : ReplayRing :=
  mkRing (replicate (Z.to_nat (u64 (u64 (Z.shiftl 1 capacity_log2) * wire.kMaxFrame))) 0)
    (u64 (u64 (Z.shiftl 1 capacity_log2) - 1)) 0.

(** [slot(seq)]: the byte offset of the frame's slot. *)
Definition slot (r : ReplayRing) (seq : Z) : Z := Z.land seq (mask_ r) * wire.kMaxFrame.

(** [memcpy(buf.data() + off, bytes, n)]; [None] when it does not fit. *)
Definition store (buf : list Z) (off : Z) (bytes : list Z) : option (list Z) :=
  if bool_decide (0 ≤ off ∧ off + Z.of_nat (length bytes) ≤ Z.of_nat (length buf))
  then Some (take (Z.to_nat off) buf ++ bytes ++ drop (Z.to_nat off + length bytes) buf)
  else None.

(** [m.hdr.seq = s] *)
Definition set_seq {M} `{wire.Wire M} (s : Z) (m : M) : M :=
  let h := wire.hdr m in
  wire.set_hdr (wire.mkHeader (wire.len h) (wire.type h) (wire.version h) s) m.

Definition append {M} `{wire.Wire M} (r : ReplayRing) (m : M) : option (ReplayRing * Z) :=
  let head := u32 (head_ r + 1) in
  let m := set_seq head m in
  buf ← store (buf_ r) (slot r head) (wire.bytes_of m);
  Some (mkRing buf (mask_ r) head, head).

Definition head (r : ReplayRing) : Z := head_ r.

Definition capacity (r : ReplayRing) : Z := mask_ r + 1.

Definition oldest (r : ReplayRing) : Z :=
  let cap := mask_ r + 1 in
  if cap <? head_ r then u32 (u32 (head_ r - u32 cap) + 1) else 1.

Definition holds (r : ReplayRing) (seq : Z) : bool :=
  (oldest r <=? seq) && (seq <=? head_ r) && negb (seq =? 0).

(** [frame(seq, &len)]: the pointer (the buffer from there on) and the length. *)
Definition frame (r : ReplayRing) (seq : Z) : option (list Z * Z) :=
  let p := drop (Z.to_nat (slot r seq)) (buf_ r) in
  h ← wire.read_header p;
  Some (p, wire.len h).

(** The frame as the subscriber gets it: [len] bytes from the pointer. *)
Definition frame_bytes (r : ReplayRing) (seq : Z) : option (list Z) :=
  '(p, n) ← frame r seq; Some (take (Z.to_nat n) p).

(** ** The abstract view: every frame ever appended *)

(** A frame whose header carries its own length and the sequence [seq]. *)
Record stamped (seq : Z) (bs : list Z) : Prop := {
  st_size : 8 ≤ Z.of_nat (length bs) ≤ wire.kMaxFrame;
  st_header : ∀ l, wire.read_header (bs ++ l) = Some (f_dec wire.Header_format bs);
  st_len : wire.len (f_dec wire.Header_format bs) = Z.of_nat (length bs);
  st_seq : wire.seq (f_dec wire.Header_format bs) = seq }.

(** [h] are the stamped frames 1, 2, ... in order; the last [2^k] are in their slots. *)
Record ring_ok (k : Z) (r : ReplayRing) (h : list (list Z)) : Prop := {
  ro_k : 0 ≤ k;
  ro_mask : mask_ r = 2 ^ k - 1;
  ro_len : Z.of_nat (length (buf_ r)) = 2 ^ k * wire.kMaxFrame;
  ro_head : head_ r = Z.of_nat (length h);
  ro_fits : Z.of_nat (length h) < 2 ^ 32;
  ro_frame : ∀ i bs, h !! i = Some bs →
    let seq := Z.of_nat i + 1 in
    stamped seq bs ∧
    (Z.of_nat (length h) - 2 ^ k < seq →
     take (length bs) (drop (Z.to_nat (slot r seq)) (buf_ r)) = bs) }.

(** ** Slots *)
Lemma slot_eq k r seq : 0 ≤ k → mask_ r = 2 ^ k - 1 → slot r seq = seq mod 2 ^ k * wire.kMaxFrame.
Proof.
  intros Hk Hm. unfold slot. rewrite Hm. f_equal.
  replace (2 ^ k - 1) with (Z.ones k) by (rewrite Z.ones_equiv; lia). by apply Z.land_ones.
Qed.

(** Two different sequences less than [2^k] apart have different slots. *)
Lemma mod_distinct c a b : 0 < c → a < b < a + c → a mod c ≠ b mod c.
Proof.
  intros Hc Hab E. assert ((b - a) mod c = 0) as E0.
  { rewrite Zminus_mod, E, Z.sub_diag. by rewrite Z.mod_0_l by lia. }
  rewrite Z.mod_small in E0; lia.
Qed.

Lemma store_ok buf off bytes :
  0 ≤ off → off + Z.of_nat (length bytes) ≤ Z.of_nat (length buf) →
  ∃ buf', store buf off bytes = Some buf' ∧ length buf' = length buf ∧
    take (length bytes) (drop (Z.to_nat off) buf') = bytes ∧
    ∀ o n, (o + n ≤ Z.to_nat off ∨ Z.to_nat off + length bytes ≤ o)%nat →
      take n (drop o buf') = take n (drop o buf).
Proof.
  intros Ho Hl. unfold store. rewrite bool_decide_true by lia. eexists. split; [done|].
  set (a := Z.to_nat off). assert (a + length bytes ≤ length buf)%nat as Hl' by lia.
  assert (length (take a buf) = a) as Ha by (rewrite length_take; lia). split_and!.
  - rewrite !length_app, Ha, length_drop. lia.
  - rewrite drop_app_length' by done. apply take_app_length.
  - intros o n [H|H].
    + rewrite drop_app_le by lia. rewrite take_app_le by (rewrite length_drop; lia).
      rewrite <- (take_drop a buf) at 2. rewrite drop_app_le by lia.
      by rewrite take_app_le by (rewrite length_drop; lia).
    + rewrite drop_app_ge by lia. rewrite Ha, drop_app_ge by lia. rewrite drop_drop. do 2 f_equal. lia.
Qed.

(** ** The operations *)
Lemma Ring_init_ok k : 0 ≤ k < 58 → ring_ok k (Ring_init k) [].
Proof.
  intros Hk. assert (Z.shiftl 1 k = 2 ^ k) as Es by (rewrite Z.shiftl_mul_pow2; lia).
  pose proof (Z.pow_lt_mono_r 2 k 58 ltac:(lia) ltac:(lia) ltac:(lia)) as Hp. pose proof (Z.pow_pos_nonneg 2 k).
  change (2 ^ 58) with 288230376151711744 in Hp.
  split; simpl; rewrite ?Es, ?(u64_small (2 ^ k)) by lia; try done; [lia|rewrite u64_small; lia|].
  rewrite length_replicate, u64_small, Z2Nat.id; unfold wire.kMaxFrame; lia.
Qed.

(** From 58 on the size wraps to 0: the buffer is empty, and nothing can be appended. *)
Lemma Ring_init_empty k : 58 ≤ k < 64 → buf_ (Ring_init k) = [].
Proof.
  intros Hk. assert (k = 58 ∨ k = 59 ∨ k = 60 ∨ k = 61 ∨ k = 62 ∨ k = 63) as [->|[->|[->|[->|[->| ->]]]]] by lia; done.
Qed.

Section Append.
Context {M : Type} {W : wire.Wire M} {WK : wire.WireOk M}.

(** A message as [make] builds it, before it is stamped. *)
Definition sendable (m : M) : Prop :=
  wire.valid m ∧ wire.len (wire.hdr m) = wire.sizeof M ∧
  wire.type (wire.hdr m) = wire.MsgType_val (wire.kType (M := M)).

Lemma set_seq_valid s (m : M) : wire.valid m → 0 ≤ s < 2 ^ 32 → wire.valid (set_seq s m).
Proof.
  intros Hv Hs. apply wire.wk_set; [|done]. pose proof (wire.wk_hdr_valid m Hv) as Hh.
  cbn -[Z.pow] in *. tauto.
Qed.

Lemma stamped_frame s (m : M) :
  sendable m → 0 ≤ s < 2 ^ 32 →
  stamped s (wire.bytes_of (set_seq s m)) ∧
  Z.of_nat (length (wire.bytes_of (set_seq s m))) = wire.sizeof M.
Proof.
  intros (Hv & Hl & _) Hs. pose proof (set_seq_valid s m Hv Hs) as Hv'.
  assert (Z.of_nat (length (wire.bytes_of (set_seq s m))) = wire.sizeof M) as Hsz.
  { unfold wire.sizeof, wire.bytes_of. by rewrite (fo_size _ wire.wk_format). }
  pose proof wire.wk_max as Hmax. pose proof (wire.wk_prefix _ [] Hv') as Hp0. rewrite app_nil_r in Hp0.
  split; [split|done]; rewrite ?Hsz, ?Hp0; try done.
  - intros l. unfold wire.read_header. rewrite length_app.
    destruct (Z.ltb_spec (Z.of_nat (length (wire.bytes_of (set_seq s m)) + length l)) 8); [lia|].
    f_equal. by apply wire.wk_prefix.
  - unfold set_seq. by rewrite wire.wk_hdr.
  - unfold set_seq. by rewrite wire.wk_hdr.
Qed.

Lemma append_ok k r h (m : M) :
  ring_ok k r h → sendable m → Z.of_nat (length h) + 1 < 2 ^ 32 →
  ∃ r', append r m = Some (r', Z.of_nat (length h) + 1) ∧
    ring_ok k r' (h ++ [wire.bytes_of (set_seq (Z.of_nat (length h) + 1) m)]).
Proof.
  intros H Hm Hf. unfold append. rewrite (ro_head _ _ _ H), u32_small by lia.
  set (s := Z.of_nat (length h) + 1). destruct (stamped_frame s m Hm) as [Hst Hsz]; [lia|].
  set (bs := wire.bytes_of (set_seq s m)) in *. pose proof (st_size _ _ Hst) as Hbs.
  pose proof (ro_k _ _ _ H) as Hk. pose proof (Z.pow_pos_nonneg 2 k) as Hpos.
  assert (∀ q, slot r q = q mod 2 ^ k * 64 ∧ 0 ≤ q mod 2 ^ k < 2 ^ k) as Hslot.
  { intros q. split; [by apply slot_eq; [|apply H]|apply Z.mod_pos_bound; lia]. }
  destruct (Hslot s) as [Es Hs]. pose proof (ro_len _ _ _ H) as Hlen. unfold wire.kMaxFrame in *.
  destruct (store_ok (buf_ r) (slot r s) bs) as (buf' & -> & Hl' & Hnew & Hold); [lia..|]. simpl.
  eexists. split; [done|]. split; simpl; rewrite ?length_app, ?Hl'; simpl; try (done || lia); try apply H.
  intros i bs' Hi. rewrite Nat2Z.inj_add. apply lookup_app_Some in Hi as [Hi|[Hi1 Hi2]].
  - pose proof (lookup_lt_Some _ _ _ Hi) as Hlt. destruct (ro_frame _ _ _ H i bs' Hi) as [Hst' Hfr].
    split; [done|]. intros Hw. rewrite <- Hfr at 2 by lia. change (slot (mkRing buf' _ _)) with (slot r).
    pose proof (st_size _ _ Hst'). destruct (Hslot (Z.of_nat i + 1)) as [E' ?]. unfold wire.kMaxFrame in *.
    apply Hold. assert ((Z.of_nat i + 1) mod 2 ^ k ≠ s mod 2 ^ k) by (apply mod_distinct; lia). lia.
  - apply list_lookup_singleton_Some in Hi2 as [Hi0 <-]. replace (Z.of_nat i + 1) with s by lia. done.
Qed.
End Append.

(** Appending to the empty buffer writes out of range. *)
Lemma append_empty_faults {M} {W : wire.Wire M} {WK : wire.WireOk M} k (m : M) :
  58 ≤ k < 64 → sendable m → append (Ring_init k) m = None.
Proof.
  intros Hk Hm. unfold append, store. rewrite (Ring_init_empty k Hk). change (head_ (Ring_init k)) with 0.
  destruct (stamped_frame (u32 (0 + 1)) m Hm) as [Hst _]; [change (u32 (0 + 1)) with 1; lia|]. pose proof (st_size _ _ Hst).
  rewrite bool_decide_false; [done|]. cbn [length] in *. lia.
Qed.

Lemma oldest_ok k r h :
  ring_ok k r h → oldest r = Z.max 1 (Z.of_nat (length h) - 2 ^ k + 1).
Proof.
  intros H. unfold oldest. rewrite (ro_mask _ _ _ H), (ro_head _ _ _ H). pose proof (ro_fits _ _ _ H).
  pose proof (Z.pow_pos_nonneg 2 k ltac:(lia) (ro_k _ _ _ H)). replace (2 ^ k - 1 + 1) with (2 ^ k) by lia.
  destruct (Z.ltb_spec (2 ^ k) (Z.of_nat (length h))); [|lia].
  rewrite (u32_small (2 ^ k)), (u32_small (_ - _)), u32_small by lia. lia.
Qed.

Lemma holds_ok k r h seq :
  ring_ok k r h →
  holds r seq = true ↔ 1 ≤ seq ≤ Z.of_nat (length h) ∧ Z.of_nat (length h) - 2 ^ k < seq.
Proof.
  intros H. unfold holds. rewrite (oldest_ok _ _ _ H), (ro_head _ _ _ H).
  rewrite !andb_true_iff, negb_true_iff, !Z.leb_le, Z.eqb_neq. lia.
Qed.

(** A held frame is read back whole. *)
Lemma frame_ok k r h seq :
  ring_ok k r h → holds r seq = true →
  ∃ bs, h !! Z.to_nat (seq - 1) = Some bs ∧ frame_bytes r seq = Some bs ∧ stamped seq bs.
Proof.
  intros H Hh%(holds_ok _ _ _ _ H). destruct (lookup_lt_is_Some_2 h (Z.to_nat (seq - 1))) as [bs E]; [lia|].
  exists bs. destruct (ro_frame _ _ _ H _ _ E) as [Hst Hfr].
  replace (Z.of_nat (Z.to_nat (seq - 1)) + 1) with seq in * by lia. specialize (Hfr ltac:(lia)).
  split_and!; [done| |done]. unfold frame_bytes, frame.
  rewrite <- (take_drop (length bs) (drop _ _)), Hfr, (st_header _ _ Hst).
  cbn [mbind option_bind].
  rewrite (st_len _ _ Hst), Nat2Z.id. f_equal. apply take_app_length.
Qed.
