(* ===== verification/WireTheorems.v ===== *)
(** The theorems about the wire protocol and the replay ring. *)
From S2P Require Import Prelude Protocol Ring.

(** ** Frames *)

(** Reading is the inverse in the other direction too: any [sizeof(M)] bytes
    are some message with every member in range, and writing it back gives the
    same bytes (the two [memcpy]s lose nothing). *)
Lemma wire_read_total (M : Type) (W : wire.Wire M) (WK : wire.WireOk M) (p : list Z) :
  Forall byte p → wire.sizeof M ≤ Z.of_nat (length p) →
  ∃ m, wire.read M p = Some m ∧ wire.valid m ∧ wire.append [] m = take (Z.to_nat (wire.sizeof M)) p.
Proof.
  unfold wire.read, wire.sizeof, wire.append, wire.bytes_of. intros Hb Hl.
  destruct (Z.ltb_spec (Z.of_nat (length p)) (Z.of_nat (f_size (A := M) wire.w_format))); [lia|].
  exists (f_dec wire.w_format p). rewrite Nat2Z.id. split_and!; [done|..]; apply wire.wk_format; (done || lia).
Qed.

(** A member of a struct: an unsigned integer of [n] bytes, an [int64_t], or
    [n] bytes of padding, at a byte offset. *)
Inductive member := Uint (off n : nat) (v : Z) | Int64 (off : nat) (v : Z) | Pad (off n : nat) (bs : list Z).

(** The [n] low bytes of [v], the least significant first. *)
Definition low_bytes (n : nat) (v : Z) : list Z := (λ i, v / 256 ^ Z.of_nat i mod 256) <$> List.seq 0 n.

Definition lies_at (bytes : list Z) (m : member) : Prop :=
  match m with
  | Uint off n v => take n (drop off bytes) = low_bytes n v ∧ 0 ≤ v < 256 ^ Z.of_nat n
  | Int64 off v => take 8 (drop off bytes) = low_bytes 8 v ∧ - 2 ^ 63 ≤ v < 2 ^ 63
  | Pad off n bs => take n (drop off bytes) = bs
  end.

(** Where members that follow each other without holes from offset [o] end. *)
Fixpoint ends_at (o : nat) (l : list member) : option nat :=
  match l with
  | [] => Some o
  | m :: l =>
      let '(off, n) := match m with Uint off n _ | Pad off n _ => (off, n) | Int64 off _ => (off, 8%nat) end in
      if decide (off = o) then ends_at (o + n) l else None
  end.

Definition header_layout (h : wire.Header) : list member :=
  [Uint 0 2 (wire.len h); Uint 2 1 (wire.type h); Uint 3 1 (wire.version h); Uint 4 4 (wire.seq h)].

(** The message type [M] is [size] bytes of type [ty] that lie in memory as [layout] says. *)
Definition laid_out (M : Type) `{wire.Wire M} (size : nat) (ty : Z) (layout : M → list member) : Prop :=
  wire.sizeof M = Z.of_nat size ∧ wire.MsgType_val (wire.kType (M := M)) = ty ∧ wire.size_for ty = Z.of_nat size ∧
  (∀ (m : M) (rest : list Z), wire.valid m →
     let bytes := wire.append [] m in
     length bytes = size ∧ Forall byte bytes ∧ wire.read M (bytes ++ rest) = Some m ∧
     ends_at 0 (header_layout (wire.hdr m) ++ layout m) = Some size ∧
     Forall (lies_at bytes) (header_layout (wire.hdr m) ++ layout m)) ∧
  (∀ p : list Z, Forall byte p → (size ≤ length p)%nat →
     ∃ m, wire.read M p = Some m ∧ wire.valid m ∧ wire.append [] m = take size p).

Lemma low_bytes_le n v : low_bytes n v = le n v.
Proof.
  unfold low_bytes. revert v. induction n as [|n IH]; intros v; [done|]. cbn [List.seq fmap list_fmap le].
  rewrite Z.pow_0_r, Z.div_1_r. f_equal. rewrite <- IH, <- List.seq_shift. change (list_fmap ?f ?l) with (f <$> l).
  change (map S ?l) with (S <$> l). rewrite <- list_fmap_compose. apply list_fmap_ext. intros i x _. unfold compose.
  rewrite Nat2Z.inj_succ, Z.pow_succ_r, Z.div_div by lia. done.
Qed.

Lemma low_bytes_u64 v : low_bytes 8 v = le 8 (u64 v).
Proof.
  rewrite <- low_bytes_le. unfold low_bytes. apply list_fmap_ext. intros i x Hx.
  apply lookup_lt_Some in Hx as Hi. rewrite length_seq in Hi. apply lookup_seq in Hx as [-> _]. unfold u64.
  rewrite (Z.mod_eq v (2 ^ 64)) by lia. set (e := Z.of_nat (0 + i)). assert (2 ^ 64 = 256 ^ (7 - e) * 256 * 256 ^ e) as E.
  { rewrite (Z.mul_comm (256 ^ (7 - e))), <- Z.pow_succ_r, <- Z.pow_add_r by lia. change 256 with (2 ^ 8).
    rewrite <- Z.pow_mul_r by lia. f_equal. lia. }
  rewrite E at 1. set (q := v / 2 ^ 64). assert (0 < 256 ^ e) by (apply Z.pow_pos_nonneg; lia).
  replace (v - 256 ^ (7 - e) * 256 * 256 ^ e * q) with (v + - (256 ^ (7 - e) * q) * 256 * 256 ^ e) by lia.
  by rewrite Z.div_add, Z.mod_add by lia.
Qed.

(** Read back what was written, and write back what was read. *)
Lemma read_append (M : Type) (W : wire.Wire M) (WK : wire.WireOk M) (m : M) (rest : list Z) :
  wire.valid m → wire.read M (wire.append [] m ++ rest) = Some m ∧
  Z.of_nat (length (wire.append [] m)) = wire.sizeof M ∧ Forall byte (wire.append [] m).
Proof.
  intros Hv. unfold wire.append, wire.read, wire.bytes_of, wire.sizeof. cbn [app].
  pose proof (fo_size _ wire.wk_format m Hv) as Hs. rewrite length_app, Hs.
  destruct (Z.ltb_spec (Z.of_nat (f_size wire.w_format + length rest)) (Z.of_nat (f_size (A := M) wire.w_format))); [lia|].
  split_and!; [|done|by apply wire.wk_format]. f_equal. by apply wire.wk_format.
Qed.

(** What is left for each message type is where its members lie. *)
Lemma laid_out_intro (M : Type) (W : wire.Wire M) (WK : wire.WireOk M) size ty layout :
  wire.sizeof M = Z.of_nat size → wire.MsgType_val (wire.kType (M := M)) = ty →
  (∀ m : M, wire.valid m → ends_at 0 (header_layout (wire.hdr m) ++ layout m) = Some size ∧
     Forall (lies_at (wire.append [] m)) (header_layout (wire.hdr m) ++ layout m)) →
  laid_out M size ty layout.
Proof.
  intros Hs Ht Hl. split_and!; [done|done|by rewrite <- Ht, wire.wk_size_for|..].
  - intros m rest Hv bytes. destruct (read_append M W WK m rest Hv) as (E & El & Hb), (Hl m Hv) as [H1 H2].
    split_and!; [unfold bytes; lia|done..].
  - intros p Hb Hp. destruct (wire_read_total M W WK p Hb) as (m & E & Hv & Ea); [lia|]. exists m. by rewrite Ea, Hs, Nat2Z.id.
Qed.

(** The members of one struct: its padding is a list of known length, and then
    its bytes can be computed. *)
Ltac layout_of :=
  apply laid_out_intro; [apply _|reflexivity|reflexivity|];
  intros m Hv; destruct m; repeat match goal with h : wire.Header |- _ => destruct h end; unfold wire.valid in Hv; cbn -[Z.pow] in Hv;
  repeat match goal with H : _ ∧ _ |- _ => destruct H end;
  repeat match goal with H : length ?l = _ |- _ => is_var l; do 8 (try (destruct l as [|? l]; try discriminate H)); clear H end;
  split; [reflexivity|];
  repeat (apply Forall_cons; split); [..|apply Forall_nil; exact I];
  first [split; [rewrite low_bytes_le; reflexivity|split; assumption]
        |split; [rewrite low_bytes_u64; reflexivity|split; assumption]
        |reflexivity].

(** C34: Every message lies on the wire as protocol.hpp lays it out, and survives
    it in both directions.  For each of the thirteen message types: its size and
    type byte; after the 8-byte header, the members in their places and widths,
    little-endian, without holes, which fill it; the bytes [append] writes are
    these and read back as the same message, whatever follows them in the
    buffer; and any bytes of that number read as some message with every member
    in range that is written back as the same bytes. *)
Theorem wire_roundtrip :
  laid_out wire.NewOrder 40 1 (λ m, [Uint 8 8 (wire.no_tag m); Uint 16 2 (wire.no_symbol m); Uint 18 1 (wire.no_side m);
    Uint 19 1 (wire.no_type m); Uint 20 1 (wire.no_tif m); Pad 21 3 (wire.no_pad m); Int64 24 (wire.no_price m);
    Uint 32 4 (wire.no_qty m); Uint 36 4 (wire.no_pad2 m)]) ∧
  laid_out wire.CancelOrder 24 2 (λ m, [Uint 8 8 (wire.co_tag m); Uint 16 8 (wire.co_order_id m)]) ∧
  laid_out wire.ReplaceOrder 40 3 (λ m, [Uint 8 8 (wire.ro_tag m); Uint 16 8 (wire.ro_order_id m);
    Int64 24 (wire.ro_price m); Uint 32 4 (wire.ro_qty m); Uint 36 4 (wire.ro_pad m)]) ∧
  laid_out wire.Subscribe 16 4 (λ m, [Uint 8 8 (wire.su_from_seq m)]) ∧
  laid_out wire.Ack 24 16 (λ m, [Uint 8 8 (wire.ak_tag m); Uint 16 8 (wire.ak_order_id m)]) ∧
  laid_out wire.Reject 24 17 (λ m, [Uint 8 8 (wire.rj_tag m); Uint 16 1 (wire.rj_reason m); Pad 17 7 (wire.rj_pad m)]) ∧
  laid_out wire.Fill 40 18 (λ m, [Uint 8 8 (wire.fl_order_id m); Int64 16 (wire.fl_price m); Uint 24 4 (wire.fl_qty m);
    Uint 28 4 (wire.fl_remaining m); Uint 32 1 (wire.fl_maker m); Pad 33 7 (wire.fl_pad m)]) ∧
  laid_out wire.Cancelled 24 19 (λ m, [Uint 8 8 (wire.ca_order_id m); Uint 16 4 (wire.ca_remaining m);
    Uint 20 4 (wire.ca_pad m)]) ∧
  laid_out wire.Replaced 32 20 (λ m, [Uint 8 8 (wire.rp_order_id m); Int64 16 (wire.rp_price m);
    Uint 24 4 (wire.rp_qty m); Uint 28 4 (wire.rp_pad m)]) ∧
  laid_out wire.Trade 40 32 (λ m, [Uint 8 2 (wire.tr_symbol m); Uint 10 1 (wire.tr_aggressor m); Pad 11 5 (wire.tr_pad m);
    Int64 16 (wire.tr_price m); Uint 24 4 (wire.tr_qty m); Uint 28 4 (wire.tr_pad2 m); Uint 32 8 (wire.tr_ts_ns m)]) ∧
  laid_out wire.Top 40 33 (λ m, [Uint 8 2 (wire.tp_symbol m); Pad 10 6 (wire.tp_pad m); Int64 16 (wire.tp_bid m);
    Int64 24 (wire.tp_ask m); Uint 32 4 (wire.tp_bid_qty m); Uint 36 4 (wire.tp_ask_qty m)]) ∧
  laid_out wire.Heartbeat 24 34 (λ m, [Uint 8 8 (wire.hb_ts_ns m); Uint 16 8 (wire.hb_head_seq m)]) ∧
  laid_out wire.Gap 24 35 (λ m, [Uint 8 8 (wire.gp_from m); Uint 16 8 (wire.gp_resumed_at m)]).
Proof. split_and!; layout_of. Qed.

(** A NewOrder at a negative price, and 45 bytes of all ones. *)
Lemma wire_roundtrip_witness :
  let m := wire.mkNewOrder (wire.mkHeader 40 1 1 7) 99 2 1 0 1 [0; 0; 0] (-5) 1000 0 in
  wire.read wire.NewOrder (wire.append [] m ++ [1; 2; 3]) = Some m ∧
  ∃ m', wire.read wire.NewOrder (replicate 45 255) = Some m' ∧ wire.append [] m' = replicate 40 255.
Proof.
  destruct wire_roundtrip as [(_ & _ & _ & H1 & H2) _]. split.
  - apply H1. wire_valid.
  - destruct (H2 (replicate 45 255)) as (m' & E & _ & Ea); [apply Forall_replicate; unfold byte; lia|simpl; lia|].
    exists m'. exact (conj E Ea).
Defined.

(** What [make] builds is accepted by the parsers: the header of a fresh frame
    reads back with the current version, the given sequence, its own size, and
    that size is what [size_for] demands of its type. *)
Lemma make_is_parsable (M : Type) (W : wire.Wire M) (WK : wire.WireOk M) (seq : Z) (rest : list Z) :
  0 ≤ seq < 2 ^ 32 →
  ∃ h, wire.read_header (wire.append [] (wire.make M seq) ++ rest) = Some h ∧
    wire.version h = wire.kVersion ∧ wire.seq h = seq ∧
    wire.len h = Z.of_nat (length (wire.append [] (wire.make M seq))) ∧
    wire.len h = wire.size_for (wire.type h) ∧ wire.size_for (wire.type h) ≤ wire.kMaxFrame.
Proof.
  intros Hs. pose proof (make_valid M seq Hs) as Hv. pose proof (wire.wk_max (M := M)) as Hmax.
  exists (wire.mkHeader (wire.sizeof M) (wire.MsgType_val (wire.kType (M := M))) wire.kVersion seq).
  pose proof (wire.wk_prefix _ rest Hv) as Hp. unfold wire.make in Hp. rewrite wire.wk_hdr in Hp.
  assert (Z.of_nat (length (wire.bytes_of (wire.make M seq))) = wire.sizeof M) as Hl.
  { unfold wire.bytes_of, wire.sizeof. by rewrite (fo_size _ wire.wk_format). }
  cbn [wire.len wire.type wire.version wire.seq]. unfold wire.append. cbn [app].
  rewrite Hl, wire.wk_size_for. split_and!; try done; [|lia].
  unfold wire.read_header. rewrite length_app.
  destruct (Z.ltb_spec (Z.of_nat (length (wire.bytes_of (wire.make M seq)) + length rest)) 8); [lia|].
  f_equal. exact Hp.
Qed.

(** ** The replay ring *)

(** A market-data frame as the server publishes it. *)
Inductive MdFrame := MdTrade (t : wire.Trade) | MdTop (t : wire.Top).

Definition md_ok (f : MdFrame) : Prop :=
  match f with MdTrade t => sendable t | MdTop t => sendable t end.

Definition md_append (r : ReplayRing) (f : MdFrame) : option (ReplayRing * Z) :=
  match f with MdTrade t => append r t | MdTop t => append r t end.

(** The frame on the wire once stamped with [seq]. *)
Definition md_bytes (seq : Z) (f : MdFrame) : list Z :=
  match f with MdTrade t => wire.bytes_of (set_seq seq t) | MdTop t => wire.bytes_of (set_seq seq t) end.

Fixpoint append_all (r : ReplayRing) (fs : list MdFrame) : option ReplayRing :=
  match fs with
  | [] => Some r
  | f :: fs => '(r, _) ← md_append r f; append_all r fs
  end.

Fixpoint stamp_all (seq : Z) (fs : list MdFrame) : list (list Z) :=
  match fs with [] => [] | f :: fs => md_bytes seq f :: stamp_all (seq + 1) fs end.

Lemma length_stamp_all seq fs : length (stamp_all seq fs) = length fs.
Proof. revert seq. induction fs; intros; simpl; auto. Qed.

Lemma append_all_ok k r h fs :
  ring_ok k r h → Forall md_ok fs → Z.of_nat (length h + length fs) < 2 ^ 32 →
  ∃ r', append_all r fs = Some r' ∧ ring_ok k r' (h ++ stamp_all (Z.of_nat (length h) + 1) fs).
Proof.
  revert r h. induction fs as [|f fs IH]; intros r h H Hf Hl; simpl in *.
  { exists r. by rewrite app_nil_r. }
  apply Forall_cons in Hf as [Hf Hfs].
  assert (∃ r', md_append r f = Some (r', Z.of_nat (length h) + 1) ∧
    ring_ok k r' (h ++ [md_bytes (Z.of_nat (length h) + 1) f])) as (r1 & -> & H1).
  { destruct f; (apply append_ok; [done|done|lia]). }
  cbn [mbind option_bind]. destruct (IH _ _ H1 Hfs) as (r' & E & H'); [rewrite length_app; simpl; lia|].
  exists r'. split; [done|]. rewrite length_app, Nat2Z.inj_add in H'. simpl in H'.
  rewrite <- app_assoc in H'. exact H'.
Qed.

(** C35: A replay ring of capacity [2^k], [k] below 58, keeps exactly the last [2^k]
    frames: after any number of publications (below 2^32) every write was in bounds, [head] is their number,
    [holds] is true of exactly the last [2^k] sequence numbers, and [frame] of
    each returns, byte for byte, the frame published under it.  (From 58 on the
    byte size wraps to 0 in [size_t] and the first write is out of range:
    [Ring.append_empty_faults].) *)
Theorem ring_replays (k : Z) (fs : list MdFrame) :
  0 ≤ k < 58 → Forall md_ok fs → Z.of_nat (length fs) < 2 ^ 32 →
  ∃ r, append_all (Ring_init k) fs = Some r ∧ head r = Z.of_nat (length fs) ∧
    ∀ seq, (holds r seq = true ↔ 1 ≤ seq ≤ Z.of_nat (length fs) ∧ Z.of_nat (length fs) - 2 ^ k < seq) ∧
      (holds r seq = true → ∃ bs, stamp_all 1 fs !! Z.to_nat (seq - 1) = Some bs ∧
         frame_bytes r seq = Some bs ∧ stamped seq bs).
Proof.
  intros Hk Hf Hl. destruct (append_all_ok k _ [] fs (Ring_init_ok k Hk) Hf Hl) as (r & E & H).
  cbn [app] in H. exists r. split_and!; [done|unfold head; by rewrite (ro_head _ _ _ H), length_stamp_all|].
  intros seq. split; [|by apply frame_ok with k].
  pose proof (holds_ok _ _ _ seq H) as Hh. by rewrite length_stamp_all in Hh.
Qed.

(** Three frames through a ring of two. *)
Lemma ring_replays_witness :
  let fs := [MdTop (wire.make wire.Top 0); MdTrade (wire.make wire.Trade 0); MdTop (wire.make wire.Top 0)] in
  ∃ r, append_all (Ring_init 1) fs = Some r ∧ head r = 3 ∧
    ∀ seq, (holds r seq = true ↔ 1 ≤ seq ≤ 3 ∧ 3 - 2 ^ 1 < seq) ∧
      (holds r seq = true → ∃ bs, stamp_all 1 fs !! Z.to_nat (seq - 1) = Some bs ∧
         frame_bytes r seq = Some bs ∧ stamped seq bs).
Proof.
  apply (ring_replays 1); [lia| |simpl; lia].
  do 3 (apply Forall_cons_2; [split; [first [apply (make_valid wire.Top 0)|apply (make_valid wire.Trade 0)]; lia|split; reflexivity]|]). apply Forall_nil_2.
Defined.
