(* ===== verification/Spsc.v ===== *)
(** [include/matchbox/spsc_queue.hpp]: the single-producer single-consumer
    ring that connects the network thread and the engine thread.

    Each operation is split where the other thread can observe it: the check
    of the own index against the cached copy of the other's (refreshed by one
    acquire load), the access to the slot, and the release store of the own
    index.  [try_push] and [try_pop] compose the pieces in program order; the
    step relation interleaves them freely.  What an acquire load returns is an
    argument: any value the other side has stored since the last one seen. *)
From S2P Require Import Prelude.

Section Spsc.
Context {T : Type}.

Record SpscQueue := mkSpsc {
  head_ : Z; cached_tail_ : Z; tail_ : Z; cached_head_ : Z; buf_ : list T; mask_ : Z }.

(** [SpscQueue(capacity_log2)]; [d] is [T{}]. *)
Definition Spsc_init (d : T) (capacity_log2 : Z) : SpscQueue :=
  let cap := Z.shiftl 1 capacity_log2 in
  mkSpsc 0 0 0 0 (replicate (Z.to_nat cap) d) (cap - 1).

Definition size (q : SpscQueue) : Z := Z.of_nat (length (buf_ q)).

(** [t - cached_head_ >= buf_.size()] *)
Definition looks_full (q : SpscQueue) : bool := size q <=? u64 (tail_ q - cached_head_ q).

(** Lines 25-29: [seen] is what the acquire load of [head_] returns. *)
Definition push_check (seen : Z) (q : SpscQueue) : SpscQueue * bool :=
  if looks_full q then
    let q := mkSpsc (head_ q) (cached_tail_ q) (tail_ q) seen (buf_ q) (mask_ q) in
    (q, negb (looks_full q))
  else (q, true).

(** [buf_[t & mask_] = v] *)
Definition push_write (v : T) (q : SpscQueue) : option SpscQueue :=
  b ← vset (buf_ q) (Z.land (tail_ q) (mask_ q)) v;
  Some (mkSpsc (head_ q) (cached_tail_ q) (tail_ q) (cached_head_ q) b (mask_ q)).

(** [tail_.store(t + 1, release)] *)
Definition push_publish (q : SpscQueue) : SpscQueue :=
  mkSpsc (head_ q) (cached_tail_ q) (u64 (tail_ q + 1)) (cached_head_ q) (buf_ q) (mask_ q).

Definition try_push (seen : Z) (v : T) (q : SpscQueue) : option (SpscQueue * bool) :=
  let '(q, ok) := push_check seen q in
  if ok then q ← push_write v q; Some (push_publish q, true) else Some (q, false).

(** Lines 36-40: [seen] is what the acquire load of [tail_] returns. *)
Definition pop_check (seen : Z) (q : SpscQueue) : SpscQueue * bool :=
  if head_ q =? cached_tail_ q then
    let q := mkSpsc (head_ q) seen (tail_ q) (cached_head_ q) (buf_ q) (mask_ q) in
    (q, negb (head_ q =? cached_tail_ q))
  else (q, true).

(** [out = buf_[h & mask_]] *)
Definition pop_read (q : SpscQueue) : option T := vget (buf_ q) (Z.land (head_ q) (mask_ q)).

(** [head_.store(h + 1, release)] *)
Definition pop_publish (q : SpscQueue) : SpscQueue :=
  mkSpsc (u64 (head_ q + 1)) (cached_tail_ q) (tail_ q) (cached_head_ q) (buf_ q) (mask_ q).

Definition try_pop (seen : Z) (q : SpscQueue) : option (SpscQueue * option T) :=
  let '(q, ok) := pop_check seen q in
  if ok then out ← pop_read q; Some (pop_publish q, Some out) else Some (q, None).

Definition capacity (q : SpscQueue) : Z := size q.

(** [size_approx], with both loads current. *)
Definition size_approx (q : SpscQueue) : Z := u64 (tail_ q - head_ q).

(** ** Interleavings *)

(** Where each thread is inside its operation. *)
Inductive Producer := PIdle | PWrite (v : T) | PStore (v : T).
Inductive Consumer := CIdle | CRead | CStore (v : T).

(** The queue, the two threads, what went in and came out so far, and how many
    pops the producer and how many pushes the consumer has learnt of. *)
Record Sys := mkSys {
  sq : SpscQueue; prod : Producer; cons : Consumer; pushed : list T; popped : list T;
  known_pops : nat; known_pushes : nat }.

(** The [n]-th value of an index that counts operations modulo 2^64. *)
Definition index (n : nat) : Z := u64 (Z.of_nat n).

(** An acquire load returns any value of the index between the last one seen
    and the current one. *)
Inductive step : Sys → Sys → Prop :=
  | step_push_check q c l o kp kc v n q' ok :
      (kp ≤ n ≤ length o)%nat → push_check (index n) q = (q', ok) →
      step (mkSys q PIdle c l o kp kc)
        (mkSys q' (if ok then PWrite v else PIdle) c l o (if looks_full q then n else kp) kc)
  | step_push_write q c l o kp kc v q' :
      push_write v q = Some q' →
      step (mkSys q (PWrite v) c l o kp kc) (mkSys q' (PStore v) c l o kp kc)
  | step_push_publish q c l o kp kc v :
      step (mkSys q (PStore v) c l o kp kc) (mkSys (push_publish q) PIdle c (l ++ [v]) o kp kc)
  | step_pop_check q p l o kp kc n q' ok :
      (kc ≤ n ≤ length l)%nat → pop_check (index n) q = (q', ok) →
      step (mkSys q p CIdle l o kp kc)
        (mkSys q' p (if ok then CRead else CIdle) l o kp (if head_ q =? cached_tail_ q then n else kc))
  | step_pop_read q p l o kp kc v :
      pop_read q = Some v →
      step (mkSys q p CRead l o kp kc) (mkSys q p (CStore v) l o kp kc)
  | step_pop_publish q p l o kp kc v :
      step (mkSys q p (CStore v) l o kp kc) (mkSys (pop_publish q) p CIdle l (o ++ [v]) kp kc).

Definition sys_init (d : T) (k : Z) : Sys := mkSys (Spsc_init d k) PIdle CIdle [] [] 0 0.

Inductive steps (d : T) (k : Z) : Sys → Prop :=
  | steps_init : steps d k (sys_init d k)
  | steps_next s s' : steps d k s → step s s' → steps d k s'.

(** ** The invariant *)

(** The slot of the [i]-th element. *)
Definition slot (k : Z) (i : nat) : Z := Z.of_nat i mod 2 ^ k.

Record queue_ok (k : Z) (q : SpscQueue) (l : list T) (no kp kc : nat) : Prop := {
  qo_k : 0 ≤ k < 64;
  qo_len : size q = 2 ^ k;
  qo_mask : mask_ q = 2 ^ k - 1;
  qo_tail : tail_ q = index (length l);
  qo_head : head_ q = index no;
  qo_chead : cached_head_ q = index kp;
  qo_ctail : cached_tail_ q = index kc;
  qo_order : (kp ≤ no ≤ kc ∧ kc ≤ length l)%nat ∧ Z.of_nat (length l) ≤ Z.of_nat kp + 2 ^ k;
  qo_buf : ∀ i v, (no ≤ i)%nat → l !! i = Some v → vget (buf_ q) (slot k i) = Some v }.

(** Between operations the queue stands for the list of values still in it. *)
Definition contains (k : Z) (q : SpscQueue) (c : list T) : Prop :=
  ∃ l no kp kc, queue_ok k q l no kp kc ∧ c = drop no l.

Record sys_ok (k : Z) (s : Sys) : Prop := {
  so_queue : queue_ok k (sq s) (pushed s) (length (popped s)) (known_pops s) (known_pushes s);
  so_fifo : popped s = take (length (popped s)) (pushed s);
  so_prod : match prod s with
    | PIdle => True
    | PWrite _ => Z.of_nat (length (pushed s)) < Z.of_nat (known_pops s) + 2 ^ k
    | PStore v => Z.of_nat (length (pushed s)) < Z.of_nat (known_pops s) + 2 ^ k ∧
        vget (buf_ (sq s)) (slot k (length (pushed s))) = Some v
    end;
  so_cons : match cons s with
    | CIdle => True
    | CRead => (length (popped s) < known_pushes s)%nat
    | CStore v => (length (popped s) < known_pushes s)%nat ∧ pushed s !! length (popped s) = Some v
    end }.

(** ** Index arithmetic *)
Lemma index_slot k n : 0 ≤ k < 64 → Z.land (index n) (2 ^ k - 1) = slot k n.
Proof.
  intros Hk. replace (2 ^ k - 1) with (Z.ones k) by (rewrite Z.ones_equiv; lia).
  rewrite Z.land_ones by lia. unfold index, u64, slot. apply Z.mod_mod_divide.
  exists (2 ^ (64 - k)). rewrite <- Z.pow_add_r by lia. f_equal. lia.
Qed.

Lemma index_diff a b : (b ≤ a)%nat → Z.of_nat a - Z.of_nat b < 2 ^ 64 → u64 (index a - index b) = Z.of_nat a - Z.of_nat b.
Proof.
  intros Hab Hd. unfold index, u64. rewrite <- Zminus_mod. apply Z.mod_small. lia.
Qed.

Lemma index_succ n : u64 (index n + 1) = index (S n).
Proof. unfold index, u64. rewrite Zplus_mod_idemp_l. f_equal. lia. Qed.

Lemma index_inj a b : (b ≤ a)%nat → Z.of_nat a - Z.of_nat b < 2 ^ 64 → index a = index b → a = b.
Proof. intros Hab Hd E. pose proof (index_diff a b Hab Hd) as D. rewrite E, Z.sub_diag in D. vm_compute (u64 0) in D. lia. Qed.

Lemma slot_range k n : 0 ≤ k → 0 ≤ slot k n < 2 ^ k.
Proof. intros. apply Z.mod_pos_bound, Z.pow_pos_nonneg; lia. Qed.

Lemma slot_distinct k a b : 0 ≤ k → (a < b)%nat → Z.of_nat b < Z.of_nat a + 2 ^ k → slot k a ≠ slot k b.
Proof.
  intros Hk Hab Hb E. unfold slot in E. pose proof (Z.pow_pos_nonneg 2 k ltac:(lia) Hk) as Hp.
  assert ((Z.of_nat b - Z.of_nat a) mod 2 ^ k = 0) as E0 by (rewrite Zminus_mod, <- E, Z.sub_diag; apply Z.mod_0_l; lia).
  rewrite Z.mod_small in E0; lia.
Qed.

(** ** Every piece keeps the invariant *)
Lemma looks_full_ok k q l no kp kc :
  queue_ok k q l no kp kc → looks_full q = (Z.of_nat kp + 2 ^ k <=? Z.of_nat (length l)).
Proof.
  intros H. destruct (qo_order _ _ _ _ _ _ H) as [? ?]. pose proof (qo_k _ _ _ _ _ _ H).
  assert (2 ^ k < 2 ^ 64) by (apply Z.pow_lt_mono_r; lia).
  unfold looks_full. rewrite (qo_len _ _ _ _ _ _ H), (qo_tail _ _ _ _ _ _ H), (qo_chead _ _ _ _ _ _ H).
  rewrite index_diff by lia. lia.
Qed.

Lemma push_check_ok k q l no kp kc n q' ok :
  queue_ok k q l no kp kc → (kp ≤ n ≤ no)%nat → push_check (index n) q = (q', ok) →
  let kp' := if looks_full q then n else kp in
  queue_ok k q' l no kp' kc ∧ buf_ q' = buf_ q ∧
  (if ok then Z.of_nat (length l) < Z.of_nat kp' + 2 ^ k else Z.of_nat (length l) = Z.of_nat kp' + 2 ^ k).
Proof.
  intros H Hn. pose proof (looks_full_ok _ _ _ _ _ _ H) as Hf. unfold push_check.
  destruct (looks_full q) eqn:Ef.
  - set (q1 := mkSpsc _ _ _ _ _ _). assert (queue_ok k q1 l no n kc) as H1.
    { destruct H. split; try done; simpl; lia. }
    pose proof (looks_full_ok _ _ _ _ _ _ H1) as ->. intros [= <- <-]. split_and!; [done..|].
    destruct (qo_order _ _ _ _ _ _ H1). destruct (Z.leb_spec (Z.of_nat n + 2 ^ k) (Z.of_nat (length l))); simpl; lia.
  - intros [= <- <-]. split_and!; [done..|lia].
Qed.

Lemma push_write_ok k q l no kp kc v :
  queue_ok k q l no kp kc → Z.of_nat (length l) < Z.of_nat kp + 2 ^ k →
  ∃ q', push_write v q = Some q' ∧ queue_ok k q' l no kp kc ∧
    vget (buf_ q') (slot k (length l)) = Some v ∧
    ∀ i, i ≠ slot k (length l) → vget (buf_ q') i = vget (buf_ q) i.
Proof.
  intros H Hroom. pose proof (qo_k _ _ _ _ _ _ H) as Hk. unfold push_write.
  rewrite (qo_tail _ _ _ _ _ _ H), (qo_mask _ _ _ _ _ _ H), index_slot by done.
  pose proof (slot_range k (length l)) as Hr. pose proof (qo_len _ _ _ _ _ _ H) as Hlen. unfold size in Hlen.
  destruct (vset_is_Some (buf_ q) (slot k (length l)) v) as [b Eb]; [lia|]. rewrite Eb. simpl.
  assert (∀ i, i ≠ slot k (length l) → vget b i = vget (buf_ q) i) as Hne.
  { intros i Hi. eapply vget_vset_ne; [exact Eb|congruence]. }
  eexists. split_and!; [done| |by eapply vget_vset_eq|done].
  destruct H as [? ? ? ? ? ? ? [? ?] Hbuf]. split; simpl; try done.
  - unfold size. simpl. by rewrite (vset_length _ _ _ _ Eb).
  - intros i w Hi Ew. rewrite Hne; [by apply Hbuf|]. apply lookup_lt_Some in Ew as Hlt.
    apply slot_distinct; lia.
Qed.

Lemma push_publish_ok k q l no kp kc v :
  queue_ok k q l no kp kc → Z.of_nat (length l) < Z.of_nat kp + 2 ^ k →
  vget (buf_ q) (slot k (length l)) = Some v → queue_ok k (push_publish q) (l ++ [v]) no kp kc.
Proof.
  intros [? ? ? Et ? ? ? [? ?] Hbuf] Hroom Hv. split; simpl; rewrite ?length_app; simpl; try done.
  - rewrite Et, index_succ. f_equal. lia.
  - lia.
  - intros i w Hi Hw. apply lookup_app_Some in Hw as [Hw|[Hge Hw]]; [by apply Hbuf|].
    apply list_lookup_singleton_Some in Hw as [Hz <-]. by replace i with (length l) by lia.
Qed.

Lemma pop_check_ok k q l no kp kc n q' ok :
  queue_ok k q l no kp kc → (kc ≤ n ≤ length l)%nat → pop_check (index n) q = (q', ok) →
  let kc' := if head_ q =? cached_tail_ q then n else kc in
  queue_ok k q' l no kp kc' ∧ buf_ q' = buf_ q ∧ (if ok then (no < kc')%nat else no = kc').
Proof.
  intros H Hn. destruct (qo_order _ _ _ _ _ _ H) as [? ?]. pose proof (qo_k _ _ _ _ _ _ H).
  assert (2 ^ k < 2 ^ 64) by (apply Z.pow_lt_mono_r; lia).
  assert (∀ m, (no ≤ m ≤ length l)%nat → (head_ q =? index m) = (no =? m)%nat) as Heq.
  { intros m Hm. rewrite (qo_head _ _ _ _ _ _ H). destruct (Z.eqb_spec (index no) (index m)) as [E|E].
    - symmetry in E. apply index_inj in E; [|lia..]. subst. by rewrite Nat.eqb_refl.
    - symmetry. apply Nat.eqb_neq. by intros ->. }
  unfold pop_check. rewrite (qo_ctail _ _ _ _ _ _ H), Heq by lia.
  destruct (Nat.eqb_spec no kc) as [E|E]; simpl.
  - rewrite Heq by lia. intros [= <- <-]. split_and!; [|done|].
    + destruct H as [? ? ? ? ? ? ? [? ?] ?]. split; try done; simpl; lia.
    + destruct (Nat.eqb_spec no n); simpl; lia.
  - intros [= <- <-]. split_and!; [done..|lia].
Qed.

Lemma pop_read_ok k q l no kp kc :
  queue_ok k q l no kp kc → (no < kc)%nat → ∃ v, l !! no = Some v ∧ pop_read q = Some v.
Proof.
  intros H Hlt. destruct (qo_order _ _ _ _ _ _ H) as [? ?].
  destruct (lookup_lt_is_Some_2 l no) as [v Ev]; [lia|]. exists v. split; [done|]. unfold pop_read.
  rewrite (qo_head _ _ _ _ _ _ H), (qo_mask _ _ _ _ _ _ H), index_slot by apply H. by apply H.
Qed.

Lemma pop_publish_ok k q l no kp kc :
  queue_ok k q l no kp kc → (no < kc)%nat → queue_ok k (pop_publish q) l (S no) kp kc.
Proof.
  intros [? ? ? ? Eh ? ? [? ?] Hbuf] Hlt. split; simpl; try done.
  - rewrite Eh. apply index_succ.
  - lia.
  - intros i w Hi. apply Hbuf. lia.
Qed.

Lemma sys_init_ok d k : 0 ≤ k < 64 → sys_ok k (sys_init d k).
Proof.
  intros Hk. split; try done. unfold sys_init. simpl. split; simpl; try done.
  - unfold size. simpl. rewrite length_replicate, Z.shiftl_mul_pow2, Z2Nat.id; lia.
  - rewrite Z.shiftl_mul_pow2; lia.
  - lia.
Qed.

Lemma step_ok k s s' : sys_ok k s → step s s' → sys_ok k s'.
Proof.
  intros [HQ HF HP HC] Hs. destruct Hs; simpl in *.
  - destruct (push_check_ok _ _ _ _ _ _ _ _ _ HQ H H0) as (HQ' & Eb & Hok).
    split; simpl; try done. destruct ok; [exact Hok|done].
  - destruct (push_write_ok _ _ _ _ _ _ v HQ HP) as (q1 & E1 & HQ1 & Hv & _).
    rewrite H in E1. inv_some. by split.
  - destruct HP as [Hroom Hv]. split; simpl; [by apply push_publish_ok| |done|].
    + rewrite take_app_le; [done|]. destruct (qo_order _ _ _ _ _ _ HQ). lia.
    + destruct c; try done. destruct HC as [? Hl]. split; [done|]. by apply lookup_app_l_Some.
  - destruct (pop_check_ok _ _ _ _ _ _ _ _ _ HQ H H0) as (HQ' & Eb & Hok).
    split; simpl; try done; [by destruct p; rewrite ?Eb|]. by destruct ok.
  - destruct (pop_read_ok _ _ _ _ _ _ HQ HC) as (w & Ew & Er). rewrite H in Er. inv_some. by split.
  - destruct HC as [Hlt Hl]. split; simpl; rewrite ?length_app, ?Nat.add_1_r; simpl; [by apply pop_publish_ok| |done|done].
    erewrite take_S_r by done. by rewrite <- HF.
Qed.

Lemma steps_ok d k s : 0 ≤ k < 64 → steps d k s → sys_ok k s.
Proof. intros Hk. induction 1; [by apply sys_init_ok|by eapply step_ok]. Qed.

(** ** Running an interleaving *)
Inductive Action := APushCheck (v : T) (n : nat) | APushWrite | APushPublish
  | APopCheck (n : nat) | APopRead | APopPublish.

Definition act (a : Action) (s : Sys) : option Sys :=
  let '(mkSys q p c l o kp kc) := s in
  match a, p, c with
  | APushCheck v n, PIdle, _ =>
      if bool_decide (kp ≤ n ≤ length o)%nat then
        let '(q', ok) := push_check (index n) q in
        Some (mkSys q' (if ok then PWrite v else PIdle) c l o (if looks_full q then n else kp) kc)
      else None
  | APushWrite, PWrite v, _ => q' ← push_write v q; Some (mkSys q' (PStore v) c l o kp kc)
  | APushPublish, PStore v, _ => Some (mkSys (push_publish q) PIdle c (l ++ [v]) o kp kc)
  | APopCheck n, _, CIdle =>
      if bool_decide (kc ≤ n ≤ length l)%nat then
        let '(q', ok) := pop_check (index n) q in
        Some (mkSys q' p (if ok then CRead else CIdle) l o kp (if head_ q =? cached_tail_ q then n else kc))
      else None
  | APopRead, _, CRead => v ← pop_read q; Some (mkSys q p (CStore v) l o kp kc)
  | APopPublish, _, CStore v => Some (mkSys (pop_publish q) p CIdle l (o ++ [v]) kp kc)
  | _, _, _ => None
  end.

Lemma act_step a s s' : act a s = Some s' → step s s'.
Proof.
  destruct s as [q p c l o kp kc]. destruct a, p, c; simpl; try done;
    repeat case_bool_decide; try done; intros E;
    try (destruct (push_check _ _) as [q' ok] eqn:Eq); try (destruct (pop_check _ _) as [q' ok] eqn:Eq);
    try (apply bind_Some in E as (x & Ex & E)); injection E as <-; by econstructor.
Qed.

Fixpoint acts (l : list Action) (s : Sys) : option Sys :=
  match l with [] => Some s | a :: l => s ← act a s; acts l s end.

Lemma acts_steps d k l s s' : steps d k s → acts l s = Some s' → steps d k s'.
Proof.
  revert s. induction l as [|a l IH]; intros s Hs E; simpl in E; [by inv_some|].
  apply bind_Some in E as (s1 & E1 & E). eapply IH; [|done]. eapply steps_next; [done|by eapply act_step].
Qed.
End Spsc.

Arguments SpscQueue : clear implicits.
Arguments Sys : clear implicits.
