(* ===== verification/SpscTheorems.v ===== *)
(** The theorems about the single-producer single-consumer queue. *)
From S2P Require Import Prelude Spsc.

(** A run of a queue of two: one value through, a second one in flight. *)
Lemma demo_steps : steps 0 1 (mkSys (mkSpsc 1 1 1 0 [7; 0] 1) (PWrite 8) CIdle [7] [7] 0 1).
Proof.
  eapply (acts_steps 0 1 [APushCheck 7 0; APushWrite; APushPublish; APopCheck 1; APopRead; APopPublish;
    APushCheck 8 1]); [apply steps_init|vm_compute; reflexivity].
Qed.

(** C20: The queue is a FIFO under every interleaving of the two threads and every
    staleness of the index loads: what came out is always a prefix of what went
    in, nothing lost, duplicated or reordered, and never more than the capacity
    is inside. *)
Theorem spsc_fifo (T : Type) (d : T) (k : Z) (s : Sys T) :
  0 ≤ k < 64 → steps d k s →
  popped s `prefix_of` pushed s ∧ Z.of_nat (length (pushed s)) - Z.of_nat (length (popped s)) ≤ 2 ^ k.
Proof.
  intros Hk H. destruct (steps_ok _ _ _ Hk H) as [HQ HF _ _]. destruct (qo_order _ _ _ _ _ _ HQ). split; [|lia].
  exists (drop (length (popped s)) (pushed s)). rewrite HF at 1. by rewrite take_drop.
Qed.

Lemma spsc_fifo_witness :
  let s := mkSys (mkSpsc 1 1 1 0 [7; 0] 1) (PWrite 8) CIdle [7] [7] 0 1 in
  popped s `prefix_of` pushed s ∧ Z.of_nat (length (pushed s)) - Z.of_nat (length (popped s)) ≤ 2 ^ 1.
Proof. apply (spsc_fifo Z 0 1); [lia|apply demo_steps]. Defined.

(** C21: The threads never touch the same slot at once: when the producer is about
    to write and the consumer is about to read, the slots differ, also after the
    indices have wrapped around 2^64. *)
Theorem spsc_no_race (T : Type) (d : T) (k : Z) (s : Sys T) (v : T) :
  0 ≤ k < 64 → steps d k s → prod s = PWrite v → cons s = CRead →
  Z.land (tail_ (sq s)) (mask_ (sq s)) ≠ Z.land (head_ (sq s)) (mask_ (sq s)).
Proof.
  intros Hk H Ep Ec. destruct (steps_ok _ _ _ Hk H) as [HQ _ HP HC]. rewrite Ep in HP. rewrite Ec in HC.
  rewrite (qo_tail _ _ _ _ _ _ HQ), (qo_head _ _ _ _ _ _ HQ), (qo_mask _ _ _ _ _ _ HQ), !index_slot by done.
  destruct (qo_order _ _ _ _ _ _ HQ). apply not_eq_sym, slot_distinct; lia.
Qed.

(** The producer wants slot 1 while the consumer reads slot 0. *)
Lemma spsc_no_race_witness :
  let s := mkSys (mkSpsc 0 1 1 0 [7; 0] 1) (PWrite 8) CRead [7] [] 0 1 in
  Z.land (tail_ (sq s)) (mask_ (sq s)) ≠ Z.land (head_ (sq s)) (mask_ (sq s)).
Proof.
  apply (spsc_no_race Z 0 1 _ 8); [lia| |reflexivity|reflexivity].
  eapply (acts_steps 0 1 [APushCheck 7 0; APushWrite; APushPublish; APopCheck 1; APushCheck 8 0]);
    [apply steps_init|vm_compute; reflexivity].
Defined.

(** With current index loads [try_push] is a bounded-queue push: it fails
    exactly on a full queue, which it leaves as it was, and otherwise appends. *)
Theorem try_push_spec (T : Type) (k : Z) (q : SpscQueue T) (c : list T) (v : T) :
  contains k q c →
  let full := 2 ^ k <=? Z.of_nat (length c) in
  ∃ q', try_push (head_ q) v q = Some (q', negb full) ∧ contains k q' (if full then c else c ++ [v]) ∧
    size_approx q = Z.of_nat (length c).
Proof.
  intros (l & no & kp & kc & H & ->). destruct (qo_order _ _ _ _ _ _ H) as [? ?].
  pose proof (qo_k _ _ _ _ _ _ H) as Hk. assert (2 ^ k < 2 ^ 64) by (apply Z.pow_lt_mono_r; lia).
  assert (size_approx q = Z.of_nat (length (drop no l))) as Hsz.
  { unfold size_approx. rewrite (qo_tail _ _ _ _ _ _ H), (qo_head _ _ _ _ _ _ H), index_diff, length_drop by lia. lia. }
  rewrite length_drop in *. unfold try_push. rewrite (qo_head _ _ _ _ _ _ H).
  pose proof (looks_full_ok _ _ _ _ _ _ H) as Hf.
  destruct (push_check (index no) q) as [q1 ok] eqn:E.
  destruct (push_check_ok _ _ _ _ _ _ no _ _ H ltac:(lia) E) as (HQ1 & _ & Hok). rewrite Hf in *.
  set (kp' := if Z.of_nat kp + 2 ^ k <=? Z.of_nat (length l) then no else kp) in *.
  assert (kp' = no ∨ kp' = kp ∧ Z.of_nat (length l) < Z.of_nat kp + 2 ^ k) as Hkp.
  { unfold kp'. destruct (Z.leb_spec (Z.of_nat kp + 2 ^ k) (Z.of_nat (length l))); [by left|right; lia]. }
  destruct (Z.leb_spec (2 ^ k) (Z.of_nat (length l - no))); destruct ok; try lia; simpl.
  - exists q1. split_and!; [done|by exists l, no, kp', kc|done].
  - destruct (push_write_ok _ _ _ _ _ _ v HQ1) as (q2 & -> & HQ2 & Hv & _); [lia|]. simpl.
    exists (push_publish q2). split_and!; [done| |done]. exists (l ++ [v]), no, kp', kc.
    split; [apply push_publish_ok; [done|lia|done]|]. by rewrite drop_app_le by lia.
Qed.

Lemma init_contains (T : Type) (d : T) k : 0 ≤ k < 64 → contains k (Spsc_init d k) [].
Proof. intros Hk. exists [], 0%nat, 0%nat, 0%nat. split; [|done]. apply (so_queue _ _ (sys_init_ok d k Hk)). Qed.

(** With current index loads [try_pop] is a queue pop: it returns the oldest
    value and removes it, and fails exactly on an empty queue. *)
Theorem try_pop_spec (T : Type) (k : Z) (q : SpscQueue T) (c : list T) :
  contains k q c →
  ∃ q', try_pop (tail_ q) q = Some (q', hd_error c) ∧ contains k q' (tl c).
Proof.
  intros (l & no & kp & kc & H & ->). destruct (qo_order _ _ _ _ _ _ H) as [? ?].
  unfold try_pop. rewrite (qo_tail _ _ _ _ _ _ H). destruct (pop_check (index (length l)) q) as [q1 ok] eqn:E.
  destruct (pop_check_ok _ _ _ _ _ _ (length l) _ _ H ltac:(lia) E) as (HQ1 & _ & Hok).
  set (kc' := if head_ q =? cached_tail_ q then length l else kc) in *. destruct ok.
  - destruct (pop_read_ok _ _ _ _ _ _ HQ1 Hok) as (v & Hv & ->). simpl. exists (pop_publish q1).
    rewrite (drop_S _ v) by done. split; [done|]. exists l, (S no), kp, kc'. split; [by apply pop_publish_ok|done].
  - assert (no = length l) as ->.
    { unfold kc' in Hok. destruct (Z.eqb_spec (head_ q) (cached_tail_ q)) as [|Hne]; [done|]. subst kc.
      rewrite (qo_head _ _ _ _ _ _ H), (qo_ctail _ _ _ _ _ _ H) in Hne. done. }
    rewrite drop_all. exists q1. split; [done|]. exists l, (length l), kp, kc'. by rewrite drop_all.
Qed.
