(* ===== verification/Poller.v ===== *)
(** [include/matchbox/poller.hpp] and [src/poller.cpp]: readiness notification
    over epoll or kqueue.  The two kernel facilities are parameters, given by
    classes with the documented behaviour of [epoll_ctl] and [kevent] as laws;
    each back end is the source's calls on them.  [Poller] is the interface the
    rest of the program uses, with what it promises in [PollerOk]. *)
From S2P Require Import Prelude.

(** ** The interface *)
Class Poller (P : Type) := {
  add : Z → P → P;
  set_writable : Z → bool → P → P;
  remove : Z → P → P;
  (** What is registered: [None], or the write interest besides the read interest. *)
  interest : P → Z → option bool }.

Class PollerOk (P : Type) `{Poller P} : Prop := {
  pk_add : ∀ p fd, interest p fd = None → interest (add fd p) fd = Some false;
  pk_set : ∀ p fd on, is_Some (interest p fd) → interest (set_writable fd on p) fd = Some on;
  pk_remove : ∀ p fd, interest (remove fd p) fd = None;
  pk_add_ne : ∀ p fd fd', fd ≠ fd' → interest (add fd p) fd' = interest p fd';
  pk_set_ne : ∀ p fd fd' on, fd ≠ fd' → interest (set_writable fd on p) fd' = interest p fd';
  pk_remove_ne : ∀ p fd fd', fd ≠ fd' → interest (remove fd p) fd' = interest p fd' }.

(** ** epoll *)
Definition EPOLLIN : Z := 1.
Definition EPOLLOUT : Z := 4.
Definition EPOLLERR : Z := 8.
Definition EPOLLHUP : Z := 16.
Definition EPOLLRDHUP : Z := 8192.

Inductive EpollOp := EPOLL_CTL_ADD | EPOLL_CTL_MOD | EPOLL_CTL_DEL.

(** An epoll instance: [epoll_ctl], and the event mask a descriptor is registered with. *)
Class Epoll (K : Type) := {
  epoll_ctl : EpollOp → Z → Z → K → K;
  epoll_mask : K → Z → option Z }.

Class EpollOk (K : Type) `{Epoll K} : Prop := {
  ek_add : ∀ k fd ev, epoll_mask k fd = None → epoll_mask (epoll_ctl EPOLL_CTL_ADD fd ev k) fd = Some ev;
  ek_mod : ∀ k fd ev, is_Some (epoll_mask k fd) → epoll_mask (epoll_ctl EPOLL_CTL_MOD fd ev k) fd = Some ev;
  ek_del : ∀ k fd ev, epoll_mask (epoll_ctl EPOLL_CTL_DEL fd ev k) fd = None;
  ek_other : ∀ k op fd fd' ev, fd ≠ fd' → epoll_mask (epoll_ctl op fd ev k) fd' = epoll_mask k fd' }.

Definition epoll_add {K} `{Epoll K} (fd : Z) (k : K) : K := epoll_ctl EPOLL_CTL_ADD fd (Z.lor EPOLLIN EPOLLRDHUP) k.

Definition epoll_set_writable {K} `{Epoll K} (fd : Z) (on : bool) (k : K) : K :=
  epoll_ctl EPOLL_CTL_MOD fd (Z.lor (Z.lor EPOLLIN EPOLLRDHUP) (if on then EPOLLOUT else 0)) k.

Definition epoll_remove {K} `{Epoll K} (fd : Z) (k : K) : K := epoll_ctl EPOLL_CTL_DEL fd 0 k.

Definition has_bits (mask ev : Z) : bool := negb (Z.land ev mask =? 0).

Definition EpollPoller (K : Type) : Type := K.

#[global] Instance epoll_poller {K} `{Epoll K} : Poller (EpollPoller K) := {
  add := epoll_add (K := K);
  set_writable := epoll_set_writable (K := K);
  remove := epoll_remove (K := K);
  interest k fd := has_bits EPOLLOUT <$> epoll_mask (K := K) k fd }.

#[global] Instance epoll_poller_ok {K} `{EpollOk K} : PollerOk (EpollPoller K).
Proof.
  split; cbn [interest add set_writable remove epoll_poller]; unfold epoll_add, epoll_set_writable, epoll_remove.
  - intros p fd ?%fmap_None. by rewrite ek_add.
  - intros p fd on Hs. rewrite ek_mod; [by destruct on|]. by apply fmap_is_Some in Hs.
  - intros p fd. by rewrite ek_del.
  - intros. by rewrite ek_other.
  - intros. by rewrite ek_other.
  - intros. by rewrite ek_other.
Qed.

(** ** kqueue *)
Inductive Filter := EVFILT_READ | EVFILT_WRITE.

#[global] Instance Filter_eq_dec : EqDecision Filter.
Proof. solve_decision. Defined.

Inductive KFlag := EV_ADD | EV_DELETE.

(** A kqueue: one change submitted with [kevent], and whether a filter is registered. *)
Class Kqueue (K : Type) := {
  kevent : Z → Filter → KFlag → K → K;
  registered : K → Z → Filter → bool }.

Class KqueueOk (K : Type) `{Kqueue K} : Prop := {
  kk_add : ∀ k fd f, registered (kevent fd f EV_ADD k) fd f = true;
  kk_delete : ∀ k fd f, registered (kevent fd f EV_DELETE k) fd f = false;
  kk_other : ∀ k fd f fl fd' f', (fd, f) ≠ (fd', f') → registered (kevent fd f fl k) fd' f' = registered k fd' f' }.

Definition kq_add {K} `{Kqueue K} (fd : Z) (k : K) : K := kevent fd EVFILT_READ EV_ADD k.

Definition kq_set_writable {K} `{Kqueue K} (fd : Z) (on : bool) (k : K) : K :=
  kevent fd EVFILT_WRITE (if on then EV_ADD else EV_DELETE) k.

Definition kq_remove {K} `{Kqueue K} (fd : Z) (k : K) : K :=
  kevent fd EVFILT_WRITE EV_DELETE (kevent fd EVFILT_READ EV_DELETE k).

(** A descriptor is never registered for writing only, as long as write
    interest is only set on added descriptors; [KqPoller] carries that. *)
Definition kq_interest {K} `{Kqueue K} (k : K) (fd : Z) : option bool :=
  if registered k fd EVFILT_READ then Some (registered k fd EVFILT_WRITE) else None.

Definition kq_clean {K} `{Kqueue K} (k : K) : Prop :=
  ∀ fd, registered k fd EVFILT_READ = false → registered k fd EVFILT_WRITE = false.

(** ** Using a poller *)
Inductive PollOp := PAdd (fd : Z) | PSet (fd : Z) (on : bool) | PRemove (fd : Z).

Definition poll_op {P} `{Poller P} (p : P) (o : PollOp) : P :=
  match o with PAdd fd => add fd p | PSet fd on => set_writable fd on p | PRemove fd => remove fd p end.

(** The registry the calls describe. *)
Definition registry_op (m : gmap Z bool) (o : PollOp) : gmap Z bool :=
  match o with PAdd fd => <[fd := false]> m | PSet fd on => <[fd := on]> m | PRemove fd => delete fd m end.

(** Descriptors are added once, and write interest is set on added ones only. *)
Definition op_ok (m : gmap Z bool) (o : PollOp) : Prop :=
  match o with PAdd fd => m !! fd = None | PSet fd _ => is_Some (m !! fd) | PRemove _ => True end.

Fixpoint ops_ok (m : gmap Z bool) (l : list PollOp) : Prop :=
  match l with [] => True | o :: l => op_ok m o ∧ ops_ok (registry_op m o) l end.

(** The kqueue back end implements the same calls; its law for [add] needs a clean queue. *)
Definition kq_op {K} `{Kqueue K} (k : K) (o : PollOp) : K :=
  match o with PAdd fd => kq_add fd k | PSet fd on => kq_set_writable fd on k | PRemove fd => kq_remove fd k end.

Lemma poller_registry {P} `{PollerOk P} (l : list PollOp) (p : P) (m : gmap Z bool) :
  (∀ fd, interest p fd = m !! fd) → ops_ok m l →
  ∀ fd, interest (fold_left poll_op l p) fd = fold_left registry_op l m !! fd.
Proof.
  revert p m. induction l as [|o l IH]; intros p m Hp Hl; [done|]. destruct Hl as [Ho Hl]. cbn [fold_left].
  apply IH; [|done]. intros fd. destruct o as [fd'|fd' on|fd']; simpl in *; destruct (decide (fd' = fd)) as [->|Hne].
  - rewrite lookup_insert_eq. apply pk_add. by rewrite Hp.
  - rewrite lookup_insert_ne, pk_add_ne by done. apply Hp.
  - rewrite lookup_insert_eq. apply pk_set. by rewrite Hp.
  - rewrite lookup_insert_ne, pk_set_ne by done. apply Hp.
  - rewrite lookup_delete_eq. apply pk_remove.
  - rewrite lookup_delete_ne, pk_remove_ne by done. apply Hp.
Qed.

Section Kq.
Context {K : Type} {KQ : Kqueue K} {KO : KqueueOk K}.

Lemma kq_step (k : K) (m : gmap Z bool) o :
  kq_clean k → (∀ fd, kq_interest k fd = m !! fd) → op_ok m o →
  kq_clean (kq_op k o) ∧ ∀ fd, kq_interest (kq_op k o) fd = registry_op m o !! fd.
Proof.
  intros Hc Hp Ho. destruct o as [fd'|fd' on|fd']; cbn [kq_op registry_op op_ok] in *.
  - rewrite <- Hp in Ho. unfold kq_interest, kq_clean, kq_add in *.
    destruct (registered k fd' EVFILT_READ) eqn:Er; [done|].
    assert (∀ fd, registered (kevent fd' EVFILT_READ EV_ADD k) fd EVFILT_WRITE = registered k fd EVFILT_WRITE) as Ew
      by (intros; by rewrite kk_other).
    split; intros fd; destruct (decide (fd' = fd)) as [->|Hne]; rewrite ?Ew, ?kk_add, ?(kk_other _ fd' EVFILT_READ _ fd) by congruence; try done.
    + by apply Hc.
    + rewrite lookup_insert_eq. f_equal. by apply Hc.
    + rewrite lookup_insert_ne by done. apply Hp.
  - rewrite <- Hp in Ho. unfold kq_interest, kq_clean, kq_set_writable in *.
    destruct (registered k fd' EVFILT_READ) eqn:Er; [|by destruct Ho].
    assert (∀ fl fd, registered (kevent fd' EVFILT_WRITE fl k) fd EVFILT_READ = registered k fd EVFILT_READ) as Ew
      by (intros; by rewrite kk_other).
    split; intros fd; rewrite Ew; destruct (decide (fd' = fd)) as [->|Hne].
    + congruence.
    + rewrite (kk_other _ fd') by congruence. apply Hc.
    + rewrite Er, lookup_insert_eq. destruct on; by rewrite ?kk_add, ?kk_delete.
    + rewrite lookup_insert_ne by done. rewrite (kk_other _ fd') by congruence. apply Hp.
  - unfold kq_interest, kq_clean, kq_remove in *. split; intros fd; destruct (decide (fd' = fd)) as [->|Hne].
    + by rewrite kk_delete.
    + rewrite !(kk_other _ fd') by congruence. apply Hc.
    + rewrite lookup_delete_eq. by rewrite (kk_other _ fd EVFILT_WRITE), kk_delete.
    + rewrite lookup_delete_ne by done. rewrite !(kk_other _ fd') by congruence. apply Hp.
Qed.

Lemma kq_registry (l : list PollOp) (k : K) (m : gmap Z bool) :
  kq_clean k → (∀ fd, kq_interest k fd = m !! fd) → ops_ok m l →
  kq_clean (fold_left kq_op l k) ∧ ∀ fd, kq_interest (fold_left kq_op l k) fd = fold_left registry_op l m !! fd.
Proof.
  revert k m. induction l as [|o l IH]; intros k m Hc Hp Hl; [done|]. destruct Hl as [Ho Hl]. cbn [fold_left].
  destruct (kq_step k m o Hc Hp Ho) as [Hc' Hp']. by apply IH.
Qed.
End Kq.

(** ** [wait] *)
Record PollEvent := mkPollEvent { ev_fd : Z; ev_readable : bool; ev_writable : bool; ev_hangup : bool }.

(** What the kernel's wait call returned: the ready list, or -1 with [errno]. *)
Inductive WaitResult (A : Type) := Ready (l : list A) | WaitInterrupted | WaitFailed.
Arguments Ready {A} _.
Arguments WaitInterrupted {A}.
Arguments WaitFailed {A}.

Definition max_wait (max_events : Z) : Z := if 256 <? max_events then 256 else max_events.

(** The return value, and the events stored in [out]. *)
Definition wait_result {A} (translate : A → PollEvent) (r : WaitResult A) : Z * list PollEvent :=
  match r with
  | Ready l => (Z.of_nat (length l), translate <$> l)
  | WaitInterrupted => (0, [])
  | WaitFailed => (-1, [])
  end.

(** epoll: a descriptor and its ready mask. *)
Definition epoll_event (e : Z * Z) : PollEvent :=
  mkPollEvent (fst e) (has_bits EPOLLIN (snd e)) (has_bits EPOLLOUT (snd e))
    (has_bits (Z.lor (Z.lor EPOLLHUP EPOLLERR) EPOLLRDHUP) (snd e)).

(** kqueue: one filter per entry, and whether [EV_EOF] is set. *)
Definition EV_EOF : Z := 32768.

Definition kq_event (e : Z * Filter * Z) : PollEvent :=
  let '(fd, f, flags) := e in
  mkPollEvent fd (bool_decide (f = EVFILT_READ)) (bool_decide (f = EVFILT_WRITE)) (has_bits EV_EOF flags).

(** The [timespec] of the kqueue wait. *)
Definition timespec (timeout_ms : Z) : Z * Z := (Z.quot timeout_ms 1000, Z.rem timeout_ms 1000 * 1000000).

(** [wait]; the kernel's call gets the clamped count and the timeout. *)
Definition epoll_wait (kernel : Z → Z → WaitResult (Z * Z)) (max_events timeout_ms : Z) : Z * list PollEvent :=
  wait_result epoll_event (kernel (max_wait max_events) timeout_ms).

Definition kq_wait (kernel : Z → Z * Z → WaitResult (Z * Filter * Z)) (max_events timeout_ms : Z) : Z * list PollEvent :=
  wait_result kq_event (kernel (max_wait max_events) (timespec timeout_ms)).
