(* ===== verification/Calls.v ===== *)
(** The system calls of the server side, as a log.  What the program asks of
    the kernel has no other effect on its own state, so a component that makes
    such calls keeps the list of those made so far; the registrations in the
    poller, the descriptors that are open and the bytes that left a socket are
    read off it. *)
From S2P Require Import Prelude Poller.

Inductive Syscall :=
  | Socket | SetReuseAddr (fd : Z) | Bind (fd addr port : Z) | Listen (fd backlog : Z) | GetSockName (fd : Z)
  | GetFlags (fd : Z) | SetFlags (fd flags : Z) | SetNoDelay (fd : Z) | Close (fd : Z)
  | InetPton (host : string) | Connect (fd addr port : Z)
  | Accept (fd : Z)  (* [::accept] that returned [fd] *)
  | Sent (fd : Z) (bytes : list Z)  (* the bytes one flush handed to [::write] *)
  | Received (fd : Z) (bytes : list Z)  (* the bytes one run of a read loop got *)
  | Poll (o : PollOp).

Definition O_NONBLOCK : Z := 2048.

(** [set_nonblocking], when [F_GETFL] returns [flags], and [set_nodelay]. *)
Definition set_nonblocking (flags fd : Z) : list Syscall :=
  [GetFlags fd; SetFlags fd (Z.lor flags O_NONBLOCK)].

Definition set_nodelay (fd : Z) : list Syscall := [SetNoDelay fd].

(** The [Poller::set_writable] call of [flush_and_arm], if it makes one. *)
Definition arm_calls (arm : option (Z * bool)) : list Syscall :=
  match arm with Some (fd, on) => [Poll (PSet fd on)] | None => [] end.

(** Taking a descriptor out of service: [poller_.remove(fd); ::close(fd)]. *)
Definition retire_calls (fd : Z) : list Syscall := [Poll (PRemove fd); Close fd].

(** ** Reading the log *)

(** The poller's registry. *)
Definition log_op (m : gmap Z bool) (c : Syscall) : gmap Z bool :=
  match c with Poll o => registry_op m o | _ => m end.

Definition registry (log : list Syscall) : gmap Z bool := fold_left log_op log ∅.

(** The open descriptors, [fds] before the log starts. *)
Definition open_op (s : gset Z) (c : Syscall) : gset Z :=
  match c with Accept fd => {[fd]} ∪ s | Close fd => s ∖ {[fd]} | _ => s end.

Definition open_fds (fds : gset Z) (log : list Syscall) : gset Z := fold_left open_op log fds.

(** What was sent on [fd] since it was accepted last. *)
Definition sent_op (fd : Z) (bs : list Z) (c : Syscall) : list Z :=
  match c with
  | Accept f => if bool_decide (f = fd) then [] else bs
  | Sent f new => if bool_decide (f = fd) then bs ++ new else bs
  | _ => bs
  end.

Definition sent (fd : Z) (log : list Syscall) : list Z := fold_left (sent_op fd) log [].

(** What was received on [fd] since it was accepted last. *)
Definition received_op (fd : Z) (bs : list Z) (c : Syscall) : list Z :=
  match c with
  | Accept f => if bool_decide (f = fd) then [] else bs
  | Received f new => if bool_decide (f = fd) then bs ++ new else bs
  | _ => bs
  end.

Definition received (fd : Z) (log : list Syscall) : list Z := fold_left (received_op fd) log [].

(** The poller operations of a log. *)
Definition poll_ops (log : list Syscall) : list PollOp :=
  omap (λ c, match c with Poll o => Some o | _ => None end) log.

(** ** The rules of use

    A descriptor is registered, read, written and closed only while it is open, is
    added once, has its write interest changed only while registered, and is
    taken out of the poller before it is closed. *)
Definition call_ok (m : gmap Z bool) (s : gset Z) (c : Syscall) : Prop :=
  match c with
  | Poll o => op_ok m o ∧ match o with PAdd fd => fd ∈ s | PSet fd _ => fd ∈ s | PRemove fd => fd ∈ s end
  | Close fd => fd ∈ s ∧ m !! fd = None
  | Sent fd _ | Received fd _ | GetFlags fd | SetFlags fd _ | SetNoDelay fd => fd ∈ s
  | Accept fd => fd ∉ s
  | _ => True
  end.

Fixpoint calls_ok (m : gmap Z bool) (s : gset Z) (log : list Syscall) : Prop :=
  match log with
  | [] => True
  | c :: log => call_ok m s c ∧ calls_ok (log_op m c) (open_op s c) log
  end.

Lemma calls_ok_app m s l l' :
  calls_ok m s (l ++ l') ↔ calls_ok m s l ∧ calls_ok (fold_left log_op l m) (fold_left open_op l s) l'.
Proof. revert m s. induction l as [|c l IH]; intros m s; simpl; [tauto|]. rewrite IH. tauto. Qed.

Lemma registry_app l l' : registry (l ++ l') = fold_left log_op l' (registry l).
Proof. apply fold_left_app. Qed.

Lemma open_fds_app fds l l' : open_fds fds (l ++ l') = fold_left open_op l' (open_fds fds l).
Proof. apply fold_left_app. Qed.

Lemma sent_app fd l l' : sent fd (l ++ l') = fold_left (sent_op fd) l' (sent fd l).
Proof. apply fold_left_app. Qed.

Lemma received_app fd l l' : received fd (l ++ l') = fold_left (received_op fd) l' (received fd l).
Proof. apply fold_left_app. Qed.

(** A log that follows the rules uses the poller as its back ends expect. *)
Lemma calls_ok_ops m s log : calls_ok m s log → ops_ok m (poll_ops log).
Proof.
  revert m s. induction log as [|c log IH]; intros m s Hl; [done|]. destruct Hl as [Hc Hl].
  apply IH in Hl. by destruct c; simpl in *; [..|split; [apply Hc|]].
Qed.

Lemma registry_ops log m : fold_left log_op log m = fold_left registry_op (poll_ops log) m.
Proof. revert m. induction log as [|c log IH]; intros m; [done|]. destruct c; apply IH. Qed.
