(* ===== verification/Net.v ===== *)
(** [struct Conn] of [include/matchbox/net.hpp] and [src/net.cpp]: buffered
    output of one non-blocking connection.  The kernel is a parameter: the list
    of results the successive [::write] calls return; the bytes each call
    accepted are collected as the output of [flush]. *)
From S2P Require Import Prelude Protocol Ring.

Record Conn := mkConn {
  fd : Z; rx : list Z; tx : list Z; tx_off : Z; out_seq : Z; want_write : bool }.

(** [Conn{}] with [fd] set. *)
Definition Conn_init (fd : Z) : Conn := mkConn fd [] [] 0 1 false.

Definition set_rx (v : list Z) (c : Conn) : Conn :=
  mkConn (fd c) v (tx c) (tx_off c) (out_seq c) (want_write c).
Definition set_tx (v : list Z) (c : Conn) : Conn :=
  mkConn (fd c) (rx c) v (tx_off c) (out_seq c) (want_write c).
Definition set_tx_off (v : Z) (c : Conn) : Conn :=
  mkConn (fd c) (rx c) (tx c) v (out_seq c) (want_write c).
Definition set_want_write (v : bool) (c : Conn) : Conn :=
  mkConn (fd c) (rx c) (tx c) (tx_off c) (out_seq c) v.

(** [Conn::queue]: stamp the next sequence number and append. *)
Definition queue {M} `{wire.Wire M} (m : M) (c : Conn) : Conn :=
  let m := set_seq (out_seq c) m in
  mkConn (fd c) (rx c) (wire.append (tx c) m) (tx_off c) (u32 (out_seq c + 1)) (want_write c).

Definition pending (c : Conn) : bool := tx_off c <? Z.of_nat (length (tx c)).

Definition backlog (c : Conn) : Z := u64 (Z.of_nat (length (tx c)) - tx_off c).

(** What [::write] returned: a count, or [-1] with [errno]. *)
Inductive WriteResult := Wrote (n : Z) | Again | Interrupted | Failed.

(** The loop of [Conn::flush]: [None] while the kernel has not answered yet. *)
Fixpoint flush_loop (os : list WriteResult) (c : Conn) : option (Conn * list Z * bool * list WriteResult) :=
  if tx_off c <? Z.of_nat (length (tx c)) then
    match os with
    | [] => None
    | r :: os =>
        match r with
        | Wrote n =>
            if 0 <? n then
              let bytes := take (Z.to_nat n) (drop (Z.to_nat (tx_off c)) (tx c)) in
              '(c, out, ok, os) ← flush_loop os (set_tx_off (u64 (tx_off c + n)) c);
              Some (c, bytes ++ out, ok, os)
            else Some (c, [], false, os)
        | Again => Some (c, [], true, os)
        | Interrupted => flush_loop os c
        | Failed => Some (c, [], false, os)
        end
    end
  else Some (c, [], true, os).

(** The buffer compaction at the end of [Conn::flush]. *)
Definition compact (c : Conn) : Conn :=
  if tx_off c =? Z.of_nat (length (tx c)) then set_tx_off 0 (set_tx [] c)
  else if 2 ^ 16 <? tx_off c then set_tx_off 0 (set_tx (drop (Z.to_nat (tx_off c)) (tx c)) c)
  else c.

(** [Conn::flush]: the connection, the bytes that left, the result, the unused answers. *)
Definition flush (os : list WriteResult) (c : Conn) : option (Conn * list Z * bool * list WriteResult) :=
  '(c, out, ok, os) ← flush_loop os c;
  if (ok : bool) then Some (compact c, out, true, os) else Some (c, out, false, os).

(** [flush_and_arm]; the last component is the [Poller::set_writable] call, if any. *)
Definition flush_and_arm (os : list WriteResult) (c : Conn) :
    option (Conn * list Z * bool * list WriteResult * option (Z * bool)) :=
  '(c, out, ok, os) ← flush os c;
  if (ok : bool) then
    let need := pending c in
    if Bool.eqb need (want_write c) then Some (c, out, true, os, None)
    else Some (set_want_write need c, out, true, os, Some (fd c, need))
  else Some (c, out, false, os, None).

(** ** The abstract view: the bytes still to be sent *)
Definition unsent (c : Conn) : list Z := drop (Z.to_nat (tx_off c)) (tx c).

Definition conn_ok (c : Conn) : Prop :=
  0 ≤ tx_off c ≤ Z.of_nat (length (tx c)) ∧ Z.of_nat (length (tx c)) < 2 ^ 64.

(** [::write] never reports more bytes than it was given: the documented
    behaviour of the system call, for the answers a loop on [c] consumes. *)
Fixpoint answers_ok (os : list WriteResult) (left : Z) : Prop :=
  match os with
  | [] => True
  | Wrote n :: os => n ≤ left ∧ answers_ok os (left - Z.max 0 n)
  | _ :: os => answers_ok os left
  end.

#[export] Instance answers_ok_dec os left : Decision (answers_ok os left).
Proof. revert left. induction os as [|[n| | |] os IH]; intros left; simpl; apply _. Defined.

Lemma Conn_init_ok fd : conn_ok (Conn_init fd).
Proof. split; simpl; lia. Qed.

Lemma unsent_length c : conn_ok c → Z.of_nat (length (unsent c)) = Z.of_nat (length (tx c)) - tx_off c.
Proof. intros [? ?]. unfold unsent. rewrite length_drop. lia. Qed.

Lemma backlog_ok c : conn_ok c → backlog c = Z.of_nat (length (unsent c)).
Proof. intros H. rewrite (unsent_length c H). destruct H. unfold backlog. rewrite u64_small; lia. Qed.

Lemma pending_ok c : conn_ok c → pending c = negb (bool_decide (unsent c = [])).
Proof.
  intros H. pose proof (unsent_length c H) as Hl. unfold pending. case_bool_decide as E; simpl.
  - rewrite E in Hl. simpl in Hl. lia.
  - destruct (unsent c); [done|]. simpl in Hl. lia.
Qed.

(** Appending to [tx] appends to what is to be sent. *)
Lemma append_tx_ok c bs :
  conn_ok c → Z.of_nat (length (tx c) + length bs) < 2 ^ 64 →
  conn_ok (set_tx (tx c ++ bs) c) ∧ unsent (set_tx (tx c ++ bs) c) = unsent c ++ bs.
Proof.
  intros [? ?] ?. split; [split; simpl; rewrite length_app; lia|]. unfold unsent. simpl.
  apply drop_app_le. lia.
Qed.

Lemma compact_ok c : conn_ok c → conn_ok (compact c) ∧ unsent (compact c) = unsent c ∧ want_write (compact c) = want_write c ∧ rx (compact c) = rx c ∧ out_seq (compact c) = out_seq c ∧ fd (compact c) = fd c.
Proof.
  intros [? ?]. unfold compact, conn_ok, unsent.
  destruct (Z.eqb_spec (tx_off c) (Z.of_nat (length (tx c)))) as [E|E]; simpl.
  - split_and!; try done. rewrite drop_ge by lia. done.
  - destruct (Z.ltb_spec (2 ^ 16) (tx_off c)); simpl; split_and!; try (done || lia); rewrite ?length_drop; lia.
Qed.

(** What one run of the write loop does: the bytes that left are the front of
    the unsent ones, and it only stops at the end, at [EAGAIN] or on failure. *)
Lemma flush_loop_ok os c c' out ok os' :
  conn_ok c → answers_ok os (Z.of_nat (length (unsent c))) → flush_loop os c = Some (c', out, ok, os') →
  conn_ok c' ∧ unsent c = out ++ unsent c' ∧ want_write c' = want_write c ∧ rx c' = rx c ∧
  out_seq c' = out_seq c ∧ fd c' = fd c ∧ tx c' = tx c.
Proof.
  revert c c' out ok os'. induction os as [|r os IH]; intros c c' out ok os' Hc Ha E.
  { simpl in E. destruct (_ <? _); [done|]. by simplify_eq. }
  cbn [flush_loop] in E. destruct (Z.ltb_spec (tx_off c) (Z.of_nat (length (tx c)))) as [Hlt|Hge].
  2: { by simplify_eq. }
  pose proof (unsent_length c Hc) as Hul. destruct r as [n| | |].
  - destruct (Z.ltb_spec 0 n) as [Hn|Hn]; [|by simplify_eq]. simpl in Ha. destruct Ha as [Hle Ha].
    apply bind_Some in E as ([[[c1 out1] ok1] os1] & E1 & E). destruct Hc as [Hc1 Hc2].
    rewrite u64_small in E1 by lia. set (c0 := set_tx_off (tx_off c + n) c) in *.
    assert (conn_ok c0) as Hc0 by (split; simpl; lia).
    assert (unsent c = take (Z.to_nat n) (unsent c) ++ unsent c0) as Hsplit.
    { unfold unsent, c0. simpl. rewrite <- (take_drop (Z.to_nat n)) at 1. f_equal.
      rewrite drop_drop. f_equal. lia. }
    assert (Z.of_nat (length (unsent c0)) = Z.of_nat (length (unsent c)) - n) as Hl0.
    { rewrite (unsent_length c0 Hc0). simpl. lia. }
    assert (answers_ok os (Z.of_nat (length (unsent c0)))) as Ha0.
    { rewrite Hl0. by rewrite Z.max_r in Ha by lia. }
    destruct (IH _ _ _ _ _ Hc0 Ha0 E1) as (H1 & H2 & ?).
    simplify_eq. split_and!; [done| |tauto..]. rewrite <- app_assoc, <- H2. exact Hsplit.
  - by simplify_eq.
  - by apply (IH c c' out ok os').
  - by simplify_eq.
Qed.

Lemma flush_ok os c c' out ok os' :
  conn_ok c → answers_ok os (Z.of_nat (length (unsent c))) → flush os c = Some (c', out, ok, os') →
  conn_ok c' ∧ unsent c = out ++ unsent c' ∧ want_write c' = want_write c ∧ rx c' = rx c ∧
  out_seq c' = out_seq c ∧ fd c' = fd c.
Proof.
  intros Hc Ha E. unfold flush in E. apply bind_Some in E as ([[[c1 out1] ok1] os1] & E1 & E).
  destruct (flush_loop_ok _ _ _ _ _ _ Hc Ha E1) as (H1 & H2 & H3 & H4 & H5 & H6 & _).
  destruct ok1; simplify_eq; [|done].
  destruct (compact_ok c1 H1) as (K1 & K2 & K3 & K4 & K5 & K6). rewrite K2, K3, K4, K5, K6. done.
Qed.

(** Enough answers make the loop return: it stops at the latest after as many
    as there are unsent bytes plus interruptions. *)
Lemma flush_loop_total os c :
  conn_ok c → answers_ok os (Z.of_nat (length (unsent c))) →
  (∃ r, r ∈ os ∧ (r = Again ∨ r = Failed)) → is_Some (flush_loop os c).
Proof.
  revert c. induction os as [|r os IH]; intros c Hc Ha (x & Hx & Hk); [by apply not_elem_of_nil in Hx|].
  cbn [flush_loop]. destruct (_ <? _) eqn:Hlt; [|eauto]. apply Z.ltb_lt in Hlt.
  assert (∀ c', conn_ok c' → answers_ok os (Z.of_nat (length (unsent c'))) → r ≠ x → is_Some (flush_loop os c')) as Hgo.
  { intros c' H1 H2 Hne. apply IH; [done..|]. exists x. split; [|done]. by apply elem_of_cons in Hx as [->|?]. }
  destruct r as [n| | |]; [|eauto| |eauto].
  - destruct (Z.ltb_spec 0 n) as [Hn|Hn]; [|eauto]. simpl in Ha. destruct Ha as [Hle Ha].
    pose proof (unsent_length c Hc) as Hul. destruct Hc as [Hc1 Hc2]. rewrite u64_small by lia.
    assert (conn_ok (set_tx_off (tx_off c + n) c)) as Hc0 by (split; simpl; lia).
    destruct (Hgo _ Hc0) as [[[[c1 out1] ok1] os1] E1]; [| |rewrite E1; eauto].
    + rewrite (unsent_length _ Hc0). simpl. replace (Z.of_nat (length (tx c)) - (tx_off c + n))
        with (Z.of_nat (length (unsent c)) - Z.max 0 n) by lia. done.
    + intros <-. destruct Hk; done.
  - apply Hgo; [done..|]. intros <-. destruct Hk; done.
Qed.

Lemma flush_total os c :
  conn_ok c → answers_ok os (Z.of_nat (length (unsent c))) →
  (∃ r, r ∈ os ∧ (r = Again ∨ r = Failed)) → is_Some (flush os c).
Proof.
  intros Hc Ha Hr. destruct (flush_loop_total os c Hc Ha Hr) as [[[[c' out] ok] os'] E].
  unfold flush. rewrite E. simpl. destruct ok; eauto.
Qed.

(** Connections with the same output buffer. *)
Definition same_tx (c c' : Conn) : Prop := tx c' = tx c ∧ tx_off c' = tx_off c.

Lemma unsent_ext c c' : same_tx c c' → unsent c' = unsent c.
Proof. unfold unsent. by intros [-> ->]. Qed.

Lemma conn_ok_ext c c' : same_tx c c' → conn_ok c → conn_ok c'.
Proof. unfold conn_ok. by intros [-> ->]. Qed.
