(* ===== verification/Publisher.v ===== *)
(** [include/matchbox/publisher.hpp] and [src/publisher.cpp]: fan-out of the
    market-data stream.  Each subscriber has a cursor into the shared replay
    ring.  The kernel's answers to [::read] and [::write] are arguments; what
    leaves each socket is returned.  [Publisher::poller_] is a reference to the
    server's poller: the shared object is the log of the system calls made so
    far, kept in [p_calls], and the server's own calls go to the same log. *)
From S2P Require Import Prelude Poller Calls Protocol Ring Net.

Record Subscriber := mkSub {
  conn : Conn; subscribed : bool; next_seq : Z; last_tx_ns : Z; stalled_since_ns : Z }.

Record PubConfig := mkPubConfig {
  max_backlog : Z; ring_log2 : Z; heartbeat_ms : Z; stall_timeout_ms : Z }.

Record Publisher := mkPub {
  p_cfg : PubConfig; ring_ : ReplayRing; subs_ : gmap Z Subscriber; dirty_ : bool; next_tick_ns_ : Z;
  p_calls : list Syscall }.

Definition Publisher_init (cfg : PubConfig) : Publisher :=
  mkPub cfg (Ring_init (ring_log2 cfg)) ∅ false 0 [].

Definition set_conn (c : Conn) (s : Subscriber) : Subscriber :=
  mkSub c (subscribed s) (next_seq s) (last_tx_ns s) (stalled_since_ns s).
Definition set_next_seq (v : Z) (s : Subscriber) : Subscriber :=
  mkSub (conn s) (subscribed s) v (last_tx_ns s) (stalled_since_ns s).
Definition set_last_tx (v : Z) (s : Subscriber) : Subscriber :=
  mkSub (conn s) (subscribed s) (next_seq s) v (stalled_since_ns s).
Definition set_stalled (v : Z) (s : Subscriber) : Subscriber :=
  mkSub (conn s) (subscribed s) (next_seq s) (last_tx_ns s) v.
Definition set_subs (m : gmap Z Subscriber) (p : Publisher) : Publisher :=
  mkPub (p_cfg p) (ring_ p) m (dirty_ p) (next_tick_ns_ p) (p_calls p).
Definition set_dirty (v : bool) (p : Publisher) : Publisher :=
  mkPub (p_cfg p) (ring_ p) (subs_ p) v (next_tick_ns_ p) (p_calls p).

(** Making system calls. *)
Definition call (cs : list Syscall) (p : Publisher) : Publisher :=
  mkPub (p_cfg p) (ring_ p) (subs_ p) (dirty_ p) (next_tick_ns_ p) (p_calls p ++ cs).

(** [s.tx.insert(s.tx.end(), ...)] *)
Definition push_tx (bs : list Z) (s : Subscriber) : Subscriber :=
  set_conn (set_tx (tx (conn s) ++ bs) (conn s)) s.

(** [publish] *)
Definition publish {M} `{wire.Wire M} (m : M) (p : Publisher) : option Publisher :=
  '(r, _) ← append (ring_ p) m;
  Some (mkPub (p_cfg p) r (subs_ p) true (next_tick_ns_ p) (p_calls p)).

(** [control] *)
Definition control {M} `{wire.Wire M} (m : M) (now : Z) (s : Subscriber) : Subscriber :=
  set_last_tx now (push_tx (wire.bytes_of m) s).

(** The [Gap] and [Heartbeat] frames built in place. *)
Definition gap_frame (from resumed : Z) : wire.Gap :=
  wire.mkGap (wire.hdr (wire.make wire.Gap 0)) from resumed.
Definition heartbeat_frame (now head : Z) : wire.Heartbeat :=
  wire.mkHeartbeat (wire.hdr (wire.make wire.Heartbeat 0)) now head.

(** [subscribe]: the accepted socket waits for its Subscribe frame. *)
Definition subscribe (fd : Z) (p : Publisher) : Publisher :=
  let p := match subs_ p !! fd with
    | Some _ => p
    | None => set_subs (<[fd := mkSub (Conn_init fd) false 0 0 0]> (subs_ p)) p
    end in
  call [Poll (PAdd fd)] p.

(** [drop] *)
Definition drop_sub (fd : Z) (p : Publisher) : Publisher :=
  let p := call (retire_calls fd) p in
  set_subs (delete fd (subs_ p)) p.

(** ** [pump] *)

(** The copy loop of [pump]: frames from the cursor until the head or the backlog limit. *)
Fixpoint copy_frames (fuel : nat) (ring : ReplayRing) (limit now : Z) (s : Subscriber) : option Subscriber :=
  match fuel with
  | O => None
  | S fuel =>
      if (next_seq s <=? head ring) && (backlog (conn s) <? limit) then
        bs ← frame_bytes ring (next_seq s);
        copy_frames fuel ring limit now
          (set_last_tx now (set_next_seq (u32 (next_seq s + 1)) (push_tx bs s)))
      else Some s
  end.

(** The Gap of [pump], when the cursor has fallen out of the ring and can move. *)
Definition skip_lost (cfg : PubConfig) (ring : ReplayRing) (now : Z) (s : Subscriber) : Subscriber :=
  if (backlog (conn s) <? max_backlog cfg) && (next_seq s <? oldest ring) then
    set_next_seq (oldest ring) (control (gap_frame (next_seq s) (oldest ring)) now s)
  else s.

Definition beat (cfg : PubConfig) (ring : ReplayRing) (now : Z) (s : Subscriber) : Subscriber :=
  if (u64 (heartbeat_ms cfg * 1000000) <=? u64 (now - last_tx_ns s)) && negb (pending (conn s))
  then control (heartbeat_frame now (head ring)) now s else s.

(** What [pump] adds to the output buffer. *)
Definition refill (cfg : PubConfig) (ring : ReplayRing) (now : Z) (s : Subscriber) : option Subscriber :=
  let s := if last_tx_ns s =? 0 then set_last_tx now s else s in
  if subscribed s then
    let s := skip_lost cfg ring now s in
    s ← copy_frames (S (Z.to_nat (head ring - next_seq s + 1))) ring (max_backlog cfg) now s;
    Some (beat cfg ring now s)
  else Some s.

(** [pump]: the subscriber, the bytes that left, [false] when it must be dropped. *)
Definition pump (cfg : PubConfig) (ring : ReplayRing) (now : Z) (os : list WriteResult) (s : Subscriber) :
    option (Subscriber * list Z * bool * option (Z * bool)) :=
  s ← refill cfg ring now s;
  let before := backlog (conn s) in
  '(c, out, ok, _, arm) ← flush_and_arm os (conn s);
  let s := set_conn c s in
  if negb (ok : bool) then Some (s, out, false, arm) else
  if pending (conn s) && (backlog (conn s) =? before) then
    let s := if stalled_since_ns s =? 0 then set_stalled now s else s in
    if u64 (stall_timeout_ms cfg * 1000000) <=? u64 (now - stalled_since_ns s)
    then Some (s, out, false, arm) else Some (s, out, true, arm)
  else Some (set_stalled 0 s, out, true, arm).

(** The calls of one [pump] and the sockets found dead. *)
Definition pump_calls (r : option (Subscriber * list Z * bool * option (Z * bool))) : list Syscall :=
  match r with Some (s, out, _, arm) => Sent (fd (conn s)) out :: arm_calls arm | None => [] end.

Definition dead_fd (r : Z * option (Subscriber * list Z * bool * option (Z * bool))) : option Z :=
  match r with (fd, Some (_, _, false, _)) => Some fd | _ => None end.

(** [flush_all]; [os] gives each socket's answers.  The sockets are
    independent, so the walk over the hash map is a map over it; the calls are
    logged in one of the orders the walk may take. *)
Definition flush_all (now : Z) (os : Z → list WriteResult) (p : Publisher) :
    option (Publisher * gmap Z (list Z)) :=
  if negb (dirty_ p) && (now <? next_tick_ns_ p) then Some (p, ∅) else
  let pumped := map_imap (λ fd s, Some (pump (p_cfg p) (ring_ p) now (os fd) s)) (subs_ p) in
  if bool_decide (map_Forall (λ _ r, is_Some r) pumped) then
    let alive := omap (λ r, '(s, _, ok, _) ← r; if (ok : bool) then Some s else None) pumped in
    let sent := omap (λ r, '(_, out, _, _) ← r; Some out) pumped in
    let walk := map_to_list pumped in
    let calls := (walk ≫= λ r, pump_calls (snd r)) ++ (omap dead_fd walk ≫= retire_calls) in
    Some (call calls (mkPub (p_cfg p) (ring_ p) alive false (u64 (now + 1000000)) (p_calls p)), sent)
  else None.

(** [on_writable] *)
Definition on_writable (fd : Z) (os : list WriteResult) (p : Publisher) : option (Publisher * list Z) :=
  match subs_ p !! fd with
  | None => Some (p, [])
  | Some s =>
      let p := set_dirty true p in
      '(c, out, ok, _, arm) ← flush_and_arm os (conn s);
      let p := set_subs (<[fd := set_conn c s]> (subs_ p)) (call (Sent (Net.fd c) out :: arm_calls arm) p) in
      Some (if (ok : bool) then p else drop_sub fd p, out)
  end.

(** What [::read] returned. *)
Inductive ReadResult := Got (bytes : list Z) | ReadAgain | ReadInterrupted | Closed.

(** What [::read] delivers are bytes. *)
Definition bytes_read (r : ReadResult) : Prop := match r with Got bs => Forall byte bs | _ => True end.

#[export] Instance bytes_read_dec r : Decision (bytes_read r).
Proof. destruct r; apply _. Defined.

(** The read loop of [on_readable]: [Some true] when it went dry, [Some false]
    on EOF or error, with the bytes collected; [None] while [::read] blocks. *)
Fixpoint read_all (os : list ReadResult) (acc : list Z) : option (bool * list Z) :=
  match os with
  | [] => None
  | Got (b :: bs) :: os => read_all os (acc ++ b :: bs)
  | Got [] :: _ => Some (false, acc)
  | ReadInterrupted :: os => read_all os acc
  | ReadAgain :: _ => Some (true, acc)
  | Closed :: _ => Some (false, acc)
  end.

(** The cursor a Subscribe frame asks for, given the stream's head. *)
Definition start_cursor (head from : Z) (s : Subscriber) : Subscriber :=
  if (from =? 0) || (u32 (head + 1) <? from) then
    let s := if u32 (head + 1) <? from then control (gap_frame from (u32 (head + 1))) 0 s else s in
    set_next_seq (u32 (head + 1)) s
  else set_next_seq (u32 from) s.

(** [on_readable] *)
Definition on_readable (fd : Z) (os : list ReadResult) (p : Publisher) : option Publisher :=
  match subs_ p !! fd with
  | None => Some p
  | Some s =>
      '(alive, bytes) ← read_all os (rx (conn s));
      let p := call [Received fd (drop (length (rx (conn s))) bytes)] p in
      if negb (alive : bool) then Some (drop_sub fd p) else
      let s := set_conn (set_rx bytes (conn s)) s in
      let p := set_subs (<[fd := s]> (subs_ p)) p in
      if Z.of_nat (length bytes) <? wire.sizeof wire.Subscribe then Some p else
      h ← wire.read_header bytes;
      if subscribed s || negb (wire.version h =? wire.kVersion)
         || negb (wire.len h =? wire.sizeof wire.Subscribe)
         || negb (wire.type h =? wire.MsgType_val wire.MsgSubscribe)
         || (wire.sizeof wire.Subscribe <? Z.of_nat (length bytes))
      then Some (drop_sub fd p) else
      m ← wire.read wire.Subscribe bytes;
      let s := mkSub (set_rx [] (conn s)) true (next_seq s) (last_tx_ns s) (stalled_since_ns s) in
      let s := start_cursor (head (ring_ p)) (wire.su_from_seq m) s in
      Some (set_dirty true (set_subs (<[fd := s]> (subs_ p)) p))
  end.
