(* ===== verification/Stream.v ===== *)
(** What a market-data subscriber reads: the abstract stream of frames, gaps
    and heartbeats, and the proof that [pump] only ever appends a stream that
    continues where the subscriber's cursor stands. *)
From S2P Require Import Prelude Protocol Ring Net Publisher.

(** ** The abstract stream *)
Inductive item := IFrame (seq : Z) | IGap (from resumed : Z) | IBeat (now head : Z).

(** A reader that expects sequence [n]: every item must continue there; a gap
    says exactly which frames are missing, and a heartbeat comes only when the
    reader has everything up to the head it names. *)
Definition follow_one (n : Z) (i : item) : option Z :=
  match i with
  | IFrame seq => if seq =? n then Some (n + 1) else None
  | IGap from resumed => if (from =? n) && (from <? resumed) then Some resumed else None
  | IBeat _ head => if head =? n - 1 then Some n else None
  end.

Fixpoint follow (n : Z) (l : list item) : option Z :=
  match l with [] => Some n | i :: l => n ← follow_one n i; follow n l end.

(** What [Subscribe{from}] makes of a stream with [d] frames: a client ahead of
    the stream is told so by a gap that goes back. *)
Definition opening (d from : Z) : list item := if d + 1 <? from then [IGap from (d + 1)] else [].
Definition opening_seq (d from : Z) : Z := if (from =? 0) || (d + 1 <? from) then d + 1 else from.

(** A reader that asked for [from] when there were [d] frames. *)
Definition follow_from (d from : Z) (l : list item) : option Z :=
  match l with
  | IGap a b :: l' =>
      if d + 1 <? from then if (a =? from) && (b =? d + 1) then follow (d + 1) l' else None
      else follow (opening_seq d from) l
  | [] => Some (opening_seq d from)
  | _ => if d + 1 <? from then None else follow (opening_seq d from) l
  end.

(** A heartbeat carries the clock reading of the [pump] that sent it. *)
Definition timed (now : Z) (i : item) : Prop := match i with IBeat t _ => t = now | _ => True end.

(** The bytes of an item, when [h] are the frames published so far. *)
Definition item_bytes (h : list (list Z)) (i : item) : list Z :=
  match i with
  | IFrame seq => default [] (h !! Z.to_nat (seq - 1))
  | IGap from resumed => wire.bytes_of (gap_frame from resumed)
  | IBeat now head => wire.bytes_of (heartbeat_frame now head)
  end.

Definition stream_bytes (h : list (list Z)) (l : list item) : list Z := concat (item_bytes h <$> l).

Lemma follow_app n l l' : follow n (l ++ l') = (n' ← follow n l; follow n' l').
Proof. revert n. induction l as [|i l IH]; intros n; simpl; [done|]. destruct (follow_one n i); simpl; auto. Qed.

Lemma opening_seq_pos d from : 0 ≤ d → 0 ≤ from → 1 ≤ opening_seq d from ≤ d + 1.
Proof. intros Hd Hf. unfold opening_seq. destruct (Z.eqb_spec from 0), (Z.ltb_spec (d + 1) from); simpl; lia. Qed.

Lemma follow_from_started d from l : from ≤ d + 1 → follow_from d from l = follow (opening_seq d from) l.
Proof. intros H. destruct l as [|[] l]; [done|..]; simpl; by destruct (Z.ltb_spec (d + 1) from); [lia|]. Qed.

Lemma follow_from_opening d from l : follow_from d from (opening d from ++ l) = follow (opening_seq d from) l.
Proof.
  unfold opening. destruct (Z.ltb_spec (d + 1) from); [|by apply follow_from_started].
  simpl. destruct (Z.ltb_spec (d + 1) from); [|lia]. rewrite !Z.eqb_refl. simpl. unfold opening_seq.
  destruct (Z.ltb_spec (d + 1) from); [|lia]. by rewrite orb_true_r.
Qed.

Lemma follow_from_app d from l l' n :
  follow_from d from l = Some n → l ≠ [] ∨ from ≤ d + 1 → follow_from d from (l ++ l') = follow n l'.
Proof.
  intros E Hor. destruct (Z.ltb_spec (d + 1) from) as [Hs|Hs].
  - destruct l as [|i l]; [destruct Hor; [done|lia]|]. destruct i as [q|a b|t e]; simpl in *; destruct (Z.ltb_spec (d + 1) from); try lia; try done.
    destruct (_ && _); [|done]. by rewrite follow_app, E.
  - rewrite follow_from_started in * by done. by rewrite follow_app, E.
Qed.

(** What was read up to any point is a stream too. *)
Lemma follow_from_prefix d from l l' n : follow_from d from (l ++ l') = Some n → ∃ m, follow_from d from l = Some m.
Proof.
  intros E. destruct l as [|i l]; [by eexists|]. destruct (Z.ltb_spec (d + 1) from) as [Hs|Hs].
  - destruct i as [q|a b|t e]; simpl in *; destruct (Z.ltb_spec (d + 1) from); try (done || lia). destruct (_ && _); [|done].
    rewrite follow_app in E. apply bind_Some in E as (m & -> & _). eauto.
  - rewrite follow_from_started in * by done. rewrite follow_app in E. apply bind_Some in E as (m & -> & _). eauto.
Qed.

Lemma stream_bytes_app h l l' : stream_bytes h (l ++ l') = stream_bytes h l ++ stream_bytes h l'.
Proof. unfold stream_bytes. by rewrite fmap_app, concat_app. Qed.

(** A stream only moves forward, and every frame in it is below its end. *)
Lemma follow_mono n l n' : follow n l = Some n' → n ≤ n'.
Proof.
  revert n. induction l as [|i l IH]; intros n E; simpl in E; [injection E as ->; lia|].
  apply bind_Some in E as (m & Em & E%IH). enough (n ≤ m) by lia.
  destruct i as [q|a b|t d]; simpl in Em.
  - destruct (_ =? _); [injection Em as <-; lia|done].
  - destruct (Z.eqb_spec a n), (Z.ltb_spec a b); simpl in Em; simplify_eq; lia.
  - destruct (_ =? _); [by injection Em as ->|done].
Qed.

Lemma stream_bytes_one h i : stream_bytes h [i] = item_bytes h i.
Proof. apply app_nil_r. Qed.

(** ** What a subscriber's state promises *)
Record sub_ok (k : Z) (ring : ReplayRing) (h : list (list Z)) (s : Subscriber) : Prop := {
  su_ring : ring_ok k ring h;
  su_conn : conn_ok (conn s);
  su_next : 1 ≤ next_seq s ≤ Z.of_nat (length h) + 1;
  su_seq : Z.of_nat (length h) + 1 < 2 ^ 32 }.

(** The output buffer stays below 2^63 bytes. *)
Definition tx_fits (s : Subscriber) : Prop := Z.of_nat (length (tx (conn s))) < 2 ^ 63.

Lemma gap_size from resumed : length (wire.bytes_of (gap_frame from resumed)) = 24%nat.
Proof. reflexivity. Qed.

Lemma beat_size now head : length (wire.bytes_of (heartbeat_frame now head)) = 24%nat.
Proof. reflexivity. Qed.

(** One append to the output buffer. *)
Lemma push_tx_ok k ring h s bs n :
  sub_ok k ring h s → Z.of_nat (length (tx (conn s)) + length bs) < 2 ^ 64 →
  1 ≤ n ≤ Z.of_nat (length h) + 1 →
  let s' := set_next_seq n (push_tx bs s) in
  sub_ok k ring h s' ∧ unsent (conn s') = unsent (conn s) ++ bs ∧
  backlog (conn s') = backlog (conn s) + Z.of_nat (length bs) ∧
  length (tx (conn s')) = (length (tx (conn s)) + length bs)%nat.
Proof.
  intros [] Hl Hn s'. destruct (append_tx_ok (conn s) bs su_conn0 Hl) as [H1 H2].
  split_and!; [by split|exact H2| |apply length_app].
  simpl. rewrite (backlog_ok _ H1), (backlog_ok _ su_conn0), H2, length_app. lia.
Qed.

Lemma set_last_tx_ok k ring h s v : sub_ok k ring h s → sub_ok k ring h (set_last_tx v s).
Proof. intros []. by split. Qed.

Lemma held_frame k ring h s n :
  sub_ok k ring h s → oldest ring ≤ n ≤ Z.of_nat (length h) →
  ∃ bs, h !! Z.to_nat (n - 1) = Some bs ∧ frame_bytes ring n = Some bs ∧ (8 ≤ length bs ≤ 64)%nat.
Proof.
  intros [HR _ _ _] Hn. rewrite (oldest_ok _ _ _ HR) in Hn.
  destruct (frame_ok k ring h n HR) as (bs & E & Ef & Hst); [apply (holds_ok _ _ _ _ HR); lia|].
  exists bs. pose proof (st_size _ _ Hst). unfold wire.kMaxFrame in *. split_and!; [done|done|lia|lia].
Qed.

(** ** The copy loop *)
Lemma copy_frames_ok fuel k ring h limit now s :
  sub_ok k ring h s → (next_seq s ≤ Z.of_nat (length h) → limit ≤ backlog (conn s) ∨ oldest ring ≤ next_seq s) →
  Z.of_nat (length h) + 1 - next_seq s < Z.of_nat fuel →
  Z.of_nat (length (tx (conn s))) + 64 * (Z.of_nat (length h) + 1 - next_seq s) < 2 ^ 64 →
  ∃ s' l, copy_frames fuel ring limit now s = Some s' ∧ sub_ok k ring h s' ∧
    unsent (conn s') = unsent (conn s) ++ stream_bytes h l ∧ follow (next_seq s) l = Some (next_seq s') ∧
    (∀ i, i ∈ l → ∃ seq, i = IFrame seq) ∧
    Z.of_nat (length (tx (conn s'))) ≤ Z.of_nat (length (tx (conn s))) + 64 * (next_seq s' - next_seq s) ∧
    backlog (conn s') < Z.max (backlog (conn s) + 1) (limit + 64) ∧
    (next_seq s' = Z.of_nat (length h) + 1 ∨ limit ≤ backlog (conn s')) ∧
    subscribed s' = subscribed s.
Proof.
  revert s. induction fuel as [|fuel IH]; intros s Hs Hold Hfuel Htx; [destruct (su_next _ _ _ _ Hs); lia|].
  cbn [copy_frames]. unfold head. rewrite (ro_head _ _ _ (su_ring _ _ _ _ Hs)).
  pose proof (su_next _ _ _ _ Hs) as Hn. pose proof (su_seq _ _ _ _ Hs) as Hseq.
  destruct (Z.leb_spec (next_seq s) (Z.of_nat (length h))) as [Hle|Hgt]; simpl andb; cycle 1.
  { exists s, []. rewrite app_nil_r. split_and!; try (done || lia). by intros i []%not_elem_of_nil. }
  destruct (Z.ltb_spec (backlog (conn s)) limit) as [Hb|Hb]; cycle 1.
  { exists s, []. rewrite app_nil_r. split_and!; try (done || lia). by intros i []%not_elem_of_nil. }
  destruct (Hold Hle) as [|Ho]; [lia|].
  destruct (held_frame k ring h s (next_seq s) Hs) as (bs & Eh & -> & Hbs); [lia|]. cbn [mbind option_bind].
  rewrite u32_small by lia.
  destruct (push_tx_ok k ring h s bs (next_seq s + 1) Hs) as (Hs1 & Hu1 & Hb1 & Hl1); [lia..|].
  set (s1 := set_last_tx now _). apply (set_last_tx_ok _ _ _ _ now) in Hs1.
  destruct (IH s1) as (s' & l & E & Hs' & Hu & Hf & Hfr & Htx' & Hbl & Hend & Hsub); try done; simpl in *; [lia..|].
  exists s', (IFrame (next_seq s) :: l). split_and!; try done; try lia.
  - rewrite Hu, Hu1, <- app_assoc. unfold stream_bytes. simpl. by rewrite Eh.
  - simpl. rewrite Z.eqb_refl. exact Hf.
  - intros i [->|Hi]%elem_of_cons; eauto.
Qed.

(** ** Gap and heartbeat *)
Definition beatless (i : item) : Prop := match i with IBeat _ _ => False | _ => True end.

Lemma skip_lost_ok cfg k ring h now s :
  sub_ok k ring h s → tx_fits s →
  let s' := skip_lost cfg ring now s in
  ∃ l, sub_ok k ring h s' ∧ unsent (conn s') = unsent (conn s) ++ stream_bytes h l ∧
    follow (next_seq s) l = Some (next_seq s') ∧ Forall beatless l ∧
    (max_backlog cfg ≤ backlog (conn s') ∨ oldest ring ≤ next_seq s') ∧
    next_seq s ≤ next_seq s' ∧
    backlog (conn s') < Z.max (backlog (conn s) + 1) (max_backlog cfg + 24) ∧
    Z.of_nat (length (tx (conn s'))) ≤ Z.of_nat (length (tx (conn s))) + 24 ∧ subscribed s' = subscribed s.
Proof.
  intros Hs Hfit s'. unfold s', skip_lost. clear s'.
  destruct ((backlog (conn s) <? max_backlog cfg) && (next_seq s <? oldest ring)) eqn:Hc; cycle 1.
  { exists []. rewrite app_nil_r. split_and!; try (done || lia). }
  apply andb_true_iff in Hc as [Hb%Z.ltb_lt Ho%Z.ltb_lt].
  pose proof (oldest_ok _ _ _ (su_ring _ _ _ _ Hs)) as Hold. pose proof (su_next _ _ _ _ Hs).
  pose proof (ro_k _ _ _ (su_ring _ _ _ _ Hs)) as Hk. pose proof (Z.pow_pos_nonneg 2 k ltac:(lia) Hk).
  destruct (push_tx_ok k ring h s (wire.bytes_of (gap_frame (next_seq s) (oldest ring))) (oldest ring) Hs)
    as (H1 & H2 & H3 & H4); [unfold tx_fits in Hfit; rewrite gap_size; lia|lia|].
  rewrite gap_size in H3, H4. exists [IGap (next_seq s) (oldest ring)]. unfold control.
  split_and!; [destruct H1; by split|rewrite stream_bytes_one; exact H2| |by apply Forall_singleton|simpl in *; lia..|done].
  - simpl. rewrite Z.eqb_refl. destruct (Z.ltb_spec (next_seq s) (oldest ring)); [done|lia].
Qed.

Lemma beat_ok cfg k ring h now s :
  sub_ok k ring h s → tx_fits s → next_seq s = Z.of_nat (length h) + 1 ∨ 0 < backlog (conn s) →
  let s' := beat cfg ring now s in
  ∃ l, sub_ok k ring h s' ∧ unsent (conn s') = unsent (conn s) ++ stream_bytes h l ∧
    follow (next_seq s) l = Some (next_seq s') ∧ Forall (timed now) l ∧ next_seq s' = next_seq s ∧
    backlog (conn s') < Z.max (backlog (conn s) + 1) 25 ∧ subscribed s' = subscribed s ∧
    (backlog (conn s) ≤ backlog (conn s')).
Proof.
  intros Hs Hfit Hend s'. unfold s', beat. clear s'. destruct (_ && _) eqn:Hc; cycle 1.
  { exists []. rewrite app_nil_r. split_and!; try (done || lia). }
  apply andb_true_iff in Hc as [_ Hp]. rewrite (pending_ok _ (su_conn _ _ _ _ Hs)), negb_involutive in Hp.
  apply bool_decide_eq_true in Hp. pose proof (backlog_ok _ (su_conn _ _ _ _ Hs)) as Hb. rewrite Hp in Hb.
  simpl in Hb. destruct Hend as [Hend|]; [|lia].
  destruct (push_tx_ok k ring h s (wire.bytes_of (heartbeat_frame now (head ring))) (next_seq s) Hs)
    as (H1 & H2 & H3 & H4); [unfold tx_fits in Hfit; rewrite beat_size; lia|apply Hs|].
  rewrite beat_size in H3, H4. exists [IBeat now (head ring)]. unfold control.
  split_and!; [destruct H1; by split|rewrite stream_bytes_one; exact H2| |by apply Forall_singleton|done|simpl in *; lia|done|simpl in *; lia].
  cbn [follow follow_one]. unfold head. rewrite (ro_head _ _ _ (su_ring _ _ _ _ Hs)), Hend.
  destruct (Z.eqb_spec (Z.of_nat (length h)) (Z.of_nat (length h) + 1 - 1)); [|lia]. simpl. by rewrite Hend.
Qed.

(** ** The whole refill *)

(** The heartbeat clock starts at the first pump. *)
Definition start_clock (now : Z) (s : Subscriber) : Subscriber := if last_tx_ns s =? 0 then set_last_tx now s else s.

Lemma start_clock_ok k ring h now s : sub_ok k ring h s →
  sub_ok k ring h (start_clock now s) ∧ conn (start_clock now s) = conn s ∧
  next_seq (start_clock now s) = next_seq s ∧ subscribed (start_clock now s) = subscribed s.
Proof. intros Hs. unfold start_clock. destruct (_ =? 0); split_and!; try done. by apply set_last_tx_ok. Qed.

(** Up to the heartbeat: the gap and the frames. *)
Lemma refill_copied cfg k ring h now s :
  sub_ok k ring h s → subscribed s = true → 0 < max_backlog cfg →
  Z.of_nat (length (tx (conn s))) + 64 * (Z.of_nat (length h) + 2) < 2 ^ 63 →
  ∃ s2 l, copy_frames (S (Z.to_nat (head ring - next_seq (skip_lost cfg ring now (start_clock now s)) + 1))) ring
      (max_backlog cfg) now (skip_lost cfg ring now (start_clock now s)) = Some s2 ∧
    refill cfg ring now s = Some (beat cfg ring now s2) ∧ sub_ok k ring h s2 ∧ tx_fits s2 ∧
    unsent (conn s2) = unsent (conn s) ++ stream_bytes h l ∧ follow (next_seq s) l = Some (next_seq s2) ∧
    Forall beatless l ∧ subscribed s2 = true ∧
    backlog (conn s2) < Z.max (backlog (conn s) + 1) (max_backlog cfg + 64) ∧
    (next_seq s2 = Z.of_nat (length h) + 1 ∨ max_backlog cfg ≤ backlog (conn s2)).
Proof.
  intros Hs Hsub Hmax Htx. unfold refill. fold (start_clock now s).
  destruct (start_clock_ok k ring h now s Hs) as (Hs0 & Ec & En & Esub). set (s0 := start_clock now s) in *.
  rewrite Esub, Hsub. destruct (skip_lost_ok cfg k ring h now s0 Hs0) as (l1 & H1 & U1 & F1 & M1 & O1 & N1 & B1 & T1 & S1).
  { unfold tx_fits. rewrite Ec. lia. }
  set (s1 := skip_lost cfg ring now s0) in *. rewrite Ec, En in *.
  pose proof (su_next _ _ _ _ H1) as Hn1. pose proof (su_next _ _ _ _ Hs) as Hn.
  assert (head ring = Z.of_nat (length h)) as Ehd by (apply (ro_head _ _ _ (su_ring _ _ _ _ Hs))).
  destruct (copy_frames_ok (S (Z.to_nat (head ring - next_seq s1 + 1))) k ring h (max_backlog cfg) now s1 H1)
    as (s2 & l2 & E2 & H2 & U2 & F2 & M2 & T2 & B2 & End2 & S2); [tauto|rewrite Ehd; lia|lia|].
  rewrite E2. pose proof (su_next _ _ _ _ H2) as Hn2.
  exists s2, (l1 ++ l2). split_and!; [done|done|done|unfold tx_fits; lia|..|lia|done].
  - by rewrite U2, U1, stream_bytes_app, app_assoc.
  - by rewrite follow_app, F1.
  - apply Forall_app. split; [done|]. apply Forall_forall. by intros i (seq & ->)%M2.
  - by rewrite S2, S1, Esub.
Qed.

Lemma beatless_timed now i : beatless i → timed now i.
Proof. by destruct i. Qed.

Lemma refill_ok cfg k ring h now s :
  sub_ok k ring h s → subscribed s = true → 0 < max_backlog cfg →
  Z.of_nat (length (tx (conn s))) + 64 * (Z.of_nat (length h) + 2) < 2 ^ 63 →
  ∃ s' l, refill cfg ring now s = Some s' ∧ sub_ok k ring h s' ∧
    unsent (conn s') = unsent (conn s) ++ stream_bytes h l ∧ follow (next_seq s) l = Some (next_seq s') ∧
    Forall (timed now) l ∧ subscribed s' = true ∧
    backlog (conn s') < Z.max (backlog (conn s) + 1) (max_backlog cfg + 64) ∧
    (next_seq s' = Z.of_nat (length h) + 1 ∨ max_backlog cfg ≤ backlog (conn s')).
Proof.
  intros Hs Hsub Hmax Htx.
  destruct (refill_copied cfg k ring h now s Hs Hsub Hmax Htx) as (s2 & l & _ & -> & H2 & T2 & U2 & F2 & M2 & S2 & B2 & End2).
  destruct (beat_ok cfg k ring h now s2 H2 T2) as (l3 & H3 & U3 & F3 & M3 & E3 & B3 & S3 & G3); [destruct End2; [by left|right; lia]|].
  exists (beat cfg ring now s2), (l ++ l3). split_and!; [done|done|..].
  - by rewrite U3, U2, stream_bytes_app, app_assoc.
  - by rewrite follow_app, F2.
  - apply Forall_app. split; [|done]. eapply Forall_impl; [exact M2|apply beatless_timed].
  - by rewrite S3.
  - lia.
  - rewrite E3. destruct End2; [by left|right; lia].
Qed.

(** What [pump] does after the refill. *)
Lemma pump_shape cfg ring now os s s1 c' out ok os' :
  refill cfg ring now s = Some s1 → flush os (conn s1) = Some (c', out, ok, os') →
  ∃ s' keep arm, pump cfg ring now os s = Some (s', out, keep, arm) ∧
    same_tx c' (conn s') ∧ next_seq s' = next_seq s1 ∧ subscribed s' = subscribed s1.
Proof.
  intros E1 E. unfold pump. rewrite E1. cbn [mbind option_bind]. unfold flush_and_arm. rewrite E.
  cbn [mbind option_bind]. destruct ok; [|by eexists _, _, _].
  destruct (Bool.eqb (pending c') (want_write c')); cbn [mbind option_bind negb];
    (destruct (_ && _); [destruct (stalled_since_ns _ =? 0), (_ <=? _)|]); by eexists _, _, _.
Qed.
