(* ===== verification/NetTheorems.v ===== *)
(** The theorems about connection output and the market-data publisher. *)
From S2P Require Import Prelude Protocol Ring Net Publisher Stream WireTheorems.

(** ** Connection output *)

(** [flush] returns once the kernel has refused a write, and loses, repeats
    and reorders nothing: the bytes handed to the kernel followed by the bytes
    still buffered are the bytes buffered before, also when the buffer is
    compacted, and on failure. *)
Theorem flush_sends_prefix (os : list WriteResult) (c : Conn) :
  conn_ok c → answers_ok os (Z.of_nat (length (unsent c))) →
  (∃ r, r ∈ os ∧ (r = Again ∨ r = Failed)) →
  ∃ c' out ok os', flush os c = Some (c', out, ok, os') ∧ conn_ok c' ∧
    out ++ unsent c' = unsent c ∧ out_seq c' = out_seq c ∧ rx c' = rx c.
Proof.
  intros Hc Ha Hr. destruct (flush_total os c Hc Ha Hr) as ([[[c' out] ok] os'] & E).
  destruct (flush_ok _ _ _ _ _ _ Hc Ha E) as (H1 & H2 & _ & H4 & H5 & _). by exists c', out, ok, os'.
Qed.

(** [flush_and_arm] keeps the poller informed: after it succeeds the write
    interest is on exactly when bytes are still buffered, and it calls
    [set_writable] exactly when that changes. *)
Theorem arm_tracks_pending (os : list WriteResult) (c c' : Conn) (out : list Z) (os' : list WriteResult)
    (call : option (Z * bool)) :
  conn_ok c → answers_ok os (Z.of_nat (length (unsent c))) →
  flush_and_arm os c = Some (c', out, true, os', call) →
  want_write c' = pending c' ∧ (want_write c' = true ↔ unsent c' ≠ []) ∧
  call = (if bool_decide (want_write c' = want_write c) then None else Some (fd c, want_write c')) ∧
  out ++ unsent c' = unsent c.
Proof.
  intros Hc Ha E. unfold flush_and_arm in E. apply bind_Some in E as ([[[c1 out1] ok1] os1] & E1 & E).
  destruct (flush_ok _ _ _ _ _ _ Hc Ha E1) as (H1 & H2 & H3 & _ & _ & H6). destruct ok1; [|by simplify_eq].
  pose proof (pending_ok c1 H1) as Hp. destruct (Bool.eqb (pending c1) (want_write c1)) eqn:Eb; simplify_eq.
  - apply eqb_prop in Eb. split_and!; [by symmetry| | |done].
    + rewrite <- Eb, Hp, negb_true_iff. apply bool_decide_eq_false.
    + by rewrite bool_decide_true.
  - apply eqb_false_iff in Eb. simpl. split_and!; [done| | |done].
    + rewrite Hp, negb_true_iff. apply bool_decide_eq_false.
    + rewrite bool_decide_false by congruence. by rewrite H6.
Qed.

(** ** The market-data stream *)

(** A published history of three frames and a subscriber from sequence 1. *)
Definition demo_frames : list MdFrame :=
  [MdTop (wire.make wire.Top 0); MdTrade (wire.make wire.Trade 0); MdTop (wire.make wire.Top 0)].
Definition demo_ring : ReplayRing := default (Ring_init 1) (append_all (Ring_init 1) demo_frames).
Definition demo_sub : Subscriber := mkSub (Conn_init 5) true 1 0 0.
Definition demo_cfg : PubConfig := mkPubConfig 1000 1 1000 10000.

Lemma demo_sub_ok : sub_ok 1 demo_ring (stamp_all 1 demo_frames) demo_sub.
Proof.
  destruct (append_all_ok 1 (Ring_init 1) [] demo_frames) as (r & E & H).
  - apply Ring_init_ok. lia.
  - do 3 (apply Forall_cons_2; [split; [first [apply (make_valid wire.Top 0)|apply (make_valid wire.Trade 0)]; lia|split; reflexivity]|]).
    apply Forall_nil_2.
  - simpl. lia.
  - split; [|apply Conn_init_ok|vm_compute; split; discriminate|vm_compute; reflexivity].
    unfold demo_ring. rewrite E. exact H.
Qed.

(** The stream of a subscriber never skips silently: every [pump] appends
    frames, gaps and heartbeats that continue exactly where its cursor stands
    (each frame the one published under the next sequence number, each gap
    naming exactly the frames it skips, each heartbeat sent only when nothing is
    missing up to the head it names), sends a prefix of the buffer, and leaves the cursor at the end of what it appended. *)
Theorem pump_gapless (cfg : PubConfig) (k : Z) (ring : ReplayRing) (h : list (list Z)) (now : Z)
    (os : list WriteResult) (s s1 : Subscriber) :
  sub_ok k ring h s → subscribed s = true → 0 < max_backlog cfg →
  Z.of_nat (length (tx (conn s))) + 64 * (Z.of_nat (length h) + 2) < 2 ^ 63 →
  refill cfg ring now s = Some s1 → answers_ok os (Z.of_nat (length (unsent (conn s1)))) →
  (∃ r, r ∈ os ∧ (r = Again ∨ r = Failed)) →
  ∃ s' out keep arm l, pump cfg ring now os s = Some (s', out, keep, arm) ∧
    out ++ unsent (conn s') = unsent (conn s) ++ stream_bytes h l ∧
    follow (next_seq s) l = Some (next_seq s') ∧ sub_ok k ring h s'.
Proof.
  intros Hs Hsub Hmax Htx E1 Ha Hr.
  destruct (refill_ok cfg k ring h now s Hs Hsub Hmax Htx) as (s1' & l & E1' & H1 & U1 & F1 & _).
  rewrite E1 in E1'. inv_some. rename s1' into s1.
  destruct (flush_total os (conn s1) (su_conn _ _ _ _ H1) Ha Hr) as ([[[c' out] ok] os'] & E).
  destruct (flush_ok _ _ _ _ _ _ (su_conn _ _ _ _ H1) Ha E) as (K1 & K2 & _).
  destruct (pump_shape cfg ring now os s s1 c' out ok os' E1 E) as (s' & keep & arm & Ep & Ec & En & _).
  exists s', out, keep, arm, l. split_and!; [done| | |].
  - rewrite (unsent_ext _ _ Ec), <- K2. exact U1.
  - by rewrite En.
  - destruct H1. split; [done| |by rewrite En|done]. by eapply conn_ok_ext.
Qed.

(** A subscriber's buffer is bounded and it is not starved: a [pump] leaves
    less than [max_backlog + 64] bytes buffered (or no more than before), and
    stops short of the newest frame only at the backlog limit. *)
Theorem refill_bounded (cfg : PubConfig) (k : Z) (ring : ReplayRing) (h : list (list Z)) (now : Z) (s : Subscriber) :
  sub_ok k ring h s → subscribed s = true → 0 < max_backlog cfg →
  Z.of_nat (length (tx (conn s))) + 64 * (Z.of_nat (length h) + 2) < 2 ^ 63 →
  ∃ s', refill cfg ring now s = Some s' ∧
    (backlog (conn s') < max_backlog cfg + 64 ∨ backlog (conn s') ≤ backlog (conn s)) ∧
    (next_seq s' = head ring + 1 ∨ max_backlog cfg ≤ backlog (conn s')).
Proof.
  intros Hs Hsub Hmax Htx.
  destruct (refill_ok cfg k ring h now s Hs Hsub Hmax Htx) as (s' & l & E & _ & _ & _ & _ & _ & Hb & He).
  exists s'. unfold head. rewrite (ro_head _ _ _ (su_ring _ _ _ _ Hs)). split_and!; [done|lia|done].
Qed.

(** The limit is checked before each frame, so a single frame can pass it: with
    a limit of 10 bytes the first [Top] frame leaves 40 buffered. *)
Example backlog_overshoots :
  (backlog ∘ conn) <$> refill (mkPubConfig 10 1 1000 10000) demo_ring 7 (set_next_seq 3 demo_sub) = Some 40.
Proof. vm_compute. reflexivity. Qed.
