(* ===== verification/Gateway.v ===== *)
(** [include/matchbox/server.hpp] and [src/server.cpp]: the TCP gateway's own
    logic: decoding a session's byte stream into commands, and turning engine
    events into frames for sessions and for the market-data publisher.

    [to_engine_] is the list of submitted commands (the queue is a FIFO); what
    [try_push] answers while [submit] spins is an argument. *)
From S2P Require Import Prelude Types Engine Poller Calls Protocol Ring Net Publisher.

Record Session := mkSession { s_conn : Conn; s_id : Z; expect_seq : Z; s_dirty : bool }.

Definition set_sconn (c : Conn) (s : Session) : Session := mkSession c (s_id s) (expect_seq s) (s_dirty s).
Definition set_expect (v : Z) (s : Session) : Session := mkSession (s_conn s) (s_id s) v (s_dirty s).
Definition set_sdirty (v : bool) (s : Session) : Session := mkSession (s_conn s) (s_id s) (expect_seq s) v.

(** [Server::send]: queue the frame and note the session in [dirty_] once. *)
Definition send {M} `{wire.Wire M} (m : M) (s : Session) (dirty : list Z) : Session * list Z :=
  let s := set_sconn (queue m (s_conn s)) s in
  if s_dirty s then (s, dirty) else (set_sdirty true s, dirty ++ [s_id s]).

(** ** Decoding *)

(** [static_cast] to an enumeration followed by the range check [<= 1]. *)
Definition Side_of (b : Z) : option Side := if b =? 0 then Some Buy else if b =? 1 then Some Sell else None.
Definition OrderType_of (b : Z) : option OrderType :=
  if b =? 0 then Some Limit else if b =? 1 then Some Market else None.
Definition Tif_of (b : Z) : option Tif := if b =? 0 then Some GTC else if b =? 1 then Some IOC else None.

(** The command of one frame, [None] when [ok] is false; the tag is reported either way. *)
Definition new_command (sid : Z) (m : wire.NewOrder) : Z * option Command :=
  (wire.no_tag m,
   side ← Side_of (wire.no_side m);
   type ← OrderType_of (wire.no_type m);
   tif ← Tif_of (wire.no_tif m);
   Some (mkCommand CmdNew side type tif (wire.no_symbol m) sid (wire.no_tag m) 0 (wire.no_price m)
     (wire.no_qty m))).

Definition cancel_command (sid : Z) (m : wire.CancelOrder) : Z * option Command :=
  (wire.co_tag m,
   Some (mkCommand CmdCancel Buy Limit GTC 0 sid (wire.co_tag m) (wire.co_order_id m) 0 0)).

Definition replace_command (sid : Z) (m : wire.ReplaceOrder) : Z * option Command :=
  (wire.ro_tag m,
   Some (mkCommand CmdReplace Buy Limit GTC 0 sid (wire.ro_tag m) (wire.ro_order_id m)
     (wire.ro_price m) (wire.ro_qty m))).

(** The [switch] of [parse_frames] on the frame at [p]. *)
Definition decode (sid : Z) (type : Z) (p : list Z) : option (Z * option Command) :=
  match wire.MsgType_of type with
  | Some wire.MsgNewOrder => new_command sid <$> wire.read wire.NewOrder p
  | Some wire.MsgCancelOrder => cancel_command sid <$> wire.read wire.CancelOrder p
  | Some wire.MsgReplaceOrder => replace_command sid <$> wire.read wire.ReplaceOrder p
  | _ => Some (0, None)
  end.

(** The [Reject] frames [parse_frames] answers with. *)
Definition reject_frame (tag : Z) (r : RejectReason) : wire.Reject :=
  wire.mkReject (wire.hdr (wire.make wire.Reject 0)) tag (RejectReason_val r) (replicate 7 0).

(** [Server::submit]: spin until [try_push] succeeds; [tries] are its answers,
    and [None] means that the loop is still spinning when they are used up. *)
Fixpoint submit (tries : list bool) (c : Command) (cmds : list Command) : option (list Command) :=
  match tries with
  | [] => None
  | true :: _ => Some (cmds ++ [c])
  | false :: tries => submit tries c cmds
  end.

(** The loop of [parse_frames] at offset [off] of [rx]: the result ([false]
    closes the session), the final offset, the session, [dirty_] and the
    commands submitted; [push i] are the answers of [try_push] to the [i]-th
    command ever submitted. *)
Fixpoint parse_loop (push : nat → list bool) (fuel : nat) (off : Z) (s : Session) (dirty : list Z) (cmds : list Command) :
    option (bool * Z * Session * list Z * list Command) :=
  match fuel with
  | O => None
  | S fuel =>
      let p := drop (Z.to_nat off) (rx (s_conn s)) in
      let left := u64 (Z.of_nat (length (rx (s_conn s))) - off) in
      if 8 <=? left then
        h ← wire.read_header p;
        if negb (wire.version h =? wire.kVersion) || (wire.len h =? 0)
           || negb (wire.len h =? wire.size_for (wire.type h))
        then Some (false, off, s, dirty, cmds) else
        if left <? wire.len h then Some (true, off, s, dirty, cmds) else
        let off := off + wire.len h in
        if negb (wire.seq h =? expect_seq s) then
          let '(s, dirty) := send (reject_frame 0 BadSeq) s dirty in
          Some (false, off, s, dirty, cmds)
        else
          let s := set_expect (u32 (expect_seq s + 1)) s in
          '(tag, c) ← decode (s_id s) (wire.type h) p;
          match c with
          | None =>
              let '(s, dirty) := send (reject_frame tag BadMessage) s dirty in
              parse_loop push fuel off s dirty cmds
          | Some c =>
              cmds ← submit (push (length cmds)) c cmds;
              parse_loop push fuel off s dirty cmds
          end
      else Some (true, off, s, dirty, cmds)
  end.

(** [Server::parse_frames] *)
Definition parse_frames (push : nat → list bool) (s : Session) (dirty : list Z) (cmds : list Command) :
    option (bool * Session * list Z * list Command) :=
  '(ok, off, s, dirty, cmds) ← parse_loop push (S (length (rx (s_conn s)))) 0 s dirty cmds;
  if (ok : bool) then
    Some (true, set_sconn (set_rx (drop (Z.to_nat off) (rx (s_conn s))) (s_conn s)) s, dirty, cmds)
  else Some (false, s, dirty, cmds).

(** ** Events to frames *)
(** What a descriptor belongs to ([Server::Kind]). *)
Inductive Kind := KNone | KListen | KMdListen | KSession | KSubscriber.

Record Server := mkServer {
  sv_max_backlog : Z; to_engine_ : list Command; publisher_ : Publisher;
  sessions_ : gmap Z Session; kind_by_fd_ : list Kind; sid_by_fd_ : list Z; sv_dirty : list Z;
  next_sid_ : Z }.

Definition set_publisher (p : Publisher) (sv : Server) : Server :=
  mkServer (sv_max_backlog sv) (to_engine_ sv) p (sessions_ sv) (kind_by_fd_ sv) (sid_by_fd_ sv)
    (sv_dirty sv) (next_sid_ sv).
Definition sv_call (cs : list Syscall) (sv : Server) : Server := set_publisher (call cs (publisher_ sv)) sv.
Definition set_sessions (m : gmap Z Session) (sv : Server) : Server :=
  mkServer (sv_max_backlog sv) (to_engine_ sv) (publisher_ sv) m (kind_by_fd_ sv) (sid_by_fd_ sv)
    (sv_dirty sv) (next_sid_ sv).
Definition set_dirty_list (d : list Z) (sv : Server) : Server :=
  mkServer (sv_max_backlog sv) (to_engine_ sv) (publisher_ sv) (sessions_ sv) (kind_by_fd_ sv)
    (sid_by_fd_ sv) d (next_sid_ sv).
Definition set_to_engine (cs : list Command) (sv : Server) : Server :=
  mkServer (sv_max_backlog sv) cs (publisher_ sv) (sessions_ sv) (kind_by_fd_ sv) (sid_by_fd_ sv)
    (sv_dirty sv) (next_sid_ sv).

Definition trade_frame (e : Event) : wire.Trade :=
  wire.mkTrade (wire.hdr (wire.make wire.Trade 0)) (e_symbol e) (idx (e_side e)) (replicate 5 0)
    (e_price e) (e_qty e) 0 (e_ts_ns e).
Definition top_frame (e : Event) : wire.Top :=
  wire.mkTop (wire.hdr (wire.make wire.Top 0)) (e_symbol e) (replicate 6 0) (t_bid (e_top e))
    (t_ask (e_top e)) (t_bid_qty (e_top e)) (t_ask_qty (e_top e)).
Definition ack_frame (e : Event) : wire.Ack :=
  wire.mkAck (wire.hdr (wire.make wire.Ack 0)) (e_tag e) (e_order_id e).
Definition fill_frame (e : Event) : wire.Fill :=
  wire.mkFill (wire.hdr (wire.make wire.Fill 0)) (e_order_id e) (e_price e) (e_qty e) (e_remaining e)
    (if e_maker e then 1 else 0) (replicate 7 0).
Definition cancelled_frame (e : Event) : wire.Cancelled :=
  wire.mkCancelled (wire.hdr (wire.make wire.Cancelled 0)) (e_order_id e) (e_remaining e) 0.
Definition replaced_frame (e : Event) : wire.Replaced :=
  wire.mkReplaced (wire.hdr (wire.make wire.Replaced 0)) (e_order_id e) (e_price e) (e_qty e) 0.

(** The private frame of an event, sent to session [s]. *)
Definition answer (e : Event) (s : Session) (dirty : list Z) : Session * list Z :=
  match e_kind e with
  | EvAccepted => send (ack_frame e) s dirty
  | EvRejected => send (reject_frame (e_tag e) (e_reason e)) s dirty
  | EvFill => send (fill_frame e) s dirty
  | EvCancelled => send (cancelled_frame e) s dirty
  | EvReplaced => send (replaced_frame e) s dirty
  | EvTrade | EvTop => (s, dirty)
  end.

(** [Server::on_event] *)
Definition server_on_event (e : Event) (sv : Server) : option Server :=
  match e_kind e with
  | EvTrade => p ← publish (trade_frame e) (publisher_ sv); Some (set_publisher p sv)
  | EvTop => p ← publish (top_frame e) (publisher_ sv); Some (set_publisher p sv)
  | _ =>
      match sessions_ sv !! e_session e with
      | None => Some sv
      | Some s =>
          let '(s, dirty) := answer e s (sv_dirty sv) in
          Some (set_dirty_list dirty (set_sessions (<[e_session e := s]> (sessions_ sv)) sv))
      end
  end.

(** [Server::drain_engine]: the events popped from the engine's queue, in order. *)
Fixpoint drain_engine (evs : list Event) (sv : Server) : option (Server * bool) :=
  match evs with
  | [] => Some (sv, false)
  | e :: evs =>
      sv ← server_on_event e sv;
      '(sv, _) ← drain_engine evs sv;
      Some (sv, true)
  end.
