(* ===== verification/Parse.v ===== *)
(** The gateway's parser as a function of the unread bytes alone: [classify]
    looks at the first frame, [consume] iterates it.  [parse_frames] returns
    exactly if the queue takes every command it submits ([parse_frames_exactly]),
    and then computes [consume]; it does not depend on how the stream is cut into
    reads, and submits only well-formed commands. *)
From S2P Require Import Prelude Types Engine Process Settle Protocol Ring Net Publisher Gateway.

(** ** The first frame of the unread bytes *)
Inductive outcome := Wait | Malformed | WrongSeq (n : Z) | Frame (n : Z) (tag : Z) (c : option Command).

Definition classify (expect sid : Z) (p : list Z) : outcome :=
  match wire.read_header p with
  | None => Wait
  | Some h =>
      if negb (wire.version h =? wire.kVersion) || (wire.len h =? 0)
         || negb (wire.len h =? wire.size_for (wire.type h)) then Malformed
      else if Z.of_nat (length p) <? wire.len h then Wait
      else if negb (wire.seq h =? expect) then WrongSeq (wire.len h)
      else match decode sid (wire.type h) p with
           | Some (tag, c) => Frame (wire.len h) tag c
           | None => Wait
           end
  end.

(** The parser's state besides the unread bytes. *)
Record PS := mkPS { ps_s : Session; ps_dirty : list Z; ps_cmds : list Command }.

(** A well-formed frame at the front: count it, then submit or refuse it. *)
Definition accept (tag : Z) (c : option Command) (st : PS) : PS :=
  let s := set_expect (u32 (expect_seq (ps_s st) + 1)) (ps_s st) in
  match c with
  | Some c => mkPS s (ps_dirty st) (ps_cmds st ++ [c])
  | None =>
      let '(s, dirty) := send (reject_frame tag BadMessage) s (ps_dirty st) in
      mkPS s dirty (ps_cmds st)
  end.

Definition refuse (st : PS) : PS :=
  let '(s, dirty) := send (reject_frame 0 BadSeq) (ps_s st) (ps_dirty st) in mkPS s dirty (ps_cmds st).

Fixpoint consume (fuel : nat) (p : list Z) (st : PS) : option (bool * list Z * PS) :=
  match fuel with
  | O => None
  | S fuel =>
      match classify (expect_seq (ps_s st)) (s_id (ps_s st)) p with
      | Wait => Some (true, p, st)
      | Malformed => Some (false, p, st)
      | WrongSeq n => Some (false, drop (Z.to_nat n) p, refuse st)
      | Frame n tag c => consume fuel (drop (Z.to_nat n) p) (accept tag c st)
      end
  end.

(** ** Frames are as long as their header says *)
Lemma read_header_Some p h : wire.read_header p = Some h → (8 ≤ length p)%nat.
Proof. unfold wire.read_header. destruct (Z.ltb_spec (Z.of_nat (length p)) 8); [done|]. lia. Qed.

Lemma size_for_range t : 0 ≤ wire.size_for t ≤ 64.
Proof. unfold wire.size_for. destruct (wire.MsgType_of t) as [[]|]; vm_compute; split; discriminate. Qed.

Lemma read_enough (M : Type) `{W : wire.Wire M} p :
  wire.sizeof M ≤ Z.of_nat (length p) → wire.read M p = Some (f_dec wire.w_format p).
Proof. intros H. unfold wire.read. destruct (Z.ltb_spec (Z.of_nat (length p)) (wire.sizeof M)); [lia|done]. Qed.

Lemma decode_enough sid t p :
  wire.size_for t ≤ Z.of_nat (length p) → ∃ tag c, decode sid t p = Some (tag, c).
Proof.
  unfold wire.size_for, decode. destruct (wire.MsgType_of t) as [[]|]; intros H; try (by eexists _, _).
  all: rewrite read_enough by done; by eexists _, _.
Qed.

(** What [classify] says when it finds a whole frame. *)
Lemma classify_spec expect sid p :
  match classify expect sid p with
  | Wait => True
  | Malformed => (8 ≤ length p)%nat
  | WrongSeq n => 0 < n ≤ Z.of_nat (length p)
  | Frame n tag c => 0 < n ≤ Z.of_nat (length p)
  end.
Proof.
  unfold classify. destruct (wire.read_header p) as [h|] eqn:Eh; [|done].
  apply read_header_Some in Eh. destruct (_ || _ || _) eqn:Eg; [done|].
  apply orb_false_iff in Eg as [[_ E0%Z.eqb_neq]%orb_false_iff E1%negb_false_iff%Z.eqb_eq].
  pose proof (size_for_range (wire.type h)) as Hr. rewrite <- E1 in Hr.
  destruct (Z.ltb_spec (Z.of_nat (length p)) (wire.len h)); [done|].
  destruct (negb _); [lia|]. destruct (decode _ _ _) as [[tag c]|]; [lia|done].
Qed.

(** Reading the front of a longer buffer gives the same message. *)
Lemma f_dec_app {A} (f : format A) p b :
  format_ok f → Forall byte p → (f_size f ≤ length p)%nat → f_dec f (p ++ b) = f_dec f p.
Proof.
  intros Hf Hb Hl. pose proof (fo_enc_dec _ Hf p Hb Hl) as E. pose proof (fo_valid _ Hf p Hb Hl) as V.
  rewrite <- (take_drop (f_size f) p) at 1. rewrite <- app_assoc, <- E. by apply fo_dec_enc.
Qed.

Lemma read_app (M : Type) `{WK : wire.WireOk M} p b :
  Forall byte p → wire.sizeof M ≤ Z.of_nat (length p) → wire.read M (p ++ b) = wire.read M p.
Proof.
  intros Hb Hl. rewrite !read_enough by (rewrite ?length_app; lia). f_equal.
  apply f_dec_app; [apply wire.wk_format|done|]. unfold wire.sizeof in Hl. lia.
Qed.

Lemma decode_app sid t p b :
  Forall byte p → wire.size_for t ≤ Z.of_nat (length p) → decode sid t (p ++ b) = decode sid t p.
Proof.
  unfold wire.size_for, decode. destruct (wire.MsgType_of t) as [[]|]; intros Hb H; try done.
  all: rewrite (read_app _ p b); done.
Qed.

(** A verdict is final: more bytes behind the frame do not change it. *)
Lemma classify_app expect sid p b :
  Forall byte p → classify expect sid p ≠ Wait → classify expect sid (p ++ b) = classify expect sid p.
Proof.
  intros Hb. unfold classify. destruct (wire.read_header p) as [h|] eqn:Eh; [|done].
  assert (wire.read_header (p ++ b) = Some h) as ->.
  { pose proof (read_header_Some _ _ Eh). unfold wire.read_header in *. rewrite length_app.
    destruct (Z.ltb_spec (Z.of_nat (length p)) 8); [done|]. destruct (Z.ltb_spec (Z.of_nat (length p + length b)) 8); [lia|].
    rewrite <- Eh. f_equal. by apply f_dec_app; [apply wire.Header_ok| |]. }
  destruct (_ || _ || _) eqn:Eg; [done|]. rewrite length_app.
  apply orb_false_iff in Eg as [_ E1%negb_false_iff%Z.eqb_eq].
  destruct (Z.ltb_spec (Z.of_nat (length p)) (wire.len h)); [done|].
  destruct (Z.ltb_spec (Z.of_nat (length p + length b)) (wire.len h)); [lia|].
  destruct (negb _); [done|]. by rewrite decode_app by (done || lia).
Qed.

Lemma consume_S fuel p st : consume (S fuel) p st =
  match classify (expect_seq (ps_s st)) (s_id (ps_s st)) p with
  | Wait => Some (true, p, st)
  | Malformed => Some (false, p, st)
  | WrongSeq n => Some (false, drop (Z.to_nat n) p, refuse st)
  | Frame n tag c => consume fuel (drop (Z.to_nat n) p) (accept tag c st)
  end.
Proof. done. Qed.

(** ** [consume] terminates and does not depend on its fuel *)
Lemma consume_total fuel p st : (length p < fuel)%nat → is_Some (consume fuel p st).
Proof.
  revert p st. induction fuel as [|fuel IH]; intros p st Hf; [lia|]. cbn [consume].
  pose proof (classify_spec (expect_seq (ps_s st)) (s_id (ps_s st)) p) as Hc.
  destruct (classify _ _ p); eauto. apply IH. rewrite length_drop. lia.
Qed.

Lemma consume_fuel fuel fuel' p st r :
  consume fuel p st = Some r → (fuel ≤ fuel')%nat → consume fuel' p st = Some r.
Proof.
  revert fuel' p st. induction fuel as [|fuel IH]; intros fuel' p st E Hf; [done|].
  destruct fuel' as [|fuel']; [lia|]. cbn [consume] in *. destruct (classify _ _ p); try done.
  apply IH; [done|lia].
Qed.

Lemma consume_shorter fuel p st ok p1 st1 :
  consume fuel p st = Some (ok, p1, st1) → (length p1 ≤ length p)%nat.
Proof.
  revert p st. induction fuel as [|fuel IH]; intros p st E; [done|]. cbn [consume] in E.
  destruct (classify _ _ p); simplify_eq; try done; [rewrite length_drop; lia|].
  apply IH in E. rewrite length_drop in E. lia.
Qed.

(** ** Cutting the stream differently changes nothing *)
Lemma consume_app fuel fuel' p b st p1 st1 :
  Forall byte p → consume fuel p st = Some (true, p1, st1) → (length (p ++ b) < fuel')%nat →
  consume fuel' (p ++ b) st = consume fuel' (p1 ++ b) st1.
Proof.
  revert fuel' p st. induction fuel as [|fuel IH]; intros fuel' p st Hb E Hf; [done|]. cbn [consume] in E.
  pose proof (classify_spec (expect_seq (ps_s st)) (s_id (ps_s st)) p) as Hc.
  destruct (classify _ _ p) as [| | |n tag c] eqn:Ec; try done; [by simplify_eq|].
  destruct fuel' as [|fuel']; [lia|]. rewrite (consume_S fuel' (p ++ b)). rewrite classify_app, Ec by (done || congruence).
  rewrite drop_app_le by lia. rewrite length_app in Hf.
  assert (length (drop (Z.to_nat n) p ++ b) < fuel')%nat as Hl by (rewrite length_app, length_drop; lia).
  rewrite (IH fuel' _ _ ltac:(by apply Forall_drop) E Hl).
  destruct (consume_total fuel' (p1 ++ b) st1) as [r Er].
  { pose proof (consume_shorter _ _ _ _ _ _ E) as Hs. rewrite length_app, length_drop in *. lia. }
  by rewrite Er, (consume_fuel _ (S fuel') _ _ _ Er) by lia.
Qed.

(** ** Submitted commands are well formed *)
Lemma read_valid (M : Type) `{WK : wire.WireOk M} p m :
  Forall byte p → wire.read M p = Some m → wire.valid m.
Proof.
  unfold wire.read, wire.sizeof. intros Hb. destruct (Z.ltb_spec (Z.of_nat (length p)) (Z.of_nat (f_size (A := M) wire.w_format))); [done|].
  intros [= <-]. apply wire.wk_format; [done|lia].
Qed.

Lemma decode_command sid t p tag c :
  Forall byte p → decode sid t p = Some (tag, Some c) → command_ok c ∧ c_session c = sid.
Proof.
  intros Hb. unfold decode. destruct (wire.MsgType_of t) as [[]|]; try done.
  - intros (m & Em & E)%fmap_Some. apply (read_valid _ _ _ Hb) in Em. unfold new_command in E.
    injection E as _ E. symmetry in E.
    apply bind_Some in E as (? & _ & E). apply bind_Some in E as (? & _ & E). apply bind_Some in E as (? & _ & E).
    injection E as <-. unfold wire.valid in Em. cbn -[Z.pow] in Em. split; [split; simpl|done].
    + apply Em.
    + change (2 ^ 32) with (256 ^ Z.of_nat 4). apply Em.
  - intros (m & _ & E)%fmap_Some. injection E as _ ->. split; [split; simpl; lia|done].
  - intros (m & Em & E)%fmap_Some. apply (read_valid _ _ _ Hb) in Em. injection E as _ ->.
    unfold wire.valid in Em. cbn -[Z.pow] in Em. split; [split; simpl; [lia|]|done].
    change (2 ^ 32) with (256 ^ Z.of_nat 4). apply Em.
Qed.

Lemma decode_wide sid t p tag c : Forall byte p → decode sid t p = Some (tag, Some c) → command_wide c.
Proof.
  intros Hb. unfold decode. destruct (wire.MsgType_of t) as [[]|]; try done;
    intros (m & Em & E)%fmap_Some; apply (read_valid _ _ _ Hb) in Em; unfold wire.valid in Em; cbn -[Z.pow] in Em.
  - unfold new_command in E. injection E as _ E. symmetry in E.
    apply bind_Some in E as (? & _ & E). apply bind_Some in E as (? & _ & E). apply bind_Some in E as (? & _ & E).
    injection E as <-. split; simpl; lia.
  - injection E as _ ->. split; simpl; lia.
  - injection E as _ ->. split; simpl; lia.
Qed.

Lemma classify_command expect sid p n tag c :
  Forall byte p → classify expect sid p = Frame n tag (Some c) → (command_ok c ∧ c_session c = sid) ∧ command_wide c.
Proof.
  intros Hb. unfold classify. destruct (wire.read_header p); [|done]. destruct (_ || _ || _); [done|].
  destruct (_ <? _); [done|]. destruct (negb _); [done|].
  destruct (decode _ _ _) as [[tag' c']|] eqn:E; [|done]. intros [= _ _ ->]. split; [by eapply decode_command|by eapply decode_wide].
Qed.

Lemma send_session {M} `{wire.Wire M} (m : M) s dirty :
  s_id (fst (send m s dirty)) = s_id s ∧ rx (s_conn (fst (send m s dirty))) = rx (s_conn s) ∧
  expect_seq (fst (send m s dirty)) = expect_seq s.
Proof. unfold send. by destruct (s_dirty _). Qed.

Lemma accept_fields tag c st :
  s_id (ps_s (accept tag c st)) = s_id (ps_s st) ∧ rx (s_conn (ps_s (accept tag c st))) = rx (s_conn (ps_s st)) ∧
  expect_seq (ps_s (accept tag c st)) = u32 (expect_seq (ps_s st) + 1) ∧
  ps_cmds (accept tag c st) = ps_cmds st ++ (match c with Some c => [c] | None => [] end).
Proof.
  unfold accept. destruct c as [c|]; [done|]. rewrite app_nil_r.
  pose proof (send_session (reject_frame tag BadMessage) (set_expect (u32 (expect_seq (ps_s st) + 1)) (ps_s st)) (ps_dirty st)) as Hs.
  destruct (send _ _ _) as [s d]. simpl in *. destruct Hs as (-> & -> & ->). done.
Qed.

Lemma refuse_fields st :
  s_id (ps_s (refuse st)) = s_id (ps_s st) ∧ rx (s_conn (ps_s (refuse st))) = rx (s_conn (ps_s st)) ∧
  ps_cmds (refuse st) = ps_cmds st.
Proof.
  unfold refuse. pose proof (send_session (reject_frame 0 BadSeq) (ps_s st) (ps_dirty st)) as Hs.
  destruct (send _ _ _) as [s d]. simpl in *. by destruct Hs as (-> & -> & _).
Qed.

Lemma consume_cmds fuel p st ok p1 st1 :
  Forall byte p → consume fuel p st = Some (ok, p1, st1) →
  s_id (ps_s st1) = s_id (ps_s st) ∧ rx (s_conn (ps_s st1)) = rx (s_conn (ps_s st)) ∧
  ∃ new, ps_cmds st1 = ps_cmds st ++ new ∧
    Forall (λ c, command_ok c ∧ c_session c = s_id (ps_s st)) new.
Proof.
  revert p st. induction fuel as [|fuel IH]; intros p st Hb E; [done|]. cbn [consume] in E.
  destruct (classify _ _ p) as [| |n|n tag c] eqn:Ec; simplify_eq.
  - split_and!; try done. exists []. by rewrite app_nil_r.
  - split_and!; try done. exists []. by rewrite app_nil_r.
  - destruct (refuse_fields st) as (-> & -> & ->). split_and!; try done. exists []. by rewrite app_nil_r.
  - destruct (IH _ _ ltac:(by apply Forall_drop) E) as (H1 & H2 & new & H3 & H4).
    destruct (accept_fields tag c st) as (A1 & A2 & _ & A4). rewrite A1, A2, A4 in *. split_and!; try done.
    exists ((match c with Some c => [c] | None => [] end) ++ new). rewrite app_assoc. split; [done|].
    apply Forall_app. split; [|done]. destruct c as [c|]; [|done].
    apply Forall_singleton. by eapply classify_command in Ec as [? _].
Qed.

(** What is left over is the end of what was there. *)
Lemma consume_suffix fuel p st ok p1 st1 :
  consume fuel p st = Some (ok, p1, st1) →
  drop (Z.to_nat (Z.of_nat (length p) - Z.of_nat (length p1))) p = p1.
Proof.
  revert p st. induction fuel as [|fuel IH]; intros p st E; [done|]. cbn [consume] in E.
  assert (∀ q : list Z, drop (Z.to_nat (Z.of_nat (length q) - Z.of_nat (length q))) q = q) as Hid
    by (intros q; by rewrite Z.sub_diag).
  pose proof (classify_spec (expect_seq (ps_s st)) (s_id (ps_s st)) p) as Hc.
  destruct (classify _ _ p) as [| |n|n tag c]; simplify_eq; try apply Hid.
  - f_equal. rewrite length_drop. lia.
  - pose proof (consume_shorter _ _ _ _ _ _ E) as Hs. apply IH in E. rewrite drop_drop, length_drop in E.
    rewrite length_drop in Hs. rewrite <- E at 2. f_equal. lia.
Qed.

(** ** [submit] *)

(** Every command is taken in the end. *)
Definition accepting (push : nat → list bool) : Prop := ∀ i, true ∈ push i.

(** Every command is taken at once. *)
Definition at_once (_ : nat) : list bool := [true].

Lemma at_once_accepting : accepting at_once.
Proof. intros i. by left. Qed.

Lemma submit_takes tries c cmds : true ∈ tries → submit tries c cmds = Some (cmds ++ [c]).
Proof. induction tries as [|[] tries IH]; [by intros ?%elem_of_nil|done|]. intros [?|?]%elem_of_cons; [done|by apply IH]. Qed.

Lemma submit_taken tries c cmds cmds' : submit tries c cmds = Some cmds' → cmds' = cmds ++ [c].
Proof. induction tries as [|[] tries IH]; [done|by intros [= <-]|done]. Qed.

(** A queue that stays full holds it forever. *)
Lemma submit_spins tries c cmds : true ∉ tries → submit tries c cmds = None.
Proof. induction tries as [|[] tries IH]; [done|set_solver|]. intros H. apply IH. set_solver. Qed.

(** How long a command waits does not matter to what is parsed. *)
Lemma parse_loop_at_once push fuel off s dirty cmds r :
  parse_loop push fuel off s dirty cmds = Some r → parse_loop at_once fuel off s dirty cmds = Some r.
Proof.
  revert off s dirty cmds. induction fuel as [|fuel IH]; intros off s dirty cmds E; [done|]. cbn [parse_loop] in E |- *.
  destruct (_ <=? _); [|done]. destruct (wire.read_header _) as [h|]; [|done]. cbn [mbind option_bind] in E |- *.
  destruct (_ || _ || _); [done|]. destruct (_ <? _); [done|]. destruct (negb _); [done|].
  destruct (decode _ _ _) as [[tag [c|]]|]; cbn [mbind option_bind] in E |- *; [| |done].
  - apply bind_Some in E as (cmds1 & ->%submit_taken & E). simpl. by apply IH.
  - destruct (send _ _ _). by apply IH.
Qed.

Lemma parse_frames_at_once push s dirty cmds r :
  parse_frames push s dirty cmds = Some r → parse_frames at_once s dirty cmds = Some r.
Proof. unfold parse_frames. intros (x & Ex%parse_loop_at_once & E)%bind_Some. by rewrite Ex. Qed.

(** The commands of a parse that returned were all taken. *)
Lemma parse_loop_pushed push fuel off s dirty cmds ok off' s' dirty' cmds' :
  parse_loop push fuel off s dirty cmds = Some (ok, off', s', dirty', cmds') →
  (length cmds ≤ length cmds')%nat ∧ ∀ i, (length cmds ≤ i < length cmds')%nat → true ∈ push i.
Proof.
  revert off s dirty cmds. induction fuel as [|fuel IH]; intros off s dirty cmds E; [done|]. cbn [parse_loop] in E.
  destruct (_ <=? _); [|by simplify_eq; split; lia]. destruct (wire.read_header _) as [h|]; [|done]. cbn [mbind option_bind] in E.
  destruct (_ || _ || _); [by simplify_eq; split; lia|]. destruct (_ <? _); [by simplify_eq; split; lia|].
  destruct (negb _); [destruct (send _ _ _); simplify_eq; split; lia|].
  destruct (decode _ _ _) as [[tag [c|]]|]; cbn [mbind option_bind] in E; [| |done].
  - apply bind_Some in E as (cmds1 & Es & E). destruct (IH _ _ _ _ E) as [Hl Hp]. pose proof (submit_taken _ _ _ _ Es) as ->.
    rewrite length_app in Hl, Hp. simpl in Hl, Hp. split; [lia|]. intros i Hi.
    destruct (decide (i = length cmds)) as [->|]; [|apply Hp; lia].
    destruct (decide (true ∈ push (length cmds))) as [|Hn]; [done|]. by rewrite submit_spins in Es.
  - destruct (send _ _ _). by eapply IH.
Qed.

(** [parse_frames] hangs exactly when the queue never takes one of the commands. *)
Lemma parse_loop_pushes push fuel off s dirty cmds ok off' s' dirty' cmds' :
  parse_loop at_once fuel off s dirty cmds = Some (ok, off', s', dirty', cmds') →
  (∀ i, (length cmds ≤ i < length cmds')%nat → true ∈ push i) →
  parse_loop push fuel off s dirty cmds = Some (ok, off', s', dirty', cmds').
Proof.
  revert off s dirty cmds. induction fuel as [|fuel IH]; intros off s dirty cmds E Hp; [done|]. cbn [parse_loop] in E |- *.
  destruct (_ <=? _); [|done]. destruct (wire.read_header _) as [h|]; [|done]. cbn [mbind option_bind] in E |- *.
  destruct (_ || _ || _); [done|]. destruct (_ <? _); [done|]. destruct (negb _); [done|].
  destruct (decode _ _ _) as [[tag [c|]]|]; cbn [mbind option_bind] in E |- *; [| |done].
  - cbn [submit at_once mbind option_bind] in E. destruct (parse_loop_pushed _ _ _ _ _ _ _ _ _ _ _ E) as [Hl _].
    rewrite length_app in Hl. simpl in Hl. rewrite submit_takes by (apply Hp; lia). cbn [mbind option_bind].
    apply IH; [done|]. intros i Hi. apply Hp. rewrite length_app in Hi. lia.
  - destruct (send _ _ _). by apply IH.
Qed.

Lemma parse_frames_exactly push s dirty cmds r :
  parse_frames push s dirty cmds = Some r ↔
  parse_frames at_once s dirty cmds = Some r ∧ ∀ i, (length cmds ≤ i < length r.2)%nat → true ∈ push i.
Proof.
  unfold parse_frames. split.
  - intros ([[[[ok off] s'] d'] cmds'] & Ex & E)%bind_Some. destruct (parse_loop_pushed _ _ _ _ _ _ _ _ _ _ _ Ex) as [_ Hp].
    apply parse_loop_at_once in Ex. rewrite Ex. simpl. split; [done|]. by destruct ok; simplify_eq.
  - intros [([[[[ok off] s'] d'] cmds'] & Ex & E)%bind_Some Hp]. rewrite (parse_loop_pushes push _ _ _ _ _ _ _ _ _ _ Ex); [done|].
    by destruct ok; simplify_eq.
Qed.

(** ** [parse_frames] computes [consume] *)
Lemma parse_loop_consume push fuel R off s dirty cmds :
  accepting push → rx (s_conn s) = R → 0 ≤ off ≤ Z.of_nat (length R) → Z.of_nat (length R) < 2 ^ 63 →
  parse_loop push fuel off s dirty cmds =
  (λ '(ok, p, st), (ok, Z.of_nat (length R) - Z.of_nat (length p), ps_s st, ps_dirty st, ps_cmds st))
    <$> consume fuel (drop (Z.to_nat off) R) (mkPS s dirty cmds).
Proof.
  intros Hpush. revert off s dirty cmds. induction fuel as [|fuel IH]; intros off s dirty cmds HR Hoff HL; [done|].
  cbn [parse_loop consume]. rewrite HR, u64_small by lia. set (p := drop (Z.to_nat off) R).
  assert (Z.of_nat (length p) = Z.of_nat (length R) - off) as Hp by (unfold p; rewrite length_drop; lia).
  rewrite <- Hp. unfold classify. cbn [ps_s]. unfold wire.read_header.
  destruct (Z.leb_spec 8 (Z.of_nat (length p))) as [H8|H8]; cycle 1.
  { destruct (Z.ltb_spec (Z.of_nat (length p)) 8); [|lia]. simpl. rewrite Hp. do 6 f_equal. lia. }
  destruct (Z.ltb_spec (Z.of_nat (length p)) 8); [lia|]. cbn [mbind option_bind].
  set (h := f_dec wire.Header_format p). destruct (_ || _ || _) eqn:Eg.
  { simpl. rewrite Hp. do 6 f_equal. lia. }
  apply orb_false_iff in Eg as [[_ E0%Z.eqb_neq]%orb_false_iff E1%negb_false_iff%Z.eqb_eq].
  pose proof (size_for_range (wire.type h)) as Hr. rewrite <- E1 in Hr.
  destruct (Z.ltb_spec (Z.of_nat (length p)) (wire.len h)) as [Hlt|Hge].
  { simpl. rewrite Hp. do 6 f_equal. lia. }
  assert (Z.of_nat (length R) - Z.of_nat (length (drop (Z.to_nat (wire.len h)) p)) = off + wire.len h) as Hoff'
    by (rewrite length_drop; lia).
  destruct (negb (wire.seq h =? expect_seq s)).
  { unfold refuse. cbn [ps_s ps_dirty ps_cmds]. destruct (send _ _ _) as [s' d'].
    cbn [fmap option_fmap option_map ps_s ps_dirty ps_cmds]. by rewrite Hoff'. }
  destruct (decode_enough (s_id s) (wire.type h) p) as (tag & c & Ed); [lia|].
  cbn [s_id set_expect]. rewrite Ed. cbn [mbind option_bind].
  assert (drop (Z.to_nat (off + wire.len h)) R = drop (Z.to_nat (wire.len h)) p) as Hdrop
    by (unfold p; rewrite drop_drop; f_equal; lia).
  unfold accept. cbn [ps_s ps_dirty ps_cmds]. destruct c as [c|].
  - rewrite submit_takes by apply Hpush. cbn [mbind option_bind]. rewrite IH, Hdrop by (done || lia). done.
  - pose proof (send_session (reject_frame tag BadMessage) (set_expect (u32 (expect_seq s + 1)) s) dirty) as (_ & Hrx & _).
    destruct (send _ _ _) as [s' d']. simpl in Hrx. rewrite IH, Hdrop by (congruence || lia). done.
Qed.

Definition with_rx (v : list Z) (s : Session) : Session := set_sconn (set_rx v (s_conn s)) s.

Lemma parse_frames_consume push s dirty cmds : accepting push →
  Forall byte (rx (s_conn s)) → Z.of_nat (length (rx (s_conn s))) < 2 ^ 63 →
  ∃ ok p st, consume (S (length (rx (s_conn s)))) (rx (s_conn s)) (mkPS s dirty cmds) = Some (ok, p, st) ∧
    parse_frames push s dirty cmds = Some (ok, if ok then with_rx p (ps_s st) else ps_s st, ps_dirty st, ps_cmds st).
Proof.
  intros Hpush Hb HL. set (R := rx (s_conn s)) in *.
  destruct (consume_total (S (length R)) R (mkPS s dirty cmds)) as [[[ok p] st] E]; [lia|].
  exists ok, p, st. split; [done|]. unfold parse_frames. fold R.
  rewrite (parse_loop_consume push _ R) by (done || lia). rewrite drop_0, E. cbn [mbind option_bind fmap option_fmap option_map].
  destruct ok; [|done]. destruct (consume_cmds _ _ _ _ _ _ Hb E) as (_ & Hrx & _). cbn [ps_s] in Hrx. fold R in Hrx.
  rewrite Hrx. do 4 f_equal. unfold with_rx. do 2 f_equal.
  by eapply consume_suffix in E.
Qed.

(** The parser does not look at the read buffer of the session it updates. *)
Definition erase (st : PS) : PS := mkPS (with_rx [] (ps_s st)) (ps_dirty st) (ps_cmds st).

Lemma accept_erase tag c st st' : erase st = erase st' → erase (accept tag c st) = erase (accept tag c st').
Proof.
  destruct st as [[[] ? ? d] ? ?], st' as [[[] ? ? d'] ? ?]. unfold erase, with_rx. simpl. intros E.
  injection E as -> -> -> -> -> -> -> -> -> ->. destruct c; [done|]. unfold accept, send. simpl. by destruct d'.
Qed.

Lemma refuse_erase st st' : erase st = erase st' → erase (refuse st) = erase (refuse st').
Proof.
  destruct st as [[[] ? ? d] ? ?], st' as [[[] ? ? d'] ? ?]. unfold erase, with_rx. simpl. intros E.
  injection E as -> -> -> -> -> -> -> -> -> ->. unfold refuse, send. simpl. by destruct d'.
Qed.

Lemma erase_fields st st' : erase st = erase st' →
  expect_seq (ps_s st) = expect_seq (ps_s st') ∧ s_id (ps_s st) = s_id (ps_s st').
Proof. destruct st as [[[] ? ? ?] ? ?], st' as [[[] ? ? ?] ? ?]. unfold erase, with_rx. simpl. intros E. by simplify_eq. Qed.

Lemma consume_erase fuel p st st' ok q st1 :
  erase st = erase st' → consume fuel p st = Some (ok, q, st1) →
  ∃ st1', consume fuel p st' = Some (ok, q, st1') ∧ erase st1 = erase st1'.
Proof.
  revert p st st'. induction fuel as [|fuel IH]; intros p st st' He E; [done|]. cbn [consume] in *.
  destruct (erase_fields _ _ He) as [<- <-].
  destruct (classify _ _ p) as [| |n|n tag c]; try (injection E as <- <- <-; eauto using refuse_erase).
  eapply IH; [|done]. by apply accept_erase.
Qed.

(** The two ways to parse [a ++ b] agree. *)
Lemma chunk_consume a b s dirty cmds R1 R2 p st ok q st2 ok' q' st2' :
  Forall byte a →
  consume (S (length a)) a (mkPS (with_rx a s) dirty cmds) = Some (true, p, st) →
  consume R1 (p ++ b) (mkPS (with_rx (p ++ b) (with_rx p (ps_s st))) (ps_dirty st) (ps_cmds st)) = Some (ok, q, st2) →
  consume R2 (a ++ b) (mkPS (with_rx (a ++ b) s) dirty cmds) = Some (ok', q', st2') →
  ok = ok' ∧ q = q' ∧ with_rx [] (ps_s st2') = with_rx [] (ps_s st2) ∧ ps_dirty st2 = ps_dirty st2' ∧
  ps_cmds st2 = ps_cmds st2'.
Proof.
  intros Ha E1 E2 E3.
  set (F := S (R1 + R2 + length (a ++ b))%nat).
  assert (consume F (a ++ b) (mkPS (with_rx a s) dirty cmds) = consume F (p ++ b) st) as Hm.
  { eapply consume_app; [done|exact E1|unfold F; lia]. }
  apply (consume_fuel _ F) in E2; [|unfold F; lia]. apply (consume_fuel _ F) in E3; [|unfold F; lia].
  apply (consume_erase _ _ _ (mkPS (with_rx a s) dirty cmds)) in E3 as (t1 & T1 & X1); [|done].
  apply (consume_erase _ _ _ st) in E2 as (t2 & T2 & X2); [|by destruct st].
  rewrite Hm, T2 in T1. injection T1 as -> -> ->.
  assert (erase st2 = erase st2') as X by (by rewrite X1).
  split_and!; [done|done|symmetry; exact (f_equal ps_s X)|exact (f_equal ps_dirty X)|exact (f_equal ps_cmds X)].
Qed.

(** ** Frames a client sends *)
Inductive client_msg :=
  | CNew (m : wire.NewOrder) | CCancel (m : wire.CancelOrder) | CReplace (m : wire.ReplaceOrder).

Definition client_bytes (m : client_msg) : list Z :=
  match m with CNew m => wire.bytes_of m | CCancel m => wire.bytes_of m | CReplace m => wire.bytes_of m end.

(** What the gateway makes of it: the tag, and the command unless a field is out of range. *)
Definition client_command (sid : Z) (m : client_msg) : Z * option Command :=
  match m with
  | CNew m => new_command sid m | CCancel m => cancel_command sid m | CReplace m => replace_command sid m
  end.

(** A frame as [make<M>(seq)] starts it, its members in range. *)
Definition framed {M} `{wire.Wire M} (seq : Z) (m : M) : Prop :=
  wire.valid m ∧ wire.hdr m = wire.hdr (wire.make M seq).

Definition client_framed (seq : Z) (m : client_msg) : Prop :=
  match m with CNew m => framed seq m | CCancel m => framed seq m | CReplace m => framed seq m end.

Lemma framed_header {M} `{WK : wire.WireOk M} seq (m : M) rest :
  framed seq m → wire.read_header (wire.bytes_of m ++ rest) =
    Some (wire.mkHeader (wire.sizeof M) (wire.MsgType_val (wire.kType (M := M))) wire.kVersion seq) ∧
  wire.read M (wire.bytes_of m ++ rest) = Some m ∧ Z.of_nat (length (wire.bytes_of m)) = wire.sizeof M.
Proof.
  intros [Hv Hh]. pose proof (fo_size _ wire.wk_format m Hv) as Hs. pose proof (wire.wk_max (M := M)) as Hmax.
  assert (Z.of_nat (length (wire.bytes_of m)) = wire.sizeof M) as Hl by (unfold wire.bytes_of, wire.sizeof; by rewrite Hs).
  split_and!; [|rewrite read_enough by (rewrite length_app; lia); f_equal; by apply wire.wk_format|done].
  unfold wire.read_header. rewrite length_app.
  destruct (Z.ltb_spec (Z.of_nat (length (wire.bytes_of m) + length rest)) 8); [lia|]. f_equal.
  rewrite (wire.wk_prefix m rest Hv), Hh. apply wire.wk_hdr.
Qed.

Lemma classify_framed {M} `{WK : wire.WireOk M} seq sid (m : M) rest tag c :
  framed seq m →
  decode sid (wire.MsgType_val (wire.kType (M := M))) (wire.bytes_of m ++ rest) = Some (tag, c) →
  classify seq sid (wire.bytes_of m ++ rest) = Frame (Z.of_nat (length (wire.bytes_of m))) tag c.
Proof.
  intros Hf Hd. destruct (framed_header seq m rest Hf) as (Eh & _ & Hl). unfold classify. rewrite Eh.
  cbn [wire.version wire.len wire.type wire.seq]. rewrite wire.wk_size_for, !Z.eqb_refl, Hd, Hl, length_app.
  pose proof (wire.wk_max (M := M)). destruct (Z.eqb_spec (wire.sizeof M) 0); [lia|]. simpl.
  destruct (Z.ltb_spec (Z.of_nat (length (wire.bytes_of m) + length rest)) (wire.sizeof M)); [lia|done].
Qed.

Lemma classify_client seq sid m rest :
  client_framed seq m →
  classify seq sid (client_bytes m ++ rest) =
  Frame (Z.of_nat (length (client_bytes m))) (fst (client_command sid m)) (snd (client_command sid m)).
Proof.
  destruct m as [m|m|m]; cbn [client_bytes client_command client_framed]; intros Hf; apply classify_framed; try done;
    pose proof (proj1 (proj2 (framed_header seq m rest Hf))) as Er.
  - change (new_command sid <$> wire.read wire.NewOrder (wire.bytes_of m ++ rest) = Some (new_command sid m)).
    by rewrite Er.
  - change (cancel_command sid <$> wire.read wire.CancelOrder (wire.bytes_of m ++ rest) = Some (cancel_command sid m)).
    by rewrite Er.
  - change (replace_command sid <$> wire.read wire.ReplaceOrder (wire.bytes_of m ++ rest) = Some (replace_command sid m)).
    by rewrite Er.
Qed.

(** A run of frames with consecutive sequence numbers. *)
Fixpoint client_stream (seq : Z) (ms : list client_msg) : Prop :=
  match ms with [] => True | m :: ms => client_framed seq m ∧ client_stream (u32 (seq + 1)) ms end.

Lemma consume_stream fuel ms st :
  client_stream (expect_seq (ps_s st)) ms → (length ms < fuel)%nat →
  ∃ st', consume fuel (concat (client_bytes <$> ms)) st = Some (true, [], st') ∧
    ps_cmds st' = ps_cmds st ++ omap (λ m, snd (client_command (s_id (ps_s st)) m)) ms.
Proof.
  revert fuel st. induction ms as [|m ms IH]; intros fuel st Hs Hf; simpl in *.
  { destruct fuel; [lia|]. exists st. by rewrite app_nil_r. }
  destruct fuel as [|fuel]; [lia|]. destruct Hs as [Hm Hs]. rewrite consume_S, classify_client by done.
  rewrite Nat2Z.id, drop_app_length. set (c := client_command (s_id (ps_s st)) m).
  destruct (accept_fields (fst c) (snd c) st) as (A1 & _ & A3 & A4).
  destruct (IH fuel (accept (fst c) (snd c) st)) as (st' & E & Hc); [by rewrite A3|lia|].
  exists st'. split; [done|]. rewrite Hc, A1, A4, <- app_assoc. f_equal. by destruct (snd c).
Qed.

(** [parse_frames] on such a run. *)
Lemma parse_stream push (s : Session) (dirty : list Z) (cmds : list Command) (ms : list client_msg) :
  accepting push → client_stream (expect_seq s) ms → Forall byte (concat (client_bytes <$> ms)) →
  Z.of_nat (length (concat (client_bytes <$> ms))) < 2 ^ 63 →
  ∃ s' dirty', parse_frames push (with_rx (concat (client_bytes <$> ms)) s) dirty cmds =
      Some (true, s', dirty', cmds ++ omap (λ m, snd (client_command (s_id s) m)) ms) ∧
    rx (s_conn s') = [].
Proof.
  intros Hpush Hs Hb HL. set (p := concat _) in *.
  destruct (parse_frames_consume push (with_rx p s) dirty cmds Hpush Hb HL) as (ok & q & st & E & ->).
  destruct (consume_stream (S (length ms + length p)) ms (mkPS (with_rx p s) dirty cmds) Hs) as (st' & E' & Hc); [lia|].
  apply (consume_fuel _ (S (length ms + length p))) in E; [|simpl; lia].
  change (rx (s_conn (with_rx p s))) with p in E. fold p in E'. rewrite E in E'. injection E' as -> -> ->.
  simpl in Hc. rewrite Hc. by eexists _, _.
Qed.
