(* ===== verification/Inputs.v ===== *)
(** What a session's byte streams mean: the inputs a client's bytes stand for,
    and the frames the gateway answers with, numbered from 1.  Both are read off
    protocol.hpp as byte offsets and values, without the message structs or the
    gateway's conversions; [parse_frames] and [answer] implement these readings. *)
From S2P Require Import Prelude Types Engine Process Protocol Ring Net Publisher Gateway Parse.

(** ** Input *)

(** A well-formed frame is submitted or refused; a frame out of sequence is the
    last one, refused with [BadSeq]. *)
Inductive input := Submitted (c : Command) | Refused (tag : Z) (r : RejectReason).

Definition input_of (tag : Z) (c : option Command) : input :=
  match c with Some c => Submitted c | None => Refused tag BadMessage end.

(** The unsigned little-endian number in the [n] bytes at [off]. *)
Definition field (off n : nat) (p : list Z) : Z := le_val (take n (drop off p)).

(** The length of a frame of type [ty], 0 if there is no such type. *)
Definition frame_len (ty : Z) : Z :=
  match ty with
  | 1 | 3 | 18 | 32 | 33 => 40
  | 2 | 16 | 17 | 19 | 34 | 35 => 24
  | 20 => 32
  | 4 => 16
  | _ => 0
  end.

(** What a frame of type [ty] asks for: its tag, and the command if it is one. *)
Definition meaning (sid ty : Z) (p : list Z) : Z * option Command :=
  match ty with
  | 1 =>
      (field 8 8 p,
       side ← match field 18 1 p with 0 => Some Buy | 1 => Some Sell | _ => None end;
       type ← match field 19 1 p with 0 => Some Limit | 1 => Some Market | _ => None end;
       tif ← match field 20 1 p with 0 => Some GTC | 1 => Some IOC | _ => None end;
       Some (mkCommand CmdNew side type tif (field 16 2 p) sid (field 8 8 p) 0 (i64 (field 24 8 p)) (field 32 4 p)))
  | 2 => (field 8 8 p, Some (mkCommand CmdCancel Buy Limit GTC 0 sid (field 8 8 p) (field 16 8 p) 0 0))
  | 3 =>
      (field 8 8 p,
       Some (mkCommand CmdReplace Buy Limit GTC 0 sid (field 8 8 p) (field 16 8 p) (i64 (field 24 8 p)) (field 32 4 p)))
  | _ => (0, None)
  end.

(** The first frame of [p] when [expect] is the sequence number to come. *)
Definition front (expect sid : Z) (p : list Z) : outcome :=
  let len := field 0 2 p in
  let ty := field 2 1 p in
  if Z.of_nat (length p) <? 8 then Wait
  else if negb (field 3 1 p =? 1) || (len =? 0) || negb (len =? frame_len ty) then Malformed
  else if Z.of_nat (length p) <? len then Wait
  else if negb (field 4 4 p =? expect) then WrongSeq len
  else let '(tag, c) := meaning sid ty p in Frame len tag c.

(** The inputs in [p] from sequence number [expect] on, whether the session
    stays open, and the bytes left over. *)
Fixpoint dissect (fuel : nat) (expect sid : Z) (p : list Z) : option (list input * bool * list Z) :=
  match fuel with
  | O => None
  | S fuel =>
      match front expect sid p with
      | Wait => Some ([], true, p)
      | Malformed => Some ([], false, p)
      | WrongSeq n => Some ([Refused 0 BadSeq], false, drop (Z.to_nat n) p)
      | Frame n tag c =>
          '(l, ok, q) ← dissect fuel (u32 (expect + 1)) sid (drop (Z.to_nat n) p);
          Some (input_of tag c :: l, ok, q)
      end
  end.

Definition inputs (expect sid : Z) (p : list Z) : option (list input * bool * list Z) :=
  dissect (S (length p)) expect sid p.

Definition commands_of (l : list input) : list Command :=
  omap (λ i, match i with Submitted c => Some c | Refused _ _ => None end) l.

Definition refusals_of (l : list input) : list (Z * RejectReason) :=
  omap (λ i, match i with Submitted _ => None | Refused tag r => Some (tag, r) end) l.

(** The gateway's tables and conversions say the same. *)
Lemma frame_len_size ty : frame_len ty = wire.size_for ty.
Proof.
  unfold wire.size_for, wire.MsgType_of. cbn [List.find wire.MsgType_val].
  destruct ty as [|ty|ty]; [done| |done]. do 6 (try (destruct ty as [ty|ty|]); try done).
Qed.

Lemma enum_match {A} (b : Z) (x y : A) :
  (if b =? 0 then Some x else if b =? 1 then Some y else None) = match b with 0 => Some x | 1 => Some y | _ => None end.
Proof. by destruct b as [|[]|]. Qed.

Lemma meaning_decode sid ty p : wire.size_for ty ≤ Z.of_nat (length p) → decode sid ty p = Some (meaning sid ty p).
Proof.
  unfold wire.size_for, decode, wire.MsgType_of. cbn [List.find wire.MsgType_val].
  destruct (Z.eqb_spec 1 ty) as [<-|?].
  { intros Hl. rewrite read_enough by done. simpl. unfold new_command, Side_of, OrderType_of, Tif_of. by rewrite !enum_match. }
  destruct (Z.eqb_spec 2 ty) as [<-|?]; [intros Hl; cbn in Hl |- *; by rewrite read_enough by done|].
  destruct (Z.eqb_spec 3 ty) as [<-|?]; [intros Hl; cbn in Hl |- *; by rewrite read_enough by done|].
  intros _. destruct ty as [|ty|ty]; [done| |done]. do 6 (try (destruct ty as [ty|ty|]); try done).
Qed.

Lemma front_classify expect sid p : front expect sid p = classify expect sid p.
Proof.
  unfold front, classify, wire.read_header. destruct (Z.ltb_spec (Z.of_nat (length p)) 8); [done|].
  change (field 0 2 p) with (wire.len (f_dec wire.Header_format p)). change (field 2 1 p) with (wire.type (f_dec wire.Header_format p)).
  change (field 3 1 p) with (wire.version (f_dec wire.Header_format p)). change (field 4 4 p) with (wire.seq (f_dec wire.Header_format p)).
  set (h := f_dec _ _). rewrite frame_len_size. change wire.kVersion with 1. destruct (_ || _ || _) eqn:Eg; [done|].
  apply orb_false_iff in Eg as [_ E1%negb_false_iff%Z.eqb_eq]. destruct (Z.ltb_spec (Z.of_nat (length p)) (wire.len h)); [done|].
  destruct (negb _); [done|]. rewrite meaning_decode by lia. by destruct (meaning _ _ _).
Qed.

Lemma dissect_total fuel expect sid p : (length p < fuel)%nat → is_Some (dissect fuel expect sid p).
Proof.
  revert expect p. induction fuel as [|fuel IH]; intros expect p Hf; [lia|]. cbn [dissect]. rewrite front_classify.
  pose proof (classify_spec expect sid p) as Hc. destruct (classify _ _ p) as [| | |n tag c]; eauto.
  destruct (IH (u32 (expect + 1)) (drop (Z.to_nat n) p)) as [[[l ok] q] ->]; [rewrite length_drop; lia|]. simpl. eauto.
Qed.

Lemma dissect_fuel fuel fuel' expect sid p r :
  dissect fuel expect sid p = Some r → (fuel ≤ fuel')%nat → dissect fuel' expect sid p = Some r.
Proof.
  revert fuel' expect p r. induction fuel as [|fuel IH]; intros fuel' expect p r E Hf; [done|].
  destruct fuel' as [|fuel']; [lia|]. cbn [dissect] in *. rewrite front_classify in *. destruct (classify _ _ p); try done.
  apply bind_Some in E as ([[l ok] q] & E1 & E). rewrite (IH fuel' _ _ _ E1); [done|lia].
Qed.

Lemma dissect_shorter fuel expect sid p l ok q :
  dissect fuel expect sid p = Some (l, ok, q) → (length q ≤ length p)%nat ∧ (Forall byte p → Forall byte q).
Proof.
  revert expect p l ok q. induction fuel as [|fuel IH]; intros expect p l ok q E; [done|]. cbn [dissect] in E. rewrite front_classify in E.
  destruct (classify _ _ p) as [| |n|n tag c]; simplify_eq; try done.
  - rewrite length_drop. split; [lia|apply Forall_drop].
  - apply bind_Some in E as ([[l1 ok1] q1] & E1 & E). simplify_eq. apply IH in E1 as [H1 H2]. rewrite length_drop in H1.
    split; [lia|]. intros Hp. apply H2. by apply Forall_drop.
Qed.

(** More bytes continue where an open stream stopped. *)
Lemma dissect_app fuel expect sid p b l q :
  Forall byte p → 0 ≤ expect < 2 ^ 32 → dissect fuel expect sid p = Some (l, true, q) →
  ∀ fuel', (length (p ++ b) < fuel')%nat →
  dissect fuel' expect sid (p ++ b) =
  ('(l', ok, q') ← dissect fuel' (u32 (expect + Z.of_nat (length l))) sid (q ++ b); Some (l ++ l', ok, q')).
Proof.
  revert expect p l q. induction fuel as [|fuel IH]; intros expect p l q Hb He E fuel' Hf; [done|]. cbn [dissect] in E. rewrite front_classify in E.
  pose proof (classify_spec expect sid p) as Hc.
  destruct (classify _ _ p) as [| | |n tag c] eqn:Ec; simplify_eq.
  { rewrite Z.add_0_r, u32_small by done. destruct (dissect fuel' expect sid (q ++ b)) as [[[? ?] ?]|]; done. }
  apply bind_Some in E as ([[l1 ok1] q1] & E1 & E). simplify_eq. destruct fuel' as [|fuel']; [lia|].
  cbn [dissect]. rewrite front_classify, classify_app, Ec by (done || congruence). cbn iota. rewrite drop_app_le by lia. rewrite length_app in Hf.
  assert (length (drop (Z.to_nat n) p ++ b) < fuel')%nat as Hl by (rewrite length_app, length_drop; lia).
  rewrite (IH _ _ _ _ ltac:(by apply Forall_drop) (u32_range _) E1 fuel' Hl). rewrite u32_add_l. cbn [length].
  replace (expect + 1 + Z.of_nat (length l1)) with (expect + Z.of_nat (S (length l1))) by lia.
  destruct (dissect_total fuel' (u32 (expect + Z.of_nat (S (length l1)))) sid (q ++ b)) as [[[l' ok'] q'] Er].
  { destruct (dissect_shorter _ _ _ _ _ _ _ E1) as [Hs _]. rewrite length_app, length_drop in *. lia. }
  pose proof (dissect_fuel _ (S fuel') _ _ _ _ Er ltac:(lia)) as Er'. cbn [dissect] in Er'. rewrite Er. simpl. rewrite Er'. done.
Qed.

Lemma inputs_total expect sid p : is_Some (inputs expect sid p).
Proof. apply dissect_total. lia. Qed.

Lemma inputs_app expect sid p b l q l' ok q' :
  Forall byte p → 0 ≤ expect < 2 ^ 32 → inputs expect sid p = Some (l, true, q) →
  inputs (u32 (expect + Z.of_nat (length l))) sid (q ++ b) = Some (l', ok, q') →
  inputs expect sid (p ++ b) = Some (l ++ l', ok, q').
Proof.
  intros Hb He E E'. unfold inputs in *. rewrite (dissect_app _ _ _ _ b _ _ Hb He E) by lia.
  destruct (dissect_shorter _ _ _ _ _ _ _ E) as [Hs _].
  rewrite (dissect_fuel _ (S (length (p ++ b))) _ _ _ _ E'); [done|]. rewrite !length_app. lia.
Qed.

(** ** Output *)

(** A frame for a session comes from an engine event or from the parser. *)
Inductive output := FromEngine (e : Event) | FromParser (tag : Z) (r : RejectReason).

Definition frame_bytes (len ty seq : Z) (body : list Z) : list Z := le 2 len ++ [ty; 1] ++ le 4 seq ++ body.

Definition reject_bytes (seq tag : Z) (r : RejectReason) : list Z :=
  frame_bytes 24 17 seq (le 8 tag ++ le 1 (RejectReason_val r) ++ replicate 7 0).

Definition output_bytes (seq : Z) (o : output) : list Z :=
  match o with
  | FromEngine e =>
      match e_kind e with
      | EvAccepted => frame_bytes 24 16 seq (le 8 (e_tag e) ++ le 8 (e_order_id e))
      | EvRejected => reject_bytes seq (e_tag e) (e_reason e)
      | EvFill =>
          frame_bytes 40 18 seq (le 8 (e_order_id e) ++ le 8 (u64 (e_price e)) ++ le 4 (e_qty e) ++ le 4 (e_remaining e) ++
            le 1 (if e_maker e then 1 else 0) ++ replicate 7 0)
      | EvCancelled => frame_bytes 24 19 seq (le 8 (e_order_id e) ++ le 4 (e_remaining e) ++ replicate 4 0)
      | EvReplaced =>
          frame_bytes 32 20 seq (le 8 (e_order_id e) ++ le 8 (u64 (e_price e)) ++ le 4 (e_qty e) ++ replicate 4 0)
      | EvTrade | EvTop => []
      end
  | FromParser tag r => reject_bytes seq tag r
  end.

(** The frames [l], numbered from [seq] on. *)
Fixpoint out_bytes (seq : Z) (l : list output) : list Z :=
  match l with [] => [] | o :: l => output_bytes seq o ++ out_bytes (u32 (seq + 1)) l end.

Definition events_of (l : list output) : list Event :=
  omap (λ o, match o with FromEngine e => Some e | FromParser _ _ => None end) l.

Definition rejects_of (l : list output) : list (Z * RejectReason) :=
  omap (λ o, match o with FromEngine _ => None | FromParser tag r => Some (tag, r) end) l.

Lemma out_bytes_app seq l l' :
  0 ≤ seq < 2 ^ 32 → out_bytes seq (l ++ l') = out_bytes seq l ++ out_bytes (u32 (seq + Z.of_nat (length l))) l'.
Proof.
  revert seq. induction l as [|o l IH]; intros seq Hs; cbn [app out_bytes length].
  - by rewrite Z.add_0_r, u32_small.
  - rewrite IH, <- app_assoc by apply u32_range. rewrite u32_add_l. do 4 f_equal. lia.
Qed.

(** [s'] is [s] after sending the frames [l]. *)
Record sent_frames (l : list output) (s s' : Session) : Prop := {
  sf_tx : tx (s_conn s') = tx (s_conn s) ++ out_bytes (out_seq (s_conn s)) l;
  sf_seq : out_seq (s_conn s') = u32 (out_seq (s_conn s) + Z.of_nat (length l));
  sf_off : tx_off (s_conn s') = tx_off (s_conn s);
  sf_fd : fd (s_conn s') = fd (s_conn s);
  sf_rx : rx (s_conn s') = rx (s_conn s);
  sf_id : s_id s' = s_id s }.

Lemma sent_none s : 0 ≤ out_seq (s_conn s) < 2 ^ 32 → sent_frames [] s s.
Proof. intros H. split; simpl; rewrite ?app_nil_r, ?Z.add_0_r, ?u32_small by done; done. Qed.

Lemma sent_trans l l' s s1 s2 :
  0 ≤ out_seq (s_conn s) < 2 ^ 32 → sent_frames l s s1 → sent_frames l' s1 s2 → sent_frames (l ++ l') s s2.
Proof.
  intros Hs [A1 A2 A3 A4 A5 A6] [B1 B2 B3 B4 B5 B6]. split; try congruence.
  - rewrite B1, A1, A2, out_bytes_app, app_assoc by done. done.
  - rewrite B2, A2, u32_add_l, length_app. f_equal. lia.
Qed.

Lemma send_one {M} `{wire.Wire M} (m : M) (o : output) s d :
  (∀ seq, output_bytes seq o = wire.bytes_of (set_seq seq m)) →
  sent_frames [o] s (fst (send m s d)) ∧ expect_seq (fst (send m s d)) = expect_seq s.
Proof.
  intros Ho. unfold send. split; [|by destruct (s_dirty _)].
  split; simpl; destruct (s_dirty s); simpl; rewrite ?app_nil_r, ?Ho; done.
Qed.

Lemma answer_sent e s d :
  (match e_kind e with EvTrade | EvTop => False | _ => True end) →
  sent_frames [FromEngine e] s (fst (answer e s d)) ∧ expect_seq (fst (answer e s d)) = expect_seq s.
Proof. intros Hk. unfold answer. destruct (e_kind e) eqn:Ek; try done; apply send_one; intros seq; cbn [output_bytes]; rewrite Ek; reflexivity. Qed.

(** ** The parser *)
Definition parser_outputs (l : list input) : list output := (λ r, FromParser (fst r) (snd r)) <$> refusals_of l.

Lemma accept_sent tag c st :
  0 ≤ out_seq (s_conn (ps_s st)) < 2 ^ 32 →
  sent_frames (parser_outputs [input_of tag c]) (ps_s st) (ps_s (accept tag c st)).
Proof.
  intros Hs. unfold accept. destruct c as [c|]; simpl; [destruct (sent_none _ Hs); by split|].
  destruct (send_one (reject_frame tag BadMessage) (FromParser tag BadMessage)
    (set_expect (u32 (expect_seq (ps_s st) + 1)) (ps_s st)) (ps_dirty st)) as [H _]; [done|].
  destruct (send _ _ _) as [s d]. simpl in *. destruct H. by split.
Qed.

Lemma consume_dissect fuel p st ok q st' :
  0 ≤ out_seq (s_conn (ps_s st)) < 2 ^ 32 → consume fuel p st = Some (ok, q, st') →
  ∃ l, dissect fuel (expect_seq (ps_s st)) (s_id (ps_s st)) p = Some (l, ok, q) ∧
    ps_cmds st' = ps_cmds st ++ commands_of l ∧ sent_frames (parser_outputs l) (ps_s st) (ps_s st') ∧
    (ok = true → 0 ≤ expect_seq (ps_s st) < 2 ^ 32 → expect_seq (ps_s st') = u32 (expect_seq (ps_s st) + Z.of_nat (length l))).
Proof.
  revert p st. induction fuel as [|fuel IH]; intros p st Hs E; [done|]. cbn [consume dissect] in *. rewrite front_classify.
  destruct (classify _ _ p) as [| |n|n tag c].
  - injection E as <- <- <-. exists []. split_and!; [done|by rewrite app_nil_r|by apply sent_none|]. intros _ He. by rewrite Z.add_0_r, u32_small.
  - injection E as <- <- <-. exists []. split_and!; [done|by rewrite app_nil_r|by apply sent_none|done].
  - injection E as <- <- <-. eexists. split_and!; [reflexivity|..|done].
    + destruct (refuse_fields st) as (_ & _ & ->). by rewrite app_nil_r.
    + unfold refuse. destruct (send_one (reject_frame 0 BadSeq) (FromParser 0 BadSeq) (ps_s st) (ps_dirty st)) as [H _]; [done|].
      by destruct (send _ _ _).
  - destruct (accept_fields tag c st) as (F1 & F2 & F3 & F4). pose proof (accept_sent tag c st Hs) as Ha.
    destruct (IH (drop (Z.to_nat n) p) (accept tag c st)) as (l & E1 & E2 & E3 & E4); [|exact E|].
    { rewrite (sf_seq _ _ _ Ha). apply u32_range. }
    rewrite F1, F3 in E1. rewrite E1. eexists. split_and!; [reflexivity|..].
    + rewrite E2, F4, <- app_assoc. by destruct c.
    + change (input_of tag c :: l) with ([input_of tag c] ++ l). unfold parser_outputs, refusals_of. rewrite omap_app, fmap_app.
      by eapply sent_trans.
    + intros -> He. rewrite E4, F3, u32_add_l; [|done|rewrite F3; apply u32_range]. f_equal. cbn [length]. lia.
Qed.

(** [parse_frames] submits the commands of the inputs, refuses the others in
    order, and keeps the bytes left over. *)
Lemma parse_frames_inputs push s dirty cmds ok s' dirty' cmds' :
  Forall byte (rx (s_conn s)) → Z.of_nat (length (rx (s_conn s))) < 2 ^ 63 → 0 ≤ out_seq (s_conn s) < 2 ^ 32 →
  parse_frames push s dirty cmds = Some (ok, s', dirty', cmds') →
  ∃ l q, inputs (expect_seq s) (s_id s) (rx (s_conn s)) = Some (l, ok, q) ∧
    cmds' = cmds ++ commands_of l ∧ (∃ s1, sent_frames (parser_outputs l) s s1 ∧ s' = if ok then with_rx q s1 else s1) ∧
    (ok = true → 0 ≤ expect_seq s < 2 ^ 32 → expect_seq s' = u32 (expect_seq s + Z.of_nat (length l))).
Proof.
  intros Hb Hl Hs E. apply parse_frames_at_once in E.
  destruct (parse_frames_consume at_once s dirty cmds at_once_accepting Hb Hl) as (ok1 & p & st & Ec & Ep).
  rewrite E in Ep. injection Ep as -> -> -> ->.
  destruct (consume_dissect _ _ (mkPS s dirty cmds) _ _ _ Hs Ec) as (l & E1 & E2 & E3 & E4). exists l, p. unfold inputs.
  split_and!; [exact E1|exact E2|by exists (ps_s st)|]. intros ->. by apply E4.
Qed.
