(* ===== verification/GatewayTheorems.v ===== *)
(** The theorems about the gateway: decoding of arbitrary client bytes, its
    interface to the engine, and the way of events back to clients. *)
From S2P Require Import Prelude Types Engine Process EngineFacts Settle Demo Protocol Ring Net Publisher.
From S2P Require Import Gateway Parse.

(** A fresh session and the bytes of one client's first three orders. *)
Definition demo_session : Session := mkSession (Conn_init 5) 3 1 false.
Definition demo_new (seq : Z) (px : Z) : wire.NewOrder :=
  wire.mkNewOrder (wire.hdr (wire.make wire.NewOrder seq)) (100 + seq) 0 1 0 0 [0; 0; 0] px 10 0.
Definition demo_bytes : list Z :=
  wire.bytes_of (demo_new 1 50) ++ wire.bytes_of (demo_new 2 51) ++ wire.bytes_of (demo_new 3 52).

Lemma demo_bytes_ok : Forall byte demo_bytes.
Proof. apply (bool_decide_unpack _). vm_compute. exact I. Qed.

(** ** Arbitrary input *)

(** Whatever bytes a client sends, [parse_frames] terminates without reading
    past the buffer, and every command it submits carries the session's own id
    and values within their widths, which is all the engine requires. *)
Theorem parse_any_input (push : nat → list bool) (s : Session) (dirty : list Z) (cmds : list Command) :
  accepting push → Forall byte (rx (s_conn s)) → Z.of_nat (length (rx (s_conn s))) < 2 ^ 63 →
  ∃ ok s' dirty' new, parse_frames push s dirty cmds = Some (ok, s', dirty', cmds ++ new) ∧
    Forall (λ c, command_ok c ∧ c_session c = s_id s) new ∧ s_id s' = s_id s.
Proof.
  intros Hpush Hb HL. destruct (parse_frames_consume push s dirty cmds Hpush Hb HL) as (ok & p & st & E & ->).
  destruct (consume_cmds _ _ _ _ _ _ Hb E) as (H1 & _ & new & H2 & H3). simpl in H2. rewrite H2.
  eexists _, _, _, new. split_and!; [done|done|]. by destruct ok.
Qed.

(** How TCP cuts the stream does not matter: parsing [a] and, when more has
    arrived, the rest with [b] behind it gives the same verdict, the same
    commands, answers and expected sequence number as parsing [a ++ b] at once. *)
Theorem parse_chunking (push : nat → list bool) (s s1 : Session) (a b : list Z) (dirty dirty1 : list Z) (cmds cmds1 : list Command) :
  accepting push → Forall byte (a ++ b) → Z.of_nat (length (a ++ b)) < 2 ^ 63 →
  parse_frames push (with_rx a s) dirty cmds = Some (true, s1, dirty1, cmds1) →
  ∃ ok s2 s2' dirty2 cmds2,
    parse_frames push (with_rx (rx (s_conn s1) ++ b) s1) dirty1 cmds1 = Some (ok, s2, dirty2, cmds2) ∧
    parse_frames push (with_rx (a ++ b) s) dirty cmds = Some (ok, s2', dirty2, cmds2) ∧
    with_rx [] s2' = with_rx [] s2 ∧ (ok = true → s2' = s2).
Proof.
  intros Hpush Hab HL E1. pose proof Hab as [Ha Hb]%Forall_app. rewrite length_app in HL.
  destruct (parse_frames_consume push (with_rx a s) dirty cmds) as (ok & p & st & Ec & Ep); [done|done|simpl; lia|].
  rewrite E1 in Ep. simplify_eq. change (rx (s_conn (with_rx a s))) with a in Ec.
  pose proof (consume_shorter _ _ _ _ _ _ Ec) as Hsh. pose proof (consume_suffix _ _ _ _ _ _ Ec) as Hsx.
  assert (Forall byte (p ++ b)) as Hpb by (apply Forall_app; split; [rewrite <- Hsx; by apply Forall_drop|done]).
  destruct (parse_frames_consume push (with_rx (p ++ b) (ps_s st)) (ps_dirty st) (ps_cmds st)) as (ok & q & st2 & Ec2 & Ep2);
    [done|done|simpl; rewrite length_app; lia|]. cbn [rx set_rx s_conn set_sconn with_rx] in Ec2.
  destruct (parse_frames_consume push (with_rx (a ++ b) s) dirty cmds) as (ok' & q' & st2' & Ec3 & Ep3);
    [done|done|simpl; rewrite length_app; lia|]. cbn [rx set_rx s_conn set_sconn with_rx] in Ec3.
  destruct (chunk_consume _ _ _ _ _ _ _ _ _ _ _ _ _ _ _ Ha Ec Ec2 Ec3) as (<- & <- & Hst & Hd & Hcs).
  rewrite <- Hd, <- Hcs in Ep3.
  exists ok, (if ok then with_rx q (ps_s st2) else ps_s st2), (if ok then with_rx q (ps_s st2') else ps_s st2').
  exists (ps_dirty st2), (ps_cmds st2). split_and!; [exact Ep2|exact Ep3|by destruct ok|].
  intros ->. destruct st2 as [[[] ? ? ?] ? ?], st2' as [[[] ? ? ?] ? ?]. unfold with_rx in *. simpl in *. by simplify_eq.
Qed.

(** The first order and a half arrive, then the rest. *)
Lemma parse_chunking_witness :
  let a := take 60 demo_bytes in
  let b := drop 60 demo_bytes in
  let push := λ _ : nat, [false; true] in
  let r := default (true, demo_session, [], []) (parse_frames push (with_rx a demo_session) [] []) in
  ∃ ok s2 s2' dirty2 cmds2,
    parse_frames push (with_rx (rx (s_conn (r.1.1.2)) ++ b) (r.1.1.2)) [] [mkCommand CmdNew Sell Limit GTC 0 3 101 0 50 10] =
      Some (ok, s2, dirty2, cmds2) ∧
    parse_frames push (with_rx (a ++ b) demo_session) [] [] = Some (ok, s2', dirty2, cmds2) ∧
    with_rx [] s2' = with_rx [] s2 ∧ (ok = true → s2' = s2).
Proof.
  apply (parse_chunking (λ _, [false; true]) demo_session _ (take 60 demo_bytes) (drop 60 demo_bytes)).
  - intros i. right. by left.
  - rewrite take_drop. apply demo_bytes_ok.
  - vm_compute. reflexivity.
  - vm_compute. reflexivity.
Defined.

(** C18: No client input can make the engine fault: commands decoded from any
    sessions' bytes, in any order and however long each [submit] waits, are all
    processed to the end. *)
Theorem no_input_faults_engine (cfg : Config) (batches : list (Session * list Command)) (clock : list Z) :
  config_ok cfg →
  Forall (λ b, Forall byte (rx (s_conn (fst b))) ∧ Z.of_nat (length (rx (s_conn (fst b)))) < 2 ^ 63 ∧
    ∃ push r, parse_frames push (fst b) [] [] = Some (r, snd b)) batches →
  is_Some (run (zip clock (concat (snd <$> batches))) (Engine_init cfg [])).
Proof.
  intros Hc Hb. destruct (sound_run (zip clock (concat (snd <$> batches))) (Engine_init cfg [])) as (e & E & _);
    [by apply sound_init| |eauto].
  assert (Forall command_ok (concat (snd <$> batches))) as Hok.
  { induction Hb as [|[s cs] bs (H1 & H2 & (push & [[ok s'] d'] & E%parse_frames_at_once)) _ IH]; simpl in *; [done|].
    apply Forall_app. split; [|done].
    destruct (parse_frames_consume at_once s [] [] at_once_accepting H1 H2) as (ok1 & p & st & E1 & E2). rewrite E in E2.
    destruct (consume_cmds _ _ _ _ _ _ H1 E1) as (_ & _ & new & H3 & H4). simpl in H3.
    injection E2 as _ _ _ ->. rewrite H3. eapply Forall_impl; [exact H4|]. by intros c [? _]. }
  apply Forall_forall. intros [now c] Hin. apply elem_of_zip_r in Hin. rewrite Forall_forall in Hok. by apply Hok.
Qed.

Lemma no_input_faults_engine_witness :
  let s := with_rx demo_bytes demo_session in
  let cs := [mkCommand CmdNew Sell Limit GTC 0 3 101 0 50 10; mkCommand CmdNew Sell Limit GTC 0 3 102 0 51 10;
             mkCommand CmdNew Sell Limit GTC 0 3 103 0 52 10] in
  is_Some (run (zip [1; 2; 3] (concat (snd <$> [(s, cs)]))) (Engine_init Demo.cfg [])).
Proof.
  apply (no_input_faults_engine Demo.cfg); [apply Demo.cfg_ok|]. apply Forall_singleton. split_and!.
  - apply demo_bytes_ok.
  - vm_compute. reflexivity.
  - eexists (λ _, [false; true]), _. vm_compute. reflexivity.
Defined.

(** ** Well-formed input *)

(** What a client encodes is what the engine gets: a stream of frames built
    with consecutive sequence numbers from the expected one is consumed whole and
    yields exactly their commands in order (a frame whose side, type or
    time-in-force is out of range yields none). *)
Theorem client_roundtrip (push : nat → list bool) (s : Session) (dirty : list Z) (cmds : list Command) (ms : list client_msg) :
  accepting push → client_stream (expect_seq s) ms → Forall byte (concat (client_bytes <$> ms)) →
  Z.of_nat (length (concat (client_bytes <$> ms))) < 2 ^ 63 →
  ∃ s' dirty', parse_frames push (with_rx (concat (client_bytes <$> ms)) s) dirty cmds =
      Some (true, s', dirty', cmds ++ omap (λ m, snd (client_command (s_id s) m)) ms) ∧
    rx (s_conn s') = [].
Proof. apply parse_stream. Qed.

(** ** Events back to clients *)

(** What the frame of a private event says, read back from its bytes. *)
Definition frame_reports (e : Event) (seq : Z) (bs : list Z) : Prop :=
  match e_kind e with
  | EvAccepted => ∃ m, wire.read wire.Ack bs = Some m ∧ wire.ak_tag m = e_tag e ∧
      wire.ak_order_id m = e_order_id e ∧ wire.seq (wire.ak_hdr m) = seq
  | EvRejected => ∃ m, wire.read wire.Reject bs = Some m ∧ wire.rj_tag m = e_tag e ∧
      wire.rj_reason m = RejectReason_val (e_reason e) ∧ wire.seq (wire.rj_hdr m) = seq
  | EvFill => ∃ m, wire.read wire.Fill bs = Some m ∧ wire.fl_order_id m = e_order_id e ∧
      wire.fl_price m = e_price e ∧ wire.fl_qty m = e_qty e ∧ wire.fl_remaining m = e_remaining e ∧
      wire.fl_maker m = (if e_maker e then 1 else 0) ∧ wire.seq (wire.fl_hdr m) = seq
  | EvCancelled => ∃ m, wire.read wire.Cancelled bs = Some m ∧ wire.ca_order_id m = e_order_id e ∧
      wire.ca_remaining m = e_remaining e ∧ wire.seq (wire.ca_hdr m) = seq
  | EvReplaced => ∃ m, wire.read wire.Replaced bs = Some m ∧ wire.rp_order_id m = e_order_id e ∧
      wire.rp_price m = e_price e ∧ wire.rp_qty m = e_qty e ∧ wire.seq (wire.rp_hdr m) = seq
  | EvTrade | EvTop => bs = []
  end.

(** The private frames of an event have every member in range. *)
Lemma answers_valid e :
  event_ok e → wire.valid (ack_frame e) ∧ wire.valid (reject_frame (e_tag e) (e_reason e)) ∧
  wire.valid (fill_frame e) ∧ wire.valid (cancelled_frame e) ∧ wire.valid (replaced_frame e).
Proof. intros []. unfold fill_frame. destruct (e_reason e), (e_maker e); split_and!; wire_valid. Qed.

(** [send] appends the stamped frame, counts it, and marks the session. *)
Lemma send_frame {M} `{WK : wire.WireOk M} (m : M) s dirty :
  wire.valid m → 0 ≤ out_seq (s_conn s) < 2 ^ 32 →
  ∃ bs, tx (s_conn (fst (send m s dirty))) = tx (s_conn s) ++ bs ∧
    wire.read M bs = Some (set_seq (out_seq (s_conn s)) m) ∧
    out_seq (s_conn (fst (send m s dirty))) = u32 (out_seq (s_conn s) + 1) ∧
    s_dirty (fst (send m s dirty)) = true.
Proof.
  intros Hv Hs. exists (wire.bytes_of (set_seq (out_seq (s_conn s)) m)).
  pose proof (set_seq_valid _ _ Hv Hs) as Hv'. unfold send. cbn [s_dirty set_sconn].
  split_and!; [by destruct (s_dirty s)| |by destruct (s_dirty s)|by destruct (s_dirty s) eqn:E].
  unfold wire.read, wire.bytes_of, wire.sizeof. pose proof (fo_size _ wire.wk_format _ Hv') as Hl. rewrite Hl.
  rewrite Z.ltb_irrefl. f_equal. pose proof (fo_dec_enc _ wire.wk_format _ [] Hv') as Hd. by rewrite app_nil_r in Hd.
Qed.

(** An event reaches exactly the session it names: the frame appended to that
    session's output reads back with the event's values and the session's next
    sequence number; every other session and the publisher are untouched. *)
Theorem event_reaches_session (sv : Server) (e : Event) (s : Session) :
  e_kind e ≠ EvTrade → e_kind e ≠ EvTop → event_ok e → sessions_ sv !! e_session e = Some s →
  0 ≤ out_seq (s_conn s) < 2 ^ 32 →
  ∃ sv' s' bs, server_on_event e sv = Some sv' ∧ sessions_ sv' = <[e_session e := s']> (sessions_ sv) ∧
    publisher_ sv' = publisher_ sv ∧ tx (s_conn s') = tx (s_conn s) ++ bs ∧
    frame_reports e (out_seq (s_conn s)) bs ∧ out_seq (s_conn s') = u32 (out_seq (s_conn s) + 1) ∧
    s_dirty s' = true.
Proof.
  intros Ht1 Ht2 He Hs Ho. unfold server_on_event, frame_reports, answer. rewrite Hs.
  assert (∀ (M : Type) (W : wire.Wire M) (WK : wire.WireOk M) (m : M), wire.valid m →
    ∃ sv' s' bs, (let '(s, dirty) := send m s (sv_dirty sv) in
        Some (set_dirty_list dirty (set_sessions (<[e_session e := s]> (sessions_ sv)) sv))) = Some sv' ∧
      sessions_ sv' = <[e_session e := s']> (sessions_ sv) ∧ publisher_ sv' = publisher_ sv ∧
      tx (s_conn s') = tx (s_conn s) ++ bs ∧ wire.read M bs = Some (set_seq (out_seq (s_conn s)) m) ∧
      out_seq (s_conn s') = u32 (out_seq (s_conn s) + 1) ∧ s_dirty s' = true) as Hgo.
  { intros M W WK m Hv. destruct (send_frame m s (sv_dirty sv) Hv Ho) as (bs & E1 & E2 & E3 & E4).
    destruct (send m s (sv_dirty sv)) as [s' d']. by eexists _, s', bs. }
  destruct (answers_valid e He) as (V1 & V2 & V3 & V4 & V5).
  destruct (e_kind e) eqn:Ek; try done;
    [destruct (Hgo _ _ _ _ V1) as (sv' & s' & bs & E1 & E2 & E3 & E4 & E5 & E6 & E7)
    |destruct (Hgo _ _ _ _ V2) as (sv' & s' & bs & E1 & E2 & E3 & E4 & E5 & E6 & E7)
    |destruct (Hgo _ _ _ _ V3) as (sv' & s' & bs & E1 & E2 & E3 & E4 & E5 & E6 & E7)
    |destruct (Hgo _ _ _ _ V4) as (sv' & s' & bs & E1 & E2 & E3 & E4 & E5 & E6 & E7)
    |destruct (Hgo _ _ _ _ V5) as (sv' & s' & bs & E1 & E2 & E3 & E4 & E5 & E6 & E7)];
    exists sv', s', bs; split_and!; try done; eexists; (split; [exact E5|done]).
Qed.

Lemma event_reaches_session_witness :
  let e := mkEvent EvFill Buy RNone true 0 3 9 (2 ^ 32) 50 4 6 TopOfBook_default 11 in
  let sv := mkServer 4096 [] (Publisher_init (mkPubConfig 1000 1 1000 10000)) {[ 3 := demo_session ]} [] [] [] 4 in
  ∃ sv' s' bs, server_on_event e sv = Some sv' ∧ sessions_ sv' = <[3 := s']> (sessions_ sv) ∧
    publisher_ sv' = publisher_ sv ∧ tx (s_conn s') = [] ++ bs ∧
    frame_reports e 1 bs ∧ out_seq (s_conn s') = u32 (1 + 1) ∧ s_dirty s' = true.
Proof.
  intros e sv. apply (event_reaches_session sv e demo_session); [discriminate|discriminate|split; simpl; unfold kNoPrice; lia|reflexivity|simpl; lia].
Defined.
