(* ===== verification/Threads.v ===== *)
(** [include/matchbox/engine_thread.hpp]: the engine on its own thread between
    two queues, and the two places where the network thread touches them
    ([Server::submit] and [Server::drain_engine] of [src/server.cpp]).

    The state has one program counter per thread.  A move is one atomic access
    to a queue ([Spsc.act]), or a step inside one thread.  [Engine::process]
    runs as one move that leaves the events for [on_event] to push: the engine
    is private to its thread, so the pushes are all another thread can see. *)
From S2P Require Import Prelude Types Pool Book Engine Process EngineFacts Spsc.

(** [Command{}] and [Event{}], the initial contents of the slots. *)
Definition Command_default : Command := mkCommand CmdNew Buy Limit GTC 0 0 0 0 0 0.
Definition Event_default : Event :=
  mkEvent EvAccepted Buy RNone false 0 0 0 0 0 0 0 TopOfBook_default 0.

(** Inside [submit(c)], or anywhere else. *)
Inductive NetPc := NFree | NSubmit (c : Command).

(** The engine thread: not running, in [loop], or inside [process] with the
    calls of [on_event] still to be made. *)
Inductive EnginePc := EExited | ELoop | EEmit (evs : list Event).

Record Threads := mkThreads {
  inbox_ : Sys Command; outbox_ : Sys Event; engine_ : Engine; stop_ : bool;
  net_pc : NetPc; engine_pc : EnginePc }.

Definition set_inbox (q : Sys Command) (s : Threads) : Threads :=
  mkThreads q (outbox_ s) (engine_ s) (stop_ s) (net_pc s) (engine_pc s).
Definition set_outbox (q : Sys Event) (s : Threads) : Threads :=
  mkThreads (inbox_ s) q (engine_ s) (stop_ s) (net_pc s) (engine_pc s).
Definition set_engine (e : Engine) (s : Threads) : Threads :=
  mkThreads (inbox_ s) (outbox_ s) e (stop_ s) (net_pc s) (engine_pc s).
Definition set_stop (b : bool) (s : Threads) : Threads :=
  mkThreads (inbox_ s) (outbox_ s) (engine_ s) b (net_pc s) (engine_pc s).
Definition set_net (p : NetPc) (s : Threads) : Threads :=
  mkThreads (inbox_ s) (outbox_ s) (engine_ s) (stop_ s) p (engine_pc s).
Definition set_epc (p : EnginePc) (s : Threads) : Threads :=
  mkThreads (inbox_ s) (outbox_ s) (engine_ s) (stop_ s) (net_pc s) p.

(** [EngineThread::EngineThread] *)
Definition EngineThread_init (cfg : Config) (ring_log2 : Z) : Threads :=
  mkThreads (sys_init Command_default ring_log2) (sys_init Event_default (ring_log2 + 2))
    (Engine_init cfg []) true NFree EExited.

(** [EngineThread::start]; a second [start] would assign a joinable thread. *)
Definition start (s : Threads) : option Threads :=
  match engine_pc s with
  | EExited => Some (set_epc ELoop (set_stop false s))
  | _ => None
  end.

(** [EngineThread::stop] up to the join, which returns in [EExited]. *)
Definition request_stop (s : Threads) : Threads := set_stop true s.

(** ** The network thread *)
Inductive NetMove :=
  | Submit (c : Command) | SubmitCheck (n : nat) | SubmitWrite | SubmitPublish
  | DrainCheck (n : nat) | DrainRead | DrainPublish.

(** [submit]: one [try_push] after the other until one succeeds. *)
Definition submit_act (a : Command → Action) (s : Threads) : option Threads :=
  match net_pc s with
  | NSubmit c => q ← act (a c) (inbox_ s); Some (set_inbox q s)
  | NFree => None
  end.

(** [drain_engine]: [try_pop]s of the outbox, outside [submit]. *)
Definition drain_act (a : Action) (s : Threads) : option Threads :=
  match net_pc s with
  | NFree => q ← act a (outbox_ s); Some (set_outbox q s)
  | NSubmit _ => None
  end.

Definition net_move (m : NetMove) (s : Threads) : option Threads :=
  match m with
  | Submit c =>
      match net_pc s, cons (outbox_ s) with
      | NFree, CIdle => Some (set_net (NSubmit c) s)
      | _, _ => None
      end
  | SubmitCheck n => submit_act (λ c, APushCheck c n) s
  | SubmitWrite => submit_act (λ _, APushWrite) s
  | SubmitPublish => set_net NFree <$> submit_act (λ _, APushPublish) s
  | DrainCheck n => drain_act (APopCheck n) s
  | DrainRead => drain_act APopRead s
  | DrainPublish => drain_act APopPublish s
  end.

(** ** The engine thread *)
Inductive EngineMove :=
  | LoopExit | LoopCheck (n : nat) | LoopRead | LoopPop (now : Z)
  | EmitCheck (n : nat) | EmitWrite | EmitPublish | EmitDone.

(** [loop]: a piece of [inbox_.try_pop(c)]. *)
Definition loop_act (a : Action) (s : Threads) : option Threads :=
  match engine_pc s with
  | ELoop => q ← act a (inbox_ s); Some (set_inbox q s)
  | _ => None
  end.

(** [engine_.process(c)] after a successful [try_pop]: the events it hands to
    [on_event] are the ones it adds to the engine's sink; [now_ns] is 64 bits wide. *)
Definition engine_process (now : Z) (c : Command) (s : Threads) : option Threads :=
  e ← process (u64 now) c (engine_ s);
  Some (set_epc (EEmit (drop (length (sink_ (engine_ s))) (sink_ e))) (set_engine e s)).

(** [on_event]: a piece of [outbox_.try_push(e)] for the first event left. *)
Definition emit_act (a : Event → Action) (s : Threads) : option Threads :=
  match engine_pc s with
  | EEmit (ev :: _) => q ← act (a ev) (outbox_ s); Some (set_outbox q s)
  | _ => None
  end.

(** [on_event] returns to [process]. *)
Definition next_event (s : Threads) : Threads :=
  match engine_pc s with
  | EEmit (_ :: evs) => set_epc (EEmit evs) s
  | _ => s
  end.

Definition engine_move (m : EngineMove) (s : Threads) : option Threads :=
  match m with
  | LoopExit =>
      match engine_pc s, cons (inbox_ s) with
      | ELoop, CIdle => if stop_ s then Some (set_epc EExited s) else None
      | _, _ => None
      end
  | LoopCheck n => loop_act (APopCheck n) s
  | LoopRead => loop_act APopRead s
  | LoopPop now =>
      match cons (inbox_ s) with
      | CStore c => s ← loop_act APopPublish s; engine_process now c s
      | _ => None
      end
  | EmitCheck n => emit_act (λ ev, APushCheck ev n) s
  | EmitWrite => emit_act (λ _, APushWrite) s
  | EmitPublish => next_event <$> emit_act (λ _, APushPublish) s
  | EmitDone => match engine_pc s with EEmit [] => Some (set_epc ELoop s) | _ => None end
  end.

(** ** Interleavings

    The gateway submits decoded commands only, whose fields are at their widths. *)
Definition submits_ok (m : NetMove) : Prop :=
  match m with Submit c => command_ok c | _ => True end.

Inductive tstep : Threads → Threads → Prop :=
  | t_start s s' : start s = Some s' → tstep s s'
  | t_stop s : tstep s (request_stop s)
  | t_net m s s' : submits_ok m → net_move m s = Some s' → tstep s s'
  | t_engine m s s' : engine_move m s = Some s' → tstep s s'.

(** The states the two threads can reach. *)
Definition threads_reach (cfg : Config) (k : Z) (s : Threads) : Prop := rtc tstep (EngineThread_init cfg k) s.

(** The events [on_event] has not pushed yet. *)
Definition unemitted (s : Threads) : list Event :=
  match engine_pc s with EEmit evs => evs | _ => [] end.

(** ** What one access to a queue does to its history *)
Definition effect {T} (a : Action) (s s' : Sys T) : Prop :=
  match a with
  | APushCheck v _ => prod s = PIdle ∧ (prod s' = PIdle ∨ prod s' = PWrite v) ∧
      cons s' = cons s ∧ pushed s' = pushed s ∧ popped s' = popped s
  | APushWrite => ∃ v, prod s = PWrite v ∧ prod s' = PStore v ∧
      cons s' = cons s ∧ pushed s' = pushed s ∧ popped s' = popped s
  | APushPublish => ∃ v, prod s = PStore v ∧ prod s' = PIdle ∧
      cons s' = cons s ∧ pushed s' = pushed s ++ [v] ∧ popped s' = popped s
  | APopCheck _ => cons s = CIdle ∧ (cons s' = CIdle ∨ cons s' = CRead) ∧
      prod s' = prod s ∧ pushed s' = pushed s ∧ popped s' = popped s
  | APopRead => (∃ v, cons s' = CStore v) ∧
      prod s' = prod s ∧ pushed s' = pushed s ∧ popped s' = popped s
  | APopPublish => ∃ v, cons s = CStore v ∧ cons s' = CIdle ∧
      prod s' = prod s ∧ pushed s' = pushed s ∧ popped s' = popped s ++ [v]
  end.

Lemma act_effect {T} (a : Action) (s s' : Sys T) : act a s = Some s' → effect a s s'.
Proof.
  destruct s as [q p c l o kp kc]. destruct a, p, c; simpl; try done;
    repeat case_bool_decide; try done; intros E;
    try (destruct (push_check _ _) as [q' []] eqn:Eq); try (destruct (pop_check _ _) as [q' []] eqn:Eq);
    try (apply bind_Some in E as (x & Ex & E)); injection E as <-; simpl; naive_solver.
Qed.

Lemma act_ok {T} k (a : Action) (s s' : Sys T) : sys_ok k s → act a s = Some s' → sys_ok k s'.
Proof. intros H E. eapply step_ok; [done|by eapply act_step]. Qed.

(** ** The invariant of the two threads *)
Record threads_ok (cfg : Config) (k : Z) (s : Threads) : Prop := {
  to_in : sys_ok k (inbox_ s);
  to_out : sys_ok (k + 2) (outbox_ s);
  to_cmds : Forall command_ok (pushed (inbox_ s));
  to_net : ∀ c, net_pc s = NSubmit c → command_ok c;
  to_submit : ∀ c, prod (inbox_ s) = PWrite c ∨ prod (inbox_ s) = PStore c → net_pc s = NSubmit c;
  to_emit : ∀ ev, prod (outbox_ s) = PWrite ev ∨ prod (outbox_ s) = PStore ev →
    hd_error (unemitted s) = Some ev;
  to_loop : cons (inbox_ s) ≠ CIdle → engine_pc s = ELoop;
  to_drain : cons (outbox_ s) ≠ CIdle → net_pc s = NFree;
  to_run : ∃ cs, (cs.*2 = popped (inbox_ s) ∧ Forall (λ nc, 0 ≤ fst nc < 2 ^ 64) cs) ∧ run cs (Engine_init cfg []) = Some (engine_ s);
  to_reach : reachable cfg (engine_ s);
  to_sink : sink_ (engine_ s) = pushed (outbox_ s) ++ unemitted s }.

Lemma run_snoc cs now c e e1 : run cs e = Some e1 → run (cs ++ [(now, c)]) e = process now c e1.
Proof.
  revert e. induction cs as [|[n d] cs IH]; intros e E; simpl in *.
  - inv_some. by destruct (process now c e1).
  - apply bind_Some in E as (e2 & -> & E). simpl. by apply IH.
Qed.

Lemma threads_init cfg k : 0 ≤ k < 62 → config_ok cfg → threads_ok cfg k (EngineThread_init cfg k).
Proof.
  intros Hk Hc. split; simpl; try done.
  - apply sys_init_ok. lia.
  - apply sys_init_ok. lia.
  - naive_solver.
  - naive_solver.
  - by exists [].
  - by constructor.
Qed.

(** Accesses that leave the histories the invariant speaks of alone. *)
Lemma inbox_quiet cfg k s q :
  threads_ok cfg k s → sys_ok k q → pushed q = pushed (inbox_ s) → popped q = popped (inbox_ s) →
  (∀ c, prod q = PWrite c ∨ prod q = PStore c → net_pc s = NSubmit c) →
  (cons q ≠ CIdle → engine_pc s = ELoop) → threads_ok cfg k (set_inbox q s).
Proof. intros [] Hq Hl Ho Hp Hc. split; simpl; rewrite ?Hl, ?Ho; done. Qed.

Lemma outbox_quiet cfg k s q :
  threads_ok cfg k s → sys_ok (k + 2) q → pushed q = pushed (outbox_ s) →
  (∀ ev, prod q = PWrite ev ∨ prod q = PStore ev → hd_error (unemitted s) = Some ev) →
  (cons q ≠ CIdle → net_pc s = NFree) → threads_ok cfg k (set_outbox q s).
Proof. intros [] Hq Hl Hp Hc. split; simpl; rewrite ?Hl; done. Qed.

Lemma inbox_pop_quiet cfg k s a q :
  threads_ok cfg k s → engine_pc s = ELoop → (∃ n, a = APopCheck n) ∨ a = APopRead →
  act a (inbox_ s) = Some q → threads_ok cfg k (set_inbox q s).
Proof.
  intros H En Ha E. pose proof (act_effect _ _ _ E) as F.
  assert (pushed q = pushed (inbox_ s) ∧ popped q = popped (inbox_ s) ∧ prod q = prod (inbox_ s)) as (El & Eo & Ep).
  { destruct Ha as [[n ->]| ->]; simpl in F; naive_solver. }
  apply inbox_quiet; try done; [by eapply act_ok, E; apply H|]. rewrite Ep. apply H.
Qed.

Lemma outbox_pop_quiet cfg k s a q :
  threads_ok cfg k s → net_pc s = NFree → (∃ n, a = APopCheck n) ∨ a = APopRead ∨ a = APopPublish →
  act a (outbox_ s) = Some q → threads_ok cfg k (set_outbox q s).
Proof.
  intros H En Ha E. pose proof (act_effect _ _ _ E) as F.
  assert (pushed q = pushed (outbox_ s) ∧ prod q = prod (outbox_ s)) as [El Ep].
  { destruct Ha as [[n ->]|[-> | ->]]; simpl in F; naive_solver. }
  apply outbox_quiet; try done; [by eapply act_ok, E; apply H|]. rewrite Ep. apply H.
Qed.

Lemma submit_ok cfg k s c : threads_ok cfg k s → net_pc s = NFree → cons (outbox_ s) = CIdle →
  command_ok c → threads_ok cfg k (set_net (NSubmit c) s).
Proof.
  intros [] En Ec Hc. split; simpl; try done; [congruence|].
  intros d Hd. pose proof (to_submit0 d Hd). congruence.
Qed.

Lemma submit_publish_ok cfg k s c q :
  threads_ok cfg k s → net_pc s = NSubmit c → act APushPublish (inbox_ s) = Some q →
  threads_ok cfg k (set_net NFree (set_inbox q s)).
Proof.
  intros H En E. destruct (act_effect _ _ _ E) as (v & Ep & Ep' & Ec & El & Eo).
  pose proof (to_submit _ _ _ H v (or_intror Ep)) as Ev. rewrite En in Ev. injection Ev as <-.
  pose proof (to_net _ _ _ H _ En) as Hc. pose proof (act_ok _ _ _ _ (to_in _ _ _ H) E).
  destruct H. split; simpl; rewrite ?Ep', ?El, ?Eo, ?Ec; try done.
  - apply Forall_app. auto.
  - by intros d [|].
Qed.

Lemma submit_piece_ok cfg k s c a q :
  threads_ok cfg k s → net_pc s = NSubmit c → (∃ n, a = APushCheck c n) ∨ a = APushWrite →
  act a (inbox_ s) = Some q → threads_ok cfg k (set_inbox q s).
Proof.
  intros H En Ha E. pose proof (act_effect _ _ _ E) as F.
  assert (pushed q = pushed (inbox_ s) ∧ popped q = popped (inbox_ s) ∧ cons q = cons (inbox_ s)) as (El & Eo & Ec).
  { destruct Ha as [[n ->]| ->]; simpl in F; naive_solver. }
  apply inbox_quiet; try done; [by eapply act_ok, E; apply H| |rewrite Ec; apply H].
  destruct Ha as [[n ->]| ->]; simpl in F.
  - destruct F as (_ & [Ep|Ep] & _); rewrite Ep; intros d [|]; congruence.
  - destruct F as (v & Ep & Ep' & _). rewrite Ep'. intros d [|]; [done|].
    apply (to_submit _ _ _ H). left. congruence.
Qed.

Lemma net_move_ok cfg k m s s' :
  threads_ok cfg k s → submits_ok m → net_move m s = Some s' → threads_ok cfg k s'.
Proof.
  intros H Hm E. destruct m; simpl in E, Hm; unfold submit_act, drain_act in E;
    destruct (net_pc s) as [|d] eqn:En; try done;
    try (inv_bind E; inv_some);
    try (eapply (outbox_pop_quiet _ _ _ _ _ H En); [|eassumption]; by eauto);
    try (eapply (submit_piece_ok _ _ _ _ _ _ H En); [|eassumption]; by eauto).
  - destruct (cons (outbox_ s)) eqn:Ec; try done. inv_some. by apply submit_ok.
  - apply fmap_Some in E as (s1 & E & ->). apply bind_Some in E as (q & Eq & E). inv_some.
    by eapply submit_publish_ok.
Qed.

(** *** The engine's side *)
Lemma emit_piece_ok cfg k s ev evs a q :
  threads_ok cfg k s → engine_pc s = EEmit (ev :: evs) → (∃ n, a = APushCheck ev n) ∨ a = APushWrite →
  act a (outbox_ s) = Some q → threads_ok cfg k (set_outbox q s).
Proof.
  intros H En Ha E. pose proof (act_effect _ _ _ E) as F.
  assert (pushed q = pushed (outbox_ s) ∧ cons q = cons (outbox_ s)) as (El & Ec).
  { destruct Ha as [[n ->]| ->]; simpl in F; naive_solver. }
  apply outbox_quiet; try done; [by eapply act_ok, E; apply H| |rewrite Ec; apply H].
  destruct Ha as [[n ->]| ->]; simpl in F.
  - destruct F as (_ & [Ep|Ep] & _); rewrite Ep; intros d [|]; unfold unemitted; rewrite En; simpl; congruence.
  - destruct F as (v & Ep & Ep' & _). rewrite Ep'. intros d [|]; [done|].
    apply (to_emit _ _ _ H). left. congruence.
Qed.

Lemma emit_publish_ok cfg k s ev evs q :
  threads_ok cfg k s → engine_pc s = EEmit (ev :: evs) → act APushPublish (outbox_ s) = Some q →
  threads_ok cfg k (set_epc (EEmit evs) (set_outbox q s)).
Proof.
  intros H En E. destruct (act_effect _ _ _ E) as (v & Ep & Ep' & Ec & El & Eo).
  pose proof (to_emit _ _ _ H v (or_intror Ep)) as Ev. unfold unemitted in Ev. rewrite En in Ev.
  injection Ev as <-. pose proof (act_ok _ _ _ _ (to_out _ _ _ H) E).
  destruct H. split; simpl; rewrite ?Ep', ?El, ?Ec; try done.
  - by intros d [|].
  - intros Hc. pose proof (to_loop0 Hc). congruence.
  - rewrite to_sink0. unfold unemitted. simpl. rewrite En, <- app_assoc. done.
Qed.

(** A popped command was submitted. *)
Lemma popped_command_ok k s c :
  sys_ok k s → Forall command_ok (pushed s) → cons s = CStore c → command_ok c.
Proof.
  intros [_ _ _ HC] Hf Ec. rewrite Ec in HC. destruct HC as [_ Hl]. by eapply Forall_lookup_1.
Qed.

(** The pop is published, the command runs, and its events wait for [on_event]. *)
Lemma loop_pop_ok cfg k s c now q :
  threads_ok cfg k s → engine_pc s = ELoop → cons (inbox_ s) = CStore c →
  act APopPublish (inbox_ s) = Some q →
  ∃ s', engine_process now c (set_inbox q s) = Some s' ∧ threads_ok cfg k s'.
Proof.
  intros H En Ec E. destruct (act_effect _ _ _ E) as (v & Ev & Ec' & Ep & El & Eo).
  rewrite Ec in Ev. injection Ev as <-. pose proof (act_ok _ _ _ _ (to_in _ _ _ H) E) as Hq.
  pose proof (popped_command_ok _ _ _ (to_in _ _ _ H) (to_cmds _ _ _ H) Ec) as Hc.
  destruct (reachable_step _ _ (u64 now) c (to_reach _ _ _ H) Hc) as (e' & Ee & Hr & Hs).
  unfold engine_process. simpl. rewrite Ee. simpl. eexists. split; [done|].
  assert (unemitted s = []) as Hu by (unfold unemitted; by rewrite En).
  destruct H as [Hin Hout Hcmds Hnet Hsub Hemit _ Hdr (cs & [Ecs Hcl] & Erun) Hre Hsink].
  rewrite Hu, app_nil_r in Hsink. split; simpl; rewrite ?El, ?Ep, ?Eo, ?Ec'; try done.
  - intros ev Hev. pose proof (Hemit ev Hev) as Hh. rewrite Hu in Hh. done.
  - exists (cs ++ [(u64 now, c)]). split; [|by erewrite run_snoc]. split; [by rewrite fmap_app, Ecs|].
    apply Forall_app. split; [done|]. apply Forall_singleton. apply u64_range.
  - unfold unemitted. simpl. rewrite (so_sink _ _ _ _ Hs), drop_app_length. by rewrite Hsink.
Qed.

Lemma set_epc_ok cfg k s p :
  threads_ok cfg k s → unemitted s = [] → unemitted (set_epc p s) = [] →
  p = ELoop ∨ cons (inbox_ s) = CIdle → threads_ok cfg k (set_epc p s).
Proof.
  intros [] Hu Hu' Hp. split; simpl; try done; [rewrite Hu'| |by rewrite Hu', to_sink0, Hu].
  - intros ev Hev. pose proof (to_emit0 ev Hev) as Hh. by rewrite Hu in Hh.
  - by destruct Hp as [-> | ->].
Qed.

Lemma engine_move_ok cfg k m s s' :
  threads_ok cfg k s → engine_move m s = Some s' → threads_ok cfg k s'.
Proof.
  intros H E. destruct m; simpl in E; unfold loop_act, emit_act in E;
    destruct (engine_pc s) as [| |[|ev evs]] eqn:En; try done;
    try (inv_bind E; inv_some);
    try (eapply (inbox_pop_quiet _ _ _ _ _ H En); [|eassumption]; by eauto);
    try (eapply (emit_piece_ok _ _ _ _ _ _ _ H En); [|eassumption]; by eauto);
    try by destruct (cons (inbox_ s)).
  - destruct (cons (inbox_ s)) eqn:Ec, (stop_ s); try done. inv_some.
    apply set_epc_ok; auto. unfold unemitted. by rewrite En.
  - destruct (cons (inbox_ s)) as [| |c] eqn:Ec; try done.
    apply bind_Some in E as (s1 & E1 & E). apply bind_Some in E1 as (q & Eq & E1). inv_some.
    destruct (loop_pop_ok _ _ _ _ now _ H En Ec Eq) as (s2 & E2 & H2). congruence.
  - apply fmap_Some in E as (s1 & E & ->). apply bind_Some in E as (q & Eq & E). inv_some.
    unfold next_event. simpl. rewrite En. by eapply emit_publish_ok.
  - inv_some. apply set_epc_ok; auto. unfold unemitted. by rewrite En.
Qed.

Lemma tstep_ok cfg k s s' : threads_ok cfg k s → tstep s s' → threads_ok cfg k s'.
Proof.
  intros H Hs. destruct Hs as [s s' E|s|m s s' Hm E|m s s' E].
  - unfold start in E. destruct (engine_pc s) eqn:En; try done. inv_some.
    assert (threads_ok cfg k (set_stop false s)) as H1 by (destruct H; by split).
    apply set_epc_ok; auto. unfold unemitted. simpl. by rewrite En.
  - destruct H. by split.
  - by eapply net_move_ok.
  - by eapply engine_move_ok.
Qed.

Lemma threads_reach_ok cfg k s : 0 ≤ k < 62 → config_ok cfg → threads_reach cfg k s → threads_ok cfg k s.
Proof.
  intros Hk Hc. unfold threads_reach. pose proof (threads_init cfg k Hk Hc) as H0. revert H0.
  generalize (EngineThread_init cfg k) as s0. intros s0 H0 H. induction H; eauto using tstep_ok.
Qed.
