(* ===== verification/Liveness.v ===== *)
(** When the two threads of [Threads] make progress: an operation whose queue
    has room, or a value, completes by moves of its own thread, so the pair
    stops only if both queues are full while each thread waits for room. *)
From S2P Require Import Prelude Types Pool Book Engine Process EngineFacts Spsc Threads.

(** ** Queue operations up to their last access *)
Definition pushing {T} (v : T) (a : @Action T) : Prop := (∃ n, a = APushCheck v n) ∨ a = APushWrite.
Definition popping {T} (a : @Action T) : Prop := (∃ n, a = APopCheck n) ∨ a = APopRead.
Definition qstep {T} (P : @Action T → Prop) (s s' : Sys T) : Prop := ∃ a, P a ∧ act a s = Some s'.

Definition has_room {T} (k : Z) (s : Sys T) : Prop :=
  Z.of_nat (length (pushed s)) < Z.of_nat (length (popped s)) + 2 ^ k.
Definition has_value {T} (s : Sys T) : Prop := (length (popped s) < length (pushed s))%nat.

(** Only the position of the producer, or of the consumer, may differ. *)
Definition same_but_prod {T} (s s' : Sys T) : Prop :=
  cons s' = cons s ∧ pushed s' = pushed s ∧ popped s' = popped s.
Definition same_but_cons {T} (s s' : Sys T) : Prop :=
  prod s' = prod s ∧ pushed s' = pushed s ∧ popped s' = popped s.

Lemma push_check_passes {T} k (s : Sys T) v :
  sys_ok k s → has_room k s → prod s = PIdle →
  ∃ s', act (APushCheck v (length (popped s))) s = Some s' ∧ prod s' = PWrite v ∧ same_but_prod s s'.
Proof.
  intros [HQ _ _ _] Hr Ep. destruct s as [q p c l o kp kc]. simpl in *. subst p. unfold has_room in Hr. simpl in Hr.
  destruct (qo_order _ _ _ _ _ _ HQ) as [Hord _]. rewrite bool_decide_true by lia.
  destruct (push_check (index (length o)) q) as [q' ok] eqn:E.
  destruct (push_check_ok _ _ _ _ _ _ (length o) q' ok HQ ltac:(lia) E) as (HQ' & _ & Hok).
  destruct (qo_order _ _ _ _ _ _ HQ') as [_ Hle]. assert (ok = true) as ->; [|by eexists].
  destruct ok; [done|]. destruct (looks_full q) eqn:Ef; [lia|]. unfold push_check in E. rewrite Ef in E. congruence.
Qed.

Lemma push_write_passes {T} k (s : Sys T) v :
  sys_ok k s → prod s = PWrite v →
  ∃ s', act APushWrite s = Some s' ∧ prod s' = PStore v ∧ same_but_prod s s'.
Proof.
  intros [HQ _ HP _] Ep. destruct s as [q p c l o kp kc]. simpl in *. subst p.
  destruct (push_write_ok _ _ _ _ _ _ v HQ HP) as (q' & E & _). rewrite E. by eexists.
Qed.

Lemma pop_check_passes {T} k (s : Sys T) :
  sys_ok k s → has_value s → cons s = CIdle →
  ∃ s', act (APopCheck (length (pushed s))) s = Some s' ∧ cons s' = CRead ∧ same_but_cons s s'.
Proof.
  intros [HQ _ _ _] Hv Ec. destruct s as [q p c l o kp kc]. simpl in *. subst c. unfold has_value in Hv. simpl in Hv.
  destruct (qo_order _ _ _ _ _ _ HQ) as [Hord _]. rewrite bool_decide_true by lia.
  destruct (pop_check (index (length l)) q) as [q' ok] eqn:E.
  destruct (pop_check_ok _ _ _ _ _ _ (length l) q' ok HQ ltac:(lia) E) as (_ & _ & Hok).
  assert (ok = true) as ->; [|eexists; by destruct p].
  destruct ok; [done|]. destruct (head_ q =? cached_tail_ q) eqn:Eh; [lia|].
  unfold pop_check in E. rewrite Eh in E. congruence.
Qed.

Lemma pop_read_passes {T} k (s : Sys T) :
  sys_ok k s → cons s = CRead → ∃ s' v, act APopRead s = Some s' ∧ cons s' = CStore v ∧ same_but_cons s s'.
Proof.
  intros [HQ _ _ HC] Ec. destruct s as [q p c l o kp kc]. simpl in *. subst c.
  destruct (pop_read_ok _ _ _ _ _ _ HQ HC) as (v & _ & E). rewrite E. eexists _, v. by destruct p.
Qed.

Lemma push_ready {T} k (s : Sys T) v :
  sys_ok k s → has_room k s → prod s = PIdle ∨ prod s = PWrite v ∨ prod s = PStore v →
  ∃ s', rtc (qstep (pushing v)) s s' ∧ prod s' = PStore v ∧ same_but_prod s s'.
Proof.
  intros Hs Hr [Ep|[Ep|Ep]].
  - destruct (push_check_passes _ _ v Hs Hr Ep) as (s1 & E1 & Ep1 & Hc1 & Hl1 & Ho1).
    destruct (push_write_passes _ _ _ (act_ok _ _ _ _ Hs E1) Ep1) as (s2 & E2 & Ep2 & Hc2 & Hl2 & Ho2).
    exists s2. split; [|split; [done|split_and!; congruence]].
    eapply rtc_l; [|eapply rtc_once]; eexists; (split; [|done]); [left; by eexists|by right].
  - destruct (push_write_passes _ _ _ Hs Ep) as (s2 & E2 & Ep2 & Hb2). exists s2. split; [|done].
    apply rtc_once. eexists. split; [|done]. by right.
  - by exists s.
Qed.

Lemma pop_ready {T} k (s : Sys T) :
  sys_ok k s → has_value s →
  ∃ s' v, rtc (qstep popping) s s' ∧ cons s' = CStore v ∧ same_but_cons s s'.
Proof.
  intros Hs Hv. destruct (cons s) as [| |v] eqn:Ec.
  - destruct (pop_check_passes _ _ Hs Hv Ec) as (s1 & E1 & Ec1 & Hp1 & Hl1 & Ho1).
    destruct (pop_read_passes _ _ (act_ok _ _ _ _ Hs E1) Ec1) as (s2 & v & E2 & Ec2 & Hp2 & Hl2 & Ho2).
    exists s2, v. split; [|split; [done|split_and!; congruence]].
    eapply rtc_l; [|eapply rtc_once]; eexists; (split; [|done]); [left; by eexists|by right].
  - destruct (pop_read_passes _ _ Hs Ec) as (s2 & v & E2 & Ec2 & Hb2). exists s2, v. split; [|done].
    apply rtc_once. eexists. split; [|done]. by right.
  - by exists s, v.
Qed.

(** The last access of an operation. *)
Lemma publish_push {T} (s : Sys T) v :
  prod s = PStore v → ∃ s', act APushPublish s = Some s' ∧ prod s' = PIdle ∧
    cons s' = cons s ∧ pushed s' = pushed s ++ [v] ∧ popped s' = popped s.
Proof. destruct s as [q p c l o kp kc]. simpl. intros ->. by eexists. Qed.

Lemma publish_pop {T} (s : Sys T) v :
  cons s = CStore v → ∃ s', act APopPublish s = Some s' ∧ cons s' = CIdle ∧
    prod s' = prod s ∧ pushed s' = pushed s ∧ popped s' = popped s ++ [v].
Proof. destruct s as [q p c l o kp kc]. simpl. intros ->. eexists. by destruct p. Qed.

(** ** Lifted to the threads *)
Lemma lift_submit s c q :
  net_pc s = NSubmit c → rtc (qstep (pushing c)) (inbox_ s) q → rtc tstep s (set_inbox q s).
Proof.
  intros En H. remember (inbox_ s) as q0 eqn:E0. revert s En E0.
  induction H as [q|q q1 q2 (a & Ha & Ea) H IH]; intros s En ->; [by destruct s|].
  eapply rtc_l; [|apply (IH (set_inbox q1 s)); done].
  destruct Ha as [[n ->]| ->]; [apply (t_net (SubmitCheck n))|apply (t_net SubmitWrite)]; try done;
    simpl; unfold submit_act; by rewrite En, Ea.
Qed.

(** What the engine thread does on its own. *)
Definition estep (s s' : Threads) : Prop := ∃ m, engine_move m s = Some s'.

Lemma esteps_tsteps s s' : rtc estep s s' → rtc tstep s s'.
Proof. induction 1 as [|s s1 s' [m E] _ IH]; [done|]. eapply rtc_l; [by eapply t_engine|done]. Qed.

Lemma lift_emit s ev evs q :
  engine_pc s = EEmit (ev :: evs) → rtc (qstep (pushing ev)) (outbox_ s) q → rtc estep s (set_outbox q s).
Proof.
  intros En H. remember (outbox_ s) as q0 eqn:E0. revert s En E0.
  induction H as [q|q q1 q2 (a & Ha & Ea) H IH]; intros s En ->; [by destruct s|].
  eapply rtc_l; [|apply (IH (set_outbox q1 s)); done].
  destruct Ha as [[n ->]| ->]; [exists (EmitCheck n)|exists EmitWrite]; simpl; unfold emit_act; by rewrite En, Ea.
Qed.

Lemma lift_loop s q :
  engine_pc s = ELoop → rtc (qstep popping) (inbox_ s) q → rtc tstep s (set_inbox q s).
Proof.
  intros En H. remember (inbox_ s) as q0 eqn:E0. revert s En E0.
  induction H as [q|q q1 q2 (a & Ha & Ea) H IH]; intros s En ->; [by destruct s|].
  eapply rtc_l; [|apply (IH (set_inbox q1 s)); done].
  destruct Ha as [[n ->]| ->]; [apply (t_engine (LoopCheck n))|apply (t_engine LoopRead)];
    simpl; unfold loop_act; by rewrite En, Ea.
Qed.

Lemma lift_drain s q :
  net_pc s = NFree → rtc (qstep popping) (outbox_ s) q → rtc tstep s (set_outbox q s).
Proof.
  intros En H. remember (outbox_ s) as q0 eqn:E0. revert s En E0.
  induction H as [q|q q1 q2 (a & Ha & Ea) H IH]; intros s En ->; [by destruct s|].
  eapply rtc_l; [|apply (IH (set_outbox q1 s)); done].
  destruct Ha as [[n ->]| ->]; [apply (t_net (DrainCheck n))|apply (t_net DrainRead)]; try done;
    simpl; unfold drain_act; by rewrite En, Ea.
Qed.

(** ** Whole operations *)
Lemma submit_completes cfg k s c :
  threads_ok cfg k s → net_pc s = NSubmit c → has_room k (inbox_ s) →
  ∃ q, rtc tstep s (set_net NFree (set_inbox q s)) ∧ prod q = PIdle ∧ cons q = cons (inbox_ s) ∧
    pushed q = pushed (inbox_ s) ++ [c] ∧ popped q = popped (inbox_ s).
Proof.
  intros H En Hr. destruct (push_ready k (inbox_ s) c (to_in _ _ _ H) Hr) as (q1 & R1 & Ep1 & Ec1 & El1 & Eo1).
  { pose proof (to_submit _ _ _ H) as Hs. destruct (prod (inbox_ s)) as [|d|d]; [by left|right..];
      specialize (Hs d ltac:(auto)); assert (d = c) as -> by congruence; auto. }
  destruct (publish_push q1 c Ep1) as (q & Eq & Ep & Ec & El & Eo). exists q.
  split; [|split_and!; congruence]. eapply rtc_r; [by apply (lift_submit s c)|].
  apply (t_net SubmitPublish); [done|]. simpl. unfold submit_act. simpl. by rewrite En, Eq.
Qed.

Lemma emit_alone cfg k s ev evs :
  threads_ok cfg k s → engine_pc s = EEmit (ev :: evs) → has_room (k + 2) (outbox_ s) →
  ∃ q, rtc estep s (set_epc (EEmit evs) (set_outbox q s)) ∧ prod q = PIdle ∧ cons q = cons (outbox_ s) ∧
    pushed q = pushed (outbox_ s) ++ [ev] ∧ popped q = popped (outbox_ s).
Proof.
  intros H En Hr. destruct (push_ready _ (outbox_ s) ev (to_out _ _ _ H) Hr) as (q1 & R1 & Ep1 & Ec1 & El1 & Eo1).
  { pose proof (to_emit _ _ _ H) as Hs. unfold unemitted in Hs. rewrite En in Hs. simpl in Hs.
    destruct (prod (outbox_ s)) as [|d|d]; [by left|right..];
      specialize (Hs d ltac:(auto)); assert (d = ev) as -> by congruence; auto. }
  destruct (publish_push q1 ev Ep1) as (q & Eq & Ep & Ec & El & Eo). exists q.
  split; [|split_and!; congruence]. eapply rtc_r; [by apply (lift_emit s ev evs)|].
  exists EmitPublish. simpl. unfold emit_act. simpl. rewrite En, Eq. simpl.
  unfold next_event. simpl. by rewrite En.
Qed.

Lemma emit_completes cfg k s ev evs :
  threads_ok cfg k s → engine_pc s = EEmit (ev :: evs) → has_room (k + 2) (outbox_ s) →
  ∃ q, rtc tstep s (set_epc (EEmit evs) (set_outbox q s)) ∧ prod q = PIdle ∧ cons q = cons (outbox_ s) ∧
    pushed q = pushed (outbox_ s) ++ [ev] ∧ popped q = popped (outbox_ s).
Proof. intros H En Hr. destruct (emit_alone _ _ _ _ _ H En Hr) as (q & R%esteps_tsteps & Hq). eauto. Qed.

Lemma loop_completes cfg k s now :
  threads_ok cfg k s → engine_pc s = ELoop → has_value (inbox_ s) →
  ∃ q c s', rtc tstep s s' ∧ engine_process now c (set_inbox q s) = Some s' ∧ cons q = CIdle ∧
    prod q = prod (inbox_ s) ∧ pushed q = pushed (inbox_ s) ∧ popped q = popped (inbox_ s) ++ [c].
Proof.
  intros H En Hv. destruct (pop_ready k (inbox_ s) (to_in _ _ _ H) Hv) as (q1 & c & R1 & Ec1 & Ep1 & El1 & Eo1).
  pose proof (lift_loop _ _ En R1) as R. assert (threads_ok cfg k (set_inbox q1 s)) as H1.
  { clear -H R. remember (set_inbox q1 s) as s1. clear Heqs1. induction R; eauto using tstep_ok. }
  destruct (publish_pop q1 c Ec1) as (q & Eq & Ec & Ep & El & Eo).
  destruct (loop_pop_ok _ _ _ c now q H1 En Ec1 Eq) as (s' & Es' & _).
  exists q, c, s'. split; [|split_and!; try done; congruence]. eapply rtc_r; [exact R|].
  apply (t_engine (LoopPop now)). simpl. rewrite Ec1. unfold loop_act. simpl. rewrite En, Eq. exact Es'.
Qed.

Lemma drain_completes cfg k s :
  threads_ok cfg k s → net_pc s = NFree → has_value (outbox_ s) →
  ∃ q v, rtc tstep s (set_outbox q s) ∧ cons q = CIdle ∧ prod q = prod (outbox_ s) ∧
    pushed q = pushed (outbox_ s) ∧ popped q = popped (outbox_ s) ++ [v].
Proof.
  intros H En Hv. destruct (pop_ready _ (outbox_ s) (to_out _ _ _ H) Hv) as (q1 & v & R1 & Ec1 & Ep1 & El1 & Eo1).
  destruct (publish_pop q1 v Ec1) as (q & Eq & Ec & Ep & El & Eo). exists q, v.
  split; [|split_and!; congruence]. eapply rtc_r; [by apply (lift_drain s q1)|].
  apply (t_net DrainPublish); [done|]. simpl. unfold drain_act. simpl. by rewrite En, Eq.
Qed.

(** ** Progress *)

(** How many queue operations have completed. *)
Definition moved (s : Threads) : nat :=
  length (pushed (inbox_ s)) + length (popped (inbox_ s)) +
  length (pushed (outbox_ s)) + length (popped (outbox_ s)).

(** The network thread in [submit] on a full inbox, the engine thread in
    [on_event] on a full outbox. *)
Record blocked (k : Z) (s : Threads) : Prop := {
  bl_net : ∃ c, net_pc s = NSubmit c;
  bl_in : prod (inbox_ s) = PIdle ∧ ¬ has_room k (inbox_ s);
  bl_engine : ∃ ev evs, engine_pc s = EEmit (ev :: evs);
  bl_out : prod (outbox_ s) = PIdle ∧ ¬ has_room (k + 2) (outbox_ s) }.

Lemma writing_has_room {T} k (s : Sys T) v :
  sys_ok k s → prod s = PWrite v ∨ prod s = PStore v → has_room k s.
Proof.
  intros [HQ _ HP _] Ep. destruct (qo_order _ _ _ _ _ _ HQ). unfold has_room.
  destruct Ep as [Ep|Ep]; rewrite Ep in HP; lia.
Qed.

(** A check on a full queue fails. *)
Lemma full_check {T} k (s s' : Sys T) v n :
  sys_ok k s → ¬ has_room k s → act (APushCheck v n) s = Some s' → prod s' = PIdle ∧ same_but_prod s s'.
Proof.
  intros Hs Hr E. pose proof (act_ok _ _ _ _ Hs E) as Hs'.
  destruct (act_effect _ _ _ E) as (_ & [Ep|Ep] & Ec & El & Eo); [done|].
  destruct Hr. pose proof (writing_has_room k s' v Hs' ltac:(auto)) as Hr'. unfold has_room in *. by rewrite El, Eo in Hr'.
Qed.

Lemma blocked_step cfg k s s' :
  threads_ok cfg k s → blocked k s → tstep s s' → blocked k s' ∧ moved s' = moved s.
Proof.
  intros H [[c Hn] [Ip If] (ev & evs & He) [Op Of]] Hst.
  destruct Hst as [s s' E|s|m s s' _ E|m s s' E].
  - unfold start in E. by rewrite He in E.
  - split; [|done]. split; simpl; eauto.
  - destruct m; simpl in E; unfold submit_act, drain_act in E; rewrite Hn in E; try done;
      [|apply bind_Some in E as (q & Eq & _); by destruct (act_effect _ _ _ Eq) as (v & ? & _); congruence|
        apply fmap_Some in E as (s1 & E & _); apply bind_Some in E as (q & Eq & _);
        by destruct (act_effect _ _ _ Eq) as (v & ? & _); congruence].
    apply bind_Some in E as (q & Eq & E). inv_some.
    destruct (full_check _ _ _ _ _ (to_in _ _ _ H) If Eq) as (Ep & Ec & El & Eo).
    unfold moved. simpl. rewrite El, Eo. split; [|done]. split; simpl; eauto.
    split; [done|]. unfold has_room. by rewrite El, Eo.
  - destruct m; simpl in E; unfold loop_act, emit_act in E; rewrite He in E; try done;
      try (by destruct (cons (inbox_ s)));
      [|apply bind_Some in E as (q & Eq & _); by destruct (act_effect _ _ _ Eq) as (v & ? & _); congruence|
        apply fmap_Some in E as (s1 & E & _); apply bind_Some in E as (q & Eq & _);
        by destruct (act_effect _ _ _ Eq) as (v & ? & _); congruence].
    apply bind_Some in E as (q & Eq & E). inv_some.
    destruct (full_check _ _ _ _ _ (to_out _ _ _ H) Of Eq) as (Ep & Ec & El & Eo).
    unfold moved. simpl. rewrite El, Eo. split; [|done]. split; simpl; eauto.
    split; [done|]. unfold has_room. by rewrite El, Eo.
Qed.

Lemma blocked_forever cfg k s s' :
  threads_ok cfg k s → blocked k s → rtc tstep s s' → blocked k s' ∧ moved s' = moved s.
Proof.
  intros H Hb R. revert H Hb. induction R as [s|s s1 s' Hst R IH]; intros H Hb; [done|].
  destruct (blocked_step _ _ _ _ H Hb Hst) as [Hb1 <-]. apply IH; [by eapply tstep_ok|done].
Qed.

Lemma full_has_value {T} k (s : Sys T) : 0 ≤ k → ¬ has_room k s → has_value s.
Proof. intros Hk. pose proof (Z.pow_pos_nonneg 2 k ltac:(lia) Hk). unfold has_room, has_value. lia. Qed.

Lemma popping_has_value {T} k (s : Sys T) : sys_ok k s → cons s ≠ CIdle → has_value s.
Proof.
  intros [HQ _ _ HC] Hc. destruct (qo_order _ _ _ _ _ _ HQ). unfold has_value. destruct (cons s); [done|lia..].
Qed.

Lemma full_idle {T} k (s : Sys T) : sys_ok k s → ¬ has_room k s → prod s = PIdle.
Proof. intros Hs Hr. destruct (prod s) as [|v|v] eqn:Ep; [done|..]; destruct Hr; eapply writing_has_room; eauto. Qed.

Lemma engine_process_queues now c s s' :
  engine_process now c s = Some s' → inbox_ s' = inbox_ s ∧ outbox_ s' = outbox_ s ∧ net_pc s' = net_pc s.
Proof. intros E. apply bind_Some in E as (e & _ & E). by inv_some. Qed.

#[export] Instance has_room_dec {T} k (s : Sys T) : Decision (has_room k s).
Proof. unfold has_room. apply _. Defined.

Lemma blocked_dec k s : {blocked k s} + {¬ blocked k s}.
Proof.
  destruct (net_pc s) as [|c] eqn:E1; [right; intros [[? ?] _ _ _]; congruence|].
  destruct (prod (inbox_ s)) eqn:E2; [|right; intros [_ [? _] _ _]; congruence..].
  destruct (engine_pc s) as [| |[|ev evs]] eqn:E3; [right; intros [_ _ (? & ? & ?) _]; congruence..|].
  destruct (prod (outbox_ s)) eqn:E4; [|right; intros [_ _ _ [? _]]; congruence..].
  destruct (decide (has_room k (inbox_ s))); [right; by intros [_ [_ ?] _ _]|].
  destruct (decide (has_room (k + 2) (outbox_ s))); [right; by intros [_ _ _ [_ ?]]|].
  left. split; eauto.
Defined.

Definition can_move (s : Threads) : Prop := ∃ s', rtc tstep s s' ∧ (moved s < moved s')%nat.

(** The network thread finishes its operation, or starts one, when the inbox has room. *)
Lemma net_can_move cfg k s : threads_ok cfg k s → has_room k (inbox_ s) → can_move s.
Proof.
  intros H Hr. destruct (net_pc s) as [|c] eqn:En.
  - destruct (cons (outbox_ s)) as [| |v] eqn:Ec.
    2,3: destruct (drain_completes _ _ s H En) as (q & w & R & _ & _ & El & Eo);
      [eapply popping_has_value; [apply H|congruence]|]; eexists; (split; [exact R|]);
      unfold moved; simpl; rewrite El, Eo, length_app; simpl; lia.
    pose proof (submit_ok _ _ _ Command_default H En Ec ltac:(split; simpl; lia)) as H1.
    destruct (submit_completes _ _ _ Command_default H1 eq_refl Hr) as (q & R & _ & _ & El & Eo).
    eexists. split.
    + eapply rtc_l; [|exact R]. apply (t_net (Submit Command_default)); [split; simpl; lia|].
      simpl. by rewrite En, Ec.
    + unfold moved. simpl. simpl in El, Eo. rewrite El, Eo, length_app. simpl. lia.
  - destruct (submit_completes _ _ _ _ H En Hr) as (q & R & _ & _ & El & Eo). eexists. split; [exact R|].
    unfold moved. simpl. rewrite El, Eo, length_app. simpl. lia.
Qed.

Lemma loop_can_move cfg k s :
  threads_ok cfg k s → engine_pc s = ELoop → has_value (inbox_ s) → can_move s.
Proof.
  intros H En Hv. destruct (loop_completes _ _ _ 0 H En Hv) as (q & c & s' & R & E & _ & _ & El & Eo).
  destruct (engine_process_queues _ _ _ _ E) as (Ei & Eb & _). exists s'. split; [exact R|].
  unfold moved. rewrite Ei, Eb. simpl. rewrite El, Eo, length_app. simpl. lia.
Qed.

Lemma progress cfg k s :
  0 ≤ k → threads_ok cfg k s → engine_pc s ≠ EExited → ¬ blocked k s → can_move s.
Proof.
  intros Hk H Hx Hb. destruct (decide (has_room k (inbox_ s))) as [Hr|Hr]; [by eapply net_can_move|].
  pose proof (full_has_value _ _ Hk Hr) as Hv.
  destruct (engine_pc s) as [| |[|ev evs]] eqn:En; [done|by eapply loop_can_move|..].
  - assert (threads_ok cfg k (set_epc ELoop s)) as H1.
    { apply set_epc_ok; auto. unfold unemitted. by rewrite En. }
    destruct (loop_can_move _ _ _ H1 eq_refl Hv) as (s' & R & Hlt). exists s'. split; [|done].
    eapply rtc_l; [|exact R]. apply (t_engine EmitDone). simpl. by rewrite En.
  - destruct (decide (has_room (k + 2) (outbox_ s))) as [Ho|Ho].
    + destruct (emit_completes _ _ _ _ _ H En Ho) as (q & R & _ & _ & El & Eo). eexists. split; [exact R|].
      unfold moved. simpl. rewrite El, Eo, length_app. simpl. lia.
    + destruct (net_pc s) as [|c] eqn:Ep.
      * destruct (drain_completes _ _ s H Ep) as (q & w & R & _ & _ & El & Eo).
        { apply (full_has_value (k + 2)); [lia|done]. }
        eexists. split; [exact R|]. unfold moved. simpl. rewrite El, Eo, length_app. simpl. lia.
      * destruct Hb. split; eauto; (split; [|done]); eapply full_idle; try apply H; done.
Qed.

(** ** Reaching the blocked state *)

(** A cancel of an id that never exists: one rejection, whatever the configuration. *)
Definition stray_cancel : Command := mkCommand CmdCancel Buy Limit GTC 0 0 0 0 0 0.

Lemma stray_cancel_ok : command_ok stray_cancel.
Proof. split; simpl; lia. Qed.

(** The network thread is between operations and has not read an event yet. *)
Record resting (cfg : Config) (k : Z) (s : Threads) : Prop := {
  rs_ok : threads_ok cfg k s;
  rs_net : net_pc s = NFree;
  rs_out : cons (outbox_ s) = CIdle ∧ popped (outbox_ s) = [];
  rs_pool : find (pool_ (engine_ s)) 0 = None }.

Lemma rtc_tstep_ok cfg k s s' : threads_ok cfg k s → rtc tstep s s' → threads_ok cfg k s'.
Proof. intros H R. induction R; eauto using tstep_ok. Qed.

(** Submit one more command while the inbox has room. *)
Lemma fill_one_in cfg k s :
  resting cfg k s → has_room k (inbox_ s) →
  ∃ q, rtc tstep s (set_inbox q s) ∧ resting cfg k (set_inbox q s) ∧
    pushed q = pushed (inbox_ s) ++ [stray_cancel] ∧ popped q = popped (inbox_ s).
Proof.
  intros [H En [Ec Eo] Hp] Hr. pose proof (submit_ok _ _ _ _ H En Ec stray_cancel_ok) as H1.
  destruct (submit_completes _ _ _ _ H1 eq_refl Hr) as (q & R & _ & _ & El & Eo').
  assert (set_net NFree (set_inbox q (set_net (NSubmit stray_cancel) s)) = set_inbox q s) as Hs.
  { unfold set_inbox, set_net. simpl. by rewrite En. }
  rewrite Hs in R. exists q. assert (rtc tstep s (set_inbox q s)) as R'.
  { eapply rtc_l; [|exact R]. apply (t_net (Submit stray_cancel)); [apply stray_cancel_ok|]. simpl. by rewrite En, Ec. }
  split_and!; [done| |done|done]. split; try done. by eapply rtc_tstep_ok.
Qed.

(** The engine takes a stray cancel and is about to report its rejection. *)
Lemma take_one cfg k s :
  resting cfg k s → engine_pc s = ELoop → pushed (inbox_ s) = popped (inbox_ s) ++ [stray_cancel] →
  ∃ s' ev, rtc tstep s s' ∧ resting cfg k s' ∧ engine_pc s' = EEmit [ev] ∧
    pushed (inbox_ s') = popped (inbox_ s') ∧ outbox_ s' = outbox_ s.
Proof.
  intros [H En [Ec Eo] Hp] Ee Hl. assert (has_value (inbox_ s)) as Hv.
  { unfold has_value. rewrite Hl, length_app. simpl. lia. }
  destruct (loop_completes _ _ _ 0 H Ee Hv) as (q & c & s' & R & E & _ & _ & El & Epo).
  destruct (engine_process_queues _ _ _ _ E) as (Ei & Eb & Enet). simpl in Ei, Eb, Enet.
  pose proof (rtc_tstep_ok _ _ _ _ H R) as H'.
  assert (c = stray_cancel) as ->.
  { pose proof (so_fifo _ _ (to_in _ _ _ H')) as Hf. rewrite Ei, El, Epo, Hl, length_app in Hf. simpl in Hf.
    rewrite take_ge in Hf by (rewrite length_app; simpl; lia). apply app_inj_tail in Hf. by destruct Hf. }
  unfold engine_process, process in E. simpl in E. rewrite Hp in E. simpl in E. inv_some.
  eexists _, _. split_and!; [exact R| | | |]; [..|done].
  - by split.
  - simpl. by rewrite drop_app_length.
  - simpl. by rewrite El, Epo, Hl.
Qed.

Lemma emit_one cfg k s ev :
  resting cfg k s → engine_pc s = EEmit [ev] → has_room (k + 2) (outbox_ s) →
  ∃ s', rtc tstep s s' ∧ resting cfg k s' ∧ engine_pc s' = ELoop ∧ inbox_ s' = inbox_ s ∧
    length (pushed (outbox_ s')) = S (length (pushed (outbox_ s))).
Proof.
  intros [H En [Ec Eo] Hp] Ee Hr.
  destruct (emit_completes _ _ _ _ _ H Ee Hr) as (q & R & _ & Ec' & El & Eo').
  exists (set_epc ELoop (set_outbox q s)).
  assert (rtc tstep s (set_epc ELoop (set_outbox q s))) as R'.
  { eapply rtc_r; [exact R|]. by apply (t_engine EmitDone). }
  split_and!; [done| |done|done|simpl; rewrite El, length_app; simpl; lia].
  split; simpl; [by eapply rtc_tstep_ok|done|split; congruence|done].
Qed.

(** [n] rejections into the outbox, for any [n] up to its capacity. *)
Lemma fill_outbox cfg k s n :
  0 ≤ k → resting cfg k s → engine_pc s = ELoop → pushed (inbox_ s) = popped (inbox_ s) →
  Z.of_nat (length (pushed (outbox_ s))) + Z.of_nat n ≤ 2 ^ (k + 2) →
  ∃ s', rtc tstep s s' ∧ resting cfg k s' ∧ engine_pc s' = ELoop ∧ pushed (inbox_ s') = popped (inbox_ s') ∧
    length (pushed (outbox_ s')) = (length (pushed (outbox_ s)) + n)%nat.
Proof.
  intros Hk. pose proof (Z.pow_pos_nonneg 2 k ltac:(lia) Hk) as Hpos. revert s.
  induction n as [|n IH]; intros s Hs Ee Hl Hn; [exists s; split_and!; try done; lia|].
  destruct (fill_one_in _ _ _ Hs) as (q & R1 & H1 & El1 & Eo1); [unfold has_room; rewrite Hl; lia|].
  destruct (take_one _ _ _ H1 Ee) as (s2 & ev & R2 & H2 & Ee2 & Hl2 & Eb2); [simpl; by rewrite El1, Eo1, Hl|].
  destruct (emit_one _ _ _ _ H2 Ee2) as (s3 & R3 & H3 & Ee3 & Ei3 & En3).
  { unfold has_room. rewrite Eb2. simpl. rewrite (proj2 (rs_out _ _ _ Hs)). simpl. lia. }
  destruct (IH s3 H3 Ee3) as (s4 & R4 & H4 & Ee4 & Hl4 & En4); [by rewrite Ei3|rewrite En3, Eb2; simpl; lia|].
  exists s4. split_and!; try done; [|rewrite En4, En3, Eb2; simpl; lia].
  etrans; [exact R1|]. etrans; [exact R2|]. by etrans.
Qed.

(** [n] commands into the inbox while the engine is stuck. *)
Lemma fill_inbox cfg k s n :
  resting cfg k s →
  Z.of_nat (length (pushed (inbox_ s))) + Z.of_nat n ≤ Z.of_nat (length (popped (inbox_ s))) + 2 ^ k →
  ∃ q, rtc tstep s (set_inbox q s) ∧ resting cfg k (set_inbox q s) ∧
    length (pushed q) = (length (pushed (inbox_ s)) + n)%nat ∧ popped q = popped (inbox_ s).
Proof.
  revert s. induction n as [|n IH]; intros s Hs Hn.
  { exists (inbox_ s). replace (set_inbox (inbox_ s) s) with s by by destruct s. split_and!; try done; lia. }
  destruct (fill_one_in _ _ _ Hs) as (q & R1 & H1 & El1 & Eo1); [unfold has_room; lia|].
  destruct (IH _ H1) as (q2 & R2 & H2 & El2 & Eo2); [simpl; rewrite El1, Eo1, length_app; simpl; lia|].
  simpl in *. exists q2. split_and!; [by etrans|done| |congruence].
  rewrite El2, El1, length_app. simpl. lia.
Qed.

Lemma started cfg k :
  0 ≤ k < 62 → config_ok cfg →
  ∃ s, threads_reach cfg k s ∧ resting cfg k s ∧ engine_pc s = ELoop ∧
    inbox_ s = sys_init Command_default k ∧ outbox_ s = sys_init Event_default (k + 2).
Proof.
  intros Hk Hc. set (s := set_epc ELoop (set_stop false (EngineThread_init cfg k))).
  assert (threads_reach cfg k s) as R by (apply rtc_once, t_start; done).
  exists s. split_and!; try done. split; try done; [by apply threads_reach_ok|].
  simpl. unfold find. destruct (_ <=? _); [done|]. simpl. unfold at_, Pool_init. simpl. rewrite vget_fmap.
  by destruct (vget (seqZ 0 (max_orders cfg)) (u32 0)).
Qed.

(** The engine waits for room in the outbox, the network thread is between operations. *)
Lemma full_reachable cfg k :
  0 ≤ k < 62 → config_ok cfg → ∃ s ev, threads_reach cfg k s ∧ resting cfg k s ∧ engine_pc s = EEmit [ev] ∧
    pushed (inbox_ s) = popped (inbox_ s) ∧ ¬ has_room (k + 2) (outbox_ s).
Proof.
  intros Hk Hc. pose proof (Z.pow_pos_nonneg 2 k ltac:(lia) ltac:(lia)) as Hp.
  pose proof (Z.pow_pos_nonneg 2 (k + 2) ltac:(lia) ltac:(lia)) as Hp2.
  destruct (started cfg k Hk Hc) as (s0 & R0 & H0 & Ee0 & Ei0 & Eb0).
  destruct (fill_outbox cfg k s0 (Z.to_nat (2 ^ (k + 2)))) as (s1 & R1 & H1 & Ee1 & El1 & En1);
    [lia|done|done|by rewrite Ei0|rewrite Eb0; simpl; lia|].
  destruct (fill_one_in _ _ _ H1) as (q2 & R2 & H2 & El2 & Eo2); [unfold has_room; rewrite El1; lia|].
  destruct (take_one _ _ _ H2 Ee1) as (s3 & ev & R3 & H3 & Ee3 & El3 & Eb3); [simpl; by rewrite El2, Eo2, El1|].
  exists s3, ev. split_and!; [|done..|].
  - unfold threads_reach. etrans; [exact R0|]. etrans; [exact R1|]. by etrans.
  - unfold has_room. rewrite Eb3. simpl. rewrite (proj2 (rs_out _ _ _ H1)), En1, Eb0. simpl. lia.
Qed.

Lemma blocked_reachable cfg k :
  0 ≤ k < 62 → config_ok cfg → ∃ s, threads_reach cfg k s ∧ blocked k s.
Proof.
  intros Hk Hc. pose proof (Z.pow_pos_nonneg 2 k ltac:(lia) ltac:(lia)) as Hp.
  destruct (full_reachable cfg k Hk Hc) as (s3 & ev & R3 & H3 & Ee3 & El3 & Hout).
  destruct (fill_inbox _ _ _ (Z.to_nat (2 ^ k)) H3) as (q4 & R4 & H4 & El4 & Eo4); [rewrite El3; lia|].
  assert (¬ has_room k q4) as Hin by (unfold has_room; rewrite El4, Eo4, El3; lia).
  exists (set_net (NSubmit stray_cancel) (set_inbox q4 s3)). split.
  - unfold threads_reach. etrans; [exact R3|]. eapply rtc_r; [exact R4|]. apply (t_net (Submit stray_cancel)).
    + apply stray_cancel_ok.
    + simpl. pose proof (rs_net _ _ _ H3) as En3. rewrite En3. by rewrite (proj1 (rs_out _ _ _ H3)).
  - pose proof (rs_ok _ _ _ H4) as Ht. split; simpl; eauto; (split; [|done]); eapply full_idle; try done; apply Ht.
Qed.
