(* ===== verification/ThreadTheorems.v ===== *)
(** The theorems about the engine thread and the network thread together. *)
From S2P Require Import Prelude Types Pool Book Engine Process EngineFacts Demo Spsc Threads Liveness.

(** ** Running an interleaving *)
Fixpoint moves (l : list (NetMove + EngineMove)) (s : Threads) : option Threads :=
  match l with
  | [] => Some s
  | inl m :: l => s ← net_move m s; moves l s
  | inr m :: l => s ← engine_move m s; moves l s
  end.

Definition all_submits_ok (l : list (NetMove + EngineMove)) : Prop :=
  Forall (λ m, match m with inl m => submits_ok m | inr _ => True end) l.

Lemma moves_rtc l s s' : all_submits_ok l → moves l s = Some s' → rtc tstep s s'.
Proof.
  revert s. induction l as [|[m|m] l IH]; intros s Hl E; simpl in E; [by inv_some|..];
    apply Forall_cons in Hl as [Hm Hl]; apply bind_Some in E as (s1 & E1 & E).
  - eapply rtc_l; [by eapply t_net|by apply IH].
  - eapply rtc_l; [by eapply t_engine|by apply IH].
Qed.

(** Rings of one command and four events: a resting order and its two events,
    the first of which is delivered while a second order is being submitted. *)
Definition demo_moves : list (NetMove + EngineMove) :=
  [inl (Submit (Demo.limit Sell 0 7 1 50 10)); inl (SubmitCheck 0); inl SubmitWrite; inl SubmitPublish;
   inr (LoopCheck 1); inr LoopRead; inr (LoopPop 1); inr (EmitCheck 0); inr EmitWrite; inr EmitPublish;
   inl (DrainCheck 1); inr (EmitCheck 0); inl DrainRead; inr EmitWrite; inl DrainPublish;
   inl (Submit (Demo.limit Buy 0 9 2 51 4)); inl (SubmitCheck 1)].
Definition demo_threads : Threads :=
  default (EngineThread_init Demo.cfg 0)
    (s ← start (EngineThread_init Demo.cfg 0); moves demo_moves s).

Lemma demo_reached : threads_reach Demo.cfg 0 demo_threads.
Proof.
  eapply rtc_l; [by apply t_start|]. apply (moves_rtc demo_moves); [|vm_compute; reflexivity].
  unfold all_submits_ok, demo_moves. repeat constructor; simpl; lia.
Qed.

(** C19: Whatever the interleaving of the two threads and the staleness of their
    loads, the gateway receives exactly what a sequential engine would tell it:
    the events popped from the outbox are a prefix of the events of one run of
    the engine on the commands popped from the inbox, which are a prefix of the
    commands submitted; and they are all of them once both queues are drained
    and the engine is back in its loop. *)
Theorem threads_deliver (cfg : Config) (k : Z) (s : Threads) :
  0 ≤ k < 62 → config_ok cfg → threads_reach cfg k s →
  ∃ cs e, run cs (Engine_init cfg []) = Some e ∧ cs.*2 `prefix_of` pushed (inbox_ s) ∧
    popped (outbox_ s) `prefix_of` sink_ e ∧
    (popped (inbox_ s) = pushed (inbox_ s) → popped (outbox_ s) = pushed (outbox_ s) →
     engine_pc s = ELoop → cs.*2 = pushed (inbox_ s) ∧ popped (outbox_ s) = sink_ e).
Proof.
  intros Hk Hc Hr. destruct (threads_reach_ok _ _ _ Hk Hc Hr) as [Hin Hout _ _ _ _ _ _ (cs & [Ecs Hcl] & Erun) _ Hs].
  exists cs, (engine_ s). split; [done|]. rewrite Ecs, Hs. split_and!.
  - rewrite (so_fifo _ _ Hin). apply prefix_take.
  - etrans; [|by apply prefix_app_r]. rewrite (so_fifo _ _ Hout). apply prefix_take.
  - intros Ei Eo El. unfold unemitted. by rewrite El, app_nil_r.
Qed.

Lemma threads_deliver_witness :
  ∃ cs e, run cs (Engine_init Demo.cfg []) = Some e ∧ cs.*2 `prefix_of` pushed (inbox_ demo_threads) ∧
    popped (outbox_ demo_threads) `prefix_of` sink_ e ∧
    (popped (inbox_ demo_threads) = pushed (inbox_ demo_threads) →
     popped (outbox_ demo_threads) = pushed (outbox_ demo_threads) →
     engine_pc demo_threads = ELoop →
     cs.*2 = pushed (inbox_ demo_threads) ∧ popped (outbox_ demo_threads) = sink_ e).
Proof. apply (threads_deliver Demo.cfg 0); [lia|apply Demo.cfg_ok|apply demo_reached]. Defined.

(** No thread gets stuck in the middle of an operation: a write that passed
    its check, a read that passed its check and [process] on a command that was
    popped are always defined, so the only waiting is the spinning on a full or
    empty queue. *)
Theorem threads_never_fault (cfg : Config) (k : Z) (s : Threads) :
  0 ≤ k < 62 → config_ok cfg → threads_reach cfg k s →
  (∀ c, prod (inbox_ s) = PWrite c → is_Some (net_move SubmitWrite s)) ∧
  (cons (outbox_ s) = CRead → is_Some (net_move DrainRead s)) ∧
  (cons (inbox_ s) = CRead → is_Some (engine_move LoopRead s)) ∧
  (∀ c now, cons (inbox_ s) = CStore c → is_Some (engine_move (LoopPop now) s)) ∧
  (∀ ev, prod (outbox_ s) = PWrite ev → is_Some (engine_move EmitWrite s)).
Proof.
  intros Hk Hc Hr. pose proof (threads_reach_ok _ _ _ Hk Hc Hr) as H. split_and!.
  - intros c Ep. destruct (push_write_passes _ _ _ (to_in _ _ _ H) Ep) as (q & Eq & _). simpl. unfold submit_act.
    rewrite (to_submit _ _ _ H c) by auto. rewrite Eq. simpl. eauto.
  - intros Ec. destruct (pop_read_passes _ _ (to_out _ _ _ H) Ec) as (q & v & Eq & _). simpl. unfold drain_act.
    rewrite (to_drain _ _ _ H) by congruence. rewrite Eq. simpl. eauto.
  - intros Ec. destruct (pop_read_passes _ _ (to_in _ _ _ H) Ec) as (q & v & Eq & _). simpl. unfold loop_act.
    rewrite (to_loop _ _ _ H) by congruence. rewrite Eq. simpl. eauto.
  - intros c now Ec. destruct (publish_pop _ _ Ec) as (q & Eq & _).
    assert (engine_pc s = ELoop) as El by (apply (to_loop _ _ _ H); congruence).
    destruct (loop_pop_ok _ _ _ _ now _ H El Ec Eq) as (s' & Es & _).
    simpl. unfold loop_act. rewrite Ec, El, Eq. simpl. eauto.
  - intros ev Ep. destruct (push_write_passes _ _ _ (to_out _ _ _ H) Ep) as (q & Eq & _). simpl. unfold emit_act.
    pose proof (to_emit _ _ _ H ev ltac:(auto)) as Hh. unfold unemitted in Hh.
    destruct (engine_pc s) as [| |[|d evs]]; try done. rewrite Eq. simpl. eauto.
Qed.

(** C22: The two threads can stop for good in exactly one situation: the gateway is
    inside [submit] on a full inbox and the engine inside [on_event] on a full
    outbox.  While the engine runs, in every other state some queue operation
    can complete; in this one none ever does again, also not after a request to
    stop.  And the situation is reachable for every configuration and every ring
    size: [submit] waits for the engine to make room, the engine waits for the
    gateway to read events, and the gateway reads none until [submit] returns. *)
Theorem submit_deadlocks (cfg : Config) (k : Z) :
  0 ≤ k < 62 → config_ok cfg →
  (∀ s, threads_reach cfg k s → engine_pc s ≠ EExited →
    (∀ s', rtc tstep s s' → moved s' = moved s) ↔ blocked k s) ∧
  (∃ s, threads_reach cfg k s ∧ ∀ s', rtc tstep s s' → blocked k s').
Proof.
  intros Hk Hc. split.
  - intros s Hr Hx. pose proof (threads_reach_ok _ _ _ Hk Hc Hr) as H. split.
    + intros Hs. destruct (blocked_dec k s) as [Hb|Hb]; [done|].
      destruct (progress cfg k s ltac:(lia) H Hx Hb) as (s' & R & Hlt). rewrite (Hs s' R) in Hlt. lia.
    + intros Hb s' R. by eapply blocked_forever.
  - destruct (blocked_reachable cfg k Hk Hc) as (s & Hr & Hb). exists s. split; [done|].
    intros s' R. eapply blocked_forever; [by apply threads_reach_ok|done|done].
Qed.

(** The program's own sizes: rings of 2^16 commands and 2^18 events, 4 symbols,
    prices to 100000, 2^20 orders. *)
Lemma submit_deadlocks_witness :
  (∀ s, threads_reach (mkConfig 4 100000 1048576) 16 s → engine_pc s ≠ EExited →
    (∀ s', rtc tstep s s' → moved s' = moved s) ↔ blocked 16 s) ∧
  (∃ s, threads_reach (mkConfig 4 100000 1048576) 16 s ∧ ∀ s', rtc tstep s s' → blocked 16 s').
Proof. apply submit_deadlocks; [lia|]. split; simpl; lia. Defined.
