(* ===== verification/Shutdown.v ===== *)
(** The end of [main] of [src/main_server.cpp]: [EngineThread::stop] with its
    join, and the closing report.  [server.run] has returned, so the network
    thread makes no further move. *)
From S2P Require Import Prelude Types Pool Book Engine Spec Abs Process EngineFacts Spsc Threads Liveness ThreadTheorems.

(** The engine thread's moves while the other thread waits. *)
Fixpoint engine_moves (ms : list EngineMove) (s : Threads) : option Threads :=
  match ms with [] => Some s | m :: ms => s ← engine_move m s; engine_moves ms s end.

(** [EngineThread::stop]: the flag, then the join, which returns once the thread
    has left [loop]; [ms] are the engine thread's moves until then. *)
Definition EngineThread_stop (ms : list EngineMove) (s : Threads) : option Threads :=
  s ← engine_moves ms (request_stop s);
  match engine_pc s with EExited => Some s | _ => None end.

(** The last lines of [main]: the number of resting orders it reports. *)
Definition main_stopped (ms : list EngineMove) (s : Threads) : option Z :=
  s ← EngineThread_stop ms s; Some (live_ (pool_ (engine_ s))).

(** The free places of the outbox. *)
Definition room (k : Z) (s : Threads) : Z :=
  Z.of_nat (length (popped (outbox_ s))) + 2 ^ (k + 2) - Z.of_nat (length (pushed (outbox_ s))).

Lemma engine_moves_rtc s s' : rtc estep s s' → ∃ ms, engine_moves ms s = Some s'.
Proof.
  induction 1 as [|s s1 s' [m E] _ [ms IH]]; [by exists []|]. exists (m :: ms). simpl. by rewrite E.
Qed.

Lemma rtc_engine_moves ms s s' : engine_moves ms s = Some s' → rtc estep s s'.
Proof.
  revert s. induction ms as [|m ms IH]; intros s E; simpl in E; [by inv_some|].
  apply bind_Some in E as (s1 & E1 & E). eapply rtc_l; [by exists m|auto].
Qed.

(** Joining is a run of the engine thread alone that ends outside [loop]. *)
Definition joins (s s' : Threads) : Prop := rtc estep (request_stop s) s' ∧ engine_pc s' = EExited.

Lemma stop_joins s s' : (∃ ms, EngineThread_stop ms s = Some s') ↔ joins s s'.
Proof.
  unfold EngineThread_stop. split.
  - intros (ms & (s1 & E%rtc_engine_moves & Es)%bind_Some). destruct (engine_pc s1) eqn:Ep; [|done..]. inv_some. done.
  - intros [(ms & E)%engine_moves_rtc Ex]. exists ms. rewrite E. simpl. by rewrite Ex.
Qed.

(** The engine takes nothing out of the outbox. *)
Lemma estep_popped s s' : estep s s' → popped (outbox_ s') = popped (outbox_ s).
Proof.
  intros [m E]. destruct m; simpl in E; unfold loop_act, emit_act in E.
  - destruct (engine_pc s); try done. destruct (cons (inbox_ s)); try done. destruct (stop_ s); by inv_some.
  - destruct (engine_pc s); try done. apply bind_Some in E as (q & _ & E). by inv_some.
  - destruct (engine_pc s); try done. apply bind_Some in E as (q & _ & E). by inv_some.
  - destruct (cons (inbox_ s)); try done. apply bind_Some in E as (s1 & E1 & E).
    destruct (engine_process_queues _ _ _ _ E) as (_ & -> & _). destruct (engine_pc s); try done.
    apply bind_Some in E1 as (q & _ & E1). by inv_some.
  - destruct (engine_pc s) as [| |[]]; try done. apply bind_Some in E as (q & Eq & E). inv_some.
    by destruct (act_effect _ _ _ Eq) as (_ & _ & _ & _ & Eo).
  - destruct (engine_pc s) as [| |[]]; try done. apply bind_Some in E as (q & Eq & E). inv_some.
    by destruct (act_effect _ _ _ Eq) as (v & _ & _ & _ & _ & Eo).
  - destruct (engine_pc s) as [| |[]] eqn:Ee; try done. destruct (act APushPublish (outbox_ s)) as [q|] eqn:Eq; [|done].
    simpl in E. inv_some. unfold next_event. simpl. rewrite Ee. by destruct (act_effect _ _ _ Eq) as (v & _ & _ & _ & _ & Eo).
  - destruct (engine_pc s) as [| |[]]; try done. by inv_some.
Qed.

Lemma esteps_popped s s' : rtc estep s s' → popped (outbox_ s') = popped (outbox_ s).
Proof. induction 1 as [|s s1 s' H _ IH]; [done|]. by rewrite IH, (estep_popped _ _ H). Qed.

Section Stop.
Context (cfg : Config) (k : Z).

Lemma room_pos s : threads_ok cfg k s → 0 ≤ room k s.
Proof.
  intros H. destruct (qo_order _ _ _ _ _ _ (so_queue _ _ (to_out _ _ _ H))) as [? ?]. unfold room. lia.
Qed.

Lemma request_stop_ok s : threads_ok cfg k s → threads_ok cfg k (request_stop s).
Proof. by intros []. Qed.

(** The engine hands out what fits and leaves. *)
Lemma exits_with_room evs s : threads_ok cfg k s → engine_pc s = EEmit evs → stop_ s = true →
  Z.of_nat (length evs) ≤ room k s → ∃ s', rtc estep s s' ∧ engine_pc s' = EExited.
Proof.
  revert s. induction evs as [|ev evs IH]; intros s H Ee Est Hr.
  - assert (cons (inbox_ s) = CIdle) as Ec.
    { destruct (cons (inbox_ s)) eqn:E; [done|..]; pose proof (to_loop _ _ _ H); naive_solver congruence. }
    exists (set_epc EExited s). split; [|done]. eapply rtc_l; [exists EmitDone; simpl; by rewrite Ee|].
    apply rtc_once. exists LoopExit. simpl. by rewrite Ec, Est.
  - destruct (emit_alone cfg k s ev evs H Ee) as (q & R & _ & _ & El & Eo); [unfold has_room; unfold room in Hr; simpl in Hr; lia|].
    destruct (IH (set_epc (EEmit evs) (set_outbox q s))) as (s' & R' & Ex); [|done|done| |].
    + eapply rtc_tstep_ok; [exact H|by apply esteps_tsteps].
    + unfold room in *. simpl in *. rewrite El, Eo, length_app. simpl. lia.
    + exists s'. split; [by etrans|done].
Qed.

(** With more events than room the engine stays in [on_event]. *)
Lemma stays_without_room s s' : threads_ok cfg k s → estep s s' →
  (∃ evs, engine_pc s = EEmit evs ∧ room k s < Z.of_nat (length evs)) →
  ∃ evs, engine_pc s' = EEmit evs ∧ room k s' < Z.of_nat (length evs).
Proof.
  intros H [m E] (evs & Ee & Hr). pose proof (room_pos s H). destruct evs as [|ev evs]; [simpl in Hr; lia|].
  destruct m; simpl in E; unfold loop_act, emit_act in E; rewrite Ee in E; try done.
  - by destruct (cons (inbox_ s)).
  - apply bind_Some in E as (q & Eq & E). inv_some. destruct (act_effect _ _ _ Eq) as (_ & _ & _ & El & Eo).
    exists (ev :: evs). split; [done|]. unfold room in *. simpl in *. rewrite El, Eo. lia.
  - apply bind_Some in E as (q & Eq & E). inv_some. destruct (act_effect _ _ _ Eq) as (v & _ & _ & _ & El & Eo).
    exists (ev :: evs). split; [done|]. unfold room in *. simpl in *. rewrite El, Eo. lia.
  - destruct (act APushPublish (outbox_ s)) as [q|] eqn:Eq; [|done]. simpl in E. inv_some.
    destruct (act_effect _ _ _ Eq) as (v & _ & _ & _ & El & Eo). exists evs. unfold next_event. simpl. rewrite Ee. split; [done|].
    unfold room in *. simpl in *. rewrite El, Eo, length_app. simpl. lia.
Qed.

Lemma never_exits s s' : threads_ok cfg k s → rtc estep s s' →
  (∃ evs, engine_pc s = EEmit evs ∧ room k s < Z.of_nat (length evs)) → engine_pc s' ≠ EExited.
Proof.
  intros H R. revert H. induction R as [s|s s1 s' Hst R IH]; intros H Hs.
  - destruct Hs as (evs & -> & _). done.
  - apply IH; [|by eapply stays_without_room]. eapply rtc_tstep_ok; [exact H|]. by apply esteps_tsteps, rtc_once.
Qed.
End Stop.

(** C23: The join of [EngineThread::stop], once the network thread has left its
    loop.  An engine between two commands leaves.  An engine inside [process]
    leaves exactly if the events it still has to hand over fit into the outbox,
    which nobody reads any more (an engine in the middle of a pop is not described): otherwise [on_event] spins for ever, whatever
    the schedule, and [main] does not end.  When the join does return, every
    event has been handed over and the number [main] reports is the number of
    orders resting in the books.  The hanging state is reachable for every
    configuration and ring size. *)
Theorem stop_exact (cfg : Config) (k : Z) :
  0 ≤ k < 62 → config_ok cfg →
  (∀ t, threads_reach cfg k t →
    (engine_pc t = ELoop → cons (inbox_ t) = CIdle → ∃ ms n, main_stopped ms t = Some n) ∧
    (∀ evs, engine_pc t = EEmit evs →
      (∃ ms n, main_stopped ms t = Some n) ↔ Z.of_nat (length evs) ≤ room k t) ∧
    (∀ ms t', EngineThread_stop ms t = Some t' →
      pushed (outbox_ t') = sink_ (engine_ t') ∧ popped (outbox_ t') = popped (outbox_ t) ∧
      main_stopped ms t = Some (Z.of_nat (length (all_orders (abs (engine_ t')))))) ) ∧
  (∃ t, threads_reach cfg k t ∧ net_pc t = NFree ∧ cons (outbox_ t) = CIdle ∧ ∀ ms, main_stopped ms t = None).
Proof.
  intros Hk Hc.
  assert (∀ t, (∃ ms n, main_stopped ms t = Some n) ↔ ∃ t', joins t t') as Hj.
  { intros t. unfold main_stopped. setoid_rewrite <- stop_joins. split.
    - intros (ms & n & (t' & E & _)%bind_Some). eauto.
    - intros (t' & ms & E). exists ms. rewrite E. simpl. eauto. }
  split.
  - intros t Hr. pose proof (threads_reach_ok _ _ _ Hk Hc Hr) as H. split_and!.
    + intros Ee Ec. rewrite Hj. exists (set_epc EExited (request_stop t)). split; [|done]. apply rtc_once. exists LoopExit. simpl. by rewrite Ee, Ec.
    + intros evs Ee. rewrite Hj. split.
      * intros (t' & R & Ex). destruct (Z.le_gt_cases (Z.of_nat (length evs)) (room k t)) as [|Hgt]; [done|].
        destruct (never_exits cfg k (request_stop t) t' (request_stop_ok _ _ _ H) R); [|done]. exists evs. split; [done|]. done.
      * intros Hle. destruct (exits_with_room cfg k evs (request_stop t)) as (t' & R & Ex); [by apply request_stop_ok|done..|].
        exists t'. by split.
    + intros ms t' E. assert (joins t t') as [R Ex] by (apply stop_joins; eauto).
      pose proof (rtc_tstep_ok _ _ _ _ (request_stop_ok _ _ _ H) (esteps_tsteps _ _ R)) as H'.
      pose proof (to_sink _ _ _ H') as Hsk. unfold unemitted in Hsk. rewrite Ex, app_nil_r in Hsk. split_and!; [done| |].
      * by apply esteps_popped in R.
      * unfold main_stopped. rewrite E. simpl. f_equal. destruct (reachable_sound _ _ (to_reach _ _ _ H')) as [(fl & qs & Hi) _].
        by eapply live_count.
  - destruct (full_reachable cfg k Hk Hc) as (t & ev & R & Hrest & Ee & _ & Hfull). exists t.
    split_and!; [done|by destruct Hrest|by destruct Hrest as [_ _ []]|]. intros ms. destruct (main_stopped ms t) as [n|] eqn:E; [|done]. exfalso.
    assert (∃ t', joins t t') as (t' & Rj & Ex) by (apply Hj; eauto).
    eapply never_exits in Rj; [by apply Rj|by apply request_stop_ok, (rs_ok _ _ _ Hrest)|].
    exists [ev]. split; [done|]. unfold room. unfold has_room in Hfull. simpl. lia.
Qed.

(** The program's own sizes. *)
Lemma stop_exact_witness :
  ∃ t, threads_reach (mkConfig 4 100000 1048576) 16 t ∧ net_pc t = NFree ∧ cons (outbox_ t) = CIdle ∧
    ∀ ms, main_stopped ms t = None.
Proof. apply (stop_exact (mkConfig 4 100000 1048576) 16); [lia|split; simpl; lia]. Defined.
