(* ===== verification/Sockets.v ===== *)
(** The rest of [src/net.cpp]: opening sockets and the blocking transfers of
    the client tools.  The kernel's answers are arguments; what the code does
    is the list of system calls it makes and the value it returns. *)
From S2P Require Import Prelude Poller Calls Protocol Ring Net Publisher.

(** ** Blocking transfers *)

(** The loop of [write_full]: [p] is [buf + off], [n] bytes are left.  The
    bytes the kernel took and the answers not consumed are returned; [None]
    while a [::write] blocks. *)
Fixpoint write_loop (os : list WriteResult) (buf : list Z) (off n : Z) :
    option (bool * list Z * list WriteResult) :=
  if 0 <? n then
    match os with
    | [] => None
    | Wrote r :: os =>
        '(ok, out, os) ← write_loop os buf (off + r) (u64 (n - r));
        Some (ok, take (Z.to_nat r) (drop (Z.to_nat off) buf) ++ out, os)
    | Interrupted :: os => write_loop os buf off n
    | Again :: os => write_loop os buf off n
    | Failed :: os => Some (false, [], os)
    end
  else Some (true, [], os).

Definition write_full (os : list WriteResult) (buf : list Z) : option (bool * list Z * list WriteResult) :=
  write_loop os buf 0 (Z.of_nat (length buf)).

(** [read_full]: the bytes stored so far are accumulated. *)
Fixpoint read_full_loop (os : list ReadResult) (n : Z) (acc : list Z) : option (bool * list Z * list ReadResult) :=
  if 0 <? n then
    match os with
    | [] => None
    | Got [] :: os => Some (false, acc, os)
    | Got bs :: os => read_full_loop os (u64 (n - Z.of_nat (length bs))) (acc ++ bs)
    | ReadInterrupted :: os => read_full_loop os n acc
    | ReadAgain :: os => Some (false, acc, os)
    | Closed :: os => Some (false, acc, os)
    end
  else Some (true, acc, os).

Definition read_full (os : list ReadResult) (n : Z) : option (bool * list Z * list ReadResult) := read_full_loop os n [].

(** [::read] stores at most the [n] bytes asked for. *)
Fixpoint reads_ok (os : list ReadResult) (n : Z) : Prop :=
  match os with
  | Got bs :: os => Z.of_nat (length bs) ≤ n ∧ reads_ok os (n - Z.of_nat (length bs))
  | _ :: os => reads_ok os n
  | [] => True
  end.

(** [::write] on a non-empty buffer reports between 0 and [n] bytes. *)
Fixpoint writes_ok (os : list WriteResult) (n : Z) : Prop :=
  match os with
  | Wrote r :: os => 0 ≤ r ≤ n ∧ writes_ok os (n - r)
  | _ :: os => writes_ok os n
  | [] => True
  end.

Lemma write_loop_ok os buf off n ok out os' :
  0 ≤ off → 0 ≤ n → off + n = Z.of_nat (length buf) → n < 2 ^ 64 → writes_ok os n →
  write_loop os buf off n = Some (ok, out, os') →
  (ok = true → out = drop (Z.to_nat off) buf) ∧ out `prefix_of` drop (Z.to_nat off) buf ∧
  (ok = false → Failed ∈ os).
Proof.
  revert off n ok out os'. induction os as [|r os IH]; intros off n ok out os' Ho Hn Hl Hm Hw E; cbn [write_loop] in E.
  - destruct (Z.ltb_spec 0 n); [done|]. simplify_eq. rewrite drop_ge by lia. done.
  - destruct (Z.ltb_spec 0 n); cycle 1.
    { simplify_eq. rewrite drop_ge by lia. done. }
    destruct r as [r| | |]; simpl in Hw.
    + destruct Hw as [Hr Hw]. rewrite u64_small in E by lia.
      apply bind_Some in E as ([[ok1 out1] os1] & E1 & E). simplify_eq.
      destruct (IH (off + r) (n - r) ok out1 os') as (H1 & H2 & H3); try (done || lia).
      replace (drop (Z.to_nat (off + r)) buf) with (drop (Z.to_nat r) (drop (Z.to_nat off) buf)) in H1, H2
        by (rewrite drop_drop; f_equal; lia).
      split_and!.
      * intros ->. rewrite H1 by done. apply take_drop.
      * rewrite <- (take_drop (Z.to_nat r) (drop (Z.to_nat off) buf)) at 2. by apply prefix_app.
      * intros ->. right. by apply H3.
    + destruct (IH _ _ _ _ _ Ho Hn Hl Hm Hw E) as (? & ? & H3). split_and!; [done|done|right; auto].
    + destruct (IH _ _ _ _ _ Ho Hn Hl Hm Hw E) as (? & ? & H3). split_and!; [done|done|right; auto].
    + simplify_eq. split_and!; [done|apply prefix_nil|left].
Qed.

Lemma write_loop_total os buf off n :
  0 ≤ n < 2 ^ 64 → writes_ok os n → Failed ∈ os ∨ n ≤ zsum ((λ r, match r with Wrote r => r | _ => 0 end) <$> os) →
  is_Some (write_loop os buf off n).
Proof.
  revert off n. induction os as [|r os IH]; intros off n Hn Hw Hd; cbn [write_loop].
  { destruct Hd as [Hd|Hd]; [by apply not_elem_of_nil in Hd|]. simpl in Hd. destruct (Z.ltb_spec 0 n); [lia|eauto]. }
  destruct (Z.ltb_spec 0 n); [|eauto]. rewrite elem_of_cons in Hd. cbn [fmap list_fmap] in Hd. rewrite zsum_cons in Hd.
  destruct r as [r| | |]; simpl in Hw; [|apply IH; naive_solver lia|apply IH; naive_solver lia|eauto].
  destruct Hw as [Hr Hw]. rewrite u64_small by lia.
  destruct (IH (off + r) (n - r)) as [[[ok out] os'] E]; [lia|done|naive_solver lia|]. rewrite E. simpl. eauto.
Qed.

Lemma read_full_loop_ok os n acc ok out os' :
  0 ≤ n < 2 ^ 64 → reads_ok os n → read_full_loop os n acc = Some (ok, out, os') →
  ∃ new, out = acc ++ new ∧ Z.of_nat (length new) ≤ n ∧ (ok = true ↔ Z.of_nat (length new) = n).
Proof.
  revert n acc. induction os as [|r os IH]; intros n acc Hn Hr E; cbn [read_full_loop] in E;
    (destruct (Z.ltb_spec 0 n); [|simplify_eq; exists []; rewrite app_nil_r; simpl; split_and!; [done|lia|split; [lia|done]]]); [done|].
  destruct r as [[|b bs]| | |]; cbn [reads_ok] in Hr.
  - simplify_eq. exists []. rewrite app_nil_r. simpl. split_and!; [done|lia|split; [done|lia]].
  - destruct Hr as [Hl Hr]. set (c := b :: bs) in *. rewrite u64_small in E by lia.
    destruct (IH (n - Z.of_nat (length c)) (acc ++ c) ltac:(lia) Hr E) as (new & -> & Hle & Hok). exists (c ++ new).
    rewrite app_assoc, length_app. split_and!; [done|lia|]. rewrite Hok. lia.
  - simplify_eq. exists []. rewrite app_nil_r. simpl. split_and!; [done|lia|split; [done|lia]].
  - by apply IH.
  - simplify_eq. exists []. rewrite app_nil_r. simpl. split_and!; [done|lia|split; [done|lia]].
Qed.

(** ** Opening sockets *)
(** What the kernel answers: a descriptor or -1, then the results of the
    other calls; [k_port] is the port [getsockname] stores, in network order. *)
Record Kernel := mkKernel {
  k_socket : Z; k_bind : Z; k_listen : Z; k_port : Z; k_flags : Z;
  k_addr : option Z;  (* inet_pton: the address, when the host parses *)
  k_connect : Z }.

(** [htons] and [ntohs] on a little-endian machine. *)
Definition htons (p : Z) : Z := u16 (Z.lor (Z.shiftl p 8) (Z.shiftr (u16 p) 8)).

(** [listen_tcp]: the descriptor, the port stored in [bound_port], the calls. *)
Definition listen_tcp (k : Kernel) (port : Z) (want_port : bool) : Z * option Z * list Syscall :=
  let fd := k_socket k in
  if fd <? 0 then (-1, None, [Socket]) else
  let calls := [Socket; SetReuseAddr fd; Bind fd 0 (htons port)] in
  if k_bind k <? 0 then (-1, None, calls ++ [Close fd]) else
  let calls := calls ++ [Listen fd 512] in
  if k_listen k <? 0 then (-1, None, calls ++ [Close fd]) else
  let '(bound, calls) :=
    if want_port then (Some (htons (k_port k)), calls ++ [GetSockName fd]) else (None, calls) in
  (fd, bound, calls ++ set_nonblocking (k_flags k) fd).

(** [connect_tcp] *)
Definition connect_tcp (k : Kernel) (host : string) (port : Z) : Z * list Syscall :=
  let fd := k_socket k in
  if fd <? 0 then (-1, [Socket]) else
  let calls := [Socket; InetPton host] in
  match k_addr k with
  | None => (-1, calls ++ [Close fd])
  | Some addr =>
      let calls := calls ++ [Connect fd addr (htons port)] in
      if k_connect k <? 0 then (-1, calls ++ [Close fd]) else (fd, calls ++ set_nodelay fd)
  end.

Lemma htons_value p : 0 ≤ p < 2 ^ 16 → htons p = p mod 256 * 256 + p / 256.
Proof.
  intros Hp. unfold htons. rewrite Z.shiftl_mul_pow2, Z.shiftr_div_pow2 by lia.
  change (2 ^ 8) with 256. unfold u16. change (2 ^ 16) with 65536 in *. rewrite (Z.mod_small p) by lia.
  assert (Z.land (p * 256) (p / 256) = 0) as Hd.
  { apply Z.bits_inj_0. intros i. rewrite Z.land_spec. change 256 with (2 ^ 8).
    destruct (decide (0 ≤ i)); [|by rewrite Z.testbit_neg_r by lia].
    destruct (decide (i < 8)); [by rewrite Z.mul_pow2_bits_low by lia|].
    assert (Z.testbit p (i + 8) = false) as Hhi.
    { rewrite <- (Z.mod_small p (2 ^ 16)) by (change (2 ^ 16) with 65536; lia). apply Z.mod_pow2_bits_high. lia. }
    rewrite Z.div_pow2_bits, Hhi by lia. apply andb_false_r. }
  rewrite <- Z.lxor_lor, <- Z.add_nocarry_lxor by done.
  pose proof (Z.div_mod p 256 ltac:(lia)). pose proof (Z.mod_pos_bound p 256 ltac:(lia)).
  assert (0 ≤ p / 256 < 256) by (split; [apply Z.div_pos; lia|apply Z.div_lt_upper_bound; lia]).
  symmetry. apply Z.mod_unique with (q := p / 256); lia.
Qed.

(** [ntohs(htons(port)) = port] *)
Lemma htons_involutive p : 0 ≤ p < 2 ^ 16 → htons (htons p) = p.
Proof.
  intros Hp. rewrite (htons_value p Hp). pose proof (Z.div_mod p 256 ltac:(lia)).
  pose proof (Z.mod_pos_bound p 256 ltac:(lia)). change (2 ^ 16) with 65536 in *.
  assert (0 ≤ p / 256 < 256) by (split; [apply Z.div_pos; lia|apply Z.div_lt_upper_bound; lia]).
  rewrite htons_value by lia. rewrite (Z.add_comm (p mod 256 * 256)), Z.mod_add, Z.div_add by lia.
  rewrite (Z.mod_small (p / 256)), (Z.div_small (p / 256)) by lia. lia.
Qed.
