(* ===== verification/Sessions.v ===== *)
(** The connection side of [src/server.cpp]: the session table, the tables
    indexed by descriptor, and the handlers of the event loop.

    The kernel's answers to [::accept], [::read] and [::write] are arguments,
    one list per loop that makes the calls; the bytes that leave a socket are
    returned.  A [Session&] is the key of the session in [sessions_].  The calls
    to the poller and the system calls are appended to the log shared with the
    publisher. *)
From S2P Require Import Prelude Types Engine Poller Calls Protocol Ring Net Publisher Sockets Gateway.

(** [Server::track] *)
Definition track (fd : Z) (kind : Kind) (sid : Z) (sv : Server) : option Server :=
  let grow := Z.of_nat (length (kind_by_fd_ sv)) <=? fd in
  let kinds := if grow then resize (Z.to_nat (fd + 64)) KNone (kind_by_fd_ sv) else kind_by_fd_ sv in
  let sids := if grow then resize (Z.to_nat (fd + 64)) 0 (sid_by_fd_ sv) else sid_by_fd_ sv in
  kinds ← vset kinds fd kind;
  sids ← vset sids fd sid;
  Some (mkServer (sv_max_backlog sv) (to_engine_ sv) (publisher_ sv) (sessions_ sv) kinds sids
    (sv_dirty sv) (next_sid_ sv)).

(** [Server::Server], once both sockets are listening. *)
Definition Server_init (max_backlog : Z) (md : PubConfig) (listen_fd md_listen_fd : Z) : option Server :=
  let sv := mkServer max_backlog [] (Publisher_init md) ∅ [] [] [] 1 in
  sv ← track listen_fd KListen 0 sv;
  sv ← track md_listen_fd KMdListen 0 sv;
  Some (sv_call [Poll (PAdd listen_fd); Poll (PAdd md_listen_fd)] sv).

(** [Server::Server]: the calls up to the check that both sockets are listening,
    and the server with its two ports; the inner [None] is the exception. *)
Definition Server_new (k k' : Kernel) (port md_port max_backlog : Z) (md : PubConfig) :
    list Syscall * option (option (Server * Z * Z)) :=
  let '(listen_fd, bound, calls) := listen_tcp k port true in
  let '(md_listen_fd, md_bound, md_calls) := listen_tcp k' md_port true in
  (calls ++ md_calls,
    if (listen_fd <? 0) || (md_listen_fd <? 0) then Some None else
    sv ← Server_init max_backlog md listen_fd md_listen_fd;
    Some (Some (sv, default 0 bound, default 0 md_bound))).

(** [Server::session_by_fd]: the inner option is the returned pointer. *)
Definition session_by_fd (fd : Z) (sv : Server) : option (option Z) :=
  if Z.of_nat (length (kind_by_fd_ sv)) <=? fd then Some None else
  kind ← vget (kind_by_fd_ sv) fd;
  match kind with
  | KSession =>
      sid ← vget (sid_by_fd_ sv) fd;
      Some (match sessions_ sv !! sid with Some _ => Some sid | None => None end)
  | _ => Some None
  end.

(** [Server::close_session] *)
Definition close_session (sid : Z) (sv : Server) : option Server :=
  s ← sessions_ sv !! sid;
  sv ← track (fd (s_conn s)) KNone 0 (sv_call (retire_calls (fd (s_conn s))) sv);
  Some (set_sessions (delete sid (sessions_ sv)) sv).

(** ** Accepting *)
(** What [::accept] returned; [flags] is what [F_GETFL] then reports. *)
Inductive AcceptResult := AcceptedFd (fd flags : Z) | AcceptInterrupted | AcceptFailed.

(** [next_sid_++] *)
Definition bump_sid (sv : Server) : Server :=
  mkServer (sv_max_backlog sv) (to_engine_ sv) (publisher_ sv) (sessions_ sv) (kind_by_fd_ sv)
    (sid_by_fd_ sv) (sv_dirty sv) (u32 (next_sid_ sv + 1)).

(** [sessions_.emplace]: an existing entry stays. *)
Definition emplace (sid : Z) (s : Session) (sv : Server) : Server :=
  match sessions_ sv !! sid with
  | Some _ => sv
  | None => set_sessions (<[sid := s]> (sessions_ sv)) sv
  end.

Definition accept_session (fd : Z) (sv : Server) : option Server :=
  let s := mkSession (Conn_init fd) (next_sid_ sv) 1 false in
  sv ← track fd KSession (s_id s) (bump_sid sv);
  Some (emplace (s_id s) s (sv_call [Poll (PAdd fd)] sv)).

Definition accept_subscriber (fd : Z) (sv : Server) : option Server :=
  sv ← track fd KSubscriber 0 sv;
  Some (set_publisher (subscribe fd (publisher_ sv)) sv).

(** [Server::accept_all]; [md] tells the market-data port from the order port. *)
Fixpoint accept_all (md : bool) (os : list AcceptResult) (sv : Server) : option Server :=
  match os with
  | [] => None
  | AcceptedFd fd flags :: os =>
      let sv := sv_call (Accept fd :: set_nonblocking flags fd ++ set_nodelay fd) sv in
      sv ← (if md then accept_subscriber fd sv else accept_session fd sv);
      accept_all md os sv
  | AcceptInterrupted :: os => accept_all md os sv
  | AcceptFailed :: _ => Some sv
  end.

(** ** Reading and writing sessions *)

(** The read loop of [read_session]: a short read ends it, [false] closes. *)
Fixpoint read_loop (os : list ReadResult) (acc : list Z) : option (bool * list Z) :=
  match os with
  | [] => None
  | Got [] :: _ => Some (false, acc)
  | Got bs :: os =>
      if Z.of_nat (length bs) <? 2 ^ 16 then Some (true, acc ++ bs) else read_loop os (acc ++ bs)
  | ReadAgain :: _ => Some (true, acc)
  | ReadInterrupted :: os => read_loop os acc
  | Closed :: _ => Some (false, acc)
  end.

(** [Server::read_session] *)
Definition read_session (sid : Z) (rs : list ReadResult) (push : nat → list bool) (ws : list WriteResult) (sv : Server) :
    option (Server * list Z) :=
  s ← sessions_ sv !! sid;
  '(alive, bytes) ← read_loop rs (rx (s_conn s));
  let sv := sv_call [Received (fd (s_conn s)) (drop (length (rx (s_conn s))) bytes)] sv in
  if negb (alive : bool) then sv ← close_session sid sv; Some (sv, []) else
  let s := set_sconn (set_rx bytes (s_conn s)) s in
  '(ok, s, dirty, cmds) ← parse_frames push s (sv_dirty sv) (to_engine_ sv);
  let sv := set_to_engine cmds (set_dirty_list dirty (set_sessions (<[sid := s]> (sessions_ sv)) sv)) in
  if (ok : bool) then Some (sv, []) else
  '(c, out, _, _) ← flush ws (s_conn s);
  let sv := sv_call [Sent (fd c) out] sv in
  sv ← close_session sid (set_sessions (<[sid := set_sconn c s]> (sessions_ sv)) sv);
  Some (sv, out).

(** [flush_and_arm] on a session, which is closed when that fails or [strict]
    finds too much left over. *)
Definition flush_session (strict : bool) (sid : Z) (ws : list WriteResult) (sv : Server) :
    option (Server * list Z) :=
  s ← sessions_ sv !! sid;
  '(c, out, ok, _, arm) ← flush_and_arm ws (s_conn s);
  let sv := sv_call (Sent (fd c) out :: arm_calls arm) sv in
  let sv := set_sessions (<[sid := set_sconn c s]> (sessions_ sv)) sv in
  if negb (ok : bool) || strict && (sv_max_backlog sv <? backlog c)
  then sv ← close_session sid sv; Some (sv, out) else Some (sv, out).

(** [Server::flush_dirty]; [ws] gives the answers for each session. *)
Fixpoint flush_list (sids : list Z) (ws : Z → list WriteResult) (sv : Server) : option Server :=
  match sids with
  | [] => Some sv
  | sid :: sids =>
      match sessions_ sv !! sid with
      | None => flush_list sids ws sv
      | Some s =>
          let sv := set_sessions (<[sid := set_sdirty false s]> (sessions_ sv)) sv in
          '(sv, _) ← flush_session true sid (ws sid) sv;
          flush_list sids ws sv
      end
  end.

Definition flush_dirty (ws : Z → list WriteResult) (sv : Server) : option Server :=
  sv ← flush_list (sv_dirty sv) ws sv;
  Some (set_dirty_list [] sv).

(** ** The event loop *)
(** The answers to the calls one event leads to: the kernel's, where [io_flush] are
    the writes of the parting flush in [read_session], and those of the queue to
    the commands submitted. *)
Record Io := mkIo {
  io_accept : list AcceptResult; io_write : list WriteResult; io_read : list ReadResult;
  io_flush : list WriteResult; io_push : nat → list bool }.

(** [case Kind::Session] *)
Definition session_event (ev : PollEvent) (io : Io) (sv : Server) : option Server :=
  sv ← (if ev_writable ev then
          sid ← session_by_fd (ev_fd ev) sv;
          match sid with
          | Some sid => fst <$> flush_session false sid (io_write io) sv
          | None => Some sv
          end
        else Some sv);
  if ev_readable ev || ev_hangup ev then
    sid ← session_by_fd (ev_fd ev) sv;
    match sid with
    | Some sid => fst <$> read_session sid (io_read io) (io_push io) (io_flush io) sv
    | None => Some sv
    end
  else Some sv.

(** [case Kind::Subscriber] *)
Definition subscriber_event (ev : PollEvent) (io : Io) (p : Publisher) : option Publisher :=
  match subs_ p !! ev_fd ev with
  | None => Some p
  | Some _ =>
      p ← (if ev_writable ev then fst <$> on_writable (ev_fd ev) (io_write io) p else Some p);
      if ev_readable ev || ev_hangup ev then on_readable (ev_fd ev) (io_read io) p else Some p
  end.

(** The [switch] of [Server::run]. *)
Definition handle_event (ev : PollEvent) (io : Io) (sv : Server) : option Server :=
  kind ← vget (kind_by_fd_ sv) (ev_fd ev);
  match kind with
  | KNone => Some sv
  | KListen => accept_all false (io_accept io) sv
  | KMdListen => accept_all true (io_accept io) sv
  | KSession => session_event ev io sv
  | KSubscriber => p ← subscriber_event ev io (publisher_ sv); Some (set_publisher p sv)
  end.

Fixpoint handle_events (evs : list (PollEvent * Io)) (sv : Server) : option Server :=
  match evs with
  | [] => Some sv
  | (ev, io) :: evs => sv ← handle_event ev io sv; handle_events evs sv
  end.

(** The body of the loop of [Server::run]: the ready descriptors, the events the
    engine has queued, the writes of [flush_dirty] and of the publisher.  The flag
    is [worked]. *)
Definition run_once (evs : list (PollEvent * Io)) (popped : list Event) (ws md_ws : Z → list WriteResult)
    (now : Z) (sv : Server) : option (Server * bool) :=
  sv ← handle_events evs sv;
  '(sv, worked) ← drain_engine popped sv;
  sv ← flush_dirty ws sv;
  '(p, _) ← flush_all now md_ws (publisher_ sv);
  Some (set_publisher p sv, worked).

(** ** The loop *)

(** What one turn of the loop meets: the value of [stop], the answer of
    [Poller::wait] to its two arguments, the kernel's answers for the i-th ready
    descriptor, the events [try_pop] gives, the answers to the writes, the clock. *)
Record Turn := mkTurn {
  tn_stop : bool; tn_wait : Z → Z → Z * list PollEvent; tn_io : nat → Io; tn_popped : list Event;
  tn_ws : Z → list WriteResult; tn_md_ws : Z → list WriteResult; tn_now : Z }.

(** [idle < 1000 ? 0 : 1] *)
Definition wait_timeout (idle : Z) : Z := if idle <? 1000 then 0 else 1.

(** [idle = (n > 0 || worked) ? 0 : idle + 1] *)
Definition idle_after (n : Z) (worked : bool) (idle : Z) : Z := if (0 <? n) || worked then 0 else u32 (idle + 1).

(** [evs[0..n)], each with what the kernel will answer. *)
Definition ready_events (t : Turn) (n : Z) (evs : list PollEvent) : list (PollEvent * Io) :=
  imap (λ i ev, (ev, tn_io t i)) (take (Z.to_nat n) evs).

Inductive Ran := Returned (sv : Server) | Running (idle : Z) (sv : Server).

(** [Server::run]: [Running] when the turns given are used up. *)
Fixpoint server_run (turns : list Turn) (idle : Z) (sv : Server) : option Ran :=
  match turns with
  | [] => Some (Running idle sv)
  | t :: turns =>
      if tn_stop t then Some (Returned sv) else
      let '(n, evs) := tn_wait t 256 (wait_timeout idle) in
      if n <? 0 then Some (Returned sv) else
      '(sv, worked) ← run_once (ready_events t n evs) (tn_popped t) (tn_ws t) (tn_md_ws t) (tn_now t) sv;
      server_run turns (idle_after n worked idle) sv
  end.

(** [Server::~Server], the sessions in the order of their ids; the publisher has
    no destructor of its own. *)
Definition server_close (listen_fd md_listen_fd : Z) (sv : Server) : Server :=
  sv_call ((Close ∘ fd ∘ s_conn <$> (map_to_list (sessions_ sv)).*2) ++ [Close listen_fd; Close md_listen_fd]) sv.
