(* ===== verification/SessionInv.v ===== *)
(** The consistency of the gateway's tables: sessions, descriptors and the
    dirty list agree, listening sockets stay known, and no queued byte is
    forgotten; every handler keeps it. *)
From S2P Require Import Prelude Types Engine Process Poller Calls Protocol Ring Net Publisher Gateway Parse Sessions.

Section Tables.
Context (lfd mlfd : Z).

(** [sid] is the session of its own descriptor, in both directions. *)
Definition owns (sv : Server) (sid : Z) (s : Session) : Prop :=
  vget (kind_by_fd_ sv) (fd (s_conn s)) = Some KSession ∧ vget (sid_by_fd_ sv) (fd (s_conn s)) = Some sid.

(** Unsent bytes are waited for: by write interest or by the dirty list. *)
Definition awake (s : Session) : Prop :=
  pending (s_conn s) = true → want_write (s_conn s) = true ∨ s_dirty s = true.

Record server_ok (sv : Server) : Prop := {
  gw_len : length (sid_by_fd_ sv) = length (kind_by_fd_ sv);
  gw_listen : vget (kind_by_fd_ sv) lfd = Some KListen ∧ vget (kind_by_fd_ sv) mlfd = Some KMdListen;
  gw_next : 1 ≤ next_sid_ sv < 2 ^ 32;
  gw_session : ∀ sid s, sessions_ sv !! sid = Some s →
    s_id s = sid ∧ 1 ≤ sid < next_sid_ sv ∧ owns sv sid s ∧ awake s ∧ Forall byte (rx (s_conn s));
  gw_kind : ∀ f, vget (kind_by_fd_ sv) f = Some KSession →
    ∃ sid s, sessions_ sv !! sid = Some s ∧ fd (s_conn s) = f;
  gw_subs : ∀ f, is_Some (subs_ (publisher_ sv) !! f) → vget (kind_by_fd_ sv) f = Some KSubscriber;
  gw_dirty : NoDup (sv_dirty sv) ∧ ∀ sid, sid ∈ sv_dirty sv → sid < next_sid_ sv;
  gw_marked : ∀ sid s, sessions_ sv !! sid = Some s → s_dirty s = true ↔ sid ∈ sv_dirty sv }.

(** ** [track] *)

(** [std::vector::resize] upwards keeps the elements and appends the default. *)
Lemma vget_grow {A} (d : A) (l : list A) (n : nat) i :
  (length l ≤ n)%nat → vget (resize n d l) i =
  match vget l i with Some x => Some x | None => if bool_decide (0 ≤ i < Z.of_nat n) then Some d else None end.
Proof.
  intros Hn. unfold vget. case_bool_decide as Hi; [|by rewrite bool_decide_false by lia].
  destruct (l !! Z.to_nat i) as [x|] eqn:E.
  - rewrite lookup_resize by (apply lookup_lt_Some in E; lia). by rewrite E.
  - apply lookup_ge_None in E. case_bool_decide as Hb.
    + apply lookup_resize_new; lia.
    + apply lookup_resize_old. lia.
Qed.

Record tracked (f : Z) (k : Kind) (sid : Z) (sv sv' : Server) : Prop := {
  tk_len : length (sid_by_fd_ sv') = length (kind_by_fd_ sv');
  tk_kind : vget (kind_by_fd_ sv') f = Some k;
  tk_sid : vget (sid_by_fd_ sv') f = Some sid;
  tk_old : ∀ g, g ≠ f →
    (∀ k', vget (kind_by_fd_ sv) g = Some k' → vget (kind_by_fd_ sv') g = Some k') ∧
    (∀ i, vget (sid_by_fd_ sv) g = Some i → vget (sid_by_fd_ sv') g = Some i) ∧
    (∀ k', vget (kind_by_fd_ sv') g = Some k' → k' = KNone ∨ vget (kind_by_fd_ sv) g = Some k');
  tk_rest : sessions_ sv' = sessions_ sv ∧ publisher_ sv' = publisher_ sv ∧ sv_dirty sv' = sv_dirty sv ∧
    next_sid_ sv' = next_sid_ sv ∧ to_engine_ sv' = to_engine_ sv ∧ sv_max_backlog sv' = sv_max_backlog sv }.

Lemma track_ok f k sid sv :
  0 ≤ f → length (sid_by_fd_ sv) = length (kind_by_fd_ sv) →
  ∃ sv', track f k sid sv = Some sv' ∧ tracked f k sid sv sv'.
Proof.
  intros Hf Hl. unfold track.
  set (grow := Z.of_nat (length (kind_by_fd_ sv)) <=? f).
  set (kinds := if grow then _ else kind_by_fd_ sv). set (sids := if grow then _ else sid_by_fd_ sv).
  assert (f < Z.of_nat (length kinds) ∧ length sids = length kinds) as [Hlt Hl'].
  { unfold kinds, sids, grow. destruct (Z.leb_spec (Z.of_nat (length (kind_by_fd_ sv))) f); rewrite ?length_resize; lia. }
  assert (∀ g, (∀ x, vget (kind_by_fd_ sv) g = Some x → vget kinds g = Some x) ∧
    (∀ x, vget (sid_by_fd_ sv) g = Some x → vget sids g = Some x) ∧
    (∀ x, vget kinds g = Some x → x = KNone ∨ vget (kind_by_fd_ sv) g = Some x)) as Hold.
  { intros g. unfold kinds, sids, grow. destruct (Z.leb_spec (Z.of_nat (length (kind_by_fd_ sv))) f); [|auto].
    rewrite !vget_grow by lia. split_and!; intros x Hx; [by rewrite Hx|by rewrite Hx|].
    destruct (vget (kind_by_fd_ sv) g); [auto|]. case_bool_decide; simplify_eq; auto. }
  destruct (vset_is_Some kinds f k) as [kinds' Ek]; [lia|]. destruct (vset_is_Some sids f sid) as [sids' Es]; [lia|].
  rewrite Ek. simpl. rewrite Es. simpl. eexists. split; [done|]. split; simpl; [| | | |done].
  - rewrite (vset_length _ _ _ _ Ek), (vset_length _ _ _ _ Es). done.
  - by eapply vget_vset_eq.
  - by eapply vget_vset_eq.
  - intros g Hg. rewrite (vget_vset_ne _ _ _ _ _ Ek), (vget_vset_ne _ _ _ _ _ Es) by congruence. apply Hold.
Qed.

(** ** What answering does to a session and the dirty list *)
Definition touches (s : Session) (d : list Z) (s' : Session) (d' : list Z) : Prop :=
  s_id s' = s_id s ∧ fd (s_conn s') = fd (s_conn s) ∧ want_write (s_conn s') = want_write (s_conn s) ∧
  ((d' = d ∧ s_dirty s' = s_dirty s ∧ same_tx (s_conn s) (s_conn s')) ∨
   (s_dirty s' = true ∧ d' = if s_dirty s then d else d ++ [s_id s])).

Lemma touches_refl s d : touches s d s d.
Proof. by split_and!; [..|left]. Qed.

Lemma touches_trans s d s1 d1 s2 d2 : touches s d s1 d1 → touches s1 d1 s2 d2 → touches s d s2 d2.
Proof.
  intros (A1 & A2 & A3 & A4) (B1 & B2 & B3 & B4). split_and!; try congruence.
  destruct A4 as [(-> & Ad & At1 & At2)|(Ad & ->)], B4 as [(-> & Bd & Bt1 & Bt2)|(Bd & ->)].
  - left. split_and!; try congruence. split; congruence.
  - right. by rewrite Ad, A1.
  - right. split; [congruence|done].
  - right. split; [done|]. by rewrite Ad.
Qed.

Lemma send_touches {M} `{wire.Wire M} (m : M) s d : touches s d (fst (send m s d)) (snd (send m s d)).
Proof. unfold send, touches. simpl. destruct (s_dirty s) eqn:E; simpl; auto 10. Qed.

Lemma answer_touches e s d : touches s d (fst (answer e s d)) (snd (answer e s d)).
Proof. unfold answer. destruct (e_kind e); try apply send_touches; apply touches_refl. Qed.

Lemma parse_loop_touches push fuel off s d cmds ok off' s' d' cmds' :
  parse_loop push fuel off s d cmds = Some (ok, off', s', d', cmds') →
  touches s d s' d' ∧ rx (s_conn s') = rx (s_conn s).
Proof.
  revert off s d cmds. induction fuel as [|fuel IH]; intros off s d cmds E; [done|]. cbn [parse_loop] in E.
  destruct (_ <=? _); [|by simplify_eq; split; [apply touches_refl|]].
  destruct (wire.read_header _) as [h|]; [|done]. simpl in E.
  destruct (_ || _ || _); [by simplify_eq; split; [apply touches_refl|]|].
  destruct (_ <? _); [by simplify_eq; split; [apply touches_refl|]|].
  destruct (negb _).
  { pose proof (send_touches (reject_frame 0 BadSeq) s d) as T.
    destruct (send_session (reject_frame 0 BadSeq) s d) as (_ & R & _). destruct (send _ s d). by simplify_eq. }
  destruct (decode _ _ _) as [[tag [c|]]|]; [..|done]; simpl in E.
  - apply bind_Some in E as (cmds1 & _ & E). by apply IH in E.
  - set (s0 := set_expect _ s) in *. pose proof (send_touches (reject_frame tag BadMessage) s0 d) as T.
    destruct (send_session (reject_frame tag BadMessage) s0 d) as (_ & R & _).
    destruct (send _ s0 d) as [s1 d1]. apply IH in E as [E1 E2]. split; [|by rewrite E2; simpl in R; rewrite R].
    eapply touches_trans; [|exact E1]. exact T.
Qed.

Lemma parse_frames_touches push s d cmds ok s' d' cmds' :
  parse_frames push s d cmds = Some (ok, s', d', cmds') →
  touches s d s' d' ∧ (Forall byte (rx (s_conn s)) → Forall byte (rx (s_conn s'))).
Proof.
  intros E. unfold parse_frames in E. apply bind_Some in E as ([[[[ok1 off] s1] d1] cmds1] & E1 & E).
  apply parse_loop_touches in E1 as [T R]. destruct ok1; simplify_eq; simpl; [|by rewrite R].
  split; [exact T|]. rewrite R. apply Forall_drop.
Qed.

(** ** Updating and closing a session *)
Lemma touched_ok sv sid s s' d' :
  server_ok sv → sessions_ sv !! sid = Some s → touches s (sv_dirty sv) s' d' →
  Forall byte (rx (s_conn s')) →
  server_ok (set_dirty_list d' (set_sessions (<[sid := s']> (sessions_ sv)) sv)).
Proof.
  intros H Es (T1 & T2 & T3 & T4) Hb.
  destruct (gw_session _ H _ _ Es) as (S1 & S2 & S3 & S4 & _). destruct (gw_dirty _ H) as [D1 D2].
  pose proof (gw_marked _ H _ _ Es) as Hm.
  assert (awake s') as Ha.
  { destruct T4 as [(_ & Td & Tx1 & Tx2)|(Td & _)]; [|by right]. unfold awake, pending in *.
    rewrite Tx1, Tx2, T3, Td. done. }
  assert (NoDup d' ∧ (∀ x, x ∈ d' ↔ x ∈ sv_dirty sv ∨ x = sid ∧ s_dirty s' = true) ) as [N1 N2].
  { destruct T4 as [(-> & Td & _)|(Td & ->)]; [split; [done|]; rewrite Td; naive_solver|].
    destruct (s_dirty s) eqn:Esd; [split; [done|]; naive_solver|].
    split; [apply NoDup_app; split_and!; [done| |apply NoDup_singleton]|].
    - intros x Hx Hx'. apply list_elem_of_singleton in Hx'. subst x. rewrite S1 in Hx. apply Hm in Hx. done.
    - intros x. rewrite elem_of_app, list_elem_of_singleton, S1. naive_solver. }
  destruct H as [H1 H2 H3 H4 H5 H6 H7 H8]. split; simpl; try done.
  - intros i t. rewrite lookup_insert_Some. intros [[<- <-]|[Hne Et]].
    + split_and!; try lia; [|done|done]. unfold owns in *. by rewrite T2.
    + by apply H4.
  - intros f Hf. destruct (H5 f Hf) as (i & t & Et & Eft). destruct (decide (i = sid)) as [->|Hne].
    + exists sid, s'. rewrite lookup_insert_eq. split; [done|]. congruence.
    + exists i, t. by rewrite lookup_insert_ne.
  - split; [done|]. intros x. rewrite N2. intros [Hx|[-> _]]; [by apply D2|lia].
  - intros i t. rewrite lookup_insert_Some. intros [[<- <-]|[Hne Et]]; rewrite N2.
    + destruct T4 as [(_ & Td & _)|(Td & _)]; rewrite Td; naive_solver.
    + rewrite (H8 _ _ Et). naive_solver.
Qed.

Lemma session_fd sv sid s : server_ok sv → sessions_ sv !! sid = Some s → 0 ≤ fd (s_conn s).
Proof. intros H Es. destruct (gw_session _ H _ _ Es) as (_ & _ & [Hk _] & _). apply vget_lt in Hk. lia. Qed.

(** Distinct sessions have distinct descriptors, and none is a listener's. *)
Lemma session_fd_inj sv i s j t :
  server_ok sv → sessions_ sv !! i = Some s → sessions_ sv !! j = Some t →
  fd (s_conn s) = fd (s_conn t) → i = j.
Proof.
  intros H Es Et E. destruct (gw_session _ H _ _ Es) as (_ & _ & [_ Hs] & _).
  destruct (gw_session _ H _ _ Et) as (_ & _ & [_ Ht] & _). congruence.
Qed.

(** System calls leave the tables alone. *)
Lemma sv_call_ok cs sv : server_ok sv → server_ok (sv_call cs sv).
Proof. intros []. by split. Qed.

Lemma close_ok sv sid s :
  server_ok sv → sessions_ sv !! sid = Some s →
  ∃ sv', close_session sid sv = Some sv' ∧ server_ok sv' ∧ sessions_ sv' = delete sid (sessions_ sv) ∧
    sv_dirty sv' = sv_dirty sv ∧ sv_max_backlog sv' = sv_max_backlog sv ∧
    publisher_ sv' = call (retire_calls (fd (s_conn s))) (publisher_ sv) ∧
    to_engine_ sv' = to_engine_ sv ∧ next_sid_ sv' = next_sid_ sv.
Proof.
  intros H Es. destruct (track_ok (fd (s_conn s)) KNone 0 (sv_call (retire_calls (fd (s_conn s))) sv)) as (sv1 & E1 & T);
    [by eapply session_fd|apply H|]. destruct (gw_session _ H _ _ Es) as (_ & _ & [Hk Hsid] & _).
  unfold close_session. rewrite Es. simpl. rewrite E1. simpl.
  assert (∀ g k, g ≠ fd (s_conn s) → vget (kind_by_fd_ sv) g = Some k → vget (kind_by_fd_ sv1) g = Some k) as tk_old0.
  { intros g k Hg. by apply (tk_old _ _ _ _ _ T). }
  destruct T as [T1 T2 T3 T4 (R1 & R2 & R3 & R4 & R5 & R6)]. cbn in R1, R2, R3, R4, R5, R6, T4. eexists. split; [done|].
  split; [|by rewrite <- R1]. pose proof (session_fd_inj sv) as Hinj.
  destruct (gw_listen _ H) as [L1 L2]. pose proof (gw_subs _ H) as Hsub. pose proof (gw_kind _ H) as Hkind.
  pose proof (gw_session _ H) as Hsess. pose proof (gw_marked _ H) as Hmark.
  split; simpl; rewrite ?R1, ?R2, ?R3, ?R4; try apply H; [done|..].
  - split; (eapply tk_old0; [|done]); congruence.
  - intros i t [Hne Et]%lookup_delete_Some. destruct (Hsess _ _ Et) as (? & ? & [K1 K2] & ? & ?).
    assert (fd (s_conn t) ≠ fd (s_conn s)) as Hf by (intros E; destruct Hne; symmetry in E; by eapply Hinj in E).
    split_and!; try done; try lia. split; simpl; [by apply (T4 _ Hf)|by apply (T4 _ Hf)].
  - intros f Hf. destruct (decide (f = fd (s_conn s))) as [->|Hne]; [congruence|].
    destruct (proj2 (proj2 (T4 f Hne)) _ Hf) as [?|Hold]; [done|]. destruct (Hkind _ Hold) as (i & t & Et & Ef).
    exists i, t. rewrite lookup_delete_ne; [done|]. intros <-. congruence.
  - intros f Hf. apply Hsub in Hf. assert (f ≠ fd (s_conn s)) as Hne by congruence. by apply (T4 _ Hne).
  - intros i t [Hne Et]%lookup_delete_Some. by apply Hmark.
Qed.

(** Closing looks at nothing of a session but its descriptor. *)
Lemma close_insert sv sid s s' :
  sessions_ sv !! sid = Some s → fd (s_conn s') = fd (s_conn s) →
  close_session sid (set_sessions (<[sid := s']> (sessions_ sv)) sv) = close_session sid sv.
Proof.
  intros Es Ef. unfold close_session. simpl. rewrite lookup_insert_eq, Es. simpl. rewrite Ef.
  unfold track. simpl. destruct (vset _ _ KNone); [|done]. simpl. destruct (vset _ _ 0); [|done]. simpl.
  f_equal. unfold set_sessions. simpl. f_equal. apply delete_insert_eq.
Qed.

Lemma close_dirty_list sid d sv :
  close_session sid (set_dirty_list d sv) = set_dirty_list d <$> close_session sid sv.
Proof.
  unfold close_session. simpl. destruct (sessions_ sv !! sid); [|done]. simpl. unfold track. simpl.
  destruct (vset _ _ KNone); [|done]. simpl. by destruct (vset _ _ 0).
Qed.
End Tables.

(** ** Flushing changes no identity *)
Lemma flush_loop_fields os c c' out ok os' :
  flush_loop os c = Some (c', out, ok, os') →
  fd c' = fd c ∧ rx c' = rx c ∧ want_write c' = want_write c.
Proof.
  revert c c' out ok os'. induction os as [|r os IH]; intros c c' out ok os' E; cbn [flush_loop] in E;
    destruct (_ <? _); simplify_eq; try done.
  destruct r as [n| | |]; simplify_eq; try done; [|by eapply IH].
  destruct (0 <? n); simplify_eq; [|done]. apply bind_Some in E as ([[[c1 out1] ok1] os1] & E1 & E).
  simplify_eq. by apply IH in E1.
Qed.

Lemma flush_fields os c c' out ok os' :
  flush os c = Some (c', out, ok, os') → fd c' = fd c ∧ rx c' = rx c ∧ want_write c' = want_write c.
Proof.
  intros E. unfold flush in E. apply bind_Some in E as ([[[c1 out1] ok1] os1] & E1 & E).
  apply flush_loop_fields in E1. destruct ok1; simplify_eq; [|done]. unfold compact.
  destruct (_ =? _); [done|]. by destruct (_ <? _).
Qed.

Lemma flush_and_arm_fields os c c' out ok os' arm :
  flush_and_arm os c = Some (c', out, ok, os', arm) →
  fd c' = fd c ∧ rx c' = rx c ∧ (ok = true → want_write c' = pending c').
Proof.
  intros E. unfold flush_and_arm in E. apply bind_Some in E as ([[[c1 out1] ok1] os1] & E1 & E).
  apply flush_fields in E1 as (F1 & F2 & F3). destruct ok1; simplify_eq; [|done].
  destruct (Bool.eqb _ _) eqn:Eb; simplify_eq; [|done]. apply eqb_prop in Eb. done.
Qed.
