(* ===== verification/Handling.v ===== *)
(** Every handler of the gateway's event loop keeps the tables consistent. *)
From S2P Require Import Prelude Types Engine Process Poller Calls Protocol Ring Net Publisher Gateway Parse Sessions SessionInv.

Section Handling.
Context (lfd mlfd : Z).
Abbreviation ok := (server_ok lfd mlfd).

(** ** Sessions *)

(** A session whose output was flushed, taken off the front of the dirty list
    when [marked]. *)
Lemma rearmed_ok sv sid s c :
  ok sv → sessions_ sv !! sid = Some s → fd c = fd (s_conn s) → rx c = rx (s_conn s) →
  (pending c = true → want_write c = true) → ok (set_sessions (<[sid := set_sconn c s]> (sessions_ sv)) sv).
Proof.
  intros [H1 H2 H3 H4 H5 H6 H7 H8] Es Ef Er Hw. destruct (H4 _ _ Es) as (S1 & S2 & S3 & S4 & S5).
  split; simpl; try done.
  - intros i t. rewrite lookup_insert_Some. intros [[<- <-]|[Hne Et]]; [|by apply H4].
    split_and!; try done; try lia; simpl; [|by intros ?; left; auto|by rewrite Er].
    unfold owns. simpl. by rewrite Ef.
  - intros f Hf. destruct (H5 f Hf) as (i & t & Et & Eft). destruct (decide (i = sid)) as [->|Hne].
    + exists sid, (set_sconn c s). rewrite lookup_insert_eq. split; [done|]. simpl. congruence.
    + exists i, t. by rewrite lookup_insert_ne.
  - intros i t. rewrite lookup_insert_Some. intros [[<- <-]|[Hne Et]]; [by apply (H8 _ s)|by apply H8].
Qed.

Lemma unmarked_ok sv sid s sids :
  ok (set_dirty_list (sid :: sids) sv) → sessions_ sv !! sid = Some s →
  ok (set_dirty_list sids
    (set_sessions (<[sid := set_sdirty false (set_sconn (set_want_write true (s_conn s)) s)]> (sessions_ sv)) sv)).
Proof.
  intros [H1 H2 H3 H4 H5 H6 H7 H8] Es. simpl in *. destruct (H4 _ _ Es) as (S1 & S2 & S3 & S4 & S5).
  destruct H7 as [[Hn Hnd]%NoDup_cons H7]. split; simpl; try done.
  - intros i t. rewrite lookup_insert_Some. intros [[<- <-]|[Hne Et]]; [|by apply H4].
    split_and!; try done; try lia. by left.
  - intros f Hf. destruct (H5 f Hf) as (i & t & Et & Eft). destruct (decide (i = sid)) as [->|Hne].
    + eexists sid, _. rewrite lookup_insert_eq. split; [done|]. simpl. congruence.
    + exists i, t. by rewrite lookup_insert_ne.
  - split; [done|]. intros x Hx. apply H7. by right.
  - intros i t. rewrite lookup_insert_Some. intros [[<- <-]|[Hne Et]]; [done|].
    rewrite (H8 _ _ Et), elem_of_cons. naive_solver.
Qed.

(** Entries of the dirty list whose session is gone mean nothing. *)
Lemma stale_mark_ok sv sid sids :
  ok (set_dirty_list (sid :: sids) sv) → sessions_ sv !! sid = None → ok (set_dirty_list sids sv).
Proof.
  intros [H1 H2 H3 H4 H5 H6 H7 H8] Es. simpl in *. destruct H7 as [[Hn Hnd]%NoDup_cons H7].
  split; simpl; try done.
  - split; [done|]. intros x Hx. apply H7. by right.
  - intros i t Et. rewrite (H8 _ _ Et), elem_of_cons. naive_solver.
Qed.

Lemma flush_session_ok strict sid ws sv sv' out :
  ok sv → flush_session strict sid ws sv = Some (sv', out) → ok sv'.
Proof.
  intros H E. unfold flush_session in E. apply bind_Some in E as (s & Es & E).
  apply bind_Some in E as ([[[[c out1] okf] os] arm] & Ef & E).
  destruct (flush_and_arm_fields _ _ _ _ _ _ _ Ef) as (F1 & F2 & F3).
  apply (sv_call_ok _ _ (Sent (fd c) out1 :: arm_calls arm)) in H. set (sv0 := sv_call _ sv) in *.
  change (sessions_ sv0 !! sid = Some s) in Es. clearbody sv0.
  destruct (close_ok _ _ _ _ _ H Es) as (sv1 & Ec & Hc & _).
  rewrite <- (close_insert _ _ _ (set_sconn c s) Es F1) in Ec.
  destruct okf; simpl in E; cycle 1.
  { rewrite Ec in E. simpl in E. by simplify_eq. }
  destruct (strict && _); simpl in E; [rewrite Ec in E; simpl in E; by simplify_eq|]. simplify_eq.
  apply rearmed_ok; try done. intros Hp. rewrite F3; done.
Qed.

(** One round of [flush_dirty]: the session is off the list, and if it is still
    there its output is within the limit and waited for. *)
Lemma flush_mark_ok sv sid s sids ws sv' out :
  ok (set_dirty_list (sid :: sids) sv) → sessions_ sv !! sid = Some s →
  flush_session true sid ws (set_sessions (<[sid := set_sdirty false s]> (sessions_ sv)) sv) = Some (sv', out) →
  ok (set_dirty_list sids sv') ∧ sv_max_backlog sv' = sv_max_backlog sv ∧
  (∀ i, i ≠ sid → sessions_ sv' !! i = sessions_ sv !! i) ∧
  (∀ t, sessions_ sv' !! sid = Some t → s_dirty t = false ∧ want_write (s_conn t) = pending (s_conn t) ∧
    backlog (s_conn t) ≤ sv_max_backlog sv).
Proof.
  intros H Es E. unfold flush_session in E. simpl in E. rewrite lookup_insert_eq in E. simpl in E.
  apply bind_Some in E as ([[[[c out1] okf] os] arm] & Ef & E).
  destruct (flush_and_arm_fields _ _ _ _ _ _ _ Ef) as (F1 & F2 & F3). rewrite insert_insert_eq in E.
  change (set_sessions ?m (sv_call ?cs (set_sessions _ sv))) with (set_sessions m (sv_call cs sv)) in E.
  apply (sv_call_ok _ _ (Sent (fd c) out1 :: arm_calls arm)) in H.
  change (sessions_ sv) with (sessions_ (sv_call (Sent (fd c) out1 :: arm_calls arm) sv)) in *.
  change (sv_max_backlog sv) with (sv_max_backlog (sv_call (Sent (fd c) out1 :: arm_calls arm) sv)) in *.
  change (sv_call ?cs (set_dirty_list ?l sv)) with (set_dirty_list l (sv_call cs sv)) in H.
  generalize dependent (sv_call (Sent (fd c) out1 :: arm_calls arm) sv). clear sv. intros sv H Es E.
  pose proof (unmarked_ok _ _ _ _ H Es) as HA. set (sA := set_sdirty false _) in HA. set (svA := set_dirty_list sids _) in HA.
  rewrite (close_insert sv sid s (set_sconn c (set_sdirty false s)) Es F1) in E.
  cbn [andb sv_max_backlog set_sessions] in E.
  destruct (negb okf || (sv_max_backlog sv <? backlog c)) eqn:Ed.
  - assert (svA.(sessions_) !! sid = Some sA) as EA by (simpl; by rewrite lookup_insert_eq).
    destruct (close_ok _ _ _ _ _ HA EA) as (sv1 & Ec & Hc & Hd & _ & Hm & _).
    unfold svA in Ec. rewrite close_dirty_list in Ec. rewrite (close_insert sv sid s sA Es eq_refl) in Ec.
    destruct (close_session sid sv) as [sv2|]; [|done]. simpl in E, Ec. simplify_eq. simpl in Hd, Hm. split_and!; [done|done|..].
    + intros i Hi. rewrite Hd, lookup_delete_ne, lookup_insert_ne by done. done.
    + intros t. by rewrite Hd, lookup_delete_eq.
  - apply orb_false_iff in Ed as [->%negb_false_iff Hs%Z.ltb_ge]. simplify_eq.
    pose proof (rearmed_ok svA sid sA c HA) as HR. simpl in HR. rewrite lookup_insert_eq, insert_insert_eq in HR.
    split_and!; [|done|..].
    + apply HR; try done. intros Hp. rewrite F3; done.
    + intros i Hi. simpl. by rewrite lookup_insert_ne.
    + intros t. simpl. rewrite lookup_insert_eq. intros [= <-]. simpl. auto.
Qed.

Lemma flush_list_ok sids ws sv sv' :
  ok (set_dirty_list sids sv) → flush_list sids ws sv = Some sv' →
  ok (set_dirty_list [] sv') ∧ sv_max_backlog sv' = sv_max_backlog sv ∧
  (∀ i, i ∉ sids → sessions_ sv' !! i = sessions_ sv !! i) ∧
  (∀ i t, i ∈ sids → sessions_ sv' !! i = Some t →
    want_write (s_conn t) = pending (s_conn t) ∧ backlog (s_conn t) ≤ sv_max_backlog sv).
Proof.
  revert sv. induction sids as [|sid sids IH]; intros sv H E; simpl in E.
  { simplify_eq. split_and!; try done. intros i t Hi. by apply not_elem_of_nil in Hi. }
  destruct (gw_dirty _ _ _ H) as [[Hn _]%NoDup_cons _]. destruct (sessions_ sv !! sid) as [s|] eqn:Es.
  - apply bind_Some in E as ([sv1 out] & Ef & E).
    destruct (flush_mark_ok _ _ _ _ _ _ _ H Es Ef) as (H1 & Hm & Hne & Hself).
    destruct (IH sv1 H1 E) as (H2 & Hm2 & Hne2 & Hin2). rewrite Hm2, Hm. split_and!; try done.
    + intros i [Hi1 Hi2]%not_elem_of_cons. rewrite Hne2, Hne by done. done.
    + intros i t [->|Hi]%elem_of_cons Et; [|rewrite <- Hm; by eapply Hin2].
      rewrite Hne2 in Et by done. by apply Hself in Et as (_ & ? & ?).
  - destruct (IH sv (stale_mark_ok _ _ _ H Es) E) as (H2 & Hm2 & Hne2 & Hin2). split_and!; try done.
    + intros i [Hi1 Hi2]%not_elem_of_cons. by apply Hne2.
    + intros i t [->|Hi]%elem_of_cons Et; [|by eapply Hin2]. rewrite Hne2 in Et by done. congruence.
Qed.

Lemma read_loop_bytes rs acc ok bytes :
  Forall byte acc → Forall bytes_read rs →
  read_loop rs acc = Some (ok, bytes) → Forall byte bytes.
Proof.
  intros Ha Hrs. revert acc Ha. induction Hrs as [|r rs Hr Hrs IH]; intros acc Ha E; [done|].
  destruct r as [[|b bs]| | |]; simpl in E; simplify_eq; try done; [|by eapply IH].
  assert (Forall byte (acc ++ b :: bs)) by (by apply Forall_app). destruct (_ <? _); simplify_eq; [done|by eapply IH].
Qed.

Lemma read_session_ok sid rs push ws sv sv' out :
  ok sv → Forall bytes_read rs →
  read_session sid rs push ws sv = Some (sv', out) → ok sv'.
Proof.
  intros H Hrs E. unfold read_session in E. apply bind_Some in E as (s & Es & E).
  apply bind_Some in E as ([alive bytes] & Er & E). destruct (gw_session _ _ _ H _ _ Es) as (_ & _ & _ & _ & Hb).
  pose proof (read_loop_bytes _ _ _ _ Hb Hrs Er) as Hbytes.
  apply (sv_call_ok _ _ [Received (fd (s_conn s)) (drop (length (rx (s_conn s))) bytes)]) in H.
  set (sv0 := sv_call _ sv) in *. change (sessions_ sv) with (sessions_ sv0) in *.
  change (sv_dirty sv) with (sv_dirty sv0) in *. change (to_engine_ sv) with (to_engine_ sv0) in *.
  clearbody sv0. clear sv. rename sv0 into sv.
  destruct (close_ok _ _ _ _ _ H Es) as (svc & Ec & Hc & _).
  destruct alive; simpl in E; [|rewrite Ec in E; simpl in E; by simplify_eq].
  apply bind_Some in E as ([[[okp s'] d'] cmds] & Ep & E).
  destruct (parse_frames_touches _ _ _ _ _ _ _ _ Ep) as [T Hb'].
  assert (touches s (sv_dirty sv) s' d') as T' by exact T.
  pose proof (touched_ok _ _ _ _ _ _ _ H Es T' (Hb' Hbytes)) as H1.
  set (sv1 := set_to_engine cmds _) in E. assert (ok sv1) as Hok1 by (destruct H1; by split).
  destruct okp; [by simplify_eq|]. apply bind_Some in E as ([[[c out1] okf] os] & Ef & E).
  apply flush_fields in Ef as (F1 & _). assert (sessions_ sv1 !! sid = Some s') as Es1 by (simpl; by rewrite lookup_insert_eq).
  apply bind_Some in E as (sv2 & E2 & E). simplify_eq.
  change (<[sid := s']> (sessions_ sv)) with (sessions_ sv1) in E2. clearbody sv1.
  apply (sv_call_ok _ _ [Sent (fd c) out]) in Hok1. change (sessions_ sv1) with (sessions_ (sv_call [Sent (fd c) out] sv1)) in *.
  set (sv4 := sv_call _ sv1) in *. clearbody sv4. clear sv1 H1. rename sv4 into sv1.
  rewrite (close_insert sv1 sid s' (set_sconn c s') Es1 F1) in E2.
  destruct (close_ok _ _ _ _ _ Hok1 Es1) as (sv3 & E3 & H3 & _). congruence.
Qed.

(** ** The publisher only loses subscribers, except by [subscribe] *)
Definition fewer (p p' : Publisher) : Prop := ∀ f, is_Some (subs_ p' !! f) → is_Some (subs_ p !! f).

Lemma fewer_refl p : fewer p p.
Proof. by intros f. Qed.

Lemma set_publisher_ok sv p : ok sv → fewer (publisher_ sv) p → ok (set_publisher p sv).
Proof. intros [] Hf. split; simpl; auto. Qed.

Lemma on_writable_fewer f ws p p' out : on_writable f ws p = Some (p', out) → fewer p p'.
Proof.
  intros E g. unfold on_writable in E. destruct (subs_ p !! f) as [s|] eqn:Es; [|by simplify_eq].
  apply bind_Some in E as ([[[[c o] okf] os] arm] & _ & E). simplify_eq.
  destruct (decide (f = g)) as [->|Hne]; [by rewrite Es|].
  destruct okf; simpl; rewrite ?lookup_delete_ne, lookup_insert_ne by done; done.
Qed.

Lemma on_readable_fewer f rs p p' : on_readable f rs p = Some p' → fewer p p'.
Proof.
  intros E g. unfold on_readable in E. destruct (subs_ p !! f) as [s|] eqn:Es; [|by simplify_eq].
  destruct (decide (f = g)) as [->|Hne]; [by rewrite Es|].
  apply bind_Some in E as ([alive bytes] & _ & E). destruct alive; simpl in E; simplify_eq; cycle 1.
  { simpl. by rewrite lookup_delete_ne. }
  destruct (_ <? _) in E; simplify_eq; [simpl; by rewrite lookup_insert_ne|].
  apply bind_Some in E as (h & _ & E). destruct (_ || _) in E; simplify_eq.
  - simpl. by rewrite lookup_delete_ne, lookup_insert_ne.
  - apply bind_Some in E as (m & _ & E). simplify_eq. simpl. by rewrite !lookup_insert_ne.
Qed.

Lemma flush_all_fewer now ws p p' out : flush_all now ws p = Some (p', out) → fewer p p'.
Proof.
  intros E g. unfold flush_all in E. destruct (_ && _); [by simplify_eq|].
  case_bool_decide as Hb; [|done]. simplify_eq. simpl. rewrite lookup_omap, map_lookup_imap.
  destruct (subs_ p !! g); simpl; [eauto|]. by intros [? ?].
Qed.

Lemma publish_fewer {M} `{wire.Wire M} (m : M) p p' : publish m p = Some p' → fewer p p'.
Proof. intros E g. unfold publish in E. apply bind_Some in E as ([r q] & _ & E). by simplify_eq. Qed.

Lemma on_event_ok e sv sv' : ok sv → server_on_event e sv = Some sv' → ok sv'.
Proof.
  intros H E. unfold server_on_event in E.
  assert (∀ s, sessions_ sv !! e_session e = Some s →
    ok (set_dirty_list (snd (answer e s (sv_dirty sv)))
      (set_sessions (<[e_session e := fst (answer e s (sv_dirty sv))]> (sessions_ sv)) sv))) as Ha.
  { intros s Es. eapply touched_ok; [done|done|apply answer_touches|].
    destruct (gw_session _ _ _ H _ _ Es) as (_ & _ & _ & _ & Hb).
    unfold answer. destruct (e_kind e); try done;
      match goal with |- context [send ?m s ?d] => destruct (send_session m s d) as (_ & -> & _); done end. }
  assert (match sessions_ sv !! e_session e with
    | Some s => let '(s, dirty) := answer e s (sv_dirty sv) in
        Some (set_dirty_list dirty (set_sessions (<[e_session e := s]> (sessions_ sv)) sv))
    | None => Some sv end = Some sv' → ok sv') as Hgo.
  { destruct (sessions_ sv !! e_session e) as [s|]; [|by intros; simplify_eq]. specialize (Ha s eq_refl).
    destruct (answer e s (sv_dirty sv)). by intros; simplify_eq. }
  destruct (e_kind e); try exact (Hgo E); apply bind_Some in E as (p & Ep & E); simplify_eq;
    (apply set_publisher_ok; [done|exact (publish_fewer _ _ _ Ep)]).
Qed.

Lemma drain_ok evs sv sv' b : ok sv → drain_engine evs sv = Some (sv', b) → ok sv'.
Proof.
  revert sv b. induction evs as [|e evs IH]; intros sv b H E; simpl in E; [by simplify_eq|].
  apply bind_Some in E as (sv1 & E1 & E). apply bind_Some in E as ([sv2 b2] & E2 & E). simplify_eq.
  eapply IH; [by eapply on_event_ok|done].
Qed.

(** ** Accepting *)

(** What [::accept] promises: a descriptor that is not in use. *)
Record free_fd (sv : Server) (f : Z) : Prop := {
  ff_pos : 0 ≤ f;
  ff_session : ∀ sid s, sessions_ sv !! sid = Some s → fd (s_conn s) ≠ f;
  ff_sub : subs_ (publisher_ sv) !! f = None;
  ff_listen : f ≠ lfd ∧ f ≠ mlfd }.

Definition accepted (os : list AcceptResult) : list Z :=
  omap (λ r, match r with AcceptedFd f _ => Some f | _ => None end) os.

Lemma free_call cs sv f : free_fd sv f → free_fd (sv_call cs sv) f.
Proof. intros []. by split. Qed.

Lemma accept_session_ok sv f :
  ok sv → free_fd sv f → next_sid_ sv + 1 < 2 ^ 32 →
  ∃ sv', accept_session f sv = Some sv' ∧ ok sv' ∧ next_sid_ sv' = next_sid_ sv + 1 ∧
    (∀ g, g ≠ f → free_fd sv g → free_fd sv' g) ∧
    sessions_ sv' = <[next_sid_ sv := mkSession (Conn_init f) (next_sid_ sv) 1 false]> (sessions_ sv) ∧
    publisher_ sv' = call [Poll (PAdd f)] (publisher_ sv) ∧ to_engine_ sv' = to_engine_ sv.
Proof.
  intros H [F1 F2 F3 F4] Hn. unfold accept_session.
  destruct (track_ok f KSession (next_sid_ sv) (bump_sid sv)) as (sv1 & E1 & T); [done|apply H|].
  simpl. rewrite E1. simpl. destruct T as [T1 T2 T3 T4 (R1 & R2 & R3 & R4 & R5 & R6)]. simpl in *.
  set (s := mkSession _ _ _ _). assert (sessions_ sv !! next_sid_ sv = None) as Hfree.
  { destruct (sessions_ sv !! next_sid_ sv) as [t|] eqn:Et; [|done].
    destruct (gw_session _ _ _ H _ _ Et) as (_ & ? & _). lia. }
  unfold emplace. simpl. rewrite R1, Hfree. eexists. split; [done|]. pose proof (gw_next _ _ _ H) as Hnx.
  rewrite u32_small in R4 by lia. split_and!; simpl; [..|done|by rewrite R2|done].
  - destruct H as [H1 H2 H3 H4 H5 H6 [H7 H7'] H8]. split; simpl; rewrite ?R2, ?R3, ?R4; try done.
    + destruct H2, F4. split; (apply (T4 lfd) || apply (T4 mlfd)); done.
    + lia.
    + intros i t. rewrite lookup_insert_Some. intros [[<- <-]|[Hne Et]].
      * split_and!; try done; try lia.
      * destruct (H4 _ _ Et) as (? & ? & [K1 K2] & ? & ?). split_and!; try done; try lia.
        split; simpl; apply (T4 (fd (s_conn t))); eauto.
    + intros g Hg. destruct (decide (g = f)) as [->|Hne].
      * exists (next_sid_ sv), s. by rewrite lookup_insert_eq.
      * destruct (proj2 (proj2 (T4 g Hne)) _ Hg) as [?|Hold]; [done|].
        destruct (H5 _ Hold) as (i & t & Et & Ef). exists i, t. rewrite lookup_insert_ne; [done|congruence].
    + intros g Hg. assert (g ≠ f) as Hne by (intros ->; rewrite F3 in Hg; by destruct Hg).
      apply (T4 _ Hne). by apply H6.
    + split; [done|]. intros i Hi. apply H7' in Hi. lia.
    + intros i t. rewrite lookup_insert_Some. intros [[<- <-]|[Hne Et]]; [|by apply H8].
      split; [done|]. intros Hi. apply H7' in Hi. simpl in Hi. lia.
  - lia.
  - intros g Hne [G1 G2 G3 G4]. split; simpl; rewrite ?R2; try done.
    intros i t. rewrite lookup_insert_Some. intros [[<- <-]|[_ Et]]; [simpl; congruence|by eapply G2].
Qed.

Lemma accept_subscriber_ok sv f :
  ok sv → free_fd sv f →
  ∃ sv', accept_subscriber f sv = Some sv' ∧ ok sv' ∧ next_sid_ sv' = next_sid_ sv ∧
    (∀ g, g ≠ f → free_fd sv g → free_fd sv' g) ∧
    sessions_ sv' = sessions_ sv ∧ publisher_ sv' = subscribe f (publisher_ sv) ∧ to_engine_ sv' = to_engine_ sv.
Proof.
  intros H [F1 F2 F3 F4]. unfold accept_subscriber.
  destruct (track_ok f KSubscriber 0 sv) as (sv1 & E1 & T); [done|apply H|].
  simpl. rewrite E1. simpl. destruct T as [T1 T2 T3 T4 (R1 & R2 & R3 & R4 & R5 & R6)].
  unfold subscribe. rewrite R2, F3. eexists. split; [done|]. split_and!; simpl; [|done| |done|done|done].
  - destruct H as [H1 H2 H3 H4 H5 H6 H7 H8]. split; simpl; rewrite ?R1, ?R3, ?R4; try done.
    + destruct H2, F4. split; (apply (T4 lfd) || apply (T4 mlfd)); done.
    + intros i t Et. destruct (H4 _ _ Et) as (? & ? & [K1 K2] & ? & ?). split_and!; try done; try lia.
      split; simpl; apply (T4 (fd (s_conn t))); eauto.
    + intros g Hg. assert (g ≠ f) as Hne by congruence.
      destruct (proj2 (proj2 (T4 g Hne)) _ Hg) as [?|Hold]; [done|]. by apply H5.
    + intros g Hg. destruct (decide (f = g)) as [<-|Hne]; [done|]. rewrite lookup_insert_ne in Hg by done.
      apply (T4 g); [done|]. by apply H6.
  - intros g Hne [G1 G2 G3 G4]. split; simpl; rewrite ?R1; try done. by rewrite lookup_insert_ne.
Qed.

Lemma accept_one_ok md sv f :
  ok sv → free_fd sv f → next_sid_ sv + 1 < 2 ^ 32 →
  ∃ sv', (if md : bool then accept_subscriber f sv else accept_session f sv) = Some sv' ∧ ok sv' ∧
    next_sid_ sv' ≤ next_sid_ sv + 1 ∧ ∀ g, g ≠ f → free_fd sv g → free_fd sv' g.
Proof.
  intros H Hf Hn. destruct md.
  - destruct (accept_subscriber_ok _ _ H Hf) as (sv' & ? & ? & ? & ? & _). exists sv'. split_and!; try done. lia.
  - destruct (accept_session_ok _ _ H Hf Hn) as (sv' & ? & ? & ? & ? & _). exists sv'. split_and!; try done. lia.
Qed.

(** The descriptors of one batch of accepts: free, distinct, and not more than
    there are session ids left. *)
Definition accepts_ok (os : list AcceptResult) (sv : Server) : Prop :=
  NoDup (accepted os) ∧ Forall (free_fd sv) (accepted os) ∧
  next_sid_ sv + Z.of_nat (length (accepted os)) < 2 ^ 32.

Lemma accept_all_ok md os sv :
  ok sv → accepts_ok os sv →
  (∀ sv', accept_all md os sv = Some sv' → ok sv') ∧ (AcceptFailed ∈ os → is_Some (accept_all md os sv)).
Proof.
  revert sv. induction os as [|r os IH]; intros sv H (Hn & Hf & Hc); [split; [done|by intros ?%not_elem_of_nil]|].
  destruct r as [f fl| |]; cbn [accept_all].
  - change (accepted (AcceptedFd f fl :: os)) with (f :: accepted os) in *. cbn [length] in Hc.
    apply (sv_call_ok _ _ (Accept f :: set_nonblocking fl f ++ set_nodelay f)) in H.
    pose proof (Forall_impl _ _ _ Hf (free_call (Accept f :: set_nonblocking fl f ++ set_nodelay f) sv)) as Hf'. clear Hf. rename Hf' into Hf.
    change (next_sid_ sv) with (next_sid_ (sv_call (Accept f :: set_nonblocking fl f ++ set_nodelay f) sv)) in Hc.
    set (sv0 := sv_call _ sv) in *. clearbody sv0. clear sv. rename sv0 into sv.
    apply NoDup_cons in Hn as [Hni Hn]. apply Forall_cons in Hf as [Hf Hfs].
    destruct (accept_one_ok md _ _ H Hf) as (sv1 & E1 & H1 & Hx & Hfree); [lia|]. rewrite E1. simpl.
    destruct (IH sv1 H1) as [I1 I2].
    { split_and!; [done| |lia]. apply Forall_forall. intros g Hg. rewrite Forall_forall in Hfs.
      apply Hfree; [|by apply Hfs]. by intros ->. }
    split; [done|]. intros [?|?]%elem_of_cons; [done|]. by apply I2.
  - destruct (IH sv H) as [I1 I2]; [by split_and!|]. split; [done|]. intros [?|?]%elem_of_cons; [done|]. by apply I2.
  - split; [by intros; simplify_eq|eauto].
Qed.

(** ** Looking a session up by its descriptor *)
Lemma session_by_fd_ok sv f :
  ok sv → 0 ≤ f → ∃ r, session_by_fd f sv = Some r ∧
    match r with
    | Some sid => ∃ s, sessions_ sv !! sid = Some s ∧ fd (s_conn s) = f
    | None => ∀ sid s, sessions_ sv !! sid = Some s → fd (s_conn s) ≠ f
    end.
Proof.
  intros H Hf. unfold session_by_fd. destruct (Z.leb_spec (Z.of_nat (length (kind_by_fd_ sv))) f) as [Hle|Hlt].
  { exists None. split; [done|]. intros sid s Es <-.
    destruct (gw_session _ _ _ H _ _ Es) as (_ & _ & [Hk _] & _). apply vget_lt in Hk. lia. }
  destruct (vget_is_Some (kind_by_fd_ sv) f) as [k Ek]; [lia|]. rewrite Ek. simpl.
  assert (k ≠ KSession → ∀ sid s, sessions_ sv !! sid = Some s → fd (s_conn s) ≠ f) as Hnot.
  { intros Hk sid s Es <-. destruct (gw_session _ _ _ H _ _ Es) as (_ & _ & [Hk' _] & _). congruence. }
  destruct k; try (exists None; split; [done|apply Hnot; done]).
  destruct (gw_kind _ _ _ H _ Ek) as (sid & s & Es & Ef).
  destruct (gw_session _ _ _ H _ _ Es) as (_ & _ & [_ Hs] & _). rewrite Ef in Hs. rewrite Hs. simpl. rewrite Es.
  exists (Some sid). eauto.
Qed.

(** ** The event loop *)

(** The kernel's promises for the calls one event leads to. *)
Record io_ok (sv : Server) (io : Io) : Prop := {
  ik_accept : accepts_ok (io_accept io) sv;
  ik_read : Forall bytes_read (io_read io) }.

Lemma session_event_ok ev io sv sv' : ok sv → io_ok sv io → session_event ev io sv = Some sv' → ok sv'.
Proof.
  intros H [_ Hr] E. unfold session_event in E. apply bind_Some in E as (sv1 & E1 & E).
  assert (ok sv1) as H1.
  { destruct (ev_writable ev); [|by simplify_eq]. apply bind_Some in E1 as ([sid|] & _ & E1); [|by simplify_eq].
    apply fmap_Some in E1 as ([sv2 out] & E2 & ->). by eapply flush_session_ok. }
  destruct (_ || _); [|by simplify_eq]. apply bind_Some in E as ([sid|] & _ & E); [|by simplify_eq].
  apply fmap_Some in E as ([sv2 out] & E2 & ->). by eapply read_session_ok.
Qed.

Lemma subscriber_event_fewer ev io p p' : subscriber_event ev io p = Some p' → fewer p p'.
Proof.
  intros E. unfold subscriber_event in E. destruct (subs_ p !! ev_fd ev); [|inv_some; apply fewer_refl].
  apply bind_Some in E as (p1 & E1 & E). assert (fewer p p1) as H1.
  { destruct (ev_writable ev); [|inv_some; apply fewer_refl]. apply fmap_Some in E1 as ([p2 out] & E2 & ->).
    by eapply on_writable_fewer. }
  destruct (_ || _); [|by inv_some]. intros f Hf. apply H1. by eapply on_readable_fewer.
Qed.

Lemma handle_event_ok ev io sv sv' : ok sv → io_ok sv io → handle_event ev io sv = Some sv' → ok sv'.
Proof.
  intros H Hio E. unfold handle_event in E. apply bind_Some in E as (k & Ek & E). destruct k.
  - by simplify_eq.
  - by eapply accept_all_ok in E; [|done|apply Hio].
  - by eapply accept_all_ok in E; [|done|apply Hio].
  - by eapply session_event_ok.
  - apply bind_Some in E as (p & Ep & E). simplify_eq. apply set_publisher_ok; [done|by eapply subscriber_event_fewer].
Qed.

Lemma Server_init_ok max_backlog md :
  0 ≤ lfd → 0 ≤ mlfd → lfd ≠ mlfd →
  ∃ sv, Server_init max_backlog md lfd mlfd = Some sv ∧ ok sv ∧ sessions_ sv = ∅ ∧
    publisher_ sv = call [Poll (PAdd lfd); Poll (PAdd mlfd)] (Publisher_init md) ∧ to_engine_ sv = [].
Proof.
  intros Hl Hm Hne. unfold Server_init. set (sv0 := mkServer _ _ _ _ _ _ _ _).
  destruct (track_ok lfd KListen 0 sv0) as (sv1 & E1 & T); [done|done|]. rewrite E1. simpl.
  destruct (track_ok mlfd KMdListen 0 sv1) as (sv2 & E2 & T'); [done|apply T|]. rewrite E2. eexists. split; [done|].
  destruct T as [T1 T2 T3 T4 (R1 & R2 & R3 & R4 & R5 & _)], T' as [T1' T2' T3' T4' (R1' & R2' & R3' & R4' & R5' & _)].
  assert (∀ g k, vget (kind_by_fd_ sv2) g = Some k → k = KNone ∨ k = KListen ∨ k = KMdListen) as Hk.
  { intros g k Hg. destruct (decide (g = mlfd)) as [->|Hg2]; [right; right; congruence|].
    destruct (proj2 (proj2 (T4' g Hg2)) _ Hg) as [?|Hg']; [auto|].
    destruct (decide (g = lfd)) as [->|Hg1]; [right; left; congruence|].
    destruct (proj2 (proj2 (T4 g Hg1)) _ Hg') as [?|Hg0]; [auto|]. unfold vget in Hg0. simpl in Hg0.
    case_bool_decide; done. }
  rewrite R1 in R1'. rewrite R2 in R2'. rewrite R3 in R3'. rewrite R4 in R4'. rewrite R5 in R5'. simpl in *.
  split; [|by rewrite R1', R2', R5']. split; simpl; rewrite ?R1', ?R2', ?R3', ?R4'; try done.
  - split; [|done]. by apply (T4' lfd).
  - intros f Hf. apply Hk in Hf as [?|[?|?]]; done.
  - intros f [? Hf]. simpl in Hf. done.
  - split; [apply NoDup_nil_2|]. by intros ? ?%not_elem_of_nil.
Qed.
End Handling.
