(* ===== verification/Registry.v ===== *)
(** The gateway's system calls.  Its log follows the rules of [Calls], and at
    every point the poller watches exactly the descriptors of the listening
    sockets, the sessions and the subscribers, each with the write interest its
    connection records; the same descriptors are the ones that are open. *)
From S2P Require Import Prelude Types Engine Process Poller Calls Protocol Ring Net Publisher Gateway Parse Sessions SessionInv Handling.

(** ** Logs and what they describe *)

(** [log] follows the rules and leaves the registrations [W], which are all the
    open descriptors. *)
Record log_rep (fds : gset Z) (log : list Syscall) (W : gmap Z bool) : Prop := {
  lr_rules : calls_ok ∅ fds log;
  lr_reg : registry log = W;
  lr_open : open_fds fds log = dom W }.

Lemma elem_of_dead (walk : list (Z * option (Subscriber * list Z * bool * option (Z * bool)))) f :
  f ∈ omap dead_fd walk ↔ ∃ u o arm, (f, Some (u, o, false, arm)) ∈ walk.
Proof.
  rewrite list_elem_of_omap. split.
  - intros ([g [[[[u o] [|]] arm]|]] & Hin & E); simpl in E; inv_some; eauto.
  - intros (u & o & arm & Hin). eexists. split; [exact Hin|done].
Qed.

Lemma NoDup_dead (walk : list (Z * option (Subscriber * list Z * bool * option (Z * bool)))) : NoDup walk.*1 → NoDup (omap dead_fd walk).
Proof.
  induction walk as [|[g r] walk IH]; intros Hn; [apply NoDup_nil_2|]. apply NoDup_cons in Hn as [Hg Hn]. cbn [omap list_omap].
  assert (dead_fd (g, r) = None ∨ dead_fd (g, r) = Some g) as [E|E] by (destruct r as [[[[? ?] []] ?]|]; simpl; auto);
    rewrite E; [by apply IH|].
  apply NoDup_cons. split; [|by apply IH]. intros (u & o & arm & Hin)%elem_of_dead. apply Hg. apply list_elem_of_fmap.
  by exists (g, Some (u, o, false, arm)).
Qed.

Section Rep.
Context (fds : gset Z).

(** The effect of [flush_and_arm]'s call on the write interest. *)
Definition armed (f : Z) (w w' : bool) (arm : option (Z * bool)) : Prop :=
  (arm = None ∧ w' = w) ∨ arm = Some (f, w').

Lemma flush_and_arm_armed os c c' out ok os' arm :
  flush_and_arm os c = Some (c', out, ok, os', arm) → fd c' = fd c ∧ armed (fd c) (want_write c) (want_write c') arm.
Proof.
  intros E. unfold flush_and_arm in E. apply bind_Some in E as ([[[c1 out1] ok1] os1] & E1 & E).
  apply flush_fields in E1 as (F1 & F2 & F3). unfold armed. destruct ok1; simplify_eq; [|auto].
  destruct (Bool.eqb _ _) eqn:Eb; simplify_eq; [auto|]. simpl. rewrite F1. auto.
Qed.

Lemma rep_sent log W f w w' out arm :
  log_rep fds log W → W !! f = Some w → armed f w w' arm →
  log_rep fds (log ++ Sent f out :: arm_calls arm) (<[f := w']> W).
Proof.
  intros [R1 R2 R3] Ew Ha. assert (f ∈ dom W) as Hd by (apply elem_of_dom; eauto).
  split; rewrite ?calls_ok_app, ?registry_app, ?open_fds_app; fold (registry log) (open_fds fds log); rewrite ?R2, ?R3.
  - split; [done|]. destruct Ha as [[-> ->]| ->]; simpl; split_and!; try done; eauto.
  - destruct Ha as [[-> ->]| ->]; simpl; [by rewrite insert_id|done].
  - rewrite dom_insert_L. destruct Ha as [[-> ->]| ->]; simpl; set_solver.
Qed.

Lemma rep_retire log W f w :
  log_rep fds log W → W !! f = Some w → log_rep fds (log ++ retire_calls f) (delete f W).
Proof.
  intros [R1 R2 R3] Ew. assert (f ∈ dom W) as Hd by (apply elem_of_dom; eauto).
  split; rewrite ?calls_ok_app, ?registry_app, ?open_fds_app; fold (registry log) (open_fds fds log); rewrite ?R2, ?R3; simpl.
  - split_and!; try done. by rewrite lookup_delete_eq.
  - done.
  - by rewrite dom_delete_L.
Qed.

Lemma rep_accept log W f flags :
  log_rep fds log W → W !! f = None →
  log_rep fds ((log ++ Accept f :: set_nonblocking flags f ++ set_nodelay f) ++ [Poll (PAdd f)]) (<[f := false]> W).
Proof.
  intros [R1 R2 R3] Ew. assert (f ∉ dom W) as Hd by (by apply not_elem_of_dom).
  rewrite <- app_assoc.
  split; rewrite ?calls_ok_app, ?registry_app, ?open_fds_app; fold (registry log) (open_fds fds log); rewrite ?R2, ?R3; simpl.
  - rewrite elem_of_union, elem_of_singleton. tauto.
  - done.
  - by rewrite dom_insert_L.
Qed.

(** The walk of [flush_all]: all pumps, then the drops. *)
Definition pump_ok (W : gmap Z bool) (r : Z * option (Subscriber * list Z * bool * option (Z * bool))) : Prop :=
  ∃ s out ok arm w, snd r = Some (s, out, ok, arm) ∧ fd (conn s) = fst r ∧ W !! fst r = Some w ∧
    armed (fst r) w (want_write (conn s)) arm.

Definition after_pump (W : gmap Z bool) (m : gmap Z (option (Subscriber * list Z * bool * option (Z * bool)))) (f : Z) : option bool :=
  match m !! f with Some (Some (s, _, _, _)) => Some (want_write (conn s)) | _ => W !! f end.

Lemma rep_pumps log W walk :
  log_rep fds log W → NoDup walk.*1 → Forall (pump_ok W) walk →
  ∃ W', log_rep fds (log ++ (walk ≫= λ r, pump_calls (snd r))) W' ∧ ∀ f, W' !! f = after_pump W (list_to_map walk) f.
Proof.
  revert log W. induction walk as [|[g r] walk IH]; intros log W HR Hn Hw.
  { exists W. simpl. by rewrite app_nil_r. }
  apply NoDup_cons in Hn as [Hg Hn]. apply Forall_cons in Hw as [(s & out & ok & arm & w & Er & Ef & Ew & Ha) Hw]. simpl in *. subst r.
  destruct (IH (log ++ Sent g out :: arm_calls arm) (<[g := want_write (conn s)]> W)) as (W' & HR' & HW').
  - by eapply rep_sent.
  - done.
  - rewrite Forall_forall in Hw |- *. intros [h r] Hin. destruct (Hw _ Hin) as (s1 & o1 & k1 & a1 & w1 & E1 & E2 & E3 & E4).
    exists s1, o1, k1, a1, w1. split_and!; try done. simpl in *. rewrite lookup_insert_ne; [done|].
    intros <-. apply Hg. apply list_elem_of_fmap. exists (g, r). by split.
  - exists W'. simpl. rewrite Ef. rewrite <- app_assoc in HR'. split; [exact HR'|]. intros f. rewrite HW'. unfold after_pump.
    destruct (decide (g = f)) as [<-|Hne].
    + rewrite lookup_insert_eq, not_elem_of_list_to_map_1, lookup_insert_eq by done. done.
    + rewrite !lookup_insert_ne by done. done.
Qed.

Lemma rep_retires log W dead :
  log_rep fds log W → NoDup dead → (∀ f, f ∈ dead → is_Some (W !! f)) →
  ∃ W', log_rep fds (log ++ (dead ≫= retire_calls)) W' ∧ ∀ f, W' !! f = if bool_decide (f ∈ dead) then None else W !! f.
Proof.
  revert log W. induction dead as [|g dead IH]; intros log W HR Hn Hd.
  { exists W. simpl. by rewrite app_nil_r. }
  apply NoDup_cons in Hn as [Hg Hn]. destruct (Hd g) as [w Ew]; [by left|].
  destruct (IH (log ++ retire_calls g) (delete g W)) as (W' & HR' & HW').
  - by eapply rep_retire.
  - done.
  - intros f Hf. rewrite lookup_delete_ne by (by intros <-). apply Hd. by right.
  - exists W'. rewrite <- app_assoc in HR'. split; [exact HR'|]. intros f. rewrite HW'.
    destruct (decide (g = f)) as [<-|Hne].
    + rewrite (bool_decide_true (g ∈ g :: dead)) by (by left). rewrite lookup_delete_eq. by destruct (bool_decide _).
    + rewrite lookup_delete_ne by done. erewrite bool_decide_ext; [done|]. rewrite elem_of_cons. naive_solver.
Qed.
(** All of it: the subscribers that were pumped and kept, and those dropped. *)
Definition after_walk (W : gmap Z bool) (m : gmap Z (option (Subscriber * list Z * bool * option (Z * bool)))) (f : Z) : option bool :=
  match m !! f with
  | Some (Some (s, _, true, _)) => Some (want_write (conn s))
  | Some (Some (_, _, false, _)) => None
  | _ => W !! f
  end.

Lemma rep_walk log W pumped :
  log_rep fds log W → map_Forall (λ f r, pump_ok W (f, r)) pumped →
  ∃ W', log_rep fds (log ++ (map_to_list pumped ≫= λ r, pump_calls (snd r)) ++ (omap dead_fd (map_to_list pumped) ≫= retire_calls)) W' ∧
    ∀ f, W' !! f = after_walk W pumped f.
Proof.
  intros HR Hp. destruct (rep_pumps log W (map_to_list pumped) HR) as (W1 & HR1 & HW1).
  { apply NoDup_fst_map_to_list. }
  { apply Forall_forall. intros [f r] Hin%elem_of_map_to_list. by apply Hp. }
  rewrite list_to_map_to_list in HW1. set (dead := omap dead_fd (map_to_list pumped)).
  assert (∀ f, f ∈ dead ↔ ∃ u o arm, pumped !! f = Some (Some (u, o, false, arm))) as Hdead.
  { intros f. unfold dead. rewrite elem_of_dead. setoid_rewrite elem_of_map_to_list. done. }
  destruct (rep_retires (log ++ (map_to_list pumped ≫= λ r, pump_calls (snd r))) W1 dead HR1) as (W2 & HR2 & HW2).
  { apply NoDup_dead, NoDup_fst_map_to_list. }
  { intros f (u & o & arm & Ef)%Hdead. rewrite HW1. unfold after_pump. rewrite Ef. eauto. }
  exists W2. rewrite <- app_assoc in HR2. split; [exact HR2|]. intros f. rewrite HW2, HW1. unfold after_pump, after_walk.
  destruct (pumped !! f) as [[[[[u o] [|]] arm]|]|] eqn:Er; [| | |];
    [rewrite bool_decide_false|rewrite bool_decide_true|rewrite bool_decide_false|rewrite bool_decide_false]; rewrite ?Hdead, ?Er; naive_solver.
Qed.
End Rep.

(** ** What the gateway should watch *)
Section Watch.
Context (lfd mlfd : Z).
Abbreviation ok := (server_ok lfd mlfd).

(** [f] belongs to a listening socket, a session or a subscriber, whose write interest is [w]. *)
Definition watched (ss : gmap Z Session) (us : gmap Z Subscriber) (f : Z) (w : bool) : Prop :=
  (w = false ∧ (f = lfd ∨ f = mlfd)) ∨
  (∃ sid s, ss !! sid = Some s ∧ fd (s_conn s) = f ∧ want_write (s_conn s) = w) ∨
  (∃ u, us !! f = Some u ∧ want_write (conn u) = w).

Definition log (sv : Server) : list Syscall := p_calls (publisher_ sv).

Definition base : gset Z := {[lfd; mlfd]}.

Record log_ok (sv : Server) : Prop := {
  lo_rep : ∃ W, log_rep base (log sv) W ∧ ∀ f w, W !! f = Some w ↔ watched (sessions_ sv) (subs_ (publisher_ sv)) f w;
  lo_sub : ∀ f u, subs_ (publisher_ sv) !! f = Some u → fd (conn u) = f }.

(** No descriptor has two owners. *)
Record owners (ss : gmap Z Session) (us : gmap Z Subscriber) : Prop := {
  ow_inj : ∀ i s j t, ss !! i = Some s → ss !! j = Some t → fd (s_conn s) = fd (s_conn t) → i = j;
  ow_listen : ∀ i s, ss !! i = Some s → fd (s_conn s) ≠ lfd ∧ fd (s_conn s) ≠ mlfd;
  ow_sub : ∀ i s, ss !! i = Some s → us !! fd (s_conn s) = None;
  ow_sub_listen : us !! lfd = None ∧ us !! mlfd = None }.

Lemma server_owners sv : ok sv → owners (sessions_ sv) (subs_ (publisher_ sv)).
Proof.
  intros H. assert (∀ f k, vget (kind_by_fd_ sv) f = Some k → k ≠ KSubscriber → subs_ (publisher_ sv) !! f = None) as Hno.
  { intros f k Hk Hne. apply eq_None_not_Some. intros Hs. apply (gw_subs _ _ _ H) in Hs. congruence. }
  destruct (gw_listen _ _ _ H) as [L1 L2].
  split.
  - intros i s j t. apply (session_fd_inj _ _ _ _ _ _ _ H).
  - intros i s Es. destruct (gw_session _ _ _ H _ _ Es) as (_ & _ & [Hk _] & _). split; congruence.
  - intros i s Es. destruct (gw_session _ _ _ H _ _ Es) as (_ & _ & [Hk _] & _). by eapply Hno.
  - split; by eapply Hno.
Qed.

Lemma watched_session ss us sid s w :
  owners ss us → ss !! sid = Some s → watched ss us (fd (s_conn s)) w ↔ w = want_write (s_conn s).
Proof.
  intros O Es. destruct (ow_listen _ _ O _ _ Es). pose proof (ow_sub _ _ O _ _ Es) as Hs. unfold watched. split.
  - intros [[_ [?|?]]|[(j & t & Et & Ef & <-)|(u & Eu & _)]]; [done|done| |congruence].
    pose proof (ow_inj _ _ O _ _ _ _ Et Es Ef). by simplify_eq.
  - intros ->. right. left. eauto.
Qed.

Lemma watched_sub ss us f u w :
  owners ss us → us !! f = Some u → watched ss us f w ↔ w = want_write (conn u).
Proof.
  intros O Eu. destruct (ow_sub_listen _ _ O). unfold watched. split.
  - intros [[_ [->| ->]]|[(j & t & Et & <- & _)|(v & Ev & <-)]]; [congruence|congruence| |congruence].
    rewrite (ow_sub _ _ O _ _ Et) in Eu. done.
  - intros ->. right. right. eauto.
Qed.

Lemma owners_insert ss us sid s s' :
  owners ss us → ss !! sid = Some s → fd (s_conn s') = fd (s_conn s) → owners (<[sid := s']> ss) us.
Proof.
  intros O Es Ef.
  assert (∀ i t, <[sid := s']> ss !! i = Some t → ∃ t0, ss !! i = Some t0 ∧ fd (s_conn t) = fd (s_conn t0)) as Hl.
  { intros i t. rewrite lookup_insert_Some. intros [[<- <-]|[_ Et]]; eauto. }
  split; [..|apply O].
  - intros i t1 j t2 (t3 & E3 & ->)%Hl (t4 & E4 & ->)%Hl. by apply (ow_inj _ _ O).
  - intros i t (t3 & E3 & ->)%Hl. by eapply (ow_listen _ _ O).
  - intros i t (t3 & E3 & ->)%Hl. by eapply (ow_sub _ _ O).
Qed.

(** Updating, removing and adding one owner. *)
Lemma watched_insert_session ss us sid s s' f w :
  owners ss us → ss !! sid = Some s → fd (s_conn s') = fd (s_conn s) →
  watched (<[sid := s']> ss) us f w ↔
  if bool_decide (f = fd (s_conn s)) then w = want_write (s_conn s') else watched ss us f w.
Proof.
  intros O Es Ef. case_bool_decide as Hf.
  - subst f. rewrite <- Ef. apply (watched_session _ _ sid); [|by rewrite lookup_insert_eq].
    by apply (owners_insert _ _ sid s).
  - unfold watched. apply or_iff_compat_l, or_iff_compat_r. split.
    + intros (i & t & Et & <- & <-). apply lookup_insert_Some in Et as [[<- <-]|[_ Et]]; [congruence|eauto].
    + intros (i & t & Et & <- & <-). exists i, t. rewrite lookup_insert_ne; [done|]. intros <-. congruence.
Qed.

Lemma watched_delete_session ss us sid s f w :
  owners ss us → ss !! sid = Some s →
  watched (delete sid ss) us f w ↔ f ≠ fd (s_conn s) ∧ watched ss us f w.
Proof.
  intros O Es. split.
  - intros Hw. split.
    + intros ->. destruct Hw as [[_ Hl]|[(i & t & Et & Ef & _)|(u & Eu & _)]].
      * destruct (ow_listen _ _ O _ _ Es). naive_solver.
      * apply lookup_delete_Some in Et as [Hne Et]. pose proof (ow_inj _ _ O _ _ _ _ Et Es Ef). congruence.
      * rewrite (ow_sub _ _ O _ _ Es) in Eu. done.
    + destruct Hw as [?|[(i & t & Et & ?)|?]]; [by left| |by right; right].
      apply lookup_delete_Some in Et as [_ Et]. right. left. eauto.
  - intros [Hf [?|[(i & t & Et & Ef & Ew)|?]]]; [by left| |by right; right]. right. left. exists i, t.
    rewrite lookup_delete_ne; [done|]. intros <-. congruence.
Qed.

Lemma watched_insert_sub ss us f u u' g w :
  owners ss us → us !! f = Some u →
  watched ss (<[f := u']> us) g w ↔ if bool_decide (g = f) then w = want_write (conn u') else watched ss us g w.
Proof.
  intros O Eu. case_bool_decide as Hf.
  - subst g. apply watched_sub; [|by rewrite lookup_insert_eq]. destruct (ow_sub_listen _ _ O).
    assert (∀ h, us !! h = None → <[f := u']> us !! h = None) as Hn by (intros h Hh; rewrite lookup_insert_ne; congruence).
    split; [apply O|apply O| |auto]. intros i t Et. apply Hn. by eapply (ow_sub _ _ O).
  - unfold watched. do 2 apply or_iff_compat_l. by rewrite lookup_insert_ne.
Qed.

Lemma watched_delete_sub ss us f u g w :
  owners ss us → us !! f = Some u → watched ss (delete f us) g w ↔ g ≠ f ∧ watched ss us g w.
Proof.
  intros O Eu. destruct (ow_sub_listen _ _ O). split.
  - intros Hw. split.
    + intros ->. destruct Hw as [[_ [->| ->]]|[(i & t & Et & <- & _)|(v & Ev & _)]]; [congruence|congruence| |].
      * rewrite (ow_sub _ _ O _ _ Et) in Eu. done.
      * by rewrite lookup_delete_eq in Ev.
    + destruct Hw as [?|[?|(v & Ev & ?)]]; [by left|by right; left|]. apply lookup_delete_Some in Ev as [_ Ev]. right. right. eauto.
  - intros [Hf [?|[?|(v & Ev & ?)]]]; [by left|by right; left|]. right. right. exists v. by rewrite lookup_delete_ne.
Qed.

(** ** Every handler keeps it *)

(** Owners with the same descriptors and write interests. *)
Definition same_owners (ss ss' : gmap Z Session) (us us' : gmap Z Subscriber) : Prop :=
  (∀ i, (λ s, (fd (s_conn s), want_write (s_conn s))) <$> ss' !! i = (λ s, (fd (s_conn s), want_write (s_conn s))) <$> ss !! i) ∧
  (∀ f, (λ u, (fd (conn u), want_write (conn u))) <$> us' !! f = (λ u, (fd (conn u), want_write (conn u))) <$> us !! f).

Lemma same_owners_refl ss us : same_owners ss ss us us.
Proof. done. Qed.

Lemma same_owners_session ss us sid s s' :
  ss !! sid = Some s → fd (s_conn s') = fd (s_conn s) → want_write (s_conn s') = want_write (s_conn s) →
  same_owners ss (<[sid := s']> ss) us us.
Proof.
  intros Es Ef Ew. split; [|done]. intros i. destruct (decide (sid = i)) as [<-|Hne].
  - rewrite lookup_insert_eq, Es. simpl. congruence.
  - by rewrite lookup_insert_ne.
Qed.

Lemma same_owners_sub ss us f u u' :
  us !! f = Some u → fd (conn u') = fd (conn u) → want_write (conn u') = want_write (conn u) →
  same_owners ss ss us (<[f := u']> us).
Proof.
  intros Eu Ef Ew. split; [done|]. intros i. destruct (decide (f = i)) as [<-|Hne].
  - rewrite lookup_insert_eq, Eu. simpl. congruence.
  - by rewrite lookup_insert_ne.
Qed.

Lemma same_owners_watched ss ss' us us' f w :
  same_owners ss ss' us us' → watched ss' us' f w ↔ watched ss us f w.
Proof.
  assert (∀ ss ss' us us', same_owners ss ss' us us' → watched ss us f w → watched ss' us' f w) as Hgo.
  { intros a a' b b' [Ha Hb] [?|[(i & s & Es & <- & <-)|(u & Eu & <-)]]; [by left|right; left|right; right].
    - specialize (Ha i). rewrite Es in Ha. destruct (a' !! i) as [s'|] eqn:Es'; [|done]. simpl in Ha. simplify_eq. eauto.
    - specialize (Hb f). rewrite Eu in Hb. destruct (b' !! f) as [u'|] eqn:Eu'; [|done]. simpl in Hb. simplify_eq. eauto. }
  intros H. split; apply Hgo; [|done]. by split; intros x; symmetry; apply H.
Qed.

(** Steps without a call. *)
Lemma log_keep sv sv' :
  log_ok sv → log sv' = log sv → same_owners (sessions_ sv) (sessions_ sv') (subs_ (publisher_ sv)) (subs_ (publisher_ sv')) →
  log_ok sv'.
Proof.
  intros [(W & HR & HW) Hs] El Ho. split.
  - exists W. rewrite El. split; [done|]. intros f w. rewrite HW. symmetry. by apply same_owners_watched.
  - intros f u Eu. destruct Ho as [_ Ho]. specialize (Ho f). rewrite Eu in Ho. destruct (subs_ (publisher_ sv) !! f) as [v|] eqn:Ev; [|done].
    simpl in Ho. simplify_eq. apply Hs in Ev. congruence.
Qed.

(** Reading from a watched descriptor. *)
Lemma log_received sv f w bs :
  watched (sessions_ sv) (subs_ (publisher_ sv)) f w → log_ok sv → log_ok (sv_call [Received f bs] sv).
Proof.
  intros Hw [(W & [R1 R2 R3] & HW) Hs]. split; [|done]. exists W. split; [|done]. apply HW in Hw.
  unfold log in *. simpl. split; rewrite ?calls_ok_app, ?registry_app, ?open_fds_app; simpl; [|done|done].
  split_and!; [done| |done]. fold (open_fds base (p_calls (publisher_ sv))). rewrite R3. apply elem_of_dom. eauto.
Qed.

(** A flush on a session. *)
Lemma log_flush sv sid s s' out arm :
  owners (sessions_ sv) (subs_ (publisher_ sv)) → log_ok sv → sessions_ sv !! sid = Some s →
  fd (s_conn s') = fd (s_conn s) → armed (fd (s_conn s)) (want_write (s_conn s)) (want_write (s_conn s')) arm →
  log_ok (set_sessions (<[sid := s']> (sessions_ sv)) (sv_call (Sent (fd (s_conn s)) out :: arm_calls arm) sv)).
Proof.
  intros O [(W & HR & HW) Hs] Es Ef Ha. split; [|done].
  assert (W !! fd (s_conn s) = Some (want_write (s_conn s))) as Ew by (apply HW; by apply (watched_session _ _ sid)).
  exists (<[fd (s_conn s) := want_write (s_conn s')]> W). split; [by eapply rep_sent|]. intros f w. simpl.
  rewrite (watched_insert_session _ _ sid s s') by done. case_bool_decide as Hf.
  - subst f. rewrite lookup_insert_eq. naive_solver.
  - rewrite lookup_insert_ne by done. apply HW.
Qed.

Lemma log_close sv sid s sv' :
  owners (sessions_ sv) (subs_ (publisher_ sv)) → log_ok sv → sessions_ sv !! sid = Some s →
  sessions_ sv' = delete sid (sessions_ sv) → publisher_ sv' = call (retire_calls (fd (s_conn s))) (publisher_ sv) →
  log_ok sv'.
Proof.
  intros O [(W & HR & HW) Hs] Es E1 E2. split; [|by rewrite E2]. unfold log. rewrite E1, E2. simpl.
  assert (W !! fd (s_conn s) = Some (want_write (s_conn s))) as Ew by (apply HW; by apply (watched_session _ _ sid)).
  exists (delete (fd (s_conn s)) W). split; [by eapply rep_retire|]. intros f w.
  rewrite (watched_delete_session _ _ sid s) by done. rewrite lookup_delete_Some, HW. naive_solver.
Qed.

(** A server whose tables are consistent for some dirty list. *)
Definition okd (sv : Server) : Prop := ∃ d, ok (set_dirty_list d sv).

Lemma ok_okd sv : ok sv → okd sv.
Proof. exists (sv_dirty sv). by destruct sv. Qed.

Lemma okd_call cs sv : okd sv → okd (sv_call cs sv).
Proof. intros [d H]. exists d. by apply (sv_call_ok _ _ cs) in H. Qed.

Lemma okd_owners sv : okd sv → owners (sessions_ sv) (subs_ (publisher_ sv)).
Proof. intros [d H]. exact (server_owners _ H). Qed.

(** Closing a session after a last change to its connection. *)
Lemma log_close_changed sv0 sid s s' sv' :
  okd sv0 → sessions_ sv0 !! sid = Some s → fd (s_conn s') = fd (s_conn s) →
  log_ok (set_sessions (<[sid := s']> (sessions_ sv0)) sv0) →
  close_session sid (set_sessions (<[sid := s']> (sessions_ sv0)) sv0) = Some sv' → log_ok sv'.
Proof.
  intros H Es Ef L E. rewrite (close_insert _ _ s) in E by done.
  pose proof (okd_owners _ H) as O. destruct H as [d H].
  destruct (close_ok _ _ _ _ _ H Es) as (sv1 & Ec & _ & E1 & _ & _ & E2 & _). rewrite close_dirty_list, E in Ec. simpl in Ec. inv_some.
  apply (log_close (set_sessions (<[sid := s']> (sessions_ sv0)) sv0) sid s'); [|exact L|simpl; by rewrite lookup_insert_eq|simpl|simpl].
  - simpl. by eapply owners_insert.
  - simpl in E1. by rewrite E1, delete_insert_eq.
  - by rewrite Ef.
Qed.

(** [flush_session], which may end in closing the session; only what the
    tables say of descriptors matters, not who is awake. *)
Lemma log_flush_session strict sid s ws sv sv' out :
  okd sv → sessions_ sv !! sid = Some s → ∀ s1, s_conn s1 = s_conn s →
  log_ok sv → flush_session strict sid ws (set_sessions (<[sid := s1]> (sessions_ sv)) sv) = Some (sv', out) → log_ok sv'.
Proof.
  intros H Es s1 E1 L E. unfold flush_session in E. simpl in E. rewrite lookup_insert_eq in E. simpl in E.
  apply bind_Some in E as ([[[[c out1] okf] os] arm] & Ef & E). rewrite E1 in Ef. rewrite insert_insert_eq in E.
  destruct (flush_and_arm_armed _ _ _ _ _ _ _ Ef) as [F1 Ha]. rewrite F1 in E.
  pose proof (log_flush sv sid s (set_sconn c s1) out1 arm (okd_owners _ H) L Es F1 Ha) as L1.
  change (set_sessions ?m (sv_call ?cs (set_sessions _ sv))) with (set_sessions m (sv_call cs sv)) in E.
  change (sessions_ sv) with (sessions_ (sv_call (Sent (fd (s_conn s)) out1 :: arm_calls arm) sv)) in *.
  apply (okd_call (Sent (fd (s_conn s)) out1 :: arm_calls arm)) in H.
  set (sv0 := sv_call _ sv) in *. clearbody sv0. destruct (_ || _); [|by inv_some].
  apply bind_Some in E as (sv2 & Ec & E). inv_some. by eapply log_close_changed in Ec.
Qed.

Lemma set_sessions_id sv sid s : sessions_ sv !! sid = Some s → set_sessions (<[sid := s]> (sessions_ sv)) sv = sv.
Proof. intros Es. unfold set_sessions. rewrite insert_id by done. by destruct sv. Qed.

Lemma log_read_session sid rs push ws sv sv' out :
  ok sv → log_ok sv → Forall bytes_read rs →
  read_session sid rs push ws sv = Some (sv', out) → log_ok sv'.
Proof.
  intros H L Hrs E. unfold read_session in E. apply bind_Some in E as (s & Es & E).
  apply bind_Some in E as ([alive bytes] & Er & E). destruct (gw_session _ _ _ H _ _ Es) as (_ & _ & _ & _ & Hb).
  pose proof (read_loop_bytes _ _ _ _ Hb Hrs Er) as Hbytes.
  apply (log_received _ (fd (s_conn s)) (want_write (s_conn s)) (drop (length (rx (s_conn s))) bytes)) in L;
    [|right; left; eauto].
  apply (sv_call_ok _ _ [Received (fd (s_conn s)) (drop (length (rx (s_conn s))) bytes)]) in H.
  set (sv0 := sv_call _ sv) in *. change (sessions_ sv) with (sessions_ sv0) in *.
  change (sv_dirty sv) with (sv_dirty sv0) in *. change (to_engine_ sv) with (to_engine_ sv0) in *.
  clearbody sv0. clear sv. rename sv0 into sv. destruct alive; simpl in E; cycle 1.
  { apply bind_Some in E as (sv1 & Ec & E). inv_some. apply ok_okd in H. apply (log_close_changed sv sid s s); rewrite ?(set_sessions_id _ _ _ Es); done. }
  apply bind_Some in E as ([[[okp s'] d'] cmds] & Ep & E).
  destruct (parse_frames_touches _ _ _ _ _ _ _ _ Ep) as [T Hb']. assert (touches s (sv_dirty sv) s' d') as T' by exact T.
  pose proof (touched_ok _ _ _ _ _ _ _ H Es T' (Hb' Hbytes)) as H1. destruct T' as (_ & T1 & T2 & _).
  set (sv1 := set_to_engine cmds _) in E. assert (ok sv1) as Hok1 by (destruct H1; by split).
  assert (log_ok sv1) as L1 by (apply (log_keep sv); [done|done|by eapply same_owners_session]).
  destruct okp; [by inv_some|]. apply bind_Some in E as ([[[c out1] okf] os] & Ef & E).
  apply flush_fields in Ef as (F1 & _ & F3). apply bind_Some in E as (sv2 & E2 & E). inv_some.
  assert (sessions_ sv1 !! sid = Some s') as Es1 by (simpl; by rewrite lookup_insert_eq).
  pose proof (log_flush sv1 sid s' (set_sconn c s') out None (server_owners _ Hok1) L1 Es1 F1 (or_introl (conj eq_refl F3))) as L2.
  change (<[sid := s']> (sessions_ sv)) with (sessions_ sv1) in E2. clearbody sv1.
  apply (sv_call_ok _ _ [Sent (fd (s_conn s')) out]) in Hok1. rewrite F1 in E2.
  apply ok_okd in Hok1. exact (log_close_changed (sv_call [Sent (fd (s_conn s')) out] sv1) sid s' (set_sconn c s') _ Hok1 Es1 F1 L2 E2).
Qed.

Lemma log_flush_list sids ws sv sv' :
  ok (set_dirty_list sids sv) → log_ok sv → flush_list sids ws sv = Some sv' → log_ok sv'.
Proof.
  revert sv. induction sids as [|sid sids IH]; intros sv H L E; simpl in E; [by inv_some|].
  destruct (sessions_ sv !! sid) as [s|] eqn:Es; [|eapply IH; [by eapply stale_mark_ok|done|done]].
  apply bind_Some in E as ([sv1 out] & Ef & E).
  destruct (flush_mark_ok _ _ _ _ _ _ _ _ _ H Es Ef) as (H1 & _). eapply IH; [exact H1| |done].
  eapply (log_flush_session true sid s (ws sid) sv); [by exists (sid :: sids)|done| |exact L|exact Ef]. done.
Qed.

(** ** Subscribers *)
Lemma log_sub_flush sv f u u' out arm :
  owners (sessions_ sv) (subs_ (publisher_ sv)) → log_ok sv → subs_ (publisher_ sv) !! f = Some u → fd (conn u') = f →
  armed f (want_write (conn u)) (want_write (conn u')) arm →
  log_ok (set_publisher (set_subs (<[f := u']> (subs_ (publisher_ sv))) (call (Sent f out :: arm_calls arm) (publisher_ sv))) sv).
Proof.
  intros O [(W & HR & HW) Hs] Eu Ef Ha. split; simpl; cycle 1.
  { intros g v. rewrite lookup_insert_Some. intros [[<- <-]|[_ Ev]]; [done|by apply Hs]. }
  assert (W !! f = Some (want_write (conn u))) as Ew by (apply HW; exact (proj2 (watched_sub _ _ _ _ _ O Eu) eq_refl)).
  exists (<[f := want_write (conn u')]> W). split; [by eapply rep_sent|]. intros g w.
  rewrite (watched_insert_sub _ _ f u) by done. case_bool_decide as Hf.
  - subst g. rewrite lookup_insert_eq. naive_solver.
  - rewrite lookup_insert_ne by done. apply HW.
Qed.

Lemma log_drop sv f u :
  owners (sessions_ sv) (subs_ (publisher_ sv)) → log_ok sv → subs_ (publisher_ sv) !! f = Some u →
  log_ok (set_publisher (drop_sub f (publisher_ sv)) sv).
Proof.
  intros O [(W & HR & HW) Hs] Eu. split; simpl; cycle 1.
  { intros g v [_ Ev]%lookup_delete_Some. by apply Hs. }
  assert (W !! f = Some (want_write (conn u))) as Ew by (apply HW; exact (proj2 (watched_sub _ _ _ _ _ O Eu) eq_refl)).
  exists (delete f W). split; [by eapply rep_retire|]. intros g w.
  rewrite (watched_delete_sub _ _ f u) by done. rewrite lookup_delete_Some, HW. naive_solver.
Qed.

Lemma log_on_writable f ws p' out sv :
  ok sv → log_ok sv → on_writable f ws (publisher_ sv) = Some (p', out) → log_ok (set_publisher p' sv).
Proof.
  intros H L E. unfold on_writable in E. destruct (subs_ (publisher_ sv) !! f) as [u|] eqn:Eu; cycle 1.
  { inv_some. by destruct sv. }
  apply bind_Some in E as ([[[[c o] okf] os] arm] & Ef & E). inv_some.
  destruct (flush_and_arm_armed _ _ _ _ _ _ _ Ef) as [F1 Ha]. pose proof (server_owners _ H) as O.
  rewrite (lo_sub _ L _ _ Eu) in F1, Ha. rewrite F1.
  assert (log_ok (set_publisher (set_dirty true (publisher_ sv)) sv)) as L0 by (by apply (log_keep sv)).
  pose proof (log_sub_flush (set_publisher (set_dirty true (publisher_ sv)) sv) f u (set_conn c u) out arm O L0 Eu F1 Ha) as L1.
  destruct okf; [exact L1|]. eapply (log_drop _ f (set_conn c u)) in L1; [exact L1| |simpl; by rewrite lookup_insert_eq].
  simpl. split; [apply O|apply O|..].
  - intros i s Es. pose proof (ow_sub _ _ O _ _ Es). rewrite lookup_insert_ne by congruence. done.
  - destruct (ow_sub_listen _ _ O). rewrite !lookup_insert_ne by congruence. done.
Qed.

Lemma log_sub_keep sv f u u' p :
  log_ok sv → subs_ (publisher_ sv) !! f = Some u → fd (conn u') = fd (conn u) → want_write (conn u') = want_write (conn u) →
  p_calls p = log sv → subs_ p = <[f := u']> (subs_ (publisher_ sv)) → log_ok (set_publisher p sv).
Proof. intros L Eu E1 E2 El Es. apply (log_keep sv); [done|done|]. simpl. rewrite Es. by eapply same_owners_sub. Qed.

Lemma log_on_readable f rs p' sv :
  ok sv → log_ok sv → on_readable f rs (publisher_ sv) = Some p' → log_ok (set_publisher p' sv).
Proof.
  intros H L E. unfold on_readable in E. pose proof (server_owners _ H) as O.
  destruct (subs_ (publisher_ sv) !! f) as [u|] eqn:Eu; [|inv_some; by destruct sv].
  apply bind_Some in E as ([alive bytes] & _ & E).
  apply (log_received _ f (want_write (conn u)) (drop (length (rx (conn u))) bytes)) in L; [|right; right; eauto].
  change (call ?cs (publisher_ sv)) with (publisher_ (sv_call cs sv)) in E.
  change (set_publisher p' sv) with (set_publisher p' (sv_call [Received f (drop (length (rx (conn u))) bytes)] sv)).
  change (subs_ (publisher_ sv)) with (subs_ (publisher_ (sv_call [Received f (drop (length (rx (conn u))) bytes)] sv))) in O, Eu.
  change (sessions_ sv) with (sessions_ (sv_call [Received f (drop (length (rx (conn u))) bytes)] sv)) in O.
  set (sv0 := sv_call _ sv) in *. clearbody sv0. clear sv H. rename sv0 into sv.
  destruct alive; simpl in E; [|inv_some; by eapply log_drop].
  set (u1 := set_conn (set_rx bytes (conn u)) u) in *. set (p1 := set_subs _ (publisher_ sv)) in *.
  assert (log_ok (set_publisher p1 sv)) as L1 by (by eapply (log_sub_keep sv f u u1 p1)).
  destruct (_ <? _); [by inv_some|]. apply bind_Some in E as (h & _ & E).
  assert (subs_ p1 !! f = Some u1) as Eu1 by (simpl; by rewrite lookup_insert_eq).
  destruct (_ || _); [inv_some|].
  { eapply (log_drop _ f u1) in L1; [exact L1| |done]. simpl. split; [apply O|apply O|..].
    - intros i s Es. pose proof (ow_sub _ _ O _ _ Es). rewrite lookup_insert_ne by congruence. done.
    - destruct (ow_sub_listen _ _ O). rewrite !lookup_insert_ne by congruence. done. }
  apply bind_Some in E as (m & _ & E). inv_some. eapply (log_sub_keep (set_publisher p1 sv) f u1); [exact L1|exact Eu1| | |done|reflexivity].
  all: unfold start_cursor; destruct (_ || _); [destruct (_ <? _)|]; done.
Qed.

(** [pump] changes a subscriber's write interest only together with the poller's. *)
Lemma copy_frames_watch fuel ring limit now u u' :
  copy_frames fuel ring limit now u = Some u' → fd (conn u') = fd (conn u) ∧ want_write (conn u') = want_write (conn u).
Proof.
  revert u. induction fuel as [|fuel IH]; intros u E; [done|]. cbn [copy_frames] in E.
  destruct (_ && _); [|by inv_some]. apply bind_Some in E as (bs & _ & E). by apply IH in E.
Qed.

Lemma refill_watch cfg ring now u u' :
  refill cfg ring now u = Some u' → fd (conn u') = fd (conn u) ∧ want_write (conn u') = want_write (conn u).
Proof.
  intros E. unfold refill in E. set (u0 := if last_tx_ns u =? 0 then _ else u) in E.
  assert (conn u0 = conn u) as Eu by (unfold u0; by destruct (_ =? _)). rewrite <- Eu. clearbody u0.
  destruct (subscribed u0); [|by inv_some]. apply bind_Some in E as (u1 & E1 & E). apply copy_frames_watch in E1 as [F1 F2]. inv_some.
  assert (fd (conn (beat cfg ring now u1)) = fd (conn u1) ∧ want_write (conn (beat cfg ring now u1)) = want_write (conn u1)) as [-> ->]
    by (unfold beat; by destruct (_ && _)).
  rewrite F1, F2. unfold skip_lost. by destruct (_ && _).
Qed.

Lemma pump_watch cfg ring now os u u' out ok arm :
  pump cfg ring now os u = Some (u', out, ok, arm) →
  fd (conn u') = fd (conn u) ∧ armed (fd (conn u)) (want_write (conn u)) (want_write (conn u')) arm.
Proof.
  intros E. unfold pump in E. apply bind_Some in E as (u1 & E1 & E). apply refill_watch in E1 as [<- <-].
  apply bind_Some in E as ([[[[c o] okf] os'] a] & Ef & E). apply flush_and_arm_armed in Ef as [<- Ha].
  destruct (negb okf); [by inv_some|]. destruct (_ && _); [|by inv_some].
  destruct (stalled_since_ns _ =? 0); destruct (_ <=? _); by inv_some.
Qed.

Lemma log_flush_all now ws p' out sv :
  ok sv → log_ok sv → flush_all now ws (publisher_ sv) = Some (p', out) → log_ok (set_publisher p' sv).
Proof.
  intros H [(W & HR & HW) Hs] E. unfold flush_all in E. pose proof (server_owners _ H) as O.
  destruct (_ && _); [inv_some; by destruct sv; split; [exists W|]|].
  set (pumped := map_imap _ _) in E. case_bool_decide as Hall; [|done]. inv_some.
  assert (∀ f r, pumped !! f = Some r → ∃ u u' o k arm, subs_ (publisher_ sv) !! f = Some u ∧ r = Some (u', o, k, arm) ∧
    fd (conn u') = f ∧ W !! f = Some (want_write (conn u)) ∧ armed f (want_write (conn u)) (want_write (conn u')) arm) as Hp.
  { intros f r Er. pose proof (Hall f r Er) as [[[[u' o] k] arm] Er']. unfold pumped in Er. rewrite map_lookup_imap in Er.
    destruct (subs_ (publisher_ sv) !! f) as [u|] eqn:Eu; [|done]. simpl in Er. inv_some. 
    destruct (pump_watch _ _ _ _ _ _ _ _ _ Er') as [F1 Ha]. rewrite (Hs _ _ Eu) in F1, Ha.
    exists u, u', o, k, arm. split_and!; try done. apply HW. exact (proj2 (watched_sub _ _ _ _ _ O Eu) eq_refl). }
  destruct (rep_walk base (log sv) W pumped HR) as (W2 & HR2 & HW2).
  { intros f r Er. destruct (Hp _ _ Er) as (u & u' & o & k & arm & ? & ? & ? & ? & ?). exists u', o, k, arm, (want_write (conn u)). by split_and!. }
  set (alive := omap _ pumped). assert (∀ f u, alive !! f = Some u → ∃ o arm, pumped !! f = Some (Some (u, o, true, arm))) as Halive.
  { intros f u Eu. unfold alive in Eu. rewrite lookup_omap in Eu. apply bind_Some in Eu as ([[[[u' o] [|]] arm]|] & Er & Eu); simpl in Eu; inv_some; eauto. }
  assert (∀ f, subs_ (publisher_ sv) !! f = None → alive !! f = None) as Hnone.
  { intros f Ef. apply eq_None_not_Some. intros [u Eu]. destruct (Halive _ _ Eu) as (o & arm & Er).
    destruct (Hp _ _ Er) as (u1 & ? & ? & ? & ? & Eu1 & _). congruence. }
  assert (owners (sessions_ sv) alive) as O'.
  { split; [apply O|apply O|..].
    - intros i s Es. apply Hnone. by eapply (ow_sub _ _ O).
    - destruct (ow_sub_listen _ _ O). auto. }
  split; simpl; cycle 1.
  { intros f u Eu. destruct (Halive _ _ Eu) as (o & arm & Er). destruct (Hp _ _ Er) as (u1 & u2 & ? & ? & ? & _ & ? & <- & _). congruence. }
  exists W2. split; [exact HR2|]. intros f w. rewrite HW2. unfold after_walk. destruct (pumped !! f) as [r|] eqn:Er.
  - destruct (Hp _ _ Er) as (u & u' & o & k & arm & Eu & -> & _). destruct k.
    + rewrite (watched_sub _ _ _ u' _ O'); [naive_solver|]. unfold alive. by rewrite lookup_omap, Er.
    + split; [done|]. assert (alive !! f = None) as Ea by (unfold alive; by rewrite lookup_omap, Er). destruct (ow_sub_listen _ _ O) as [O1 O2].
      intros [[_ [->| ->]]|[(i & t & Et & <- & _)|(v & Ev & _)]]; [congruence|congruence| |congruence].
      rewrite (ow_sub _ _ O _ _ Et) in Eu. done.
  - rewrite HW. assert (subs_ (publisher_ sv) !! f = None) as Eu.
    { unfold pumped in Er. rewrite map_lookup_imap in Er. by destruct (subs_ (publisher_ sv) !! f). }
    unfold watched. rewrite Eu, (Hnone _ Eu). done.
Qed.

(** ** Accepting *)

(** What the kernel promises of [::accept]: a descriptor that is not open. *)
Definition fresh_fd (sv : Server) (f : Z) : Prop := 0 ≤ f ∧ f ∉ open_fds base (log sv).

Lemma fresh_free sv f : ok sv → log_ok sv → fresh_fd sv f → free_fd lfd mlfd sv f.
Proof.
  intros H [(W & [_ _ R3] & HW) _] [Hf Hn]. rewrite R3, elem_of_dom in Hn.
  assert (∀ w, ¬ watched (sessions_ sv) (subs_ (publisher_ sv)) f w) as Hno by (intros w Hw; apply HW in Hw; eauto).
  split; [done|..].
  - intros sid s Es Ef. apply (Hno (want_write (s_conn s))). right. left. eauto.
  - apply eq_None_not_Some. intros [u Eu]. apply (Hno (want_write (conn u))). right. right. eauto.
  - split; intros ->; apply (Hno false); left; auto.
Qed.

Lemma log_accept_one md f flags sv sv' :
  ok sv → log_ok sv → free_fd lfd mlfd sv f → next_sid_ sv + 1 < 2 ^ 32 →
  (let sv := sv_call (Accept f :: set_nonblocking flags f ++ set_nodelay f) sv in
   if md : bool then accept_subscriber f sv else accept_session f sv) = Some sv' → log_ok sv'.
Proof.
  intros H [(W & HR & HW) Hs] Hfree Hn E. set (cs := Accept f :: _) in E.
  assert (W !! f = None) as Ew.
  { apply eq_None_not_Some. intros [w [[_ ?]|[(i & s & Es & Ef & _)|(u & Eu & _)]]%HW].
    - destruct (ff_listen _ _ _ _ Hfree). tauto.
    - by destruct (ff_session _ _ _ _ Hfree _ _ Es Ef).
    - rewrite (ff_sub _ _ _ _ Hfree) in Eu. done. }
  pose proof (rep_accept base (log sv) W f flags HR Ew) as HR'. pose proof (free_call _ _ cs sv f Hfree) as Hfree'.
  pose proof (ff_sub _ _ _ _ Hfree) as Hsub. apply (sv_call_ok _ _ cs) in H. destruct md.
  - destruct (accept_subscriber_ok _ _ _ _ H Hfree') as (sv1 & E1 & _ & _ & _ & Es & Ep & _). cbv zeta in E. rewrite E in E1. inv_some.
    unfold subscribe in Ep. simpl in Ep, Es. rewrite Hsub in Ep. split; unfold log; rewrite ?Es, Ep; simpl.
    + eexists. split; [exact HR'|]. intros g w. rewrite lookup_insert_Some, HW. unfold watched. setoid_rewrite lookup_insert_Some.
      split.
      * intros [[<- <-]|[Hne [?|[?|(u & Eu & <-)]]]]; [right; right; eexists; split; [by left|done]|by left|by right; left|right; right].
        exists u. auto.
      * intros [?|[?|(u & [[<- <-]|[Hne Eu]] & <-)]]; [right; split; [|by left]|right; split; [|by right; left]|by left|right; split; [done|right; right; eauto]].
        -- destruct (ff_listen _ _ _ _ Hfree). naive_solver.
        -- destruct H0 as (i & s & Ei & <- & _). intros ->. by eapply (ff_session _ _ _ _ Hfree).
    + intros g u. rewrite lookup_insert_Some. intros [[<- <-]|[_ Eu]]; [done|by apply Hs].
  - destruct (accept_session_ok _ _ _ _ H Hfree') as (sv1 & E1 & _ & _ & _ & Es & Ep & _); [done|]. cbv zeta in E. rewrite E in E1. inv_some.
    simpl in Ep, Es. split; unfold log; rewrite ?Es, Ep; simpl; [|done].
    eexists. split; [exact HR'|]. intros g w. rewrite lookup_insert_Some, HW. unfold watched. setoid_rewrite lookup_insert_Some.
    assert (sessions_ sv !! next_sid_ sv = None) as Hnew.
    { destruct (sessions_ sv !! next_sid_ sv) as [t|] eqn:Et; [|done].
      destruct (gw_session _ _ _ H _ _ Et) as (_ & ? & _). simpl in *. lia. }
    split.
    + intros [[<- <-]|[Hne [?|[(i & t & Et & <- & <-)|?]]]]; [right; left|by left|right; left|by right; right].
      * eexists _, _. split; [by left|done].
      * exists i, t. split; [right|done]. split; [congruence|done].
    + intros [?|[(i & t & [[<- <-]|[Hne Et]] & <- & <-)|?]]; [right; split; [|by left]|by left|right; split; [|right; left; eauto]|right; split; [|by right; right]].
      * destruct (ff_listen _ _ _ _ Hfree). naive_solver.
      * intros ->. by eapply (ff_session _ _ _ _ Hfree).
      * intros ->. destruct H0 as (u & Eu & _). congruence.
Qed.

Lemma log_accept_all md os sv sv' :
  ok sv → log_ok sv → accepts_ok lfd mlfd os sv → accept_all md os sv = Some sv' → log_ok sv'.
Proof.
  revert sv. induction os as [|r os IH]; intros sv H L (Hn & Hf & Hc) E; [done|]. destruct r as [f fl| |]; cbn [accept_all] in E.
  - change (accepted (AcceptedFd f fl :: os)) with (f :: accepted os) in *. cbn [length] in Hc.
    apply NoDup_cons in Hn as [Hni Hn]. apply Forall_cons in Hf as [Hf Hfs]. apply bind_Some in E as (sv1 & E1 & E).
    pose proof (log_accept_one md f fl sv sv1 H L Hf ltac:(lia) E1) as L1.
    set (cs := Accept f :: _) in E1. apply (sv_call_ok _ _ cs) in H. pose proof (free_call _ _ cs sv f Hf) as Hf'.
    destruct (accept_one_ok lfd mlfd md _ _ H Hf') as (sv2 & E2 & H2 & Hx & Hfree); [simpl; lia|]. rewrite E1 in E2. inv_some.
    apply (IH sv2 H2 L1); [|done]. split_and!; [done| |simpl in Hx; lia]. apply Forall_forall. intros g Hg. rewrite Forall_forall in Hfs.
    apply Hfree; [by intros ->|]. by apply free_call, Hfs.
  - apply (IH sv); [done|done|by split_and!|done].
  - by inv_some.
Qed.

(** ** The event loop *)
Lemma log_session_event ev io sv sv' :
  ok sv → log_ok sv → io_ok lfd mlfd sv io → session_event ev io sv = Some sv' → log_ok sv'.
Proof.
  intros H L [_ Hr] E. unfold session_event in E. apply bind_Some in E as (sv1 & E1 & E).
  assert (ok sv1 ∧ log_ok sv1) as [H1 L1].
  { destruct (ev_writable ev); [|by inv_some]. apply bind_Some in E1 as ([sid|] & _ & E1); [|by inv_some].
    apply fmap_Some in E1 as ([sv2 out] & E2 & ->). split; [by eapply flush_session_ok|].
    assert (is_Some (sessions_ sv !! sid)) as [s Es].
    { unfold flush_session in E2. apply bind_Some in E2 as (s & Es & _). eauto. }
    eapply (log_flush_session false sid s); [by apply ok_okd|done|reflexivity|exact L|]. by rewrite set_sessions_id. }
  destruct (_ || _); [|by inv_some]. apply bind_Some in E as ([sid|] & _ & E); [|by inv_some].
  apply fmap_Some in E as ([sv2 out] & E2 & ->). by eapply log_read_session.
Qed.

Lemma log_subscriber_event ev io p' sv :
  ok sv → log_ok sv → subscriber_event ev io (publisher_ sv) = Some p' → log_ok (set_publisher p' sv).
Proof.
  intros H L E. unfold subscriber_event in E. destruct (subs_ (publisher_ sv) !! ev_fd ev); [|inv_some; by destruct sv].
  apply bind_Some in E as (p1 & E1 & E).
  assert (ok (set_publisher p1 sv) ∧ log_ok (set_publisher p1 sv)) as [H1 L1].
  { destruct (ev_writable ev); [|inv_some; by destruct sv]. apply fmap_Some in E1 as ([p2 out] & E2 & ->).
    split; [apply set_publisher_ok; [done|by eapply on_writable_fewer]|by eapply log_on_writable]. }
  destruct (_ || _); [|by inv_some]. by apply (log_on_readable _ _ p' (set_publisher p1 sv)) in E.
Qed.

Lemma log_handle_event ev io sv sv' :
  ok sv → log_ok sv → io_ok lfd mlfd sv io → handle_event ev io sv = Some sv' → log_ok sv'.
Proof.
  intros H L Hio E. unfold handle_event in E. apply bind_Some in E as (k & Ek & E). destruct k.
  - by inv_some.
  - by eapply log_accept_all; [..|apply Hio|].
  - by eapply log_accept_all; [..|apply Hio|].
  - by eapply log_session_event.
  - apply bind_Some in E as (p & Ep & E). inv_some. by eapply log_subscriber_event.
Qed.

Lemma log_drain evs sv sv' b : log_ok sv → drain_engine evs sv = Some (sv', b) → log_ok sv'.
Proof.
  revert sv b. induction evs as [|e evs IH]; intros sv b L E; simpl in E; [by inv_some|].
  apply bind_Some in E as (sv1 & E1 & E). apply bind_Some in E as ([sv2 b2] & E2 & E). inv_some.
  eapply IH; [|done]. unfold server_on_event in E1.
  assert (∀ s, sessions_ sv !! e_session e = Some s →
    log_ok (set_dirty_list (snd (answer e s (sv_dirty sv)))
      (set_sessions (<[e_session e := fst (answer e s (sv_dirty sv))]> (sessions_ sv)) sv))) as Ha.
  { intros s Es. apply (log_keep sv); [done|done|]. destruct (answer_touches e s (sv_dirty sv)) as (_ & T1 & T2 & _).
    by eapply same_owners_session. }
  assert (match sessions_ sv !! e_session e with
    | Some s => let '(s, dirty) := answer e s (sv_dirty sv) in
        Some (set_dirty_list dirty (set_sessions (<[e_session e := s]> (sessions_ sv)) sv))
    | None => Some sv end = Some sv1 → log_ok sv1) as Hgo.
  { destruct (sessions_ sv !! e_session e) as [s|]; [|by intros; inv_some]. specialize (Ha s eq_refl).
    destruct (answer e s (sv_dirty sv)). by intros; inv_some. }
  destruct (e_kind e); try exact (Hgo E1); apply bind_Some in E1 as (p & Ep & E1); inv_some;
    unfold publish in Ep; apply bind_Some in Ep as ([r q] & _ & Ep); inv_some; by apply (log_keep sv).
Qed.

Lemma log_flush_dirty ws sv sv' : ok sv → log_ok sv → flush_dirty ws sv = Some sv' → log_ok sv'.
Proof.
  intros H L E. unfold flush_dirty in E. apply bind_Some in E as (sv1 & E1 & E). inv_some.
  apply (log_keep sv1); [|done|done]. eapply log_flush_list; [|exact L|exact E1]. by destruct sv.
Qed.

Lemma log_init max_backlog md sv :
  0 ≤ lfd → 0 ≤ mlfd → lfd ≠ mlfd → Server_init max_backlog md lfd mlfd = Some sv → log_ok sv.
Proof.
  intros Hl Hm Hne E. destruct (Server_init_ok lfd mlfd max_backlog md Hl Hm Hne) as (sv1 & E1 & _ & Es & Ep & _).
  rewrite E in E1. inv_some. split; unfold log; rewrite Ep; simpl; [|by intros f u ?%lookup_empty_Some].
  exists (<[mlfd := false]> {[lfd := false]}). split.
  - split; simpl; [|done|rewrite dom_insert_L, dom_singleton_L; unfold base; set_solver].
    split_and!; try done; unfold base; try set_solver. by rewrite lookup_insert_ne.
  - intros f w. rewrite Es, lookup_insert_Some, lookup_singleton_Some. unfold watched. setoid_rewrite lookup_empty. naive_solver.
Qed.

(** ** What the kernel promises for the calls one event leads to *)
Definition accepts_fresh (os : list AcceptResult) (sv : Server) : Prop :=
  NoDup (accepted os) ∧ Forall (fresh_fd sv) (accepted os) ∧ next_sid_ sv + Z.of_nat (length (accepted os)) < 2 ^ 32.

Record kernel_ok (sv : Server) (io : Io) : Prop := {
  ko_accept : accepts_fresh (io_accept io) sv;
  ko_read : Forall bytes_read (io_read io) }.

Lemma kernel_io_ok sv io : ok sv → log_ok sv → kernel_ok sv io → io_ok lfd mlfd sv io.
Proof.
  intros H L [(H1 & H2 & H3) Hr]. split; [|done]. split_and!; [done| |done].
  eapply Forall_impl; [exact H2|]. intros f. by apply fresh_free.
Qed.
End Watch.
