(* ===== verification/Reach.v ===== *)
(** The reachable states of the gateway: every combination of the pieces of
    [Server::run]'s loop, for a kernel that keeps its promises; in all of them the
    tables and the log are consistent, and the handlers return. *)
From S2P Require Import Prelude Types Engine Process Poller Calls Protocol Ring Net Publisher Gateway Parse Sessions SessionInv.
From S2P Require Import Handling Registry GatewayTheorems.

(** ** The handlers return once the kernel has answered *)
Definition answered (ws : list WriteResult) : Prop := ∃ r, r ∈ ws ∧ (r = Again ∨ r = Failed).
Definition read_answered (rs : list ReadResult) : Prop := ∃ r, r ∈ rs ∧ (r = ReadAgain ∨ r = Closed).

(** The bytes [::read] delivers in one go through its answers. *)
Definition delivered (rs : list ReadResult) : Z :=
  zsum ((λ r, match r with Got bs => Z.of_nat (length bs) | _ => 0 end) <$> rs).

Lemma delivered_cons r rs :
  delivered (r :: rs) = match r with Got bs => Z.of_nat (length bs) | _ => 0 end + delivered rs.
Proof. done. Qed.

Lemma delivered_nonneg rs : 0 ≤ delivered rs.
Proof. induction rs as [|r rs IH]; [done|]. rewrite delivered_cons. destruct r; lia. Qed.

Lemma flush_answered ws c : answered ws → is_Some (flush ws c).
Proof.
  intros Ha. unfold flush. assert (is_Some (flush_loop ws c)) as [[[[c' out] ok] os] ->]; [|destruct ok; simpl; eauto].
  revert c. induction ws as [|r ws IH]; intros c; [by destruct Ha as (? & ?%not_elem_of_nil & _)|].
  cbn [flush_loop]. destruct (_ <? _); [|eauto]. destruct Ha as (x & Hx & Hr).
  assert (r ≠ Again → r ≠ Failed → ∀ c, is_Some (flush_loop ws c)) as Hgo.
  { intros H1 H2. apply IH. exists x. split; [|done]. apply elem_of_cons in Hx as [->|?]; [|done]. by destruct Hr. }
  destruct r as [n| | |]; eauto. destruct (0 <? n); [|eauto].
  destruct (Hgo ltac:(done) ltac:(done) (set_tx_off (u64 (tx_off c + n)) c)) as [[[[c1 o1] ok1] os1] ->]. simpl. eauto.
Qed.

Lemma flush_and_arm_answered ws c : answered ws → is_Some (flush_and_arm ws c).
Proof.
  intros Ha. unfold flush_and_arm. destruct (flush_answered ws c Ha) as [[[[c' out] ok] os] ->]. simpl.
  destruct ok; [|eauto]. destruct (Bool.eqb _ _); eauto.
Qed.

Lemma read_loop_answered rs acc :
  read_answered rs → ∃ ok bytes, read_loop rs acc = Some (ok, bytes) ∧
    Z.of_nat (length bytes) ≤ Z.of_nat (length acc) + delivered rs.
Proof.
  revert acc. induction rs as [|r rs IH]; intros acc (x & Hx & Hr); [by apply not_elem_of_nil in Hx|].
  pose proof (delivered_nonneg rs) as Hd. rewrite delivered_cons.
  assert (r ≠ ReadAgain → r ≠ Closed → read_answered rs) as Hgo.
  { intros H1 H2. exists x. split; [|done]. apply elem_of_cons in Hx as [->|?]; [|done]. by destruct Hr. }
  destruct r as [[|b bs]| | |]; simpl.
  - eexists _, _. split; [done|]. lia.
  - destruct (_ <? _); [eexists _, _; split; [done|]; rewrite length_app; simpl; lia|].
    destruct (IH (acc ++ b :: bs)) as (ok & bytes & -> & Hl); [by apply Hgo|]. eexists _, _. split; [done|].
    rewrite length_app in Hl. simpl in Hl. lia.
  - eexists _, _. split; [done|]. lia.
  - destruct (IH acc) as (ok & bytes & -> & Hl); [by apply Hgo|]. eexists _, _. split; [done|]. lia.
  - eexists _, _. split; [done|]. lia.
Qed.

Lemma read_all_answered rs acc : read_answered rs → is_Some (read_all rs acc).
Proof.
  revert acc. induction rs as [|r rs IH]; intros acc (x & Hx & Hr); [by apply not_elem_of_nil in Hx|].
  assert (r ≠ ReadAgain → r ≠ Closed → read_answered rs) as Hgo.
  { intros H1 H2. exists x. split; [|done]. apply elem_of_cons in Hx as [->|?]; [|done]. by destruct Hr. }
  destruct r as [[|b bs]| | |]; simpl; eauto; apply IH; by apply Hgo.
Qed.

Lemma on_readable_answered f rs p : read_answered rs → is_Some (on_readable f rs p).
Proof.
  intros Hr. unfold on_readable. destruct (subs_ p !! f) as [s|]; [|eauto].
  destruct (read_all_answered rs (rx (conn s)) Hr) as [[alive bytes] ->]. simpl. destruct alive; simpl; [|eauto].
  destruct (Z.ltb_spec (Z.of_nat (length bytes)) (wire.sizeof wire.Subscribe)) as [|Hl]; [eauto|].
  unfold wire.read_header. change (wire.sizeof wire.Subscribe) with 16 in Hl.
  destruct (Z.ltb_spec (Z.of_nat (length bytes)) 8); [lia|]. simpl. destruct (_ || _); [eauto|].
  rewrite read_enough by done. simpl. eauto.
Qed.

Section Total.
Context (lfd mlfd : Z).
Abbreviation ok := (server_ok lfd mlfd).

Lemma flush_session_total strict sid s ws sv :
  ok sv → sessions_ sv !! sid = Some s → answered ws → is_Some (flush_session strict sid ws sv).
Proof.
  intros H Es Ha. unfold flush_session. rewrite Es. simpl.
  destruct (flush_and_arm_answered ws (s_conn s) Ha) as [[[[[c out] okf] os] arm] Ef]. rewrite Ef. simpl.
  destruct (flush_and_arm_fields _ _ _ _ _ _ _ Ef) as (F1 & _).
  apply (sv_call_ok _ _ (Sent (fd c) out :: arm_calls arm)) in H. set (sv0 := sv_call _ sv) in *.
  change (sessions_ sv0 !! sid = Some s) in Es. change (sessions_ sv) with (sessions_ sv0). clearbody sv0.
  destruct (close_ok _ _ _ _ _ H Es) as (sv1 & Ec & _). rewrite (close_insert _ _ _ (set_sconn c s) Es F1), Ec.
  destruct (_ || _); simpl; eauto.
Qed.

(** A flush leaves every read buffer alone. *)
Lemma flush_session_rx strict sid ws sv sv' out i t :
  ok sv → flush_session strict sid ws sv = Some (sv', out) → sessions_ sv' !! i = Some t →
  ∃ t0, sessions_ sv !! i = Some t0 ∧ rx (s_conn t) = rx (s_conn t0).
Proof.
  intros H E Et. unfold flush_session in E. apply bind_Some in E as (s & Es & E).
  apply bind_Some in E as ([[[[c out1] okf] os] arm] & Ef & E).
  destruct (flush_and_arm_fields _ _ _ _ _ _ _ Ef) as (F1 & F2 & _).
  apply (sv_call_ok _ _ (Sent (fd c) out1 :: arm_calls arm)) in H. set (sv0 := sv_call _ sv) in *.
  change (sessions_ sv) with (sessions_ sv0) in *. clearbody sv0. clear sv. rename sv0 into sv.
  destruct (close_ok _ _ _ _ _ H Es) as (sv1 & Ec & _ & Hd & _). rewrite (close_insert _ _ _ (set_sconn c s) Es F1), Ec in E.
  destruct (_ || _); simpl in E; simplify_eq.
  - rewrite Hd in Et. apply lookup_delete_Some in Et as [_ Et]. eauto.
  - simpl in Et. apply lookup_insert_Some in Et as [[<- <-]|[_ Et]]; eauto.
Qed.

Lemma read_session_total sid s rs push ws sv :
  ok sv → accepting push → sessions_ sv !! sid = Some s → read_answered rs → answered ws →
  Forall bytes_read rs →
  Z.of_nat (length (rx (s_conn s))) + delivered rs < 2 ^ 63 → is_Some (read_session sid rs push ws sv).
Proof.
  intros H Hpush Es Hr Ha Hb Hlen. unfold read_session. rewrite Es. simpl.
  destruct (read_loop_answered rs (rx (s_conn s)) Hr) as (alive & bytes & Er & Hl). rewrite Er. simpl.
  destruct (gw_session _ _ _ H _ _ Es) as (_ & _ & _ & _ & Hrx).
  pose proof (read_loop_bytes _ _ _ _ Hrx Hb Er) as Hbytes.
  apply (sv_call_ok _ _ [Received (fd (s_conn s)) (drop (length (rx (s_conn s))) bytes)]) in H.
  set (sv0 := sv_call _ sv) in *. change (sessions_ sv) with (sessions_ sv0) in *.
  change (sv_dirty sv) with (sv_dirty sv0) in *. change (to_engine_ sv) with (to_engine_ sv0) in *.
  clearbody sv0. clear sv. rename sv0 into sv.
  destruct (close_ok _ _ _ _ _ H Es) as (svc & Ec & _). destruct alive; simpl; [|rewrite Ec; simpl; eauto].
  set (s0 := set_sconn _ s). destruct (parse_frames_consume push s0 (sv_dirty sv) (to_engine_ sv)) as (okp & p & st & _ & Ep);
    [done|done|simpl; lia|]. rewrite Ep. simpl. set (s1 := if okp then _ else _) in *.
  destruct okp; [eauto|]. destruct (parse_frames_touches _ _ _ _ _ _ _ _ Ep) as [T Hb'].
  pose proof (touched_ok _ _ _ _ _ _ _ H Es (T : touches s _ _ _) (Hb' Hbytes)) as H1.
  destruct (flush_answered ws (s_conn s1) Ha) as [[[[c out] okf] os] Ef]. rewrite Ef. simpl.
  apply flush_fields in Ef as (F1 & _). set (sv1 := set_to_engine _ _).
  assert (ok sv1) as Hok1 by (destruct H1; by split).
  assert (sessions_ sv1 !! sid = Some s1) as Es1 by (simpl; by rewrite lookup_insert_eq).
  change (<[sid := s1]> (sessions_ sv)) with (sessions_ (sv_call [Sent (fd c) out] sv1)).
  change (sessions_ (sv_call [Sent (fd c) out] sv1) !! sid = Some s1) in Es1.
  apply (sv_call_ok _ _ [Sent (fd c) out]) in Hok1. rewrite (close_insert _ sid s1 (set_sconn c s1) Es1 F1).
  destruct (close_ok _ _ _ _ _ Hok1 Es1) as (sv3 & -> & _). simpl. eauto.
Qed.

Lemma session_event_total ev io sv :
  ok sv → io_ok lfd mlfd sv io → accepting (io_push io) → 0 ≤ ev_fd ev → answered (io_write io) → answered (io_flush io) →
  read_answered (io_read io) →
  (∀ sid s, sessions_ sv !! sid = Some s → Z.of_nat (length (rx (s_conn s))) + delivered (io_read io) < 2 ^ 63) →
  is_Some (session_event ev io sv).
Proof.
  intros H [_ Hb] Hpush Hev Hw Hf Hr Hlen. unfold session_event.
  assert (∃ sv1, (if ev_writable ev then
      sid ← session_by_fd (ev_fd ev) sv;
      match sid with Some sid => fst <$> flush_session false sid (io_write io) sv | None => Some sv end
    else Some sv) = Some sv1 ∧ ok sv1 ∧
    ∀ sid s, sessions_ sv1 !! sid = Some s → Z.of_nat (length (rx (s_conn s))) + delivered (io_read io) < 2 ^ 63)
    as (sv1 & E1 & H1 & Hlen1).
  { destruct (ev_writable ev); [|eauto]. destruct (session_by_fd_ok _ _ _ _ H Hev) as ([sid|] & -> & Hs); simpl; [|eauto].
    destruct Hs as (s & Es & _). destruct (flush_session_total false sid s (io_write io) sv H Es Hw) as [[sv1 out] E].
    rewrite E. simpl. exists sv1. split_and!; [done|by eapply flush_session_ok|]. intros i t Et.
    destruct (flush_session_rx _ _ _ _ _ _ _ _ H E Et) as (t0 & Et0 & ->). by eapply Hlen. }
  rewrite E1. simpl. destruct (_ || _); [|eauto].
  destruct (session_by_fd_ok _ _ _ _ H1 Hev) as ([sid|] & -> & Hs); simpl; [|eauto].
  destruct Hs as (s & Es & _). destruct (read_session_total sid s (io_read io) (io_push io) (io_flush io) sv1) as [[sv2 out] ->]; eauto.
Qed.

Lemma subscriber_event_total ev io p :
  answered (io_write io) → read_answered (io_read io) → is_Some (subscriber_event ev io p).
Proof.
  intros Hw Hr. unfold subscriber_event. destruct (subs_ p !! ev_fd ev) as [s|] eqn:Es; [|eauto].
  assert (∃ p1, (if ev_writable ev then fst <$> on_writable (ev_fd ev) (io_write io) p else Some p) = Some p1) as [p1 ->].
  { destruct (ev_writable ev); [|eauto]. unfold on_writable. rewrite Es.
    destruct (flush_and_arm_answered (io_write io) (conn s) Hw) as [[[[[c out] okf] os] arm] ->]. simpl. eauto. }
  simpl. destruct (_ || _); [|eauto]. by apply on_readable_answered.
Qed.

Lemma flush_list_total sids ws sv :
  ok (set_dirty_list sids sv) → (∀ sid, answered (ws sid)) → is_Some (flush_list sids ws sv).
Proof.
  intros H Ha. revert sv H. induction sids as [|sid sids IH]; intros sv H; simpl; [eauto|].
  destruct (sessions_ sv !! sid) as [s|] eqn:Es; [|apply IH; by eapply stale_mark_ok].
  set (sv1 := set_sessions _ sv). assert (is_Some (flush_session true sid (ws sid) sv1)) as [[sv2 out] E].
  { unfold flush_session. simpl. rewrite lookup_insert_eq. simpl.
    destruct (flush_and_arm_answered (ws sid) (s_conn s) (Ha sid)) as [[[[[c out] okf] os] arm] Ef]. rewrite Ef. simpl.
    destruct (flush_and_arm_fields _ _ _ _ _ _ _ Ef) as (F1 & _). rewrite insert_insert_eq.
    change (set_sessions ?m (sv_call ?cs sv1)) with (set_sessions m (sv_call cs sv)).
    apply (sv_call_ok _ _ (Sent (fd c) out :: arm_calls arm)) in H.
    change (sessions_ sv) with (sessions_ (sv_call (Sent (fd c) out :: arm_calls arm) sv)) in *.
    change (sv_call ?cs (set_dirty_list ?l sv)) with (set_dirty_list l (sv_call cs sv)) in H.
    generalize dependent (sv_call (Sent (fd c) out :: arm_calls arm) sv). intros sv0 H0 Es0.
    rewrite (close_insert sv0 sid s (set_sconn c (set_sdirty false s)) Es0 F1).
    destruct (close_ok _ _ _ _ _ H0 (Es0 : sessions_ (set_dirty_list (sid :: sids) sv0) !! sid = Some s)) as (sv3 & Ec & _).
    rewrite close_dirty_list in Ec. destruct (close_session sid sv0); [|done]. destruct (_ || _); simpl; eauto. }
  rewrite E. simpl. apply IH. by apply (flush_mark_ok _ _ _ _ _ _ _ _ _ H Es) in E as (? & _).
Qed.
End Total.

(** ** Reachable gateway states *)
Section Reach.
Context (max_backlog : Z) (md : PubConfig) (lfd mlfd : Z).

(** The pieces of [Server::run]'s loop, in any order and number. *)
Inductive gw_reach : Server → Prop :=
  | gr_init sv : Server_init max_backlog md lfd mlfd = Some sv → gw_reach sv
  | gr_event ev io sv sv' :
      gw_reach sv → kernel_ok lfd mlfd sv io → handle_event ev io sv = Some sv' → gw_reach sv'
  | gr_drain evs b sv sv' : gw_reach sv → drain_engine evs sv = Some (sv', b) → gw_reach sv'
  | gr_flush ws sv sv' : gw_reach sv → flush_dirty ws sv = Some sv' → gw_reach sv'
  | gr_publish now ws sv p out :
      gw_reach sv → flush_all now ws (publisher_ sv) = Some (p, out) → gw_reach (set_publisher p sv).

Lemma flush_dirty_ok ws sv sv' :
  server_ok lfd mlfd sv → flush_dirty ws sv = Some sv' →
  server_ok lfd mlfd sv' ∧ sv_max_backlog sv' = sv_max_backlog sv ∧ sv_dirty sv' = [] ∧
  (∀ sid, sid ∉ sv_dirty sv → sessions_ sv' !! sid = sessions_ sv !! sid) ∧
  (∀ sid s, sid ∈ sv_dirty sv → sessions_ sv' !! sid = Some s →
    want_write (s_conn s) = pending (s_conn s) ∧ backlog (s_conn s) ≤ sv_max_backlog sv).
Proof.
  intros H E. unfold flush_dirty in E. apply bind_Some in E as (sv1 & E1 & E). inv_some.
  assert (set_dirty_list (sv_dirty sv) sv = sv) as Hid by by destruct sv.
  destruct (flush_list_ok lfd mlfd (sv_dirty sv) ws sv sv1) as (H1 & H2 & H3 & H4); [by rewrite Hid|done|].
  by split_and!.
Qed.

Context (fds : 0 ≤ lfd ∧ 0 ≤ mlfd ∧ lfd ≠ mlfd).

Lemma gw_reach_ok sv : gw_reach sv → server_ok lfd mlfd sv ∧ log_ok lfd mlfd sv.
Proof.
  destruct fds as (Hl & Hm & Hne).
  induction 1 as [sv E|ev io sv sv' _ [IH L] Hio E|evs b sv sv' _ [IH L] E|ws sv sv' _ [IH L] E|now ws sv p out _ [IH L] E].
  - destruct (Server_init_ok lfd mlfd max_backlog md Hl Hm Hne) as (sv' & E' & H & _).
    split; [congruence|by eapply log_init].
  - apply kernel_io_ok in Hio; [|done..]. split; [by eapply handle_event_ok|by eapply log_handle_event].
  - split; [by eapply drain_ok|by eapply log_drain].
  - split; [by apply flush_dirty_ok in E as [? _]|by eapply log_flush_dirty].
  - split; [apply set_publisher_ok; [done|by eapply flush_all_fewer]|by eapply log_flush_all].
Qed.
End Reach.

(** ** A gateway to evaluate: one client connects, sends three orders, and the
    first is acknowledged *)
Definition demo_md : PubConfig := mkPubConfig 1000 1 1000 10000.
Definition gw_start : Server :=
  default (mkServer 0 [] (Publisher_init demo_md) ∅ [] [] [] 1) (Server_init 100 demo_md 3 4).
Definition gw_connected : Server :=
  default gw_start
    (handle_event (mkPollEvent 3 true false false) (mkIo [AcceptedFd 5 2; AcceptFailed] [] [] [] at_once) gw_start).
Definition gw_ordered : Server :=
  default gw_start
    (handle_event (mkPollEvent 5 true false false) (mkIo [] [] [Got demo_bytes] [] at_once) gw_connected).
Definition demo_acks : list Event :=
  [mkEvent EvAccepted Buy RNone false 0 1 101 (2 ^ 32) 50 10 10 TopOfBook_default 7].
Definition gw_acked : Server := default gw_start (fst <$> drain_engine demo_acks gw_ordered).

Lemma no_accepts_ok sv os : next_sid_ sv < 2 ^ 32 → accepted os = [] → accepts_fresh 3 4 os sv.
Proof. intros H E. unfold accepts_fresh. rewrite E. split_and!; [apply NoDup_nil_2|apply Forall_nil_2|]. simpl. lia. Qed.

Lemma gw_connected_reach : gw_reach 100 demo_md 3 4 gw_connected.
Proof.
  eapply (gr_event _ _ _ _ (mkPollEvent 3 true false false) (mkIo [AcceptedFd 5 2; AcceptFailed] [] [] [] at_once) gw_start);
    [apply gr_init; vm_compute; reflexivity| |vm_compute; reflexivity].
  split; [|apply Forall_nil_2]. split_and!; [apply NoDup_singleton| |vm_compute; reflexivity].
  apply Forall_singleton. split; [lia|]. apply (bool_decide_unpack _). vm_compute. exact I.
Qed.

Lemma gw_acked_reach : gw_reach 100 demo_md 3 4 gw_acked.
Proof.
  apply (gr_drain _ _ _ _ demo_acks true gw_ordered); [|vm_compute; reflexivity].
  eapply (gr_event _ _ _ _ (mkPollEvent 5 true false false) (mkIo [] [] [Got demo_bytes] [] at_once) gw_connected);
    [apply gw_connected_reach| |vm_compute; reflexivity].
  split; [by apply no_accepts_ok; [vm_compute|]|]. apply Forall_singleton. apply demo_bytes_ok.
Qed.
