(* ===== verification/SessionTheorems.v ===== *)
(** The theorems about the gateway's session handling: consistent tables, no
    forgotten output, bounded buffers, and handlers that always return. *)
From S2P Require Import Prelude Types Engine Process Poller Calls Protocol Ring Net Publisher Gateway Parse Sessions SessionInv.
From S2P Require Import Handling Registry GatewayTheorems Reach.

(** C26: In every reachable state the tables agree: each session is found under its
    own descriptor and under no other, the listening sockets and every
    subscriber keep their kind, and no output is forgotten: a session with
    unsent bytes has write interest or is on the dirty list.  The kernel hands out
    descriptors that are not in use, and fewer than 2^32 sessions were accepted
    ([kernel_ok]). *)
Theorem gateway_consistent (max_backlog : Z) (md : PubConfig) (lfd mlfd : Z) (sv : Server) :
  0 ≤ lfd → 0 ≤ mlfd → lfd ≠ mlfd → gw_reach max_backlog md lfd mlfd sv →
  (∀ sid s, sessions_ sv !! sid = Some s →
    s_id s = sid ∧ session_by_fd (fd (s_conn s)) sv = Some (Some sid) ∧
    (pending (s_conn s) = true → want_write (s_conn s) = true ∨ sid ∈ sv_dirty sv)) ∧
  (∀ f sid, 0 ≤ f → session_by_fd f sv = Some (Some sid) →
    ∃ s, sessions_ sv !! sid = Some s ∧ fd (s_conn s) = f) ∧
  (∀ f, is_Some (subs_ (publisher_ sv) !! f) → vget (kind_by_fd_ sv) f = Some KSubscriber) ∧
  vget (kind_by_fd_ sv) lfd = Some KListen ∧ vget (kind_by_fd_ sv) mlfd = Some KMdListen.
Proof.
  intros Hl Hm Hne Hr. destruct (gw_reach_ok _ _ _ _ (conj Hl (conj Hm Hne)) _ Hr) as [H _]. split_and!; try apply H.
  - intros sid s Es. destruct (gw_session _ _ _ H _ _ Es) as (H1 & H2 & H3 & H4 & _). split_and!; [done|..].
    + destruct (session_by_fd_ok _ _ _ _ H (session_fd _ _ _ _ _ H Es)) as ([i|] & E & Hi); [|by apply Hi in Es].
      destruct Hi as (t & Et & Ef). by rewrite E, (session_fd_inj _ _ _ _ _ _ _ H Et Es Ef).
    + rewrite <- (gw_marked _ _ _ H _ _ Es). exact H4.
  - intros f sid Hf E. destruct (session_by_fd_ok _ _ _ _ H Hf) as (r & E' & Hi). rewrite E in E'. by simplify_eq.
Qed.

Lemma gateway_consistent_witness :
  (∀ sid s, sessions_ gw_acked !! sid = Some s →
    s_id s = sid ∧ session_by_fd (fd (s_conn s)) gw_acked = Some (Some sid) ∧
    (pending (s_conn s) = true → want_write (s_conn s) = true ∨ sid ∈ sv_dirty gw_acked)) ∧
  (∀ f sid, 0 ≤ f → session_by_fd f gw_acked = Some (Some sid) →
    ∃ s, sessions_ gw_acked !! sid = Some s ∧ fd (s_conn s) = f) ∧
  (∀ f, is_Some (subs_ (publisher_ gw_acked) !! f) → vget (kind_by_fd_ gw_acked) f = Some KSubscriber) ∧
  vget (kind_by_fd_ gw_acked) 3 = Some KListen ∧ vget (kind_by_fd_ gw_acked) 4 = Some KMdListen.
Proof. apply (gateway_consistent 100 demo_md 3 4); [lia..|apply gw_acked_reach]. Defined.

(** The handlers always return: on a descriptor the tables cover, with a
    kernel that hands out unused descriptors and eventually stops answering with
    data, and a queue that takes every command in the end, [handle_event] does not fault, whatever the clients sent; nor does
    [flush_dirty]. *)
Theorem gateway_never_faults (max_backlog : Z) (md : PubConfig) (lfd mlfd : Z) (sv : Server) (ev : PollEvent) (io : Io) :
  0 ≤ lfd → 0 ≤ mlfd → lfd ≠ mlfd → gw_reach max_backlog md lfd mlfd sv →
  kernel_ok lfd mlfd sv io → AcceptFailed ∈ io_accept io → answered (io_write io) → answered (io_flush io) → accepting (io_push io) →
  read_answered (io_read io) → 0 ≤ ev_fd ev < Z.of_nat (length (kind_by_fd_ sv)) →
  (∀ sid s, sessions_ sv !! sid = Some s → Z.of_nat (length (rx (s_conn s))) + delivered (io_read io) < 2 ^ 63) →
  is_Some (handle_event ev io sv) ∧ ∀ ws, (∀ sid, answered (ws sid)) → is_Some (flush_dirty ws sv).
Proof.
  intros Hl Hm Hne Hr Hio Ha Hw Hf Hpush Hrd Hev Hlen. destruct (gw_reach_ok _ _ _ _ (conj Hl (conj Hm Hne)) _ Hr) as [H L]. apply kernel_io_ok in Hio; [|done..]. split.
  - unfold handle_event. destruct (vget_is_Some _ _ Hev) as [k ->]. simpl. destruct k.
    + eauto.
    + by apply (accept_all_ok lfd mlfd); [|apply Hio|].
    + by apply (accept_all_ok lfd mlfd); [|apply Hio|].
    + apply (session_event_total lfd mlfd); try done. lia.
    + destruct (subscriber_event_total ev io (publisher_ sv) Hw Hrd) as [p ->]. simpl. eauto.
  - intros ws Hws. unfold flush_dirty. destruct (flush_list_total lfd mlfd (sv_dirty sv) ws sv) as [sv' ->]; [|done|simpl; eauto].
    by destruct sv.
Qed.

(** Three garbage bytes and a hangup on the session's socket. *)
Lemma gateway_never_faults_witness :
  let ev := mkPollEvent 5 true true true in
  let io := mkIo [AcceptFailed] [Wrote 10; Again] [Got [7; 7; 7]; Closed] [Again] at_once in
  is_Some (handle_event ev io gw_acked) ∧ ∀ ws, (∀ sid, answered (ws sid)) → is_Some (flush_dirty ws gw_acked).
Proof.
  intros ev io. apply (gateway_never_faults 100 demo_md 3 4); [lia|lia|lia|apply gw_acked_reach|..].
  - split; [by apply no_accepts_ok; [vm_compute|]|].
    repeat constructor; simpl; lia.
  - by left.
  - exists Again. split; [right; by left|by left].
  - exists Again. split; [by left|by left].
  - apply at_once_accepting.
  - exists Closed. split; [right; by left|by right].
  - vm_compute. split; congruence.
  - intros sid s Hs. assert (sessions_ gw_acked = {[ 1 := default demo_session (sessions_ gw_acked !! 1) ]}) as E
      by (vm_compute; reflexivity).
    rewrite E in Hs. apply lookup_singleton_Some in Hs as [_ <-]. vm_compute. reflexivity.
Defined.

(** One [flush_dirty] settles the dirty list: no session is marked any more,
    and a session that was on the list is closed or left with at most
    [max_backlog] unsent bytes and write interest exactly if there are any;
    the others are untouched. *)
Theorem flush_dirty_settles (max_backlog : Z) (md : PubConfig) (lfd mlfd : Z) (sv sv' : Server)
    (ws : Z → list WriteResult) :
  0 ≤ lfd → 0 ≤ mlfd → lfd ≠ mlfd → gw_reach max_backlog md lfd mlfd sv → flush_dirty ws sv = Some sv' →
  sv_dirty sv' = [] ∧ (∀ sid s, sessions_ sv' !! sid = Some s → s_dirty s = false) ∧
  (∀ sid, sid ∉ sv_dirty sv → sessions_ sv' !! sid = sessions_ sv !! sid) ∧
  (∀ sid s, sid ∈ sv_dirty sv → sessions_ sv' !! sid = Some s →
    want_write (s_conn s) = pending (s_conn s) ∧ backlog (s_conn s) ≤ sv_max_backlog sv).
Proof.
  intros Hl Hm Hne Hr E. destruct (gw_reach_ok _ _ _ _ (conj Hl (conj Hm Hne)) _ Hr) as [H _].
  destruct (flush_dirty_ok _ _ _ _ _ H E) as (H1 & _ & H2 & H3 & H4). split_and!; try done.
  intros sid s Es. apply not_true_iff_false. rewrite (gw_marked _ _ _ H1 _ _ Es), H2. apply not_elem_of_nil.
Qed.

(** The acknowledgement leaves in two pieces. *)
Lemma flush_dirty_settles_witness :
  let ws := λ _ : Z, [Wrote 10; Again] in
  let sv' := default gw_start (flush_dirty ws gw_acked) in
  sv_dirty sv' = [] ∧ (∀ sid s, sessions_ sv' !! sid = Some s → s_dirty s = false) ∧
  (∀ sid, sid ∉ sv_dirty gw_acked → sessions_ sv' !! sid = sessions_ gw_acked !! sid) ∧
  (∀ sid s, sid ∈ sv_dirty gw_acked → sessions_ sv' !! sid = Some s →
    want_write (s_conn s) = pending (s_conn s) ∧ backlog (s_conn s) ≤ sv_max_backlog gw_acked).
Proof.
  intros ws sv'. apply (flush_dirty_settles 100 demo_md 3 4 gw_acked sv' ws); [lia..|apply gw_acked_reach|].
  vm_compute. reflexivity.
Defined.
