(* ===== verification/Streams.v ===== *)
(** The two byte streams of every session.  The log says what came in on a
    session's descriptor and what went out; at every point of the gateway's life
    the commands it submitted for a session are the ones its input stands for, in
    order, and its output, together with what is still buffered, is the numbered
    sequence of the refusals of that input and of the engine's events for it. *)
From S2P Require Import Prelude Types Engine Process Settle Poller Calls Protocol Ring Net Publisher Gateway Parse Inputs.
From S2P Require Import Sessions SessionInv Handling Registry Reach.

(** ** Calls that leave a descriptor's streams alone *)
Definition streams_on (f : Z) (c : Syscall) : bool :=
  match c with Accept g | Sent g _ | Received g _ => bool_decide (g = f) | _ => false end.

Definition quiet (f : Z) (cs : list Syscall) : Prop := Forall (λ c, streams_on f c = false) cs.

Lemma quiet_streams f l cs : quiet f cs → sent f (l ++ cs) = sent f l ∧ received f (l ++ cs) = received f l.
Proof.
  intros Hq. rewrite sent_app, received_app. generalize (sent f l) (received f l).
  induction Hq as [|c cs Hc Hq IH]; intros a b; [done|]. cbn [fold_left].
  destruct c; simpl in Hc |- *; rewrite ?Hc; apply IH.
Qed.

Lemma quiet_nil f : quiet f [].
Proof. constructor. Qed.

Lemma quiet_arm f arm : quiet f (arm_calls arm).
Proof. destruct arm as [[? ?]|]; [by apply Forall_singleton|constructor]. Qed.

Lemma quiet_retire f g : quiet f (retire_calls g).
Proof. by repeat constructor. Qed.

Lemma quiet_sent f g out arm : g ≠ f → quiet f (Sent g out :: arm_calls arm).
Proof. intros Hne. apply Forall_cons. split; [simpl; by rewrite bool_decide_false|apply quiet_arm]. Qed.

(** ** One session *)

(** The engine's events for session [sid]. *)
Definition mine (sid : Z) (ev : Event) : Prop := private ev = true ∧ e_session ev = sid.

#[export] Instance mine_dec sid ev : Decision (mine sid ev).
Proof. apply _. Defined.

(** [log] is the calls made, [cmds] the commands submitted and [H] the events
    popped so far. *)
Record session_stream (log : list Syscall) (cmds : list Command) (H : list Event) (sid : Z) (s : Session)
    (ins : list input) (outs : list output) : Prop := {
  ss_off : 0 ≤ tx_off (s_conn s) ≤ Z.of_nat (length (tx (s_conn s)));
  ss_bytes : Forall byte (received (fd (s_conn s)) log);
  ss_in : inputs 1 sid (received (fd (s_conn s)) log) = Some (ins, true, rx (s_conn s));
  ss_expect : expect_seq s = u32 (1 + Z.of_nat (length ins));
  ss_cmds : filter (λ c, c_session c = sid) cmds = commands_of ins;
  ss_out : sent (fd (s_conn s)) log ++ unsent (s_conn s) = out_bytes 1 outs;
  ss_seq : out_seq (s_conn s) = u32 (1 + Z.of_nat (length outs));
  ss_events : events_of outs = filter (mine sid) H;
  ss_rejects : rejects_of outs = refusals_of ins }.

Definition streaming (log : list Syscall) (cmds : list Command) (H : list Event) (sid : Z) (s : Session) : Prop :=
  ∃ ins outs, session_stream log cmds H sid s ins outs.

(** Sessions that differ in nothing the streams depend on. *)
Definition same_streams (s s' : Session) : Prop :=
  fd (s_conn s') = fd (s_conn s) ∧ rx (s_conn s') = rx (s_conn s) ∧ tx (s_conn s') = tx (s_conn s) ∧
  tx_off (s_conn s') = tx_off (s_conn s) ∧ out_seq (s_conn s') = out_seq (s_conn s) ∧ expect_seq s' = expect_seq s.

Lemma streaming_keep log cs cmds new H evs sid s s' :
  streaming log cmds H sid s → same_streams s s' → quiet (fd (s_conn s)) cs →
  Forall (λ c, c_session c ≠ sid) new → Forall (λ e, ¬ mine sid e) evs →
  streaming (log ++ cs) (cmds ++ new) (H ++ evs) sid s'.
Proof.
  intros (ins & outs & [A1 A2 A3 A4 A5 A6 A7 A8 A9]) (E1 & E2 & E3 & E4 & E5 & E6) Hq Hn He.
  destruct (quiet_streams _ log cs Hq) as [Hs Hr]. exists ins, outs.
  assert (unsent (s_conn s') = unsent (s_conn s)) as Hu by (by apply unsent_ext).
  split; rewrite ?E1, ?E2, ?E3, ?E4, ?E5, ?E6, ?Hs, ?Hr, ?Hu, ?filter_app; try done.
  - rewrite A5, (filter_none _ new), app_nil_r; [done|]. by rewrite Forall_forall in Hn.
  - rewrite A8, (filter_none _ evs), app_nil_r; [done|]. by rewrite Forall_forall in He.
Qed.

Lemma streaming_call log cs cmds H sid s s' :
  streaming log cmds H sid s → same_streams s s' → quiet (fd (s_conn s)) cs → streaming (log ++ cs) cmds H sid s'.
Proof.
  intros Hs E Hq. apply (streaming_keep log cs cmds [] H [] sid s s') in Hs; [|done..]. by rewrite !app_nil_r in Hs.
Qed.

Lemma streaming_same log cmds H sid s s' : streaming log cmds H sid s → same_streams s s' → streaming log cmds H sid s'.
Proof. intros Hs E. rewrite <- (app_nil_r log). eapply streaming_call; [done|done|apply quiet_nil]. Qed.

(** A connection that was just accepted. *)
Lemma streaming_fresh log flags cmds H f sid :
  Forall (λ c, c_session c < sid) cmds → Forall (λ e, private e = true → e_session e < sid) H →
  streaming ((log ++ Accept f :: set_nonblocking flags f ++ set_nodelay f) ++ [Poll (PAdd f)]) cmds H sid
    (mkSession (Conn_init f) sid 1 false).
Proof.
  intros Hc He. exists [], [].
  assert (sent f ((log ++ Accept f :: set_nonblocking flags f ++ set_nodelay f) ++ [Poll (PAdd f)]) = [] ∧
    received f ((log ++ Accept f :: set_nonblocking flags f ++ set_nodelay f) ++ [Poll (PAdd f)]) = []) as [Es Er].
  { rewrite <- app_assoc, sent_app, received_app. simpl. by rewrite !bool_decide_true. }
  split; cbn [s_conn fd Conn_init rx expect_seq out_seq]; rewrite ?Es, ?Er; try done.
  - apply filter_none. intros c Hin. rewrite Forall_forall in Hc. apply Hc in Hin. lia.
  - symmetry. apply filter_none. intros e Hin [Hp Hm]. rewrite Forall_forall in He. apply He in Hin; [lia|done].
Qed.

(** Output that left the socket. *)
Lemma streaming_sent log cmds H sid s c out arm :
  streaming log cmds H sid s → fd c = fd (s_conn s) → rx c = rx (s_conn s) → out_seq c = out_seq (s_conn s) →
  0 ≤ tx_off c ≤ Z.of_nat (length (tx c)) → unsent (s_conn s) = out ++ unsent c →
  streaming (log ++ Sent (fd c) out :: arm_calls arm) cmds H sid (set_sconn c s).
Proof.
  intros (ins & outs & [A1 A2 A3 A4 A5 A6 A7 A8 A9]) E1 E2 E3 Ho Eu. exists ins, outs.
  change (Sent (fd c) out :: arm_calls arm) with ([Sent (fd c) out] ++ arm_calls arm). rewrite app_assoc.
  destruct (quiet_streams (fd c) (log ++ [Sent (fd c) out]) (arm_calls arm) (quiet_arm _ _)) as [Hs Hr].
  split; cbn [s_conn set_sconn expect_seq]; rewrite ?Hs, ?Hr; rewrite ?E2, ?E3; try done;
    rewrite ?sent_app, ?received_app; simpl; rewrite ?bool_decide_true by done; rewrite ?E1; try done.
  rewrite <- app_assoc, <- Eu. done.
Qed.

(** An answer of the engine. *)
Lemma streaming_answer log cmds H sid s e d :
  streaming log cmds H sid s → mine sid e → streaming log cmds (H ++ [e]) sid (fst (answer e s d)).
Proof.
  intros (ins & outs & [A1 A2 A3 A4 A5 A6 A7 A8 A9]) He. exists ins, (outs ++ [FromEngine e]).
  destruct (answer_sent e s d) as [[B1 B2 B3 B4 B5 _] B7].
  { destruct He as [Hp _]. unfold private in Hp. by destruct (e_kind e). }
  split; rewrite ?B3, ?B4, ?B5, ?B7; try done.
  - rewrite B1, length_app. lia.
  - unfold unsent. rewrite B1, B3, drop_app_le by lia. rewrite app_assoc. change (drop _ (tx (s_conn s))) with (unsent (s_conn s)).
    rewrite A6, out_bytes_app by lia. by rewrite A7.
  - rewrite B2, A7, u32_add_l, length_app. f_equal. simpl. lia.
  - unfold events_of. rewrite omap_app, filter_app. fold (events_of outs). by rewrite A8, filter_cons_True by done.
  - unfold rejects_of. rewrite omap_app. fold (rejects_of outs). simpl. by rewrite app_nil_r.
Qed.

(** Input that was read and parsed. *)
Lemma commands_session expect sid p l ok q :
  Forall byte p → inputs expect sid p = Some (l, ok, q) → Forall (λ c, (command_ok c ∧ c_session c = sid) ∧ command_wide c) (commands_of l).
Proof.
  unfold inputs. generalize (S (length p)). intros fuel. revert expect p l ok q.
  induction fuel as [|fuel IH]; intros expect p l ok q Hb E; [done|]. cbn [dissect] in E. rewrite front_classify in E.
  destruct (classify _ _ p) as [| |n|n tag c] eqn:Ec; simplify_eq; try done.
  apply bind_Some in E as ([[l1 ok1] q1] & E1 & E). simplify_eq. apply IH in E1; [|by apply Forall_drop].
  destruct c as [c|]; [|exact E1]. apply Forall_cons. split; [|exact E1]. by eapply classify_command.
Qed.

Lemma parser_outputs_spec l : events_of (parser_outputs l) = [] ∧ rejects_of (parser_outputs l) = refusals_of l.
Proof.
  unfold parser_outputs. generalize (refusals_of l). clear l. intros r. induction r as [|[tag r] l [IH1 IH2]]; [done|].
  split; simpl; [exact IH1|]. f_equal. exact IH2.
Qed.

Lemma streaming_received push log cmds H sid s new d s' d' cmds' :
  streaming log cmds H sid s → s_id s = sid → Forall byte new → Z.of_nat (length (rx (s_conn s) ++ new)) < 2 ^ 63 →
  parse_frames push (set_sconn (set_rx (rx (s_conn s) ++ new) (s_conn s)) s) d cmds = Some (true, s', d', cmds') →
  streaming (log ++ [Received (fd (s_conn s)) new]) cmds' H sid s'.
Proof.
  intros (ins & outs & [A1 A2 A3 A4 A5 A6 A7 A8 A9]) Hid Hb Hl E.
  destruct (dissect_shorter _ _ _ _ _ _ _ A3) as [_ Hrx]. specialize (Hrx A2).
  assert (0 ≤ expect_seq s < 2 ^ 32) as He by (rewrite A4; apply u32_range).
  assert (0 ≤ out_seq (s_conn s) < 2 ^ 32) as Ho by (rewrite A7; apply u32_range).
  assert (Forall byte (rx (s_conn s) ++ new)) as Hbn by (by apply Forall_app).
  set (s0 := set_sconn _ s) in E. destruct (parse_frames_inputs push s0 _ _ _ _ _ _ Hbn Hl Ho E) as (l & q & E1 & E2 & (s1 & [B1 B2 B3 B4 B5 B6] & ->) & E4).
  simpl in E1, B1, B2, B3, B4. rewrite Hid in E1. pose proof (commands_session _ _ _ _ _ _ Hbn E1) as Hc.
  exists (ins ++ l), (outs ++ parser_outputs l).
  destruct (parser_outputs_spec l) as [P1 P2]. specialize (E4 eq_refl He).
  assert (received (fd (s_conn s)) (log ++ [Received (fd (s_conn s)) new]) = received (fd (s_conn s)) log ++ new) as Er.
  { rewrite received_app. simpl. by rewrite bool_decide_true. }
  split; cbn [s_conn with_rx set_sconn fd rx tx tx_off set_rx out_seq] in *; rewrite ?B3, ?B4, ?Er.
  - rewrite B1, length_app. lia.
  - by apply Forall_app.
  - rewrite A4 in E1. by eapply inputs_app.
  - rewrite E4. simpl. rewrite A4, u32_add_l, length_app. f_equal. lia.
  - rewrite E2, filter_app, A5, filter_all; [unfold commands_of; by rewrite omap_app|].
    rewrite Forall_forall in Hc. intros c Hin. by apply Hc.
  - rewrite sent_app. simpl. unfold unsent. simpl. rewrite B1, B3, drop_app_le by lia. rewrite app_assoc.
    change (drop _ (tx (s_conn s))) with (unsent (s_conn s)). rewrite A6, out_bytes_app by lia. by rewrite A7.
  - rewrite B2, A7, u32_add_l, length_app. f_equal. lia.
  - unfold events_of. rewrite omap_app. fold (events_of outs) (events_of (parser_outputs l)). by rewrite P1, app_nil_r.
  - unfold rejects_of, refusals_of. rewrite !omap_app. fold (rejects_of outs) (rejects_of (parser_outputs l)) (refusals_of ins) (refusals_of l).
    by rewrite A9, P2.
Qed.
