(* ===== verification/Carried.v ===== *)
(** Every handler of the gateway carries all sessions' streams on. *)
From S2P Require Import Prelude Types Engine Process Settle Poller Calls Protocol Ring Net Publisher Gateway Parse Inputs.
From S2P Require Import Sessions SessionInv Handling Registry Reach Streams.

(** ** Tables of sessions *)
Definition streams (ss : gmap Z Session) (log : list Syscall) (cmds : list Command) (H : list Event) : Prop :=
  ∀ sid s, ss !! sid = Some s → streaming log cmds H sid s.

(** Calls on no descriptor but [f]. *)
Definition only (f : Z) (cs : list Syscall) : Prop := ∀ g, g ≠ f → quiet g cs.

(** Whatever happens on one session's descriptor and for its own commands, the
    others go on as they were. *)
Lemma streams_delete ss log cmds H sid s cs new :
  streams ss log cmds H → ss !! sid = Some s →
  (∀ i t, ss !! i = Some t → fd (s_conn t) = fd (s_conn s) → i = sid) →
  only (fd (s_conn s)) cs → Forall (λ c, c_session c = sid) new →
  streams (delete sid ss) (log ++ cs) (cmds ++ new) H.
Proof.
  intros Hst Es Hinj Ho Hn i t [Hne Et]%lookup_delete_Some.
  assert (streaming (log ++ cs) (cmds ++ new) (H ++ []) i t) as Ht; [|by rewrite app_nil_r in Ht].
  eapply streaming_keep; [by apply Hst|done| | |done].
  - apply Ho. intros E. apply Hne. symmetry. by eapply Hinj.
  - eapply Forall_impl; [exact Hn|]. intros c ->. congruence.
Qed.

Lemma streams_insert ss log cmds H sid s :
  streams (delete sid ss) log cmds H → streaming log cmds H sid s → streams (<[sid := s]> ss) log cmds H.
Proof.
  intros Hst Hs i t [[<- <-]|[Hne Et]]%lookup_insert_Some; [done|]. apply Hst. by rewrite lookup_delete_ne.
Qed.

Lemma streams_replace ss log cmds H sid s s' :
  streams ss log cmds H → ss !! sid = Some s → same_streams s s' → streams (<[sid := s']> ss) log cmds H.
Proof.
  intros Hst Es E i t [[<- <-]|[Hne Et]]%lookup_insert_Some; [|by apply Hst].
  eapply streaming_same; [by apply Hst|done].
Qed.

Lemma streams_quiet ss log cmds H cs :
  streams ss log cmds H → (∀ sid s, ss !! sid = Some s → quiet (fd (s_conn s)) cs) → streams ss (log ++ cs) cmds H.
Proof. intros Hst Hq sid s Es. eapply streaming_call; [by apply Hst|done|by eapply Hq]. Qed.

Lemma only_app f cs cs' : only f cs → only f cs' → only f (cs ++ cs').
Proof. intros H1 H2 g Hg. apply Forall_app. split; [by apply H1|by apply H2]. Qed.

Lemma only_sent f out arm : only f (Sent f out :: arm_calls arm).
Proof. intros g Hg. by apply quiet_sent. Qed.

Lemma only_received f bs : only f [Received f bs].
Proof. intros g Hg. apply Forall_singleton. simpl. by rewrite bool_decide_false. Qed.

Lemma only_retire f g : only f (retire_calls g).
Proof. intros h _. apply quiet_retire. Qed.

Create HintDb streams.
#[export] Hint Resolve only_app only_sent only_received only_retire : streams.

(** ** The gateway *)

(** A command of session [sid], with every member at its width. *)
Definition from_session (sid : Z) (c : Command) : Prop := (command_ok c ∧ c_session c = sid) ∧ command_wide c.

Record streams_ok (H : list Event) (sv : Server) : Prop := {
  st_sess : streams (sessions_ sv) (log sv) (to_engine_ sv) H;
  st_cmds : Forall (λ c, (command_ok c ∧ c_session c < next_sid_ sv) ∧ command_wide c) (to_engine_ sv);
  st_events : Forall (λ e, private e = true → e_session e < next_sid_ sv) H }.

Section Carried.
Context (lfd mlfd : Z).
Abbreviation ok := (server_ok lfd mlfd).
Abbreviation okd := (okd lfd mlfd).

Lemma close_step sid s sv sv' :
  okd sv → sessions_ sv !! sid = Some s → close_session sid sv = Some sv' →
  sessions_ sv' = delete sid (sessions_ sv) ∧ log sv' = log sv ++ retire_calls (fd (s_conn s)) ∧
  to_engine_ sv' = to_engine_ sv ∧ next_sid_ sv' = next_sid_ sv.
Proof.
  intros [d H] Es E. destruct (close_ok _ _ _ _ _ H Es) as (sv1 & Ec & _ & E1 & _ & _ & E2 & E3 & E4).
  rewrite close_dirty_list, E in Ec. simpl in Ec. inv_some. simpl in E1, E2, E3, E4. unfold log. by rewrite E2.
Qed.

Lemma okd_inj sv sid s i t :
  okd sv → sessions_ sv !! sid = Some s → sessions_ sv !! i = Some t → fd (s_conn t) = fd (s_conn s) → i = sid.
Proof. intros H Es Et. eapply (ow_inj _ _ _ _ (okd_owners _ _ _ H)); done. Qed.

(** The last calls on a session's descriptor, and the end of the session. *)
Lemma streams_close H sid s s' cs new sv sv' :
  okd sv → streams_ok H sv → sessions_ sv !! sid = Some s → fd (s_conn s') = fd (s_conn s) → only (fd (s_conn s)) cs →
  Forall (from_session sid) new → sid < next_sid_ sv →
  close_session sid (set_sessions (<[sid := s']> (sessions_ sv)) (sv_call cs (set_to_engine (to_engine_ sv ++ new) sv))) = Some sv' →
  streams_ok H sv'.
Proof.
  intros Hok [S1 S2 S3] Es Ef Ho Hn Hlt E. set (sv0 := sv_call cs _) in *.
  assert (okd sv0) as Hok0 by (apply okd_call; destruct Hok as [d []]; exists d; by split).
  change (sessions_ sv) with (sessions_ sv0) in E.
  rewrite (close_insert sv0 sid s s' Es Ef) in E. destruct (close_step _ _ _ _ Hok0 Es E) as (E1 & E2 & E3 & E4).
  split; rewrite ?E1, ?E2, ?E3, ?E4; simpl; [|..|done].
  - change (log sv0) with (log sv ++ cs). rewrite <- app_assoc. eapply streams_delete; [done|done|by intros; eapply okd_inj|auto with streams|].
    eapply Forall_impl; [exact Hn|]. by intros c [[_ ?] _].
  - apply Forall_app. split; [done|]. eapply Forall_impl; [exact Hn|]. intros c [[? ->] ?]. done.
Qed.

(** ** Flushing *)

(** What the kernel and the memory promise for a flush of [s]. *)
Definition flushable (ws : list WriteResult) (s : Session) : Prop :=
  Z.of_nat (length (tx (s_conn s))) < 2 ^ 63 ∧ answers_ok ws (Z.of_nat (length (unsent (s_conn s)))).

#[export] Instance flushable_dec ws s : Decision (flushable ws s).
Proof. apply _. Defined.

Lemma flush_and_arm_sent os c c' out okf os' arm :
  conn_ok c → answers_ok os (Z.of_nat (length (unsent c))) → flush_and_arm os c = Some (c', out, okf, os', arm) →
  0 ≤ tx_off c' ≤ Z.of_nat (length (tx c')) ∧ unsent c = out ++ unsent c' ∧ fd c' = fd c ∧ rx c' = rx c ∧ out_seq c' = out_seq c.
Proof.
  intros Hc Ha E. unfold flush_and_arm in E. apply bind_Some in E as ([[[c1 out1] ok1] os1] & E1 & E).
  destruct (flush_ok _ _ _ _ _ _ Hc Ha E1) as ([H1 _] & H2 & _ & H3 & H4 & H5).
  destruct ok1; simplify_eq; [|done]. by destruct (Bool.eqb _ _); simplify_eq.
Qed.

Lemma streams_flush_session H strict sid s s1 ws sv sv' out :
  okd sv → streams_ok H sv → sessions_ sv !! sid = Some s → same_streams s s1 → flushable ws s → sid < next_sid_ sv →
  flush_session strict sid ws (set_sessions (<[sid := s1]> (sessions_ sv)) sv) = Some (sv', out) → streams_ok H sv'.
Proof.
  intros Hok Hst Es Hsame [Hm Ha] Hlt E. unfold flush_session in E. simpl in E. rewrite lookup_insert_eq in E. simpl in E.
  apply bind_Some in E as ([[[[c out1] okf] os] arm] & Ef & E). rewrite insert_insert_eq in E.
  assert (streaming (log sv) (to_engine_ sv) H sid s1) as Hs1.
  { eapply streaming_same; [by apply Hst|done]. }
  pose proof Hs1 as (ins & outs & Hs). pose proof (ss_off _ _ _ _ _ _ _ Hs) as Hoff.
  destruct Hsame as (E1 & E2 & E3 & E4 & E5 & E6).
  assert (conn_ok (s_conn s1)) as Hc by (split; [done|rewrite E3; lia]).
  rewrite <- (unsent_ext (s_conn s) (s_conn s1)) in Ha by done.
  destruct (flush_and_arm_sent _ _ _ _ _ _ _ Hc Ha Ef) as (F1 & F2 & F3 & F4 & F5).
  change (set_sessions ?m (sv_call ?cs (set_sessions _ sv))) with (set_sessions m (sv_call cs sv)) in E.
  destruct (_ || _).
  - apply bind_Some in E as (sv2 & Ec & E). inv_some. rewrite F3, E1 in Ec.
    eapply (streams_close H sid s (set_sconn c s1) (Sent (fd (s_conn s)) out :: arm_calls arm) [] sv); try done; [simpl; congruence|auto with streams|].
    rewrite app_nil_r. by destruct sv.
  - inv_some. split; simpl; [|apply Hst..]. apply streams_insert; [|by apply streaming_sent].
    rewrite <- (app_nil_r (to_engine_ sv)).
    eapply streams_delete; [apply Hst|done|by intros; eapply okd_inj|rewrite F3, E1; auto with streams|done].
Qed.

Lemma flush_list_next sids ws sv sv' :
  ok (set_dirty_list sids sv) → flush_list sids ws sv = Some sv' → next_sid_ sv' = next_sid_ sv ∧ to_engine_ sv' = to_engine_ sv.
Proof.
  revert sv. induction sids as [|sid sids IH]; intros sv H E; simpl in E; [by inv_some|].
  destruct (sessions_ sv !! sid) as [s|] eqn:Es; [|apply IH; [by eapply stale_mark_ok|done]].
  apply bind_Some in E as ([sv1 out] & Ef & E). destruct (flush_mark_ok _ _ _ _ _ _ _ _ _ H Es Ef) as (H1 & _).
  destruct (IH _ H1 E) as [-> ->]. clear E. unfold flush_session in Ef. simpl in Ef. rewrite lookup_insert_eq in Ef. simpl in Ef.
  apply bind_Some in Ef as ([[[[c out1] okf] os] arm] & Ea & E). destruct (flush_and_arm_fields _ _ _ _ _ _ _ Ea) as (F1 & _).
  rewrite insert_insert_eq in E. destruct (_ || _); [|by inv_some]. apply bind_Some in E as (sv2 & Ec & E). inv_some.
  set (sv0 := sv_call _ _) in Ec. change (sessions_ sv) with (sessions_ (sv_call (Sent (fd c) out :: arm_calls arm) sv)) in Ec, Es.
  assert (okd (sv_call (Sent (fd c) out :: arm_calls arm) sv)) as Hok by (apply okd_call; by exists (sid :: sids)).
  change (set_sessions ?m sv0) with (set_sessions m (sv_call (Sent (fd c) out :: arm_calls arm) sv)) in Ec. clear sv0.
  rewrite (close_insert _ _ s) in Ec by done. by destruct (close_step _ _ _ _ Hok Es Ec) as (_ & _ & -> & ->).
Qed.

Lemma streams_flush_list H sids ws sv sv' :
  ok (set_dirty_list sids sv) → streams_ok H sv → (∀ sid s, sid ∈ sids → sessions_ sv !! sid = Some s → flushable (ws sid) s) →
  flush_list sids ws sv = Some sv' → streams_ok H sv'.
Proof.
  revert sv. induction sids as [|sid sids IH]; intros sv Hok Hst Hf E; simpl in E; [by inv_some|].
  destruct (sessions_ sv !! sid) as [s|] eqn:Es; [|apply (IH sv); [by eapply stale_mark_ok|done|intros; apply Hf; [by right|done]|done]].
  apply bind_Some in E as ([sv1 out] & Ef & E). destruct (gw_dirty _ _ _ Hok) as [[Hn Hnd]%NoDup_cons _].
  destruct (flush_mark_ok _ _ _ _ _ _ _ _ _ Hok Es Ef) as (H1 & _ & Hne & Hself).
  assert (sid < next_sid_ sv) as Hlt by (by destruct (gw_session _ _ _ Hok _ _ Es) as (_ & [_ ?] & _)).
  assert (streams_ok H sv1) as Hst1.
  { eapply (streams_flush_session H true sid s (set_sdirty false s) (ws sid) sv); [by exists (sid :: sids)|done..| |done|exact Ef].
    apply Hf; [by left|done]. }
  apply (IH sv1 H1 Hst1); [|done]. intros i t Hi Et. rewrite Hne in Et by (by intros ->). apply Hf; [by right|done].
Qed.

(** ** Reading *)
Lemma read_loop_grows rs acc alive bytes :
  read_loop rs acc = Some (alive, bytes) → ∃ new, bytes = acc ++ new ∧ Z.of_nat (length new) ≤ delivered rs.
Proof.
  revert acc. induction rs as [|r rs IH]; intros acc E; [done|]. pose proof (delivered_nonneg rs) as Hd. rewrite delivered_cons.
  assert (∀ n, 0 ≤ n → ∃ new, acc = acc ++ new ∧ Z.of_nat (length new) ≤ n) as Hnil by (exists []; by rewrite app_nil_r).
  destruct r as [[|b bs]| | |]; simpl in E; simplify_eq; try (apply Hnil; simpl; lia); [|by apply IH in E].
  destruct (_ <? _); simplify_eq; [exists (b :: bs); split; [done|lia]|]. apply IH in E as (new & -> & Hl).
  exists ((b :: bs) ++ new). rewrite app_assoc, length_app. split; [done|]. lia.
Qed.

Lemma parse_frames_commands push s d cmds okp s' d' cmds' :
  Forall byte (rx (s_conn s)) → Z.of_nat (length (rx (s_conn s))) < 2 ^ 63 → 0 ≤ out_seq (s_conn s) < 2 ^ 32 →
  parse_frames push s d cmds = Some (okp, s', d', cmds') → ∃ new, cmds' = cmds ++ new ∧ Forall (from_session (s_id s)) new.
Proof.
  intros Hb Hl Ho E. destruct (parse_frames_inputs _ _ _ _ _ _ _ _ Hb Hl Ho E) as (l & q & El & Ec & _).
  exists (commands_of l). split; [done|]. by eapply commands_session.
Qed.

Lemma streams_read_session H sid s rs push ws sv sv' out :
  ok sv → streams_ok H sv → sessions_ sv !! sid = Some s →
  Forall bytes_read rs →
  Z.of_nat (length (rx (s_conn s))) + delivered rs < 2 ^ 63 →
  read_session sid rs push ws sv = Some (sv', out) → streams_ok H sv'.
Proof.
  intros Hok Hst Es Hrs Hm E. unfold read_session in E. rewrite Es in E. simpl in E.
  apply bind_Some in E as ([alive bytes] & Er & E). destruct (gw_session _ _ _ Hok _ _ Es) as (Hid & [_ Hlt] & _ & _ & Hb).
  pose proof (read_loop_bytes _ _ _ _ Hb Hrs Er) as Hbytes.
  destruct (read_loop_grows _ _ _ _ Er) as (new & -> & Hshort). rewrite drop_app_length in E. apply Forall_app in Hbytes as [_ Hnew].
  set (r := Received (fd (s_conn s)) new) in E. pose proof (ok_okd _ _ _ Hok) as Hokd.
  destruct alive; simpl in E; cycle 1.
  { apply bind_Some in E as (sv1 & Ec & E). injection E as <- <-.
    apply (streams_close H sid s s [r] [] sv); try done; [by apply only_received|].
    rewrite app_nil_r, insert_id by done. by destruct sv. }
  apply bind_Some in E as ([[[okp s'] d'] cmds] & Ep & E). set (s0 := set_sconn _ s) in Ep.
  assert (Forall byte (rx (s_conn s0))) as Hb0 by (simpl; by apply Forall_app).
  assert (Z.of_nat (length (rx (s_conn s0))) < 2 ^ 63) as Hl0 by (simpl; rewrite length_app; lia).
  assert (0 ≤ out_seq (s_conn s0) < 2 ^ 32) as Ho0.
  { destruct (st_sess _ _ Hst _ _ Es) as (ins & outs & Hs). simpl. rewrite (ss_seq _ _ _ _ _ _ _ Hs). apply u32_range. }
  destruct (parse_frames_commands _ _ _ _ _ _ _ _ Hb0 Hl0 Ho0 Ep) as (cs & -> & Hcs). simpl in Hcs. rewrite Hid in Hcs.
  destruct okp.
  - injection E as <- <-. destruct Hst as [S1 S2 S3].
    pose proof (streaming_received _ _ _ _ _ _ _ _ _ _ _ (S1 _ _ Es) Hid Hnew Hl0 Ep) as Hs.
    split; simpl; [|..|done].
    + apply streams_insert; [|done]. eapply streams_delete; [done|done|by intros; eapply okd_inj|apply only_received|].
      eapply Forall_impl; [exact Hcs|]. by intros c [[_ ?] _].
    + apply Forall_app. split; [done|]. eapply Forall_impl; [exact Hcs|]. by intros c [[? ->] ?].
  - apply bind_Some in E as ([[[c out1] okf] os] & Ef & E). apply bind_Some in E as (sv1 & Ec & E). injection E as <- <-.
    apply flush_fields in Ef as (F1 & _). destruct (parse_frames_touches _ _ _ _ _ _ _ _ Ep) as [(_ & T1 & _) _]. simpl in T1.
    rewrite F1, T1 in Ec. rewrite insert_insert_eq in Ec.
    set (sv0 := set_dirty_list d' sv).
    apply (streams_close H sid s (set_sconn c s') [r; Sent (fd (s_conn s)) out1] cs sv0); try done.
    + by destruct Hst.
    + simpl. congruence.
    + apply (only_app _ [r]); [apply only_received|apply (only_sent _ out1 None)].
    + unfold sv0. simpl. unfold sv_call, call in *. simpl in *. by rewrite <- app_assoc in Ec.
Qed.

(** ** The engine's events *)

(** The engine answers sessions that exist or have existed. *)
Definition addressed (sv : Server) (e : Event) : Prop := private e = true → e_session e < next_sid_ sv.

Lemma streaming_other log cmds H sid s e : streaming log cmds H sid s → ¬ mine sid e → streaming log cmds (H ++ [e]) sid s.
Proof.
  intros Hs He. rewrite <- (app_nil_r log), <- (app_nil_r cmds). eapply streaming_keep; [done|done|apply quiet_nil|done|by apply Forall_singleton].
Qed.

Lemma streams_on_event H e sv sv' :
  streams_ok H sv → addressed sv e → server_on_event e sv = Some sv' → streams_ok (H ++ [e]) sv' ∧ next_sid_ sv' = next_sid_ sv.
Proof.
  intros [S1 S2 S3] He E.
  assert (Forall (λ e, private e = true → e_session e < next_sid_ sv) (H ++ [e])) as S3' by (apply Forall_app; by rewrite Forall_singleton).
  unfold server_on_event in E. destruct (private e) eqn:Hp.
  - assert (match sessions_ sv !! e_session e with
      | Some s => let '(s, dirty) := answer e s (sv_dirty sv) in
          Some (set_dirty_list dirty (set_sessions (<[e_session e := s]> (sessions_ sv)) sv))
      | None => Some sv end = Some sv') as E' by (unfold private in Hp; by destruct (e_kind e)). clear E.
    destruct (sessions_ sv !! e_session e) as [s|] eqn:Es.
    + pose proof (streaming_answer _ _ _ _ _ e (sv_dirty sv) (S1 _ _ Es) (conj Hp eq_refl)) as Ha.
      destruct (answer e s (sv_dirty sv)) as [s' d]. inv_some. split; [|done]. split; simpl; [|done|done].
      intros i t [[<- <-]|[Hne Et]]%lookup_insert_Some; [exact Ha|]. apply streaming_other; [by apply S1|]. by intros [_ ?].
    + inv_some. split; [|done]. split; [|done|done]. intros i t Et. apply streaming_other; [by apply S1|]. intros [_ ?]. congruence.
  - assert (∃ p, sv' = set_publisher p sv ∧ p_calls p = log sv) as (p & -> & Ep).
    { unfold private in Hp. destruct (e_kind e); try done; apply bind_Some in E as (p & Ep & E); inv_some;
        unfold publish in Ep; apply bind_Some in Ep as ([r q] & _ & Ep); inv_some; by eexists. }
    split; [|done]. split; unfold log; simpl; rewrite ?Ep; [|done|done].
    intros i t Et. apply streaming_other; [by apply S1|]. intros [? _]. congruence.
Qed.

Lemma streams_drain H evs sv sv' b :
  streams_ok H sv → Forall (addressed sv) evs → drain_engine evs sv = Some (sv', b) → streams_ok (H ++ evs) sv'.
Proof.
  revert H sv b. induction evs as [|e evs IH]; intros H sv b Hst Ha E; simpl in E; [inv_some; by rewrite app_nil_r|].
  apply Forall_cons in Ha as [He Ha]. apply bind_Some in E as (sv1 & E1 & E). apply bind_Some in E as ([sv2 b2] & E2 & E). inv_some.
  destruct (streams_on_event _ _ _ _ Hst He E1) as [Hst1 Hn].
  change (e :: evs) with ([e] ++ evs). rewrite app_assoc. eapply IH; [exact Hst1| |exact E2]. unfold addressed in *. by rewrite Hn.
Qed.

(** ** New connections *)
Lemma streams_accept_one H md f flags sv sv' :
  ok sv → streams_ok H sv → free_fd lfd mlfd sv f → next_sid_ sv + 1 < 2 ^ 32 →
  (let sv := sv_call (Accept f :: set_nonblocking flags f ++ set_nodelay f) sv in
   if md : bool then accept_subscriber f sv else accept_session f sv) = Some sv' → streams_ok H sv'.
Proof.
  intros Hok [S1 S2 S3] Hfree Hn E. set (cs := Accept f :: _) in E.
  pose proof (free_call _ _ cs sv f Hfree) as Hfree'. pose proof (sv_call_ok _ _ cs sv Hok) as Hok'.
  assert (streams (sessions_ sv) ((log sv ++ cs) ++ [Poll (PAdd f)]) (to_engine_ sv) H) as Hq.
  { rewrite <- app_assoc. apply streams_quiet; [done|]. intros sid s Es. pose proof (ff_session _ _ _ _ Hfree _ _ Es) as Hne.
    repeat constructor. simpl. apply bool_decide_false. congruence. }
  destruct md.
  - destruct (accept_subscriber_ok _ _ _ _ Hok' Hfree') as (sv1 & E1 & _ & Ex & _ & Es & Ep & Et). cbv zeta in E. rewrite E in E1. inv_some.
    unfold subscribe in Ep. simpl in Ep, Es, Et, Ex. rewrite (ff_sub _ _ _ _ Hfree) in Ep.
    split; unfold log; rewrite ?Es, ?Ep, ?Et, ?Ex; done.
  - destruct (accept_session_ok _ _ _ _ Hok' Hfree') as (sv1 & E1 & _ & Ex & _ & Es & Ep & Et); [done|]. cbv zeta in E. rewrite E in E1. inv_some.
    simpl in Ep, Es, Et, Ex. split; unfold log; rewrite ?Es, ?Ep, ?Et, ?Ex; simpl.
    + intros i t [[<- <-]|[Hne Ei]]%lookup_insert_Some; [|by apply Hq]. apply streaming_fresh; [|done].
      eapply Forall_impl; [exact S2|]. by intros c [[_ ?] _].
    + eapply Forall_impl; [exact S2|]. intros c [[? ?] ?]. split_and!; [done|lia|done].
    + eapply Forall_impl; [exact S3|]. intros e He Hp. apply He in Hp. lia.
Qed.

Lemma streams_accept_all H md os sv sv' :
  ok sv → streams_ok H sv → accepts_ok lfd mlfd os sv → accept_all md os sv = Some sv' → streams_ok H sv'.
Proof.
  revert sv. induction os as [|r os IH]; intros sv Hok Hst (Hn & Hf & Hc) E; [done|]. destruct r as [f fl| |]; cbn [accept_all] in E.
  - change (accepted (AcceptedFd f fl :: os)) with (f :: accepted os) in *. cbn [length] in Hc.
    apply NoDup_cons in Hn as [Hni Hn]. apply Forall_cons in Hf as [Hf Hfs]. apply bind_Some in E as (sv1 & E1 & E).
    pose proof (streams_accept_one H md f fl sv sv1 Hok Hst Hf ltac:(lia) E1) as Hst1.
    set (cs := Accept f :: _) in E1. apply (sv_call_ok _ _ cs) in Hok. pose proof (free_call _ _ cs sv f Hf) as Hf'.
    destruct (accept_one_ok lfd mlfd md _ _ Hok Hf') as (sv2 & E2 & H2 & Hx & Hfree); [simpl; lia|]. rewrite E1 in E2. inv_some.
    apply (IH sv2 H2 Hst1); [|done]. split_and!; [done| |simpl in Hx; lia]. apply Forall_forall. intros g Hg. rewrite Forall_forall in Hfs.
    apply Hfree; [by intros ->|]. by apply free_call, Hfs.
  - apply (IH sv); [done|done|by split_and!|done].
  - by inv_some.
Qed.

(** ** The publisher keeps to its subscribers *)
Definition sub_calls (p p' : Publisher) : Prop :=
  ∃ cs, p_calls p' = p_calls p ++ cs ∧ ∀ f, subs_ p !! f = None → quiet f cs.

Lemma streams_publisher H p sv : ok sv → streams_ok H sv → sub_calls (publisher_ sv) p → streams_ok H (set_publisher p sv).
Proof.
  intros Hok [S1 S2 S3] (cs & Ec & Hq). split; [|done|done]. unfold log. simpl. rewrite Ec. apply streams_quiet; [done|].
  intros sid s Es. apply Hq. exact (ow_sub _ _ _ _ (server_owners _ _ _ Hok) _ _ Es).
Qed.

Lemma sub_calls_refl p p' : p_calls p' = p_calls p → sub_calls p p'.
Proof. intros E. exists []. rewrite app_nil_r. split; [done|]. intros. apply quiet_nil. Qed.

Lemma sub_calls_trans p p1 p2 : sub_calls p p1 → fewer p p1 → sub_calls p1 p2 → sub_calls p p2.
Proof.
  intros (cs & E & Hq) Hf (cs' & E' & Hq'). exists (cs ++ cs'). rewrite E', E, app_assoc. split; [done|].
  intros f Ef. apply Forall_app. split; [by apply Hq|apply Hq']. apply eq_None_not_Some. intros Hs. apply Hf in Hs. rewrite Ef in Hs. by destruct Hs.
Qed.

Lemma only_sub_calls p p' f u cs : subs_ p !! f = Some u → only f cs → p_calls p' = p_calls p ++ cs → sub_calls p p'.
Proof. intros Eu Ho E. exists cs. split; [done|]. intros g Eg. apply Ho. congruence. Qed.

Lemma on_writable_calls f ws p p' out :
  (∀ f u, subs_ p !! f = Some u → fd (conn u) = f) → on_writable f ws p = Some (p', out) → sub_calls p p'.
Proof.
  intros Hs E. unfold on_writable in E. destruct (subs_ p !! f) as [u|] eqn:Eu; [|inv_some; by apply sub_calls_refl].
  apply bind_Some in E as ([[[[c o] okf] os] arm] & Ef & E). inv_some. apply flush_and_arm_fields in Ef as (F1 & _). rewrite (Hs _ _ Eu) in F1. rewrite F1.
  destruct okf.
  - eapply (only_sub_calls _ _ f u (Sent f out :: arm_calls arm)); [done|auto with streams|done].
  - eapply (only_sub_calls _ _ f u ((Sent f out :: arm_calls arm) ++ retire_calls f)); [done|auto with streams|]. simpl. by rewrite <- app_assoc.
Qed.

Lemma on_readable_calls f rs p p' : on_readable f rs p = Some p' → sub_calls p p'.
Proof.
  intros E. unfold on_readable in E. destruct (subs_ p !! f) as [u|] eqn:Eu; [|inv_some; by apply sub_calls_refl].
  apply bind_Some in E as ([alive bytes] & _ & E). set (r := Received f _) in E.
  assert (p_calls p' = p_calls p ++ [r] ∨ p_calls p' = p_calls p ++ [r] ++ retire_calls f) as [Ec|Ec].
  { destruct alive; simpl in E; [|inv_some; right; simpl; by rewrite <- app_assoc]. destruct (_ <? _); [inv_some; by left|].
    apply bind_Some in E as (h & _ & E). destruct (_ || _); [inv_some; right; simpl; by rewrite <- app_assoc|].
    apply bind_Some in E as (m & _ & E). inv_some. by left. }
  - eapply only_sub_calls; [done| |exact Ec]. apply only_received.
  - eapply only_sub_calls; [done| |exact Ec]. apply only_app; [apply only_received|apply only_retire].
Qed.

Lemma flush_all_calls now ws p p' out :
  (∀ f u, subs_ p !! f = Some u → fd (conn u) = f) → flush_all now ws p = Some (p', out) → sub_calls p p'.
Proof.
  intros Hs E. unfold flush_all in E. destruct (_ && _); [inv_some; by apply sub_calls_refl|].
  set (pumped := map_imap _ _) in E. case_bool_decide as Hall; [|done]. inv_some. eexists. split; [reflexivity|].
  intros f Ef. apply Forall_app. split.
  - apply Forall_bind, Forall_forall. intros [g r] Hin%elem_of_map_to_list. simpl. pose proof (Hall g r Hin) as [[[[u' o] k] arm] Er].
    unfold pumped in Hin. rewrite map_lookup_imap in Hin. destruct (subs_ p !! g) as [u|] eqn:Eu; [|done]. simpl in Hin. inv_some.
    destruct (pump_watch _ _ _ _ _ _ _ _ _ Er) as [F1 _]. rewrite (Hs _ _ Eu) in F1. simpl. rewrite Er. simpl. rewrite F1. apply quiet_sent. congruence.
  - apply Forall_bind, Forall_forall. intros g _. apply quiet_retire.
Qed.

Lemma subscriber_event_calls ev io p p' :
  (∀ f u, subs_ p !! f = Some u → fd (conn u) = f) → subscriber_event ev io p = Some p' → sub_calls p p'.
Proof.
  intros Hs E. unfold subscriber_event in E. destruct (subs_ p !! ev_fd ev); [|inv_some; by apply sub_calls_refl].
  apply bind_Some in E as (p1 & E1 & E). assert (sub_calls p p1 ∧ fewer p p1) as [H1 H2].
  { destruct (ev_writable ev); [|inv_some; split; [by apply sub_calls_refl|apply fewer_refl]]. apply fmap_Some in E1 as ([p2 out] & E2 & ->).
    split; [by eapply on_writable_calls|by eapply on_writable_fewer]. }
  destruct (_ || _); [|by inv_some]. eapply sub_calls_trans; [done|done|by eapply on_readable_calls].
Qed.

(** ** The event loop *)

(** The promises for one ready descriptor: the kernel's ([kernel_ok]), that no
    [::write] reports more than it was given, and that buffers stay below 2^63
    bytes. *)
Record ready_ok (ev : PollEvent) (io : Io) (sv : Server) : Prop := {
  eo_kernel : kernel_ok lfd mlfd sv io;
  eo_write : ∀ sid s, sessions_ sv !! sid = Some s → fd (s_conn s) = ev_fd ev → flushable (io_write io) s;
  eo_read : ∀ sid s, sessions_ sv !! sid = Some s → Z.of_nat (length (rx (s_conn s))) + delivered (io_read io) < 2 ^ 63;
  eo_sub : ∀ u, subs_ (publisher_ sv) !! ev_fd ev = Some u → answers_ok (io_write io) (Z.of_nat (length (unsent (conn u)))) }.

Lemma streams_session_event H ev io sv sv' :
  ok sv → 0 ≤ ev_fd ev → streams_ok H sv → ready_ok ev io sv → session_event ev io sv = Some sv' → streams_ok H sv'.
Proof.
  intros Hok Hev Hst [[_ Hr] Hw Hm _] E. unfold session_event in E. apply bind_Some in E as (sv1 & E1 & E).
  assert (ok sv1 ∧ streams_ok H sv1 ∧ ∀ i t, sessions_ sv1 !! i = Some t → Z.of_nat (length (rx (s_conn t))) + delivered (io_read io) < 2 ^ 63)
    as (Hok1 & Hst1 & Hm1).
  { destruct (ev_writable ev); [|by inv_some]. destruct (session_by_fd_ok _ _ _ _ Hok Hev) as (r & Er & Hs). rewrite Er in E1. simpl in E1.
    destruct r as [sid|]; [|by inv_some]. destruct Hs as (s & Es & Ef). apply fmap_Some in E1 as ([sv2 out] & E2 & ->).
    assert (sid < next_sid_ sv) as Hlt by (by destruct (gw_session _ _ _ Hok _ _ Es) as (_ & [_ ?] & _)).
    split_and!; [by eapply flush_session_ok| |].
    - eapply (streams_flush_session H false sid s s); [by apply ok_okd|done|done|done|by eapply Hw|done|].
      by rewrite set_sessions_id.
    - intros i t Et. destruct (flush_session_rx _ _ _ _ _ _ _ _ _ _ Hok E2 Et) as (t0 & Et0 & ->). by eapply Hm. }
  destruct (_ || _); [|by inv_some]. destruct (session_by_fd_ok _ _ _ _ Hok1 Hev) as (r & Er & Hs). rewrite Er in E. simpl in E.
  destruct r as [sid|]; [|by inv_some]. destruct Hs as (s & Es & Ef). apply fmap_Some in E as ([sv2 out] & E2 & ->).
  eapply streams_read_session; [exact Hok1|done|exact Es|done|by eapply Hm1|exact E2].
Qed.

Lemma streams_handle_event H ev io sv sv' :
  ok sv → log_ok lfd mlfd sv → streams_ok H sv → ready_ok ev io sv → handle_event ev io sv = Some sv' → streams_ok H sv'.
Proof.
  intros Hok L Hst Hio E. pose proof (kernel_io_ok _ _ _ _ Hok L (eo_kernel _ _ _ Hio)) as [Ha _].
  unfold handle_event in E. apply bind_Some in E as (k & Ek & E). apply vget_lt in Ek as Hev. destruct k.
  - by inv_some.
  - by eapply streams_accept_all in E.
  - by eapply streams_accept_all in E.
  - eapply streams_session_event; [done| |done|done|done]. lia.
  - apply bind_Some in E as (p & Ep & E). inv_some. apply streams_publisher; [done|done|].
    eapply subscriber_event_calls; [|done]. apply L.
Qed.

Lemma streams_flush_dirty H ws sv sv' :
  ok sv → streams_ok H sv → (∀ sid s, sessions_ sv !! sid = Some s → flushable (ws sid) s) → flush_dirty ws sv = Some sv' → streams_ok H sv'.
Proof.
  intros Hok Hst Hw E. unfold flush_dirty in E. apply bind_Some in E as (sv1 & E1 & E). inv_some.
  assert (streams_ok H sv1) as []; [|by split]. eapply streams_flush_list; [|done| |done]; [by destruct sv|eauto].
Qed.

(** One piece of [Server::run]'s loop, with the events it pops from the engine. *)
Inductive gw_step (sv : Server) : list Event → Server → Prop :=
  | gs_event ev io sv' : ready_ok ev io sv → handle_event ev io sv = Some sv' → gw_step sv [] sv'
  | gs_drain evs b sv' : drain_engine evs sv = Some (sv', b) → gw_step sv evs sv'
  | gs_flush ws sv' : (∀ sid s, sessions_ sv !! sid = Some s → flushable (ws sid) s) → flush_dirty ws sv = Some sv' → gw_step sv [] sv'
  | gs_publish now ws p out :
      0 ≤ now < 2 ^ 64 →
      (∀ f u u1, subs_ (publisher_ sv) !! f = Some u →
        refill (p_cfg (publisher_ sv)) (ring_ (publisher_ sv)) now u = Some u1 → answers_ok (ws f) (Z.of_nat (length (unsent (conn u1))))) →
      flush_all now ws (publisher_ sv) = Some (p, out) → gw_step sv [] (set_publisher p sv).

Lemma gw_step_reach max_backlog md sv evs sv' :
  gw_reach max_backlog md lfd mlfd sv → gw_step sv evs sv' → gw_reach max_backlog md lfd mlfd sv'.
Proof.
  intros Hr [ev io ? Hio E|? ? ? E|? ? _ E|? ? ? ? _ _ E]; [by eapply gr_event; [|apply Hio|]|by eapply gr_drain|by eapply gr_flush|by eapply gr_publish].
Qed.

Lemma gw_step_streams H sv evs sv' :
  ok sv → log_ok lfd mlfd sv → streams_ok H sv → gw_step sv evs sv' → Forall (addressed sv) evs → streams_ok (H ++ evs) sv'.
Proof.
  intros Hok L Hst [ev io ? Hio E|? ? ? E|? ? Hw E|? ? ? ? _ _ E] Ha; rewrite ?app_nil_r.
  - by eapply streams_handle_event.
  - by eapply streams_drain.
  - by eapply streams_flush_dirty.
  - apply streams_publisher; [done|done|]. eapply flush_all_calls; [|done]. apply L.
Qed.

(** Only reading adds commands, and only a batch of accepts adds sessions. *)
Lemma gw_step_popped sv evs sv' :
  gw_step sv evs sv' → evs = [] ∨ to_engine_ sv' = to_engine_ sv ∧ next_sid_ sv' = next_sid_ sv.
Proof.
  intros [ev io ? Hio E|? ? ? E|? ? Hw E|? ? ? ? _ _ E]; [by left|right|by left|by left].
  clear sv'. rename sv'0 into sv'. revert sv sv' b E. induction evs0 as [|e es IH]; intros sv sv' b E; simpl in E; [by inv_some|].
  apply bind_Some in E as (sv1 & E1 & E). apply bind_Some in E as ([sv2 b2] & E2 & E). inv_some. destruct (IH _ _ _ E2) as [-> ->].
  unfold server_on_event in E1. destruct (e_kind e); try (apply bind_Some in E1 as (p & _ & E1); by inv_some);
    (destruct (sessions_ sv !! e_session e) as [s|]; [destruct (answer e s _)|]; by inv_some).
Qed.

Lemma streams_init max_backlog md sv :
  0 ≤ lfd → 0 ≤ mlfd → lfd ≠ mlfd → Server_init max_backlog md lfd mlfd = Some sv → streams_ok [] sv.
Proof.
  intros Hl Hm Hne E. destruct (Server_init_ok lfd mlfd max_backlog md Hl Hm Hne) as (sv1 & E1 & _ & Es & _ & Et).
  rewrite E in E1. inv_some. split; rewrite ?Es, ?Et; [|done|done]. by intros sid s ?%lookup_empty_Some.
Qed.
End Carried.
