(* ===== verification/Frames.v ===== *)
(** [for_each_frame] of [src/main_client.cpp]: how the client tools cut the
    byte stream of a server into frames.  The callback is a state-passing
    function, [None] when it reads outside the buffer; the loop itself can only
    fail by running forever, which fuel shows as [None] for every amount. *)
From S2P Require Import Prelude Protocol Ring Net Publisher Gateway Parse.

Section ForEach.
Context {St : Type} (fn : Z → list Z → St → option St).

(** The loop; [fn] gets the type byte and the buffer from the frame on. *)
Fixpoint frame_loop (fuel : nat) (rx : list Z) (off : Z) (st : St) : option (Z * St) :=
  match fuel with
  | O => None
  | S fuel =>
      if 8 <=? u64 (Z.of_nat (length rx) - off) then
        let p := drop (Z.to_nat off) rx in
        h ← wire.read_header p;
        if u64 (Z.of_nat (length rx) - off) <? wire.len h then Some (off, st)
        else
          st ← fn (wire.type h) p st;
          frame_loop fuel rx (u64 (off + wire.len h)) st
      else Some (off, st)
  end.

(** [for_each_frame(rx, fn)]: what is left in [rx], and the callback's state. *)
Definition for_each_frame (rx : list Z) (st : St) : option (list Z * St) :=
  '(off, st) ← frame_loop (S (length rx)) rx 0 st;
  Some (drop (Z.to_nat off) rx, st).

(** ** The loop on the unread bytes alone *)
Fixpoint frames_of (fuel : nat) (p : list Z) (st : St) : option (list Z * St) :=
  match fuel with
  | O => None
  | S fuel =>
      match wire.read_header p with
      | None => Some (p, st)
      | Some h =>
          if Z.of_nat (length p) <? wire.len h then Some (p, st)
          else st ← fn (wire.type h) p st; frames_of fuel (drop (Z.to_nat (wire.len h)) p) st
      end
  end.
End ForEach.

(** ** How a buffer is cut

    [cut p ps tail]: the loop calls back at the suffixes [ps] of [p], then
    waits with [tail].  [stuck p]: it reaches a header whose length is 0. *)
Inductive cut : list Z → list (list Z) → list Z → Prop :=
  | cut_short p : wire.read_header p = None → cut p [] p
  | cut_partial p h : wire.read_header p = Some h → Z.of_nat (length p) < wire.len h → cut p [] p
  | cut_frame p h ps tail :
      wire.read_header p = Some h → 0 < wire.len h ≤ Z.of_nat (length p) →
      cut (drop (Z.to_nat (wire.len h)) p) ps tail → cut p (p :: ps) tail.

Inductive stuck : list Z → Prop :=
  | stuck_here p h : wire.read_header p = Some h → wire.len h = 0 → stuck p
  | stuck_later p h :
      wire.read_header p = Some h → 0 < wire.len h ≤ Z.of_nat (length p) →
      stuck (drop (Z.to_nat (wire.len h)) p) → stuck p.

(** The callbacks in order. *)
Fixpoint call_all {St} (fn : Z → list Z → St → option St) (ps : list (list Z)) (st : St) : option St :=
  match ps with
  | [] => Some st
  | p :: ps => h ← wire.read_header p; st ← fn (wire.type h) p st; call_all fn ps st
  end.

(** ** Lemmas *)
Lemma header_len_nonneg p h : Forall byte p → wire.read_header p = Some h → 0 ≤ wire.len h < 2 ^ 16.
Proof.
  unfold wire.read_header. destruct (Z.ltb_spec (Z.of_nat (length p)) 8); [done|]. intros Hb [= <-].
  assert (f_valid wire.Header_format (f_dec wire.Header_format p)) as V.
  { apply wire.Header_ok; [done|]. change (f_size wire.Header_format) with 8%nat. lia. }
  cbn -[Z.pow] in V. destruct V as [[[V _] _] _]. exact V.
Qed.

(** Every buffer is cut, or the loop gets stuck in it. *)
Lemma cut_or_stuck n p : (length p ≤ n)%nat → Forall byte p → (∃ ps tail, cut p ps tail) ∨ stuck p.
Proof.
  revert p. induction n as [|n IH]; intros p Hn Hb.
  { left. exists [], p. apply cut_short. by destruct p; [|simpl in Hn; lia]. }
  destruct (wire.read_header p) as [h|] eqn:Eh; [|left; exists [], p; by apply cut_short].
  pose proof (header_len_nonneg p h Hb Eh).
  destruct (decide (wire.len h = 0)) as [E0|]; [right; by eapply stuck_here|].
  destruct (decide (Z.of_nat (length p) < wire.len h)); [left; exists [], p; by eapply cut_partial|].
  destruct (IH (drop (Z.to_nat (wire.len h)) p)) as [(ps & tail & Hc)|Hs].
  - rewrite length_drop. lia.
  - by apply Forall_drop.
  - left. exists (p :: ps), tail. eapply cut_frame; [done|lia|done].
  - right. eapply stuck_later; [done|lia|done].
Qed.

Lemma cut_suffix p ps tail : cut p ps tail → ∃ n, (n ≤ length p)%nat ∧ tail = drop n p.
Proof.
  induction 1 as [p|p h|p h ps tail _ Hl _ (n & Hn & ->)]; [exists 0%nat; split; [lia|done]..|].
  rewrite length_drop in Hn. exists (Z.to_nat (wire.len h) + n)%nat. rewrite drop_drop. split; [lia|done].
Qed.

Section Loop.
Context {St : Type} (fn : Z → list Z → St → option St).

Lemma frame_loop_of fuel rx off st :
  0 ≤ off ≤ Z.of_nat (length rx) → Z.of_nat (length rx) < 2 ^ 63 → Forall byte rx →
  frame_loop fn fuel rx off st =
  (λ '(q, st), (Z.of_nat (length rx) - Z.of_nat (length q), st)) <$> frames_of fn fuel (drop (Z.to_nat off) rx) st.
Proof.
  revert off st. induction fuel as [|fuel IH]; intros off st Ho Hl Hb; [done|].
  cbn [frame_loop frames_of]. rewrite u64_small by lia. set (p := drop (Z.to_nat off) rx).
  assert (Z.of_nat (length p) = Z.of_nat (length rx) - off) as Hp by (unfold p; rewrite length_drop; lia).
  assert (Forall byte p) as Hbp by (by apply Forall_drop).
  rewrite <- Hp. destruct (wire.read_header p) as [h|] eqn:Eh.
  - pose proof (read_header_Some _ _ Eh). pose proof (header_len_nonneg _ _ Hbp Eh).
    destruct (Z.leb_spec 8 (Z.of_nat (length p))); [|lia]. cbn [mbind option_bind].
    destruct (Z.ltb_spec (Z.of_nat (length p)) (wire.len h)) as [|Hge]; [simpl; do 2 f_equal; lia|].
    destruct (fn _ _ _) as [st1|]; [|done]. cbn [mbind option_bind]. rewrite u64_small by lia.
    rewrite IH by (done || lia). replace (drop (Z.to_nat (off + wire.len h)) rx) with (drop (Z.to_nat (wire.len h)) p); [done|].
    unfold p. rewrite drop_drop. f_equal. lia.
  - destruct (Z.leb_spec 8 (Z.of_nat (length p))) as [H8|]; [|simpl; do 2 f_equal; lia].
    unfold wire.read_header in Eh. destruct (Z.ltb_spec (Z.of_nat (length p)) 8); [lia|done].
Qed.

Lemma frames_of_cut fuel p ps tail st :
  cut p ps tail → (length p < fuel)%nat →
  frames_of fn fuel p st = (λ st, (tail, st)) <$> call_all fn ps st.
Proof.
  intros Hc. revert fuel st. induction Hc as [p E|p h E Hl|p h ps tail E Hl Hc IH]; intros [|fuel] st Hf; try lia;
    cbn [frames_of call_all]; rewrite E; [done| |].
  - destruct (Z.ltb_spec (Z.of_nat (length p)) (wire.len h)); [done|lia].
  - destruct (Z.ltb_spec (Z.of_nat (length p)) (wire.len h)); [lia|]. cbn [mbind option_bind].
    destruct (fn _ _ _) as [st1|]; [|done]. cbn [mbind option_bind]. apply IH. rewrite length_drop. lia.
Qed.

Lemma frames_of_stuck fuel p st : stuck p → frames_of fn fuel p st = None.
Proof.
  intros Hs. revert fuel st. induction Hs as [p h E E0|p h E Hl Hs IH]; intros fuel st.
  - revert st. induction fuel as [|fuel IHf]; intros st; [done|]. cbn [frames_of]. rewrite E, E0.
    destruct (Z.ltb_spec (Z.of_nat (length p)) 0); [lia|]. destruct (fn _ _ _); [|done]. cbn [mbind option_bind].
    rewrite drop_0. apply IHf.
  - destruct fuel as [|fuel]; [done|]. cbn [frames_of]. rewrite E.
    destruct (Z.ltb_spec (Z.of_nat (length p)) (wire.len h)); [lia|]. destruct (fn _ _ _); [|done]. apply IH.
Qed.

Lemma for_each_frame_cut rx ps tail st :
  cut rx ps tail → Z.of_nat (length rx) < 2 ^ 63 → Forall byte rx →
  for_each_frame fn rx st = (λ st, (tail, st)) <$> call_all fn ps st.
Proof.
  intros Hc Hl Hb. unfold for_each_frame. rewrite frame_loop_of, drop_0 by (done || lia).
  rewrite (frames_of_cut _ _ _ _ _ Hc) by lia. destruct (call_all _ _ _) as [st'|]; [|done]. simpl. do 2 f_equal.
  destruct (cut_suffix _ _ _ Hc) as (n & Hn & ->). f_equal. rewrite length_drop. lia.
Qed.
End Loop.

(** ** Streams of whole frames *)
Record whole (bs : list Z) : Prop := {
  wh_bytes : Forall byte bs;
  wh_size : (8 ≤ length bs)%nat;
  wh_len : wire.len (f_dec wire.Header_format bs) = Z.of_nat (length bs) }.

Definition frame_type (bs : list Z) : Z := wire.type (f_dec wire.Header_format bs).

(** The beginning of a frame that has not all arrived. *)
Definition partial (t : list Z) : Prop := t = [] ∨ ∃ bs, whole bs ∧ t `prefix_of` bs ∧ t ≠ bs.

Lemma header_app p b : Forall byte p → (8 ≤ length p)%nat →
  wire.read_header (p ++ b) = Some (f_dec wire.Header_format p).
Proof.
  intros Hb Hl. unfold wire.read_header. rewrite length_app.
  destruct (Z.ltb_spec (Z.of_nat (length p + length b)) 8); [lia|]. f_equal. by apply f_dec_app, Hl; [apply wire.Header_ok|].
Qed.

Lemma whole_header bs rest : whole bs → ∃ h, wire.read_header (bs ++ rest) = Some h ∧
  wire.len h = Z.of_nat (length bs) ∧ wire.type h = frame_type bs.
Proof. intros []. rewrite header_app by done. by eexists. Qed.

Lemma cut_of_partial t : partial t → cut t [] t.
Proof.
  intros [->|(bs & Hw & [rest ->] & Hne)]; [by apply cut_short|].
  destruct (decide (length t < 8)%nat) as [|Hge].
  { apply cut_short. unfold wire.read_header. destruct (Z.ltb_spec (Z.of_nat (length t)) 8); [done|lia]. }
  destruct Hw as [Hb _ Hlen]. apply Forall_app in Hb as [Hb _].
  pose proof (header_app t [] Hb ltac:(lia)) as E. rewrite app_nil_r in E. eapply cut_partial; [exact E|].
  rewrite f_dec_app in Hlen by (first [apply wire.Header_ok|done|change (f_size wire.Header_format) with 8%nat; lia]).
  rewrite Hlen, length_app. destruct rest; [by rewrite app_nil_r in Hne|]. simpl. lia.
Qed.

(** The pointers the loop calls back at. *)
Fixpoint pointers (fs : list (list Z)) (tail : list Z) : list (list Z) :=
  match fs with [] => [] | f :: fs => (f ++ concat fs ++ tail) :: pointers fs tail end.

Lemma cut_stream fs tail : Forall whole fs → partial tail → cut (concat fs ++ tail) (pointers fs tail) tail.
Proof.
  intros Hf Ht. induction Hf as [|f fs Hw _ IH]; [by apply cut_of_partial|]. simpl. rewrite <- app_assoc.
  destruct (whole_header f (concat fs ++ tail) Hw) as (h & E & El & _). eapply cut_frame; [exact E| |].
  - pose proof (wh_size _ Hw). rewrite length_app. lia.
  - by rewrite El, Nat2Z.id, drop_app_length.
Qed.

(** Any prefix of a stream is some whole frames and a partial one. *)
Lemma prefix_split fs x : Forall whole fs → x `prefix_of` concat fs →
  ∃ fs1 fs2 t, fs = fs1 ++ fs2 ∧ x = concat fs1 ++ t ∧ partial t ∧ t `prefix_of` concat fs2.
Proof.
  intros Hf. revert x. induction Hf as [|f fs Hw Hfs IH]; intros x Hx; simpl in Hx.
  { apply prefix_nil_inv in Hx as ->. exists [], [], []. split_and!; try done. by left. }
  destruct Hx as [y E]. destruct (decide (length f ≤ length x)%nat) as [Hle|Hgt].
  - apply app_eq_inv in E as [(k & -> & E)|(k & -> & E)].
    + rewrite length_app in Hle. assert (k = []) as -> by (destruct k; [done|simpl in Hle; lia]).
      rewrite app_nil_r. exists [x], fs, []. rewrite app_nil_r. simpl. rewrite app_nil_r.
      split_and!; try done; [by left|apply prefix_nil].
    + destruct (IH k) as (fs1 & fs2 & t & -> & -> & Ht & Hp); [by exists y|].
      exists (f :: fs1), fs2, t. simpl. by rewrite app_assoc.
  - exists [], (f :: fs), x. split_and!; [done|done| |by exists y]. right. exists f. split_and!; [done| |].
    + apply app_eq_inv in E as [(k & -> & E)|(k & -> & E)]; [by apply prefix_app_r|]. rewrite length_app in Hgt. lia.
    + intros ->. lia.
Qed.

(** ** Reads

    Each [read] brings a chunk; the callback may use what was sampled with it
    (the clock), of type [E]. *)
Section Receive.
Context {E St : Type} (fn : E → Z → list Z → St → option St).

(** [rx.insert(rx.end(), buf, buf + n)], then the frames. *)
Definition receive (rx : list Z) (e : E) (chunk : list Z) (st : St) : option (list Z * St) :=
  for_each_frame (fn e) (rx ++ chunk) st.

Fixpoint receive_all (rx : list Z) (chunks : list (E * list Z)) (st : St) : option (list Z * St) :=
  match chunks with
  | [] => Some (rx, st)
  | (e, c) :: chunks => '(rx, st) ← receive rx e c st; receive_all rx chunks st
  end.

Definition chunk_bytes (chunks : list (E * list Z)) : list Z := concat (snd <$> chunks).

(** [P done st]: the state [st] accounts for the frames [done] of the stream
    [all]; the callback looks only at its own frame and extends the account. *)
Context (all : list (list Z)) (P : list (list Z) → St → Prop).
Hypothesis all_whole : Forall whole all.
Hypothesis P_step : ∀ done bs later e rest st, all = done ++ bs :: later → P done st →
  ∃ st', fn e (frame_type bs) (bs ++ rest) st = Some st' ∧ P (done ++ [bs]) st'.

Lemma call_all_stream done fs later e tail st :
  all = done ++ fs ++ later → P done st →
  ∃ st', call_all (fn e) (pointers fs tail) st = Some st' ∧ P (done ++ fs) st'.
Proof.
  revert done st. induction fs as [|f fs IH]; intros done st Ha HP; [exists st; by rewrite app_nil_r|].
  cbn [pointers call_all]. assert (whole f) as Hw.
  { rewrite Ha in all_whole. apply Forall_app in all_whole as [_ Hw]. by apply Forall_inv in Hw. }
  destruct (whole_header f (concat fs ++ tail) Hw) as (h & -> & _ & Et). cbn [mbind option_bind].
  destruct (P_step done f (fs ++ later) e (concat fs ++ tail) st Ha HP) as (st1 & E1 & H1).
  rewrite Et, E1. cbn [mbind option_bind].
  destruct (IH (done ++ [f]) st1) as (st' & E' & H'); [by rewrite <- app_assoc|done|].
  exists st'. split; [done|]. by rewrite <- app_assoc in H'.
Qed.

(** The bytes of a prefix of the stream. *)
Lemma stream_facts fs1 t fs2 : Forall whole fs1 → Forall whole fs2 → t `prefix_of` concat fs2 →
  Z.of_nat (length (concat fs1 ++ concat fs2)) < 2 ^ 63 →
  Forall byte (concat fs1 ++ t) ∧ Z.of_nat (length (concat fs1 ++ t)) < 2 ^ 63.
Proof.
  intros H1 H2 [k Ek] Hl. assert (Forall byte (concat fs1) ∧ Forall byte (concat fs2)) as [B1 B2].
  { split; apply Forall_concat; (eapply Forall_impl; [eassumption|apply wh_bytes]). }
  rewrite Ek in *. rewrite !length_app in *. rewrite Forall_app in B2. split; [apply Forall_app; tauto|lia].
Qed.

(** Reads cut the stream anywhere: the callback is called once per whole frame, in order. *)
Lemma receive_all_prefix rx chunks done fs st :
  all = done ++ fs → P done st → partial rx → rx ++ chunk_bytes chunks `prefix_of` concat fs →
  Z.of_nat (length (concat fs)) < 2 ^ 63 →
  ∃ fs1 fs2 t st', fs = fs1 ++ fs2 ∧ rx ++ chunk_bytes chunks = concat fs1 ++ t ∧ partial t ∧
    t `prefix_of` concat fs2 ∧ receive_all rx chunks st = Some (t, st') ∧ P (done ++ fs1) st'.
Proof.
  unfold chunk_bytes. revert rx done fs st.
  induction chunks as [|[e c] chunks IH]; intros rx done fs st Ha HP Hrx Hp Hl; cbn [fmap list_fmap concat receive_all snd] in *.
  { rewrite app_nil_r in *. exists [], fs, rx, st. by rewrite app_nil_r. }
  assert (Forall whole fs) as Hw by (rewrite Ha in all_whole; by apply Forall_app in all_whole as [_ ?]).
  destruct (prefix_split fs (rx ++ c) Hw) as (fs1 & fs2 & t & -> & Ec & Ht & Hpt).
  { etransitivity; [|exact Hp]. rewrite app_assoc. by apply prefix_app_r. }
  apply Forall_app in Hw as [Hw1 Hw2]. rewrite concat_app in *.
  rewrite app_assoc, Ec, <- app_assoc in Hp. apply prefix_app_inv in Hp.
  destruct (stream_facts fs1 t fs2 Hw1 Hw2 Hpt Hl) as [Hb Hlt]. unfold receive. rewrite Ec.
  rewrite (for_each_frame_cut (fn e) _ _ _ st (cut_stream fs1 t Hw1 Ht) Hlt Hb).
  destruct (call_all_stream done fs1 fs2 e t st Ha HP) as (st1 & -> & H1).
  cbn [fmap option_fmap option_map mbind option_bind].
  destruct (IH t (done ++ fs1) fs2 st1) as (g1 & g2 & u & st' & -> & Eu & Hu & Hpu & -> & H');
    [by rewrite <- app_assoc|done|done|exact Hp|rewrite length_app in Hl; lia|].
  exists (fs1 ++ g1), g2, u, st'. rewrite <- (app_assoc fs1), concat_app, <- (app_assoc (concat fs1)).
  rewrite (app_assoc rx), Ec, <- (app_assoc (concat fs1)), Eu. rewrite <- app_assoc in H'. done.
Qed.
End Receive.
