(* ===== verification/MdClient.v ===== *)
(** [run_md] of [src/main_client.cpp]: the resumable market-data subscriber.
    Clock readings and the results of [connect], [select] and [::read] are
    inputs; what it prints is a list of lines. *)
From S2P Require Import Prelude Protocol Ring WireTheorems Net Publisher Stream Gateway Parse Frames Sockets.

Inductive MdLine :=
  | LSubscribed (from : Z)
  | LNoHeartbeat (ms : Z)
  | LGap (from upto : Z)
  | LJump (last seq : Z)
  | LTrade (seq symbol aggressor qty price : Z)
  | LTop (seq symbol bid_qty bid ask_qty ask : Z).

(** The counters of [run_md]; [last_seq] is a [uint32_t], the others [uint64_t]. *)
Record MdState := mkMd {
  last_seq : Z; frames : Z; gaps : Z; lost : Z; heartbeats : Z; fanout_ns : list Z; lines : list MdLine }.

Definition MdState_init : MdState := mkMd 0 0 0 0 0 [] [].

Definition print (stats : bool) (l : MdLine) (st : MdState) : MdState :=
  if stats then st
  else mkMd (last_seq st) (frames st) (gaps st) (lost st) (heartbeats st) (fanout_ns st) (lines st ++ [l]).

(** The Heartbeat branch of the callback. *)
Definition on_heartbeat (p : list Z) (st : MdState) : option MdState :=
  hb ← wire.read wire.Heartbeat p;
  Some (mkMd (Z.max (last_seq st) (u32 (wire.hb_head_seq hb))) (frames st) (gaps st) (lost st)
          (u64 (heartbeats st + 1)) (fanout_ns st) (lines st)).

(** The Gap branch. *)
Definition on_gap (stats : bool) (p : list Z) (st : MdState) : option MdState :=
  g ← wire.read wire.Gap p;
  let from := wire.gp_from g in
  let resumed_at := wire.gp_resumed_at g in
  Some (print stats (LGap from (u64 (resumed_at - 1)))
    (mkMd (u32 (resumed_at - 1)) (frames st) (u64 (gaps st + 1)) (u64 (lost st + u64 (resumed_at - from)))
       (heartbeats st) (fanout_ns st) (lines st))).

(** The sequence check of a data frame. *)
Definition check_seq (stats : bool) (seq : Z) (st : MdState) : MdState :=
  if negb (last_seq st =? 0) && negb (seq =? u32 (last_seq st + 1)) then
    print stats (LJump (last_seq st) seq)
      (mkMd (last_seq st) (frames st) (u64 (gaps st + 1)) (u64 (lost st + u32 (seq - last_seq st - 1)))
         (heartbeats st) (fanout_ns st) (lines st))
  else st.

Definition count_frame (seq : Z) (st : MdState) : MdState :=
  mkMd seq (u64 (frames st + 1)) (gaps st) (lost st) (heartbeats st) (fanout_ns st) (lines st).

Definition push_fanout (v : Z) (st : MdState) : MdState :=
  mkMd (last_seq st) (frames st) (gaps st) (lost st) (heartbeats st) (fanout_ns st ++ [v]) (lines st).

(** The callback of [run_md]. *)
Definition on_frame (stats : bool) (now : Z) (t : Z) (p : list Z) (st : MdState) : option MdState :=
  h ← wire.read_header p;
  if t =? wire.MsgType_val wire.MsgHeartbeat then on_heartbeat p st else
  if t =? wire.MsgType_val wire.MsgGap then on_gap stats p st else
  let st := count_frame (wire.seq h) (check_seq stats (wire.seq h) st) in
  if t =? wire.MsgType_val wire.MsgTrade then
    m ← wire.read wire.Trade p;
    Some (if stats then
            push_fanout (if wire.tr_ts_ns m <? now then u64 (now - wire.tr_ts_ns m) else 0) st
          else print stats (LTrade (wire.seq h) (wire.tr_symbol m) (wire.tr_aggressor m) (wire.tr_qty m)
                              (wire.tr_price m)) st)
  else if (t =? wire.MsgType_val wire.MsgTop) && negb stats then
    m ← wire.read wire.Top p;
    Some (print stats (LTop (wire.seq h) (wire.tp_symbol m) (wire.tp_bid_qty m) (wire.tp_bid m)
                         (wire.tp_ask_qty m) (wire.tp_ask m)) st)
  else Some st.

(** ** The connection loop *)
Record MdConfig := mkMdConfig { stats : bool; hb_timeout_ns : Z; reconnect : bool; t_end : Z }.

(** One iteration of the inner loop: the clock when its condition is tested,
    what [select] says, and the clock afterwards.  [SelReady] is every result after
    which the code reads (an error other than an interruption included), with what
    [::read] returns. *)
Inductive SelectResult := SelInterrupted | SelTimeout | SelReady (r : ReadResult).
Record Tick := mkTick { tk_now : Z; tk_select : SelectResult; tk_after : Z }.

(** The inner loop, from [rx] and [last_rx_ns]; [None] while the next [select] blocks. *)
Fixpoint md_session (c : MdConfig) (ticks : list Tick) (rx : list Z) (last_rx_ns : Z) (st : MdState) : option MdState :=
  match ticks with
  | [] => None
  | k :: ticks =>
      if tk_now k <? t_end c then
        match tk_select k with
        | SelInterrupted => md_session c ticks rx last_rx_ns st
        | SelTimeout =>
            if hb_timeout_ns c <? u64 (tk_after k - last_rx_ns)
            then Some (print (stats c) (LNoHeartbeat (hb_timeout_ns c / 1000000)) st)
            else md_session c ticks rx last_rx_ns st
        | SelReady (Got (b :: bs)) =>
            '(rx, st) ← receive (on_frame (stats c)) rx (tk_after k) (b :: bs) st;
            md_session c ticks rx (tk_after k) st
        | SelReady _ => Some st
        end
      else Some st
  end.

(** ** Connecting and reconnecting *)

(** One turn of the outer loop: the clock, whether [connect_tcp] succeeded, the
    answers to the writes of the Subscribe frame, the connection, the clock after it. *)
Record Attempt := mkAttempt {
  at_now : Z; at_connected : bool; at_writes : list WriteResult; at_start : Z; at_ticks : list Tick; at_end : Z }.

Record MdRun := mkRun {
  r_from : Z; r_st : MdState; r_reconnects : Z; r_backoff_ms : Z; r_slept : list Z; r_asked : list Z }.

Definition MdRun_init (from : Z) : MdRun := mkRun from MdState_init 0 50 [] [].

Definition subscribe_frame (from : Z) : wire.Subscribe :=
  wire.mkSubscribe (wire.hdr (wire.make wire.Subscribe 0)) from.

(** The outer loop: exit code and final state; [None] while it is still running. *)
Fixpoint md_run (c : MdConfig) (attempts : list Attempt) (r : MdRun) : option (Z * MdRun) :=
  match attempts with
  | [] => None
  | a :: attempts =>
      if at_now a <? t_end c then
        if at_connected a then
          '(ok, _, _) ← write_full (at_writes a) (wire.bytes_of (subscribe_frame (r_from r)));
          if (ok : bool) then
            st ← md_session c (at_ticks a) [] (at_start a) (print (stats c) (LSubscribed (r_from r)) (r_st r));
            let asked := r_asked r ++ [r_from r] in
            if negb (reconnect c) || (t_end c <=? at_end a)
            then Some (0, mkRun (r_from r) st (r_reconnects r) 50 (r_slept r) asked)
            else md_run c attempts
                   (mkRun (u32 (last_seq st + 1)) st (u64 (r_reconnects r + 1)) 50 (r_slept r) asked)
          else md_run c attempts r
        else if negb (reconnect c) then Some (1, r)
        else md_run c attempts
               (mkRun (r_from r) (r_st r) (r_reconnects r) (Z.min (u32 (r_backoff_ms r * 2)) 2000)
                  (r_slept r ++ [u32 (r_backoff_ms r * 1000)]) (r_asked r))
      else Some (0, r)
  end.
