(* ===== verification/MdAccount.v ===== *)
(** What the market-data client has counted and printed after reading a
    stream: exactly what the stream of items says. *)
From S2P Require Import Prelude Protocol Ring WireTheorems Net Publisher Stream Gateway Parse Frames Sockets MdClient.

(** ** What a stream says *)
Definition n_frames (l : list item) : Z := zsum ((λ i, match i with IFrame _ => 1 | _ => 0 end) <$> l).
Definition n_gaps (l : list item) : Z := zsum ((λ i, match i with IGap _ _ => 1 | _ => 0 end) <$> l).
Definition n_lost (l : list item) : Z := zsum ((λ i, match i with IGap a b => b - a | _ => 0 end) <$> l).
Definition n_beats (l : list item) : Z := zsum ((λ i, match i with IBeat _ _ => 1 | _ => 0 end) <$> l).

Definition frame_line (seq : Z) (f : MdFrame) : MdLine :=
  match f with
  | MdTrade t => LTrade seq (wire.tr_symbol t) (wire.tr_aggressor t) (wire.tr_qty t) (wire.tr_price t)
  | MdTop t => LTop seq (wire.tp_symbol t) (wire.tp_bid_qty t) (wire.tp_bid t) (wire.tp_ask_qty t) (wire.tp_ask t)
  end.

(** The line printed for an item, when [fs] are the frames published so far. *)
Definition item_line (fs : list MdFrame) (i : item) : option MdLine :=
  match i with
  | IFrame seq => frame_line seq <$> fs !! Z.to_nat (seq - 1)
  | IGap from resumed => Some (LGap from (resumed - 1))
  | IBeat _ _ => None
  end.

(** What is printed about the stream, as opposed to the connection. *)
Definition is_data (l : MdLine) : Prop := match l with LSubscribed _ | LNoHeartbeat _ => False | _ => True end.

#[global] Instance is_data_dec l : Decision (is_data l).
Proof. destruct l; simpl; apply _. Defined.

Definition data_lines (st : MdState) : list MdLine := filter is_data (lines st).

(** The state [st] is [st0] after the items [l], read from a publisher that was
    asked for [from] when it had published [d] frames. *)
Record accounts (stats : bool) (fs : list MdFrame) (d from : Z) (st0 : MdState) (l : list item) (st : MdState) : Prop := {
  ac_follow : ∃ n', follow_from d from l = Some n' ∧ last_seq st = match l with [] => last_seq st0 | _ => n' - 1 end;
  ac_frames : frames st = u64 (frames st0 + n_frames l);
  ac_gaps : gaps st = u64 (gaps st0 + n_gaps l);
  ac_lost : lost st = u64 (lost st0 + n_lost l);
  ac_beats : heartbeats st = u64 (heartbeats st0 + n_beats l);
  ac_lines : data_lines st = data_lines st0 ++ if stats then [] else omap (item_line fs) l }.

(** Counters are 64-bit. *)
Definition counters_ok (st : MdState) : Prop :=
  0 ≤ frames st < 2 ^ 64 ∧ 0 ≤ gaps st < 2 ^ 64 ∧ 0 ≤ lost st < 2 ^ 64 ∧ 0 ≤ heartbeats st < 2 ^ 64.

(** The client expects sequence [n]: it has seen [n - 1], or nothing yet. *)
Definition expects (n : Z) (st : MdState) : Prop := last_seq st = n - 1 ∨ last_seq st = 0.

(** A client that asks for [from]: unless it is told so by a gap, the stream
    starts where it expects it. *)
Definition ready (d from : Z) (st : MdState) : Prop := d + 1 < from ∨ expects (opening_seq d from) st.

(** An item of the stream of [len] published frames. *)
Definition item_in (len : Z) (i : item) : Prop :=
  match i with
  | IFrame seq => 1 ≤ seq ≤ len
  | IGap a b => 0 ≤ a ∧ 1 ≤ b ≤ len + 1 ∧ (a < b ∨ a < 2 ^ 64)
  | IBeat t d => 0 ≤ t < 2 ^ 64 ∧ 0 ≤ d ≤ len
  end.

Definition clock_ok (i : item) : Prop := match i with IBeat t _ => 0 ≤ t < 2 ^ 64 | _ => True end.

Lemma follow_one_in n i n' len :
  follow_one n i = Some n' → clock_ok i → 1 ≤ n → n' ≤ len + 1 → item_in len i ∧ 1 ≤ n'.
Proof.
  destruct i as [q|a b|t d]; simpl; intros E Hc Hn Hn'.
  - destruct (Z.eqb_spec q n); simplify_eq. lia.
  - destruct (Z.eqb_spec a n), (Z.ltb_spec a b); simplify_eq/=. lia.
  - destruct (Z.eqb_spec d (n - 1)); simplify_eq. lia.
Qed.

Lemma follow_in len n l n' :
  follow n l = Some n' → Forall clock_ok l → 1 ≤ n → n' ≤ len + 1 → Forall (item_in len) l.
Proof.
  revert n. induction l as [|i l IH]; intros n E Hc Hn Hn'; [done|]. simpl in E.
  apply bind_Some in E as (m & Em & E). apply Forall_cons in Hc as [Hc Hl]. pose proof (follow_mono _ _ _ E).
  destruct (follow_one_in n i m len Em Hc Hn) as [Hi Hm]; [lia|]. constructor; [done|]. by apply (IH m).
Qed.

Lemma opening_in len d from : 0 ≤ d ≤ len → 0 ≤ from < 2 ^ 64 → Forall (item_in len) (opening d from).
Proof. intros Hd Hf. unfold opening. destruct (_ <? _); [|constructor]. apply Forall_singleton. simpl. lia. Qed.

(** ** The bytes of the items *)
Lemma stamp_all_lookup fs i : stamp_all 1 fs !! i = md_bytes (Z.of_nat i + 1) <$> fs !! i.
Proof.
  enough (∀ s, stamp_all s fs !! i = md_bytes (Z.of_nat i + s) <$> fs !! i) by auto.
  revert i. induction fs as [|f fs IH]; intros i s; [done|]. destruct i as [|i]; [done|]. cbn [stamp_all lookup list_lookup].
  change (stamp_all (s + 1) fs !! i = md_bytes (Z.of_nat (S i) + s) <$> fs !! i). rewrite IH. do 2 f_equal. lia.
Qed.

Lemma framed_whole {M} `{WK : wire.WireOk M} (m : M) :
  wire.valid m → wire.len (wire.hdr m) = wire.sizeof M →
  whole (wire.bytes_of m) ∧ frame_type (wire.bytes_of m) = wire.type (wire.hdr m).
Proof.
  intros Hv Hl. pose proof (wire.wk_max (M := M)) as Hmax. pose proof (wire.wk_prefix m [] Hv) as Hp.
  rewrite app_nil_r in Hp. pose proof (fo_size _ wire.wk_format m Hv) as Hs.
  assert (Z.of_nat (length (wire.bytes_of m)) = wire.sizeof M) as Hsz by (unfold wire.bytes_of, wire.sizeof; by rewrite Hs).
  split; [|unfold frame_type; by rewrite Hp]. split; [by apply wire.wk_format|lia|]. rewrite Hp. congruence.
Qed.

(** The read of a message at the front of a buffer. *)
Lemma read_front {M} `{WK : wire.WireOk M} (m : M) rest :
  wire.valid m → wire.read M (wire.bytes_of m ++ rest) = Some m ∧ wire.read_header (wire.bytes_of m ++ rest) = Some (wire.hdr m).
Proof.
  intros Hv. pose proof (wire.wk_max (M := M)). pose proof (fo_size _ wire.wk_format m Hv) as Hs.
  assert (Z.of_nat (length (wire.bytes_of m)) = wire.sizeof M) as Hsz by (unfold wire.bytes_of, wire.sizeof; by rewrite Hs).
  split.
  - rewrite read_enough by (rewrite length_app; lia). f_equal. by apply wire.wk_format.
  - unfold wire.read_header. rewrite length_app.
    destruct (Z.ltb_spec (Z.of_nat (length (wire.bytes_of m) + length rest)) 8); [lia|]. f_equal. by apply wire.wk_prefix.
Qed.

Lemma gap_valid a b : 0 ≤ a < 2 ^ 64 → 0 ≤ b < 2 ^ 64 → wire.valid (gap_frame a b).
Proof. intros. unfold gap_frame. wire_valid. Qed.

Lemma beat_valid t d : 0 ≤ t < 2 ^ 64 → 0 ≤ d < 2 ^ 64 → wire.valid (heartbeat_frame t d).
Proof. intros. unfold heartbeat_frame. wire_valid. Qed.

(** A published frame on the wire, stamped. *)
Lemma set_seq_sendable {M} `{WK : wire.WireOk M} q (m : M) :
  sendable m → 0 ≤ q < 2 ^ 32 →
  wire.valid (set_seq q m) ∧ wire.seq (wire.hdr (set_seq q m)) = q ∧
  wire.type (wire.hdr (set_seq q m)) = wire.MsgType_val (wire.kType (M := M)) ∧
  whole (wire.bytes_of (set_seq q m)).
Proof.
  intros (Hv & Hl & Ht) Hq. pose proof (set_seq_valid q m Hv Hq) as Hv'.
  assert (wire.hdr (set_seq q m) = wire.mkHeader (wire.len (wire.hdr m)) (wire.type (wire.hdr m)) (wire.version (wire.hdr m)) q) as Eh
    by apply wire.wk_hdr.
  split_and!; [done|by rewrite Eh|by rewrite Eh|]. apply framed_whole; [done|by rewrite Eh].
Qed.

Section Account.
Context (stats : bool) (fs : list MdFrame).
Context (fs_ok : Forall md_ok fs) (fs_len : Z.of_nat (length fs) + 1 < 2 ^ 32).
#[local] Abbreviation hist := (stamp_all 1 fs).
#[local] Abbreviation len := (Z.of_nat (length fs)).

Lemma frame_item seq : 1 ≤ seq ≤ len →
  ∃ f, fs !! Z.to_nat (seq - 1) = Some f ∧ md_ok f ∧ item_bytes hist (IFrame seq) = md_bytes seq f.
Proof.
  intros Hs. destruct (lookup_lt_is_Some_2 fs (Z.to_nat (seq - 1))) as [f E]; [lia|]. exists f.
  split_and!; [done|by eapply Forall_lookup_1|]. simpl. rewrite stamp_all_lookup, E. simpl. f_equal. lia.
Qed.

Lemma item_whole i : item_in len i → whole (item_bytes hist i).
Proof.
  destruct i as [q|a b|t d]; intros Hi.
  - destruct (frame_item q Hi) as (f & _ & Hf & ->). simpl in Hi. destruct f; apply set_seq_sendable; (done || lia).
  - simpl in *. apply framed_whole; [apply gap_valid; lia|reflexivity].
  - simpl in *. apply framed_whole; [apply beat_valid; lia|reflexivity].
Qed.

(** ** One frame *)
Lemma on_data_frame now q f rest st :
  md_ok f → 1 ≤ q < 2 ^ 32 → expects q st →
  ∃ st', on_frame stats now (frame_type (md_bytes q f)) (md_bytes q f ++ rest) st = Some st' ∧
    last_seq st' = q ∧ frames st' = u64 (frames st + 1) ∧ gaps st' = gaps st ∧ lost st' = lost st ∧
    heartbeats st' = heartbeats st ∧ lines st' = lines st ++ if stats then [] else [frame_line q f].
Proof.
  intros Hf Hq He. unfold on_frame.
  assert (check_seq stats q st = st) as Hc.
  { unfold check_seq. destruct He as [->| ->]; [|done]. rewrite u32_small by lia.
    destruct (Z.eqb_spec q (q - 1 + 1)); [|lia]. by rewrite andb_false_r. }
  destruct f as [t|t]; cbn [md_bytes frame_line] in *;
    destruct (set_seq_sendable q t Hf ltac:(lia)) as (Hv & Es & Et & Hw);
    destruct (read_front (set_seq q t) rest Hv) as [-> ->];
    destruct (framed_whole (set_seq q t) Hv) as [_ ->]; try apply Hf; cbn [mbind option_bind]; rewrite Et, Es, Hc;
    destruct t, stats; cbn; (eexists; split; [reflexivity|]); rewrite ?app_nil_r; done.
Qed.

Lemma on_gap_frame now a b rest st :
  0 ≤ a < 2 ^ 64 → 1 ≤ b < 2 ^ 32 →
  ∃ st', on_frame stats now (frame_type (item_bytes hist (IGap a b))) (item_bytes hist (IGap a b) ++ rest) st = Some st' ∧
    last_seq st' = b - 1 ∧ frames st' = frames st ∧ gaps st' = u64 (gaps st + 1) ∧ lost st' = u64 (lost st + (b - a)) ∧
    heartbeats st' = heartbeats st ∧ lines st' = lines st ++ if stats then [] else [LGap a (b - 1)].
Proof.
  intros Ha Hb. cbn [item_bytes]. pose proof (gap_valid a b ltac:(lia) ltac:(lia)) as Hv.
  destruct (framed_whole _ Hv eq_refl) as [_ ->]. unfold on_frame, on_gap.
  destruct (read_front _ rest Hv) as [-> ->]. cbn -[u64 u32 Z.sub]. rewrite (u32_small (b - 1)), (u64_small (b - 1)) by lia.
  assert (u64 (lost st + u64 (b - a)) = u64 (lost st + (b - a))) as -> by (unfold u64; by rewrite Zplus_mod_idemp_r).
  destruct stats; (eexists; split; [reflexivity|]); cbn -[u64 Z.sub]; by rewrite ?app_nil_r.
Qed.

Lemma on_beat_frame now t d rest st :
  0 ≤ t < 2 ^ 64 → 0 ≤ d < 2 ^ 32 → expects (d + 1) st →
  ∃ st', on_frame stats now (frame_type (item_bytes hist (IBeat t d))) (item_bytes hist (IBeat t d) ++ rest) st = Some st' ∧
    last_seq st' = d ∧ frames st' = frames st ∧ gaps st' = gaps st ∧ lost st' = lost st ∧
    heartbeats st' = u64 (heartbeats st + 1) ∧ lines st' = lines st.
Proof.
  intros Ht Hd He. cbn [item_bytes]. pose proof (beat_valid t d ltac:(lia) ltac:(lia)) as Hv.
  destruct (framed_whole _ Hv eq_refl) as [_ ->]. unfold on_frame, on_heartbeat.
  destruct (read_front _ rest Hv) as [-> ->]. cbn -[u64 u32 Z.max]. rewrite (u32_small d) by lia.
  eexists. split; [reflexivity|]. cbn -[u64 Z.max]. split_and!; try done. destruct He; lia.
Qed.
(** ** The whole stream *)
Lemma accounts_nil d from st : counters_ok st → accounts stats fs d from st [] st.
Proof.
  intros (? & ? & ? & ?). split; [by eexists|..]; unfold n_frames, n_gaps, n_lost, n_beats; simpl;
    rewrite ?Z.add_0_r, ?u64_small by done; try done. destruct stats; by rewrite app_nil_r.
Qed.

Lemma accounts_expects d from st0 l st m :
  accounts stats fs d from st0 l st → ready d from st0 → follow_from d from l = Some m → l ≠ [] ∨ from ≤ d + 1 → expects m st.
Proof.
  intros [(m' & E & Hl)] He Em Hor. rewrite E in Em. injection Em as ->. destruct l as [|i l]; [|by left].
  injection E as <-. unfold expects. rewrite Hl. destruct Hor; [done|]. destruct He; [lia|done].
Qed.

Lemma data_item_lines (l : list item) : filter is_data (omap (item_line fs) l) = omap (item_line fs) l.
Proof.
  apply filter_all. intros x ([q|a b|t d] & _ & E)%list_elem_of_omap; simpl in E; simplify_eq; [|done].
  apply fmap_Some in E as (f & _ & ->). by destruct f.
Qed.

Lemma accounts_snoc d from st0 l st i m' st' :
  accounts stats fs d from st0 l st → follow_from d from (l ++ [i]) = Some m' → last_seq st' = m' - 1 →
  frames st' = u64 (frames st + n_frames [i]) → gaps st' = u64 (gaps st + n_gaps [i]) →
  lost st' = u64 (lost st + n_lost [i]) → heartbeats st' = u64 (heartbeats st + n_beats [i]) →
  lines st' = lines st ++ (if stats then [] else omap (item_line fs) [i]) → accounts stats fs d from st0 (l ++ [i]) st'.
Proof.
  intros [_ A1 A2 A3 A4 A5] Ef Hl B1 B2 B3 B4 B5.
  assert (∀ a b c, u64 (u64 (a + b) + c) = u64 (a + (b + c))) as Hu
    by (intros a b c; unfold u64; rewrite Zplus_mod_idemp_l; f_equal; lia).
  unfold n_frames, n_gaps, n_lost, n_beats in *.
  split; unfold n_frames, n_gaps, n_lost, n_beats; rewrite ?fmap_app, ?zsum_app, ?B1, ?B2, ?B3, ?B4, ?A1, ?A2, ?A3, ?A4, ?Hu; try done.
  - exists m'. split; [done|]. by destruct l.
  - unfold data_lines in *. rewrite B5, filter_app, A5, omap_app, <- app_assoc. destruct stats; [done|].
    by rewrite data_item_lines.
Qed.

(** Lines about the connection do not matter. *)
Lemma accounts_print d from st0 l st x :
  accounts stats fs d from st0 l st → ¬ is_data x → accounts stats fs d from st0 l (print stats x st).
Proof.
  intros [A0 A1 A2 A3 A4 A5] Hx. unfold print. destruct stats; [by split|]. split; try done.
  unfold data_lines in *. simpl. by rewrite filter_app, filter_cons_False, filter_nil, app_nil_r.
Qed.

(** Later publications do not change what the items say. *)
Lemma item_lines_grow fs2 (l : list item) :
  Forall (item_in len) l → omap (item_line fs) l = omap (item_line (fs ++ fs2)) l.
Proof.
  induction 1 as [|i l Hi _ IH]; [done|].
  assert (item_line (fs ++ fs2) i = item_line fs i) as E.
  { destruct i as [q|a b|t d]; simpl; [|done..]. simpl in Hi. by rewrite lookup_app_l by lia. }
  change (omap ?f (i :: l)) with (match f i with Some y => y :: omap f l | None => omap f l end).
  by rewrite E, IH.
Qed.

Lemma u64_sum a b c : u64 (u64 (a + b) + c) = u64 (a + (b + c)).
Proof. unfold u64. rewrite Zplus_mod_idemp_l. f_equal. lia. Qed.

(** Two connections in a row read as one stream. *)
Lemma accounts_trans fs' d from d' st0 l1 st1 m l2 st2 :
  accounts stats fs d from st0 l1 st1 → follow_from d from l1 = Some m → l1 ≠ [] ∨ from ≤ d + 1 → 1 ≤ m ≤ d' + 1 →
  accounts stats fs' d' m st1 l2 st2 →
  fs `prefix_of` fs' → Forall (item_in len) l1 → accounts stats fs' d from st0 (l1 ++ l2) st2.
Proof.
  intros [(m1 & E1 & L1) A1 A2 A3 A4 A5] Em Hor Hm [(m2 & E2 & L2) B1 B2 B3 B4 B5] [fs2 ->] Hin.
  rewrite Em in E1. injection E1 as <-. unfold n_frames, n_gaps, n_lost, n_beats in *.
  split; unfold n_frames, n_gaps, n_lost, n_beats; rewrite ?fmap_app, ?zsum_app, ?B1, ?B2, ?B3, ?B4, ?A1, ?A2, ?A3, ?A4, ?u64_sum; try done.
  - exists m2. rewrite follow_from_started in E2 by lia. rewrite (follow_from_app _ _ _ _ m) by done.
    assert (opening_seq d' m = m) as Eo by (unfold opening_seq; destruct (Z.eqb_spec m 0), (Z.ltb_spec (d' + 1) m); simpl; lia).
    rewrite Eo in E2. split; [done|]. destruct l2 as [|i l2]; [|by destruct l1]. rewrite app_nil_r.
    simpl in E2. injection E2 as <-. by rewrite L2, L1.
  - rewrite B5, A5, <- app_assoc. f_equal. destruct stats; [done|]. rewrite omap_app. f_equal.
    by apply item_lines_grow.
Qed.

(** A connection that brought nothing does not count. *)
Lemma accounts_skip fs' d from d' from' st0 st1 l st2 :
  accounts stats fs d from st0 [] st1 → accounts stats fs' d' from' st1 l st2 → accounts stats fs' d' from' st0 l st2.
Proof.
  intros [(m1 & E1 & L1) A1 A2 A3 A4 A5] [(m2 & E2 & L2) B1 B2 B3 B4 B5].
  unfold n_frames, n_gaps, n_lost, n_beats in *. simpl in A1, A2, A3, A4.
  split; unfold n_frames, n_gaps, n_lost, n_beats; rewrite ?B1, ?B2, ?B3, ?B4, ?A1, ?A2, ?A3, ?A4, ?u64_sum; try done.
  - exists m2. split; [done|]. destruct l; [by rewrite L2, L1|done].
  - rewrite B5, A5. destruct stats; simpl; by rewrite app_nil_r.
Qed.

Lemma accounts_counters d from st0 l st : accounts stats fs d from st0 l st → counters_ok st.
Proof. intros [_ E1 E2 E3 E4 _]. unfold counters_ok. rewrite E1, E2, E3, E4. split_and!; apply u64_range. Qed.

(** One item further: the gap a stale client is told so by, or an item that continues the stream. *)
Lemma follow_from_step d from l i m' st0 st :
  follow_from d from (l ++ [i]) = Some m' → accounts stats fs d from st0 l st → ready d from st0 →
  (i = IGap from (d + 1) ∧ m' = d + 1) ∨ ∃ m, follow_one m i = Some m' ∧ expects m st.
Proof.
  intros Ef Ha He. pose proof (ac_follow _ _ _ _ _ _ _ Ha) as (m & Em & _).
  assert ((l ≠ [] ∨ from ≤ d + 1) ∨ (l = [] ∧ d + 1 < from)) as [Hor|[-> Hs]] by (destruct l; [destruct (Z.le_gt_cases from (d + 1)); auto with lia|by left; left]).
  - right. exists m. split; [|by eapply accounts_expects]. rewrite (follow_from_app _ _ _ _ m) in Ef by done.
    simpl in Ef. by apply bind_Some in Ef as (? & -> & [= ->]).
  - left. destruct i as [q|a b|t e]; simpl in Ef; destruct (Z.ltb_spec (d + 1) from); try (done || lia).
    destruct (Z.eqb_spec a from), (Z.eqb_spec b (d + 1)); simplify_eq/=; done.
Qed.

Lemma accounts_step d from st0 l st i m' now rest :
  accounts stats fs d from st0 l st → ready d from st0 → follow_from d from (l ++ [i]) = Some m' → item_in len i →
  ∃ st', on_frame stats now (frame_type (item_bytes hist i)) (item_bytes hist i ++ rest) st = Some st' ∧
    accounts stats fs d from st0 (l ++ [i]) st'.
Proof.
  intros Ha He Ef Hi. pose proof (follow_from_step _ _ _ _ _ _ _ Ef Ha He) as Hst.
  destruct (accounts_counters _ _ _ _ _ Ha) as (C1 & C2 & C3 & C4).
  assert (∀ z, 0 ≤ z < 2 ^ 64 → z = u64 (z + 0)) as Hz by (intros z Hz; by rewrite Z.add_0_r, u64_small).
  destruct i as [q|a b|t e]; simpl in Hi.
  - destruct Hst as [[? _]|(m & Em & Hm)]; [done|]. simpl in Em. destruct (Z.eqb_spec q m) as [->|]; [|done]. injection Em as <-.
    destruct (frame_item m Hi) as (f & Ef' & Hf & Eb). rewrite Eb.
    destruct (on_data_frame now m f rest st Hf ltac:(lia) Hm) as (st' & E & B0 & B1 & B2 & B3 & B4 & B5).
    exists st'. split; [done|]. apply (accounts_snoc _ _ _ _ _ _ _ _ Ha Ef);
      rewrite ?B0, ?B1, ?B2, ?B3, ?B4, ?B5; [lia|done|by apply Hz..|]. simpl. by rewrite Ef'.
  - assert (m' = b) as ->.
    { destruct Hst as [[[= -> ->] ->]|(m & Em & _)]; [done|]. simpl in Em. destruct (_ && _); by simplify_eq. }
    destruct (on_gap_frame now a b rest st) as (st' & E & B0 & B1 & B2 & B3 & B4 & B5); [lia..|].
    exists st'. split; [done|]. apply (accounts_snoc _ _ _ _ _ _ _ _ Ha Ef);
      rewrite ?B0, ?B1, ?B2, ?B3, ?B4, ?B5; [done|by apply Hz|done|unfold n_lost; cbn -[u64]; by rewrite Z.add_0_r|by apply Hz|done].
  - destruct Hst as [[? _]|(m & Em & Hm)]; [done|]. simpl in Em. destruct (Z.eqb_spec e (m - 1)) as [->|]; [|done]. injection Em as <-.
    destruct (on_beat_frame now t (m - 1) rest st) as (st' & E & B0 & B1 & B2 & B3 & B4 & B5);
      [lia..|by replace (m - 1 + 1) with m by lia|].
    exists st'. split; [done|]. apply (accounts_snoc _ _ _ _ _ _ _ _ Ha Ef);
      rewrite ?B0, ?B1, ?B2, ?B3, ?B4, ?B5; [done|by apply Hz..|done|]. simpl. destruct stats; by rewrite app_nil_r.
Qed.

(** A client that reads any prefix of the stream, in any pieces, accounts for
    exactly the items that have arrived whole. *)
Lemma receive_accounts d from l n' st0 chunks :
  follow_from d from l = Some n' → Forall (item_in len) l → counters_ok st0 → ready d from st0 →
  chunk_bytes chunks `prefix_of` stream_bytes hist l → Z.of_nat (length (stream_bytes hist l)) < 2 ^ 63 →
  ∃ l1 l2 t st, l = l1 ++ l2 ∧ chunk_bytes chunks = stream_bytes hist l1 ++ t ∧ partial t ∧
    t `prefix_of` stream_bytes hist l2 ∧ receive_all (on_frame stats) [] chunks st0 = Some (t, st) ∧
    accounts stats fs d from st0 l1 st.
Proof.
  intros Hf Hin Hst He Hp Hl. set (all := item_bytes hist <$> l).
  set (P := λ done st, ∃ l1, l1 `prefix_of` l ∧ done = item_bytes hist <$> l1 ∧ accounts stats fs d from st0 l1 st).
  edestruct (λ Hw Hs, receive_all_prefix (on_frame stats) all P Hw Hs [] chunks [] all st0)
    as (f1 & f2 & t & st & E & Et & Ht & Hpt & Er & (l1 & [l2 El] & Ed & Ha)).
  - apply Forall_fmap. eapply Forall_impl; [exact Hin|]. intros i. apply item_whole.
  - intros done bs later e rest st E (l1 & [l2 ->] & -> & Ha). unfold all in E. rewrite fmap_app in E.
    apply app_inv_head in E. destruct l2 as [|i l2]; [done|]. injection E as <- _.
    destruct (follow_from_prefix d from (l1 ++ [i]) l2 n') as (m' & Em'); [by rewrite <- app_assoc|].
    destruct (accounts_step d from st0 l1 st i m' e rest Ha He Em') as (st' & Es & Ha').
    { apply Forall_app in Hin as [_ Hin]. by apply Forall_inv in Hin. }
    exists st'. split; [done|]. exists (l1 ++ [i]). rewrite fmap_app. split_and!; [|done|done].
    apply prefix_app. by exists l2.
  - done.
  - exists []. split_and!; [apply prefix_nil|done|by apply accounts_nil].
  - by left.
  - exact Hp.
  - exact Hl.
  - exists l1, l2, t, st. unfold all in E. cbn [app] in *. subst l f1. rewrite fmap_app in E.
    apply app_inv_head in E. subst f2. by split_and!.
Qed.
End Account.
