(* ===== verification/Delivery.v ===== *)
(** One subscribed connection: what has left the socket, followed by what is
    buffered, is one gapless stream from where the publisher started it, and
    publications, pumps and flushes keep it one.  [Fanout] carries this through
    the whole gateway and [Link] through the life of one connection. *)
From S2P Require Import Prelude Protocol Ring WireTheorems Net Publisher Stream Gateway Parse Frames Sockets MdClient MdAccount.

(** The ring, the frames published so far, the subscriber, and the bytes that left its socket. *)
Record Feed := mkFeed { fe_ring : ReplayRing; fe_pub : list MdFrame; fe_sub : Subscriber; fe_out : list Z }.

(** [o] are the items sent before the stream proper, which starts at [n]. *)
Record feed_ok (cfg : PubConfig) (k : Z) (o : list item) (n : Z) (fe : Feed) : Prop := {
  fk_sub : sub_ok k (fe_ring fe) (stamp_all 1 (fe_pub fe)) (fe_sub fe);
  fk_subscribed : subscribed (fe_sub fe) = true;
  fk_pub : Forall md_ok (fe_pub fe);
  fk_stream : ∃ l, fe_out fe ++ unsent (conn (fe_sub fe)) = stream_bytes (stamp_all 1 (fe_pub fe)) (o ++ l) ∧
    follow n l = Some (next_seq (fe_sub fe)) ∧ Forall clock_ok l;
  fk_off : tx_off (conn (fe_sub fe)) ≤ 2 ^ 16;
  fk_backlog : backlog (conn (fe_sub fe)) < max_backlog cfg + 64 }.

(** ** The socket *)
Lemma flush_and_arm_ok os c c' out os' arm :
  conn_ok c → answers_ok os (Z.of_nat (length (unsent c))) → flush_and_arm os c = Some (c', out, true, os', arm) →
  conn_ok c' ∧ unsent c = out ++ unsent c' ∧ tx_off c' ≤ 2 ^ 16.
Proof.
  intros Hc Ha E. unfold flush_and_arm, flush in E. apply bind_Some in E as ([[[c1 out1] ok1] os1] & E1 & E).
  apply bind_Some in E1 as ([[[c2 out2] ok2] os2] & E2 & E1).
  destruct (flush_loop_ok _ _ _ _ _ _ Hc Ha E2) as (H1 & H2 & _). destruct ok2; [|by simplify_eq].
  injection E1 as <- <- <- <-. destruct (compact_ok c2 H1) as (K1 & K2 & _).
  assert (tx_off (compact c2) ≤ 2 ^ 16) as K3.
  { unfold compact. destruct (_ =? _); [simpl; lia|]. destruct (Z.ltb_spec (2 ^ 16) (tx_off c2)); simpl; lia. }
  destruct (Bool.eqb _ _); simplify_eq; (split_and!; [done| |done]); rewrite <- K2 in H2; exact H2.
Qed.

Lemma pump_inv cfg ring now os s s' sent arm :
  pump cfg ring now os s = Some (s', sent, true, arm) →
  ∃ s1 c os', refill cfg ring now s = Some s1 ∧ flush_and_arm os (conn s1) = Some (c, sent, true, os', arm) ∧
    conn s' = c ∧ next_seq s' = next_seq s1 ∧ subscribed s' = subscribed s1.
Proof.
  unfold pump. intros (s1 & E1 & E)%bind_Some. apply bind_Some in E as ([[[[c out] ok] os'] arm'] & E2 & E).
  destruct ok; [|by simplify_eq]. exists s1, c, os'. cbn [negb] in E.
  destruct (_ && _); [|by simplify_eq]. destruct (stalled_since_ns _ =? 0), (_ <=? _); by simplify_eq.
Qed.

(** ** Publications do not change what was sent *)
Lemma stamp_all_snoc fs f : stamp_all 1 (fs ++ [f]) = stamp_all 1 fs ++ [md_bytes (Z.of_nat (length fs) + 1) f].
Proof.
  enough (∀ s, stamp_all s (fs ++ [f]) = stamp_all s fs ++ [md_bytes (Z.of_nat (length fs) + s) f]) by auto.
  induction fs as [|g fs IH]; intros s; [done|]. simpl. rewrite IH. do 4 f_equal. lia.
Qed.

Lemma stream_bytes_grow h h' l : Forall (item_in (Z.of_nat (length h))) l → stream_bytes (h ++ h') l = stream_bytes h l.
Proof.
  intros Hl. unfold stream_bytes. f_equal. apply list_fmap_ext. intros i x Hx.
  eapply Forall_lookup_1 in Hl; [|done]. destruct x as [q|a b|t d]; [|done..]. simpl in *.
  by rewrite lookup_app_l by lia.
Qed.

Definition gap_item (i : item) : Prop := match i with IGap _ _ => True | _ => False end.

Lemma gap_bytes_grow h h' l : Forall gap_item l → stream_bytes (h ++ h') l = stream_bytes h l.
Proof.
  intros Hl. unfold stream_bytes. f_equal. apply list_fmap_ext. intros i x Hx. eapply Forall_lookup_1 in Hl; [|done]. by destruct x.
Qed.

Section Feed.
Context (cfg : PubConfig) (k : Z) (o : list item) (n : Z).
Context (limit : 0 < max_backlog cfg < 2 ^ 40) (n_pos : 1 ≤ n) (opening : Forall gap_item o).

Lemma feed_items fe : feed_ok cfg k o n fe → ∃ l,
  fe_out fe ++ unsent (conn (fe_sub fe)) = stream_bytes (stamp_all 1 (fe_pub fe)) (o ++ l) ∧
  follow n l = Some (next_seq (fe_sub fe)) ∧ Forall clock_ok l ∧ Forall (item_in (Z.of_nat (length (fe_pub fe)))) l.
Proof.
  intros []. destruct fk_stream0 as (l & E & Hf & Hc). exists l. split_and!; try done.
  eapply follow_in; [done|done|done|]. pose proof (su_next _ _ _ _ fk_sub0) as Hn. rewrite length_stamp_all in Hn. lia.
Qed.

Lemma feed_tx fe : feed_ok cfg k o n fe →
  Z.of_nat (length (tx (conn (fe_sub fe)))) + 64 * (Z.of_nat (length (stamp_all 1 (fe_pub fe))) + 2) < 2 ^ 63.
Proof.
  intros []. pose proof (su_conn _ _ _ _ fk_sub0) as Hc. pose proof (su_seq _ _ _ _ fk_sub0).
  rewrite (backlog_ok _ Hc) in *. pose proof (unsent_length _ Hc). lia.
Qed.

Lemma feed_publish_ok ring pub s out f ring' q :
  feed_ok cfg k o n (mkFeed ring pub s out) → md_ok f → Z.of_nat (length pub) + 2 < 2 ^ 32 →
  md_append ring f = Some (ring', q) → feed_ok cfg k o n (mkFeed ring' (pub ++ [f]) s out).
Proof.
  intros Hk Hf Hl Ea. destruct (feed_items _ Hk) as (l & E & Hfo & Hc & Hin). destruct Hk as [[] ? ? _ ? ?]. simpl in *.
  rewrite <- (length_stamp_all 1 pub) in Hin.
  assert (ring_ok k ring' (stamp_all 1 (pub ++ [f]))) as HR.
  { destruct (append_all_ok k ring _ [f] su_ring) as (r & Er & HR); [by repeat constructor|rewrite length_stamp_all; simpl; lia|].
    simpl in Er. rewrite Ea in Er. simpl in Er. injection Er as ->. simpl in HR.
    by rewrite stamp_all_snoc, length_stamp_all in *. }
  split; simpl; try done.
  - split; try done; rewrite stamp_all_snoc, length_app; simpl; rewrite ?length_stamp_all in *; lia.
  - apply Forall_app. split; [done|by apply Forall_singleton].
  - exists l. rewrite stamp_all_snoc, stream_bytes_app, gap_bytes_grow, stream_bytes_grow, <- stream_bytes_app; done.
Qed.

Lemma feed_flush_ok ring pub s out c os sent os' arm :
  feed_ok cfg k o n (mkFeed ring pub s out) → answers_ok os (Z.of_nat (length (unsent (conn s)))) →
  flush_and_arm os (conn s) = Some (c, sent, true, os', arm) →
  feed_ok cfg k o n (mkFeed ring pub (set_conn c s) (out ++ sent)).
Proof.
  intros [Hs ? ? (l & E & Hf) ? Hb] Ha Ef. simpl in *. pose proof (su_conn _ _ _ _ Hs) as Hc.
  destruct (flush_and_arm_ok _ _ _ _ _ _ Hc Ha Ef) as (K1 & K2 & K3). split; simpl; try done.
  - destruct Hs. by constructor.
  - exists l. split; [|done]. by rewrite <- app_assoc, <- K2.
  - rewrite (backlog_ok _ Hc), K2, length_app in Hb. rewrite (backlog_ok _ K1). lia.
Qed.

Lemma clock_of_timed now l : 0 ≤ now < 2 ^ 64 → Forall (timed now) l → Forall clock_ok l.
Proof. intros Hn Hl. eapply Forall_impl; [exact Hl|]. intros [] H; simpl in *; by subst. Qed.

(** The state after the refill, before the flush: it need not satisfy the offset bound again. *)
Lemma feed_pump_ok ring pub s out now os s1 s' sent arm :
  feed_ok cfg k o n (mkFeed ring pub s out) → 0 ≤ now < 2 ^ 64 → refill cfg ring now s = Some s1 →
  answers_ok os (Z.of_nat (length (unsent (conn s1)))) → pump cfg ring now os s = Some (s', sent, true, arm) →
  feed_ok cfg k o n (mkFeed ring pub s' (out ++ sent)).
Proof.
  intros Hk Hnow E1 Ha Ep. pose proof (feed_tx _ Hk) as Htx. destruct Hk as [Hs Hsub Hpub (l & E & Hf & Hc) Hoff Hb]. simpl in *.
  destruct (refill_ok cfg k ring _ now s Hs Hsub ltac:(lia) Htx) as (s2 & l2 & E2 & H2 & U2 & F2 & T2 & S2 & B2 & _).
  rewrite E1 in E2. injection E2 as <-.
  destruct (pump_inv _ _ _ _ _ _ _ _ Ep) as (s3 & c & os' & E3 & Ef & <- & En & Es). rewrite E1 in E3. injection E3 as <-.
  destruct (flush_and_arm_ok _ _ _ _ _ _ (su_conn _ _ _ _ H2) Ha Ef) as (K1 & K2 & K3).
  split; simpl; try done.
  - destruct H2. split; [done|done|by rewrite En|done].
  - by rewrite Es.
  - exists (l ++ l2). rewrite (app_assoc o), stream_bytes_app, <- E, <- !app_assoc, <- U2, K2. split_and!; [done| |].
    + by rewrite follow_app, Hf, En; simpl.
    + apply Forall_app. split; [done|by eapply clock_of_timed].
  - rewrite (backlog_ok _ K1). rewrite (backlog_ok _ (su_conn _ _ _ _ H2)), K2, length_app in B2. lia.
Qed.

End Feed.

Lemma subscribe_valid from : 0 ≤ from < 2 ^ 64 → wire.valid (subscribe_frame from).
Proof. intros. unfold subscribe_frame. wire_valid. Qed.
