(* ===== verification/MdSession.v ===== *)
(** The connection loop of the market-data client over a publisher's stream. *)
From S2P Require Import Prelude Protocol Ring WireTheorems Net Publisher Stream Gateway Parse Frames Sockets MdClient MdAccount Delivery.

(** The chunks the ticks bring, each with the clock read after it. *)
Definition tick_chunk (k : Tick) : option (Z * list Z) :=
  match tk_select k with SelReady (Got (b :: bs)) => Some (tk_after k, b :: bs) | _ => None end.

Definition reads (ticks : list Tick) : list (Z * list Z) := omap tick_chunk ticks.

(** An iteration after which the loop has ended: time is up, or [::read] found
    the connection closed or broken. *)
Definition closing (c : MdConfig) (k : Tick) : Prop :=
  t_end c ≤ tk_now k ∨
  match tk_select k with SelReady (Got (_ :: _)) | SelInterrupted | SelTimeout => False | SelReady _ => True end.

Lemma reads_cons k ticks :
  reads (k :: ticks) = match tick_chunk k with Some x => x :: reads ticks | None => reads ticks end.
Proof. reflexivity. Qed.

(** The loop returns, having received some of the chunks in order. *)
Lemma md_session_receives c ticks k rx t0 st :
  closing c k →
  (∀ cs, cs `prefix_of` reads ticks → is_Some (receive_all (on_frame (stats c)) rx cs st)) →
  ∃ cs t st1 st', cs `prefix_of` reads ticks ∧ receive_all (on_frame (stats c)) rx cs st = Some (t, st1) ∧
    md_session c (ticks ++ [k]) rx t0 st = Some st' ∧
    (st' = st1 ∨ ∃ ms, st' = print (stats c) (LNoHeartbeat ms) st1).
Proof.
  intros Hk. revert rx t0 st. induction ticks as [|j ticks IH]; intros rx t0 st Hr.
  { exists [], rx, st, st. cbn [app md_session]. split_and!; [apply prefix_nil|done| |by left].
    destruct (Z.ltb_spec (tk_now k) (t_end c)); [|done]. destruct Hk as [|Hk]; [lia|].
    by destruct (tk_select k) as [| |[[|b bs]| | |]]. }
  cbn [app md_session]. destruct (Z.ltb_spec (tk_now j) (t_end c)) as [_|_].
  2: { exists [], rx, st, st. split_and!; [apply prefix_nil|done|done|by left]. }
  rewrite reads_cons in *. unfold tick_chunk in *. destruct (tk_select j) as [| |[[|b bs]| | |]];
    try (exists [], rx, st, st; split_and!; [apply prefix_nil|done|done|by left]).
  - by apply IH.
  - destruct (_ <? _); [|by apply IH]. exists [], rx, st. eexists. split_and!; [apply prefix_nil|done|done|by right; eexists].
  - destruct (Hr [(tk_after j, b :: bs)]) as [[rx1 st1] E1]; [by apply prefix_cons, prefix_nil|].
    cbn [receive_all] in E1. apply bind_Some in E1 as ([rx2 st2] & E2 & E1). injection E1 as -> ->. rewrite E2. cbn [mbind option_bind].
    destruct (IH rx1 (tk_after j) st1) as (cs & t & sa & sb & Hp & Ea & Eb & Hs).
    + intros cs Hcs. destruct (Hr ((tk_after j, b :: bs) :: cs)) as [x Ex]; [by apply prefix_cons|].
      cbn [receive_all] in Ex. rewrite E2 in Ex. eauto.
    + exists ((tk_after j, b :: bs) :: cs), t, sa, sb. cbn [receive_all]. rewrite E2. split_and!; [by apply prefix_cons|done|done|done].
Qed.

Lemma chunk_bytes_prefix {E} (cs cs' : list (E * list Z)) : cs `prefix_of` cs' → chunk_bytes cs `prefix_of` chunk_bytes cs'.
Proof. intros [k ->]. unfold chunk_bytes. rewrite fmap_app, concat_app. by apply prefix_app_r. Qed.

(** A connection to a running publisher that was asked for [from] when it had
    published [d] frames. *)
Section Connected.
Context (cfg : PubConfig) (k d from : Z) (fe : Feed).
Context (fe_ok : feed_ok cfg k (opening d from) (opening_seq d from) fe) (limit : 0 < max_backlog cfg < 2 ^ 40).
Context (d_past : 0 ≤ d ≤ Z.of_nat (length (fe_pub fe))) (from_u64 : 0 ≤ from < 2 ^ 64).
Context (out_fits : Z.of_nat (length (fe_out fe)) < 2 ^ 62).
#[local] Abbreviation hist := (stamp_all 1 (fe_pub fe)).
#[local] Abbreviation len := (Z.of_nat (length (fe_pub fe))).

(** What leaves the socket is the beginning of the stream. *)
Lemma out_stream : ∃ l, fe_out fe `prefix_of` stream_bytes hist l ∧ Z.of_nat (length (stream_bytes hist l)) < 2 ^ 63 ∧
  follow_from d from l = Some (next_seq (fe_sub fe)) ∧ Forall (item_in len) l ∧
  next_seq (fe_sub fe) ≤ len + 1 ∧ len + 1 < 2 ^ 32.
Proof.
  destruct fe_ok as [Hs _ _ (l & E & Hf & Hc) _ Hb]. exists (opening d from ++ l). pose proof (su_next _ _ _ _ Hs) as Hn.
  pose proof (su_seq _ _ _ _ Hs) as Hq. rewrite length_stamp_all in Hn, Hq.
  rewrite (backlog_ok _ (su_conn _ _ _ _ Hs)) in Hb. rewrite <- E, length_app, follow_from_opening.
  split_and!; [by eexists|lia|done| |lia|lia].
  apply Forall_app. split; [by apply opening_in|]. pose proof (opening_seq_pos d from).
  eapply follow_in; [done|done|lia|lia].
Qed.

(** Where a part of the stream ends. *)
Lemma follow_from_bound l l' n : follow_from d from (l ++ l') = Some n → n ≤ len + 1 →
  ∃ m, follow_from d from l = Some m ∧ 1 ≤ m ≤ len + 1.
Proof.
  intros E Hn. destruct (follow_from_prefix _ _ _ _ _ E) as [m Em]. exists m. split; [done|].
  pose proof (opening_seq_pos d from ltac:(lia) ltac:(lia)) as Hos.
  destruct l as [|i l]; [injection Em as <-; lia|]. rewrite (follow_from_app _ _ _ _ m) in E by (done || by left).
  apply follow_mono in E. split; [|lia]. clear -Em Hos d_past. destruct (Z.ltb_spec (d + 1) from) as [Hs|Hs].
  - destruct i as [q|a b|t e]; simpl in Em; destruct (Z.ltb_spec (d + 1) from); try (done || lia).
    destruct (_ && _); [|done]. apply follow_mono in Em. lia.
  - rewrite follow_from_started in Em by done. apply follow_mono in Em. lia.
Qed.

Lemma md_session_feed c ticks tk start st0 :
  counters_ok st0 → ready d from st0 → closing c tk → chunk_bytes (reads ticks) `prefix_of` fe_out fe →
  ∃ l m t st, md_session c (ticks ++ [tk]) [] start st0 = Some st ∧
    stream_bytes hist l ++ t `prefix_of` fe_out fe ∧ partial t ∧
    accounts (stats c) (fe_pub fe) d from st0 l st ∧ follow_from d from l = Some m ∧
    1 ≤ m ≤ len + 1 ∧ Forall (item_in len) l.
Proof.
  intros Hst He Hk Hp. destruct out_stream as (L & HL & Hlen & Hf & Hin & Hn & Hq).
  assert (∀ cs, cs `prefix_of` reads ticks → ∃ l1 l2 t st, L = l1 ++ l2 ∧
    chunk_bytes cs = stream_bytes hist l1 ++ t ∧ partial t ∧
    receive_all (on_frame (stats c)) [] cs st0 = Some (t, st) ∧ accounts (stats c) (fe_pub fe) d from st0 l1 st) as Hall.
  { intros cs Hcs. destruct (receive_accounts (stats c) (fe_pub fe) (fk_pub _ _ _ _ _ fe_ok) Hq d from L _ st0 cs Hf Hin)
      as (l1 & l2 & t & st & ? & ? & ? & _ & ? & ?); try done.
    - etransitivity; [by apply chunk_bytes_prefix|]. by etransitivity.
    - by exists l1, l2, t, st. }
  destruct (md_session_receives c ticks tk [] start st0 Hk) as (cs & t & st1 & st & Hcs & Er & Es & Hor).
  { intros cs Hcs. destruct (Hall cs Hcs) as (? & ? & ? & ? & _ & _ & _ & -> & _). eauto. }
  destruct (Hall cs Hcs) as (l1 & l2 & t' & st' & -> & Eb & Ht & Er' & Ha). rewrite Er in Er'. injection Er' as <- <-.
  destruct (follow_from_bound _ _ _ Hf Hn) as (m & Em & Hm). exists l1, m, t, st. apply Forall_app in Hin as [Hin _].
  split_and!; try done; [rewrite <- Eb; etransitivity; [by apply chunk_bytes_prefix|done]| |lia..].
  destruct Hor as [->|[ms ->]]; [done|]. by apply accounts_print; [|intros []].
Qed.
End Connected.
