(* ===== verification/Fanout.v ===== *)
(** The market-data side of the whole gateway: every subscriber's connection is
    a [Feed] of the frames the gateway has published for the engine's trades and
    tops, and every operation of the publisher keeps it one. *)
From S2P Require Import Prelude Types Engine Process Settle Poller Calls Protocol Ring WireTheorems Net Publisher Stream Gateway Parse Inputs.
From S2P Require Import Sessions SessionInv Handling Registry Reach Streams Carried Frames MdAccount Delivery.

(** ** What is published *)
Definition md_frame (e : Event) : option MdFrame :=
  match e_kind e with
  | EvTrade => Some (MdTrade (trade_frame e))
  | EvTop => Some (MdTop (top_frame e))
  | _ => None
  end.

(** The frames published for the events popped so far. *)
Definition md_frames (H : list Event) : list MdFrame := omap md_frame H.

Lemma md_frames_app H H' : md_frames (H ++ H') = md_frames H ++ md_frames H'.
Proof. apply omap_app. Qed.

(** The market-data frames of a run of events, numbered from [seq] on, as the bytes
    protocol.hpp describes. *)
Definition side_byte (s : Side) : Z := match s with Buy => 0 | Sell => 1 end.

Fixpoint market_frames (seq : Z) (H : list Event) : list (list Z) :=
  match H with
  | [] => []
  | e :: H =>
      match e_kind e with
      | EvTrade =>
          frame_bytes 40 32 seq (le 2 (e_symbol e) ++ le 1 (side_byte (e_side e)) ++ replicate 5 0 ++ le 8 (u64 (e_price e)) ++
            le 4 (e_qty e) ++ replicate 4 0 ++ le 8 (e_ts_ns e)) :: market_frames (seq + 1) H
      | EvTop =>
          frame_bytes 40 33 seq (le 2 (e_symbol e) ++ replicate 6 0 ++ le 8 (u64 (t_bid (e_top e))) ++ le 8 (u64 (t_ask (e_top e))) ++
            le 4 (t_bid_qty (e_top e)) ++ le 4 (t_ask_qty (e_top e))) :: market_frames (seq + 1) H
      | _ => market_frames seq H
      end
  end.

Lemma stamp_all_market seq H : stamp_all seq (md_frames H) = market_frames seq H.
Proof.
  revert seq. induction H as [|e H IH]; intros seq; [done|]. unfold md_frames, md_frame in *. cbn [omap list_omap market_frames].
  destruct (e_kind e); try apply IH; cbn [stamp_all]; (apply (f_equal2 cons); [|apply IH]); [|reflexivity].
  unfold md_bytes, trade_frame. by destruct (e_side e).
Qed.

Lemma md_frame_ok e fr : event_ok e → md_frame e = Some fr → md_ok fr.
Proof.
  intros [] E. unfold md_frame in E. destruct (e_kind e); simplify_eq; (split; [|split; reflexivity]).
  - unfold trade_frame. destruct (e_side e); wire_valid.
  - unfold top_frame. wire_valid.
Qed.

(** ** Where a subscriber starts *)

Lemma opening_gaps d from : Forall gap_item (opening d from).
Proof. unfold opening. destruct (_ <? _); [by apply Forall_singleton|constructor]. Qed.

Section Fan.
Context (cfg : PubConfig) (limit : 0 < max_backlog cfg < 2 ^ 40) (ring_pos : 0 ≤ ring_log2 cfg < 58).
Abbreviation k := (ring_log2 cfg).

(** A subscriber whose Subscribe frame is not complete yet. *)
Record waiting (log : list Syscall) (f : Z) (u : Subscriber) : Prop := {
  wa_sub : subscribed u = false;
  wa_conn : conn u = mkConn f (rx (conn u)) [] 0 1 false;
  wa_sent : sent f log = [];
  wa_received : received f log = rx (conn u) }.

(** A subscriber that asked for the stream from [from] on when it had [d] frames. *)
Record feeding (ring : ReplayRing) (pub : list MdFrame) (log : list Syscall) (f : Z) (u : Subscriber) (from d : Z) : Prop := {
  fg_subscribe : ∃ b m, wire.read wire.Subscribe b = Some m ∧ wire.su_from_seq m = from ∧
    Z.of_nat (length b) = wire.sizeof wire.Subscribe ∧ received f log = b ++ rx (conn u);
  fg_from : 0 ≤ from;
  fg_d : 0 ≤ d ≤ Z.of_nat (length pub);
  fg_feed : feed_ok cfg k (opening d from) (opening_seq d from) (mkFeed ring pub u (sent f log)) }.

Definition fed (ring : ReplayRing) (pub : list MdFrame) (log : list Syscall) (f : Z) (u : Subscriber) : Prop :=
  fd (conn u) = f ∧ Forall byte (rx (conn u)) ∧ (waiting log f u ∨ ∃ from d, feeding ring pub log f u from d).

Record fan_ok (pub : list MdFrame) (p : Publisher) : Prop := {
  fa_cfg : p_cfg p = cfg;
  fa_ring : ring_ok k (ring_ p) (stamp_all 1 pub);
  fa_pub : Forall md_ok pub;
  fa_subs : ∀ f u, subs_ p !! f = Some u → fed (ring_ p) pub (p_calls p) f u }.

Lemma feeding_pos ring pub log f u from d : feeding ring pub log f u from d → 1 ≤ opening_seq d from.
Proof. intros []. apply opening_seq_pos; lia. Qed.

(** Calls on other descriptors. *)
Lemma fed_quiet ring pub log cs f u : fed ring pub log f u → quiet f cs → fed ring pub (log ++ cs) f u.
Proof.
  intros (Hf & Hb & Hor) Hq. destruct (quiet_streams _ log cs Hq) as [Es Er]. split_and!; [done|done|].
  destruct Hor as [[]|(from & d & [])]; [left; split; congruence|right; exists from, d].
  split; try done; [|by rewrite Es]. by rewrite Er.
Qed.

Lemma fan_calls pub p p' cs :
  fan_ok pub p → p_cfg p' = p_cfg p → ring_ p' = ring_ p → p_calls p' = p_calls p ++ cs →
  (∀ f u, subs_ p' !! f = Some u → subs_ p !! f = Some u ∧ quiet f cs) → fan_ok pub p'.
Proof.
  intros [F1 F2 F3 F4] E1 E2 E3 Hs. split; [congruence|by rewrite E2|done|]. intros f u Eu. destruct (Hs f u Eu) as [Eu' Hq].
  rewrite E2, E3. apply fed_quiet; [|done]. by apply F4.
Qed.

(** ** Publishing *)
Lemma feeding_publish ring pub log f u from d fr ring' q :
  feeding ring pub log f u from d → md_ok fr → Z.of_nat (length pub) + 2 < 2 ^ 32 → md_append ring fr = Some (ring', q) →
  feeding ring' (pub ++ [fr]) log f u from d.
Proof.
  intros Hfg. pose proof (feeding_pos _ _ _ _ _ _ _ Hfg). destruct Hfg. intros. split; [done|done|rewrite length_app; lia|].
  eapply feed_publish_ok; [done|apply opening_gaps|done..].
Qed.

Lemma fan_publish pub p fr :
  fan_ok pub p → md_ok fr → Z.of_nat (length pub) + 2 < 2 ^ 32 →
  ∃ r q, md_append (ring_ p) fr = Some (r, q) ∧
    ∀ p', p_cfg p' = p_cfg p → ring_ p' = r → subs_ p' = subs_ p → p_calls p' = p_calls p → fan_ok (pub ++ [fr]) p'.
Proof.
  intros [F1 F2 F3 F4] Hfr Hl.
  destruct (append_all_ok k (ring_ p) _ [fr] F2) as (r & Er & HR); [by repeat constructor|rewrite length_stamp_all; simpl; lia|].
  simpl in Er. apply bind_Some in Er as ([r' q] & Ea & Er). injection Er as ->. exists r, q. split; [done|].
  intros p' E1 E2 E3 E4. rewrite length_stamp_all in HR. simpl in HR. rewrite <- stamp_all_snoc in HR.
  split; rewrite ?E2; [congruence|done|by apply Forall_app; split; [|apply Forall_singleton]|].
  intros f u Eu. rewrite E3 in Eu. destruct (F4 f u Eu) as (Hf & Hb & Hor). rewrite E4. split_and!; [done|done|].
  destruct Hor as [?|(from & d & Hfg)]; [by left|right; exists from, d]. by eapply feeding_publish.
Qed.

(** ** Writing *)
Lemma waiting_flush log f u os arm :
  waiting log f u → flush_and_arm os (conn u) = Some (conn u, [], true, os, None) ∧
  waiting (log ++ Sent f [] :: arm_calls arm) f u.
Proof.
  intros [W1 W2 W3 W4]. split; [rewrite W2; by destruct os|].
  change (Sent f [] :: arm_calls arm) with ([Sent f []] ++ arm_calls arm). rewrite app_assoc.
  destruct (quiet_streams f (log ++ [Sent f []]) (arm_calls arm) (quiet_arm _ _)) as [Es Er].
  split; [done|done|..]; rewrite ?Es, ?Er; rewrite ?sent_app, ?received_app; simpl; [|done].
  by rewrite bool_decide_true, app_nil_r.
Qed.

Lemma sent_after f log out arm :
  sent f (log ++ Sent f out :: arm_calls arm) = sent f log ++ out ∧ received f (log ++ Sent f out :: arm_calls arm) = received f log.
Proof.
  change (Sent f out :: arm_calls arm) with ([Sent f out] ++ arm_calls arm). rewrite app_assoc.
  destruct (quiet_streams f (log ++ [Sent f out]) (arm_calls arm) (quiet_arm _ _)) as [-> ->].
  rewrite sent_app, received_app. simpl. by rewrite bool_decide_true.
Qed.

Lemma feeding_flush ring pub log f u from d os c out os' arm :
  feeding ring pub log f u from d → answers_ok os (Z.of_nat (length (unsent (conn u)))) →
  flush_and_arm os (conn u) = Some (c, out, true, os', arm) →
  feeding ring pub (log ++ Sent f out :: arm_calls arm) f (set_conn c u) from d.
Proof.
  intros [] Ha Ef. destruct (flush_and_arm_fields _ _ _ _ _ _ _ Ef) as (F1 & F2 & _).
  destruct (sent_after f log out arm) as [Es Er]. split; try done; [simpl; rewrite F2, Er; done|]. rewrite Es.
  by eapply feed_flush_ok.
Qed.

(** A flush that keeps the connection. *)
Lemma fed_flush ring pub log f u os c out os' arm :
  fed ring pub log f u → answers_ok os (Z.of_nat (length (unsent (conn u)))) →
  flush_and_arm os (conn u) = Some (c, out, true, os', arm) →
  fed ring pub (log ++ Sent f out :: arm_calls arm) f (set_conn c u).
Proof.
  intros (Hf & Hb & Hor) Ha Ef. destruct (flush_and_arm_fields _ _ _ _ _ _ _ Ef) as (F1 & F2 & _).
  split_and!; [simpl; congruence|simpl; by rewrite F2|]. destruct Hor as [Hw|(from & d & Hfg)].
  - left. destruct (waiting_flush _ _ _ os arm Hw) as [E Hw']. rewrite E in Ef. simplify_eq. by destruct u.
  - right. exists from, d. by eapply feeding_flush.
Qed.

Lemma fan_flush pub p f u c out arm d :
  fan_ok pub p → subs_ p !! f = Some u → fed (ring_ p) pub (p_calls p ++ Sent f out :: arm_calls arm) f (set_conn c u) →
  fan_ok pub (set_subs (<[f := set_conn c u]> (subs_ p)) (call (Sent f out :: arm_calls arm) (set_dirty d p))).
Proof.
  intros [F1 F2 F3 F4] Eu Hfed. split; simpl; try done. intros g v [[<- <-]|[Hne Ev]]%lookup_insert_Some; [done|].
  apply fed_quiet; [by apply F4|by apply quiet_sent].
Qed.

Lemma fan_drop pub p f : fan_ok pub p → fan_ok pub (drop_sub f p).
Proof.
  intros Hp. apply (fan_calls pub p _ (retire_calls f) Hp); try done.
  intros g u Eu. change (delete f (subs_ p) !! g = Some u) in Eu. apply lookup_delete_Some in Eu as [_ Eu]. split; [done|apply quiet_retire].
Qed.

Lemma fan_on_writable pub f ws p p' out :
  fan_ok pub p → (∀ u, subs_ p !! f = Some u → answers_ok ws (Z.of_nat (length (unsent (conn u))))) →
  on_writable f ws p = Some (p', out) → fan_ok pub p'.
Proof.
  intros Hp Ha E. unfold on_writable in E. destruct (subs_ p !! f) as [u|] eqn:Eu; [|by inv_some].
  apply bind_Some in E as ([[[[c o] okf] os] arm] & Ef & E). inv_some.
  destruct (fa_subs _ _ Hp _ _ Eu) as (Hf & _). destruct (flush_and_arm_fields _ _ _ _ _ _ _ Ef) as (F1 & _). rewrite F1, Hf.
  destruct okf.
  - apply fan_flush; [done|done|]. eapply fed_flush; [by apply Hp|by apply Ha|done].
  - apply (fan_calls pub p _ (Sent f out :: arm_calls arm ++ retire_calls f) Hp); try done.
    + simpl. by rewrite <- app_assoc.
    + simpl. intros g v [Hne [[? ?]|[_ Ev]]%lookup_insert_Some]%lookup_delete_Some; [done|]. split; [done|].
      change (Sent f out :: arm_calls arm ++ retire_calls f) with ((Sent f out :: arm_calls arm) ++ retire_calls f).
      apply Forall_app. split; [by apply quiet_sent|apply quiet_retire].
Qed.

(** ** Reading *)
Lemma read_all_grows rs acc alive bytes :
  read_all rs acc = Some (alive, bytes) → Forall bytes_read rs →
  ∃ new, bytes = acc ++ new ∧ Forall byte new.
Proof.
  revert acc. induction rs as [|r rs IH]; intros acc E Hrs; [done|]. apply Forall_cons in Hrs as [Hr Hrs].
  destruct r as [[|b bs]| | |]; simpl in E; simplify_eq; [by exists []; rewrite app_nil_r| |by exists []; rewrite app_nil_r|by eauto|by exists []; rewrite app_nil_r].
  destruct (IH _ E Hrs) as (new & -> & Hn). exists ((b :: bs) ++ new). rewrite app_assoc. split; [done|]. by apply Forall_app.
Qed.

(** The Subscribe frame is complete. *)
Lemma waiting_subscribes pub p f u new m :
  fan_ok pub p → Z.of_nat (length pub) + 1 < 2 ^ 32 → waiting (p_calls p) f u →
  Forall byte (rx (conn u) ++ new) → Z.of_nat (length (rx (conn u) ++ new)) = wire.sizeof wire.Subscribe →
  wire.read wire.Subscribe (rx (conn u) ++ new) = Some m →
  let u1 := start_cursor (head (ring_ p)) (wire.su_from_seq m)
      (mkSub (set_rx [] (set_rx (rx (conn u) ++ new) (conn u))) true (next_seq u) (last_tx_ns u) (stalled_since_ns u)) in
  fd (conn u1) = f ∧ rx (conn u1) = [] ∧ tx (conn u1) = stream_bytes [] (opening (Z.of_nat (length pub)) (wire.su_from_seq m)) ∧
  feeding (ring_ p) pub (p_calls p ++ [Received f new]) f u1 (wire.su_from_seq m) (Z.of_nat (length pub)).
Proof.
  intros [F1 F2 F3 F4] Hl [W1 W2 W3 W4] Hb Hlen Hm. set (from := wire.su_from_seq m).
  assert (0 ≤ from < 2 ^ 64) as Hfrom.
  { pose proof (read_valid _ _ _ Hb Hm) as Hv. unfold wire.valid in Hv. cbn -[Z.pow] in Hv. unfold from. apply Hv. }
  assert (head (ring_ p) = Z.of_nat (length pub)) as Eh by (unfold head; by rewrite (ro_head _ _ _ F2), length_stamp_all).
  set (d := Z.of_nat (length pub)) in *. cbn zeta. set (u0 := mkSub _ _ _ _ _). rewrite Eh.
  assert (conn u0 = Conn_init f) as Ec by (unfold u0; simpl; by rewrite W2).
  assert (Forall gap_item (opening d from)) as Hop by apply opening_gaps.
  set (u1 := start_cursor d from u0).
  assert (fd (conn u1) = f ∧ rx (conn u1) = [] ∧ subscribed u1 = true ∧ next_seq u1 = opening_seq d from ∧
    tx_off (conn u1) = 0 ∧ tx (conn u1) = stream_bytes [] (opening d from) ∧ Z.of_nat (length (tx (conn u1))) ≤ 24)
    as (G1 & G2 & G3 & G4 & G5 & G6 & G7).
  { unfold u1, start_cursor, opening, opening_seq. rewrite (u32_small (d + 1)) by lia.
    destruct (Z.ltb_spec (d + 1) from), (Z.eqb_spec from 0); simpl; rewrite W2, ?(u32_small from) by lia; simpl; split_and!; try (done || lia). }
  assert (1 ≤ opening_seq d from ≤ d + 1) as Hn.
  { apply opening_seq_pos; lia. }
  assert (conn_ok (conn u1)) as Hc by (split; rewrite ?G5; lia).
  assert (unsent (conn u1) = tx (conn u1)) as Hu by (unfold unsent; by rewrite G5).
  rewrite <- (gap_bytes_grow [] (stamp_all 1 pub)) in G6 by done. cbn [app] in G6.
  split_and!; [done|done|by rewrite G6, <- (gap_bytes_grow [] (stamp_all 1 pub)) by done|]. split; [|lia|lia|].
  - exists (rx (conn u) ++ new), m. rewrite G2, app_nil_r, received_app. simpl. rewrite bool_decide_true, W4 by done. done.
  - rewrite sent_app. simpl. rewrite W3. split; simpl; try done.
    + split; rewrite ?length_stamp_all; try done. rewrite G4. lia.
    + exists []. rewrite app_nil_r, Hu, G6. split_and!; [done| |done]. simpl. by rewrite G4.
    + rewrite G5. lia.
    + rewrite (backlog_ok _ Hc), Hu. lia.
Qed.

Lemma received_more f log new :
  sent f (log ++ [Received f new]) = sent f log ∧ received f (log ++ [Received f new]) = received f log ++ new.
Proof. rewrite sent_app, received_app. simpl. by rewrite bool_decide_true. Qed.

Lemma feeding_more ring pub log f u from d new :
  feeding ring pub log f u from d →
  feeding ring pub (log ++ [Received f new]) f (set_conn (set_rx (rx (conn u) ++ new) (conn u)) u) from d.
Proof.
  intros [(b & m & Hm & Hfr & Hl & Hrec) Hfrom Hd [[] ? ? ? ? ?]]. destruct (received_more f log new) as [Es Er].
  split; [|done|done|].
  - exists b, m. split_and!; try done. simpl. by rewrite Er, Hrec, app_assoc.
  - rewrite Es. simpl in *. by split; [split|..].
Qed.

(** Bytes that do not complete a Subscribe frame. *)
Lemma fed_more ring pub log f u new :
  fed ring pub log f u → Forall byte (rx (conn u) ++ new) →
  fed ring pub (log ++ [Received f new]) f (set_conn (set_rx (rx (conn u) ++ new) (conn u)) u).
Proof.
  intros (Hf & _ & Hor) Hb. split_and!; [done|done|].
  destruct (received_more f log new) as [Es Er].
  destruct Hor as [[W1 W2 W3 W4]|(from & d & Hfg)]; [left|right; exists from, d; by apply feeding_more].
  split; [done|simpl; by rewrite W2|congruence|simpl; by rewrite Er, W4].
Qed.

(** Everything but [f] after bytes arrived on it. *)
Lemma fan_on_readable pub f rs p p' :
  fan_ok pub p → Z.of_nat (length pub) + 1 < 2 ^ 32 → Forall bytes_read rs →
  on_readable f rs p = Some p' → fan_ok pub p'.
Proof.
  intros Hp Hl Hrs E. unfold on_readable in E. destruct (subs_ p !! f) as [u|] eqn:Eu; [|by inv_some].
  apply bind_Some in E as ([alive bytes] & Er & E). destruct (read_all_grows _ _ _ _ Er Hrs) as (new & -> & Hnew).
  rewrite drop_app_length in E. set (r := Received f new) in E. destruct (fa_subs _ _ Hp _ _ Eu) as (Hf & Hb & Hor).
  assert (Forall byte (rx (conn u) ++ new)) as Hbn by (by apply Forall_app).
  assert (∀ m, delete f m = delete f (subs_ p) → fan_ok pub (drop_sub f (set_subs m (call [r] p)))) as Hdrop.
  { intros m Em. apply (fan_calls pub p _ ([r] ++ retire_calls f) Hp); try done; [simpl; by rewrite <- app_assoc|].
    intros g v Ev. change (delete f m !! g = Some v) in Ev. rewrite Em in Ev. apply lookup_delete_Some in Ev as [Hne Ev].
    split; [done|]. apply Forall_cons. split; [simpl; by rewrite bool_decide_false|apply quiet_retire]. }
  assert (∀ v, delete f (<[f := v]> (subs_ p)) = delete f (subs_ p)) as Hdel by (intros; apply delete_insert_eq).
  assert (∀ v d, fed (ring_ p) pub (p_calls p ++ [r]) f v → fan_ok pub (set_dirty d (set_subs (<[f := v]> (subs_ p)) (call [r] p)))) as Hset.
  { intros v d Hv. split; simpl; try apply Hp. intros g w [[<- <-]|[Hne Ew]]%lookup_insert_Some; [done|].
    apply fed_quiet; [by apply Hp|]. apply Forall_singleton. simpl. by rewrite bool_decide_false. }
  destruct alive; simpl in E; [|inv_some; by apply Hdrop].
  destruct (Z.ltb_spec (Z.of_nat (length (rx (conn u) ++ new))) (wire.sizeof wire.Subscribe)) as [Hlt|Hge].
  { inv_some. apply (Hset _ (dirty_ p)). by apply fed_more. }
  apply bind_Some in E as (h & _ & E). destruct (_ || _) eqn:Eg; [inv_some; by apply Hdrop|].
  apply bind_Some in E as (m & Em & E). inv_some. repeat (apply orb_false_iff in Eg as [Eg ?]).
  destruct Hor as [Hw|(from & d & Hfeed)]; [|pose proof (fk_subscribed _ _ _ _ _ (fg_feed _ _ _ _ _ _ _ Hfeed)) as Hs; simpl in Hs; by rewrite Hs in Eg].
  rewrite insert_insert_eq. apply (Hset _ true). apply Z.ltb_ge in H.
  destruct (waiting_subscribes pub p _ u new m Hp Hl Hw Hbn ltac:(lia) Em) as (G1 & G2 & _ & G3).
  split_and!; [done|by rewrite G2|by right; eexists _, _].
Qed.

(** ** Accepting *)
Lemma fan_subscribe pub p f flags :
  fan_ok pub p → subs_ p !! f = None →
  fan_ok pub (subscribe f (call (Accept f :: set_nonblocking flags f ++ set_nodelay f) p)).
Proof.
  intros Hp Ef. unfold subscribe. simpl. rewrite Ef. destruct Hp as [F1 F2 F3 F4]. split; simpl; try done.
  intros g v [[<- <-]|[Hne Ev]]%lookup_insert_Some.
  - split_and!; [done|done|]. left. split; simpl; [done|done|..]; rewrite <- app_assoc, ?sent_app, ?received_app; simpl; by rewrite bool_decide_true.
  - apply fed_quiet; [apply fed_quiet; [by apply F4|]|by repeat constructor]. repeat constructor. simpl. by rewrite bool_decide_false.
Qed.

(** ** Pumping *)
Lemma copy_frames_rx fuel ring lim now u u' : copy_frames fuel ring lim now u = Some u' → rx (conn u') = rx (conn u).
Proof.
  revert u. induction fuel as [|fuel IH]; intros u E; [done|]. cbn [copy_frames] in E.
  destruct (_ && _); [|by inv_some]. apply bind_Some in E as (bs & _ & E). by apply IH in E.
Qed.

Lemma pump_rx ring now os u u' out ok arm : pump cfg ring now os u = Some (u', out, ok, arm) → rx (conn u') = rx (conn u).
Proof.
  intros E. unfold pump in E. apply bind_Some in E as (u1 & E1 & E).
  assert (rx (conn u1) = rx (conn u)) as <-.
  { unfold refill in E1. set (u0 := if last_tx_ns u =? 0 then _ else u) in E1.
    assert (conn u0 = conn u) as <- by (unfold u0; by destruct (_ =? _)). clearbody u0.
    destruct (subscribed u0); [|by inv_some]. apply bind_Some in E1 as (u2 & E2 & E1). apply copy_frames_rx in E2. inv_some.
    unfold beat. destruct (_ && _); simpl; rewrite E2; unfold skip_lost; by destruct (_ && _). }
  apply bind_Some in E as ([[[[c o] okf] os'] a] & Ef & E). destruct (flush_and_arm_fields _ _ _ _ _ _ _ Ef) as (_ & <- & _).
  destruct (negb okf); [by inv_some|]. destruct (_ && _); [|by inv_some].
  destruct (stalled_since_ns _ =? 0); destruct (_ <=? _); by inv_some.
Qed.

(** What the kernel promises for the write of one [pump]. *)
Definition pumpable (ring : ReplayRing) (now : Z) (os : list WriteResult) (u : Subscriber) : Prop :=
  ∀ u1, refill cfg ring now u = Some u1 → answers_ok os (Z.of_nat (length (unsent (conn u1)))).

Lemma waiting_pump ring log f u now os :
  waiting log f u → ∃ u', pump cfg ring now os u = Some (u', [], true, None) ∧ conn u' = conn u ∧ subscribed u' = false.
Proof.
  intros Hw. pose proof (wa_sub _ _ _ Hw) as Hs. unfold pump, refill. set (u0 := if last_tx_ns u =? 0 then _ else u).
  assert (conn u0 = conn u ∧ subscribed u0 = false) as [Ec Es] by (unfold u0; by destruct (_ =? _)). rewrite Es. simpl.
  rewrite Ec. destruct (waiting_flush _ _ _ os None Hw) as [-> _]. simpl.
  assert (pending (conn u) = false) as -> by (rewrite (wa_conn _ _ _ Hw); done). simpl. eexists. split; [reflexivity|]. done.
Qed.

Lemma feeding_pump ring pub log f u from d now os u' out arm :
  feeding ring pub log f u from d → 0 ≤ now < 2 ^ 64 → pumpable ring now os u → pump cfg ring now os u = Some (u', out, true, arm) →
  rx (conn u') = rx (conn u) ∧ feeding ring pub (log ++ Sent f out :: arm_calls arm) f u' from d.
Proof.
  intros Hfg Hnow Hp E. pose proof (feeding_pos _ _ _ _ _ _ _ Hfg) as Hpos. destruct (sent_after f log out arm) as [Es Er].
  destruct Hfg as [Hsub Hfrom Hd Hfeed]. pose proof Hfeed as [Hsok Hs _ _ _ _]. simpl in Hsok, Hs.
  pose proof (feed_tx cfg k _ _ limit _ Hfeed) as Htx. simpl in Htx.
  destruct (refill_ok cfg k ring _ now u Hsok Hs ltac:(lia) Htx) as (u1 & l & E1 & _).
  pose proof (feed_pump_ok cfg k _ _ limit _ _ _ _ now os u1 u' out arm Hfeed Hnow E1 (Hp u1 E1) E) as Hk'.
  assert (rx (conn u') = rx (conn u)) as F2 by (by eapply pump_rx). split; [done|].
  rewrite <- Es in Hk'. split; try done. by rewrite F2, Er.
Qed.

Lemma fed_pump ring pub log f u now os u' out arm :
  fed ring pub log f u → 0 ≤ now < 2 ^ 64 → pumpable ring now os u → pump cfg ring now os u = Some (u', out, true, arm) →
  fed ring pub (log ++ Sent f out :: arm_calls arm) f u'.
Proof.
  intros (Hf & Hb & Hor) Hnow Hp E. destruct Hor as [Hw|(from & d & Hfg)].
  - destruct (waiting_pump ring _ _ _ now os Hw) as (u1 & E1 & Ec & Hs). rewrite E in E1. injection E1 as -> -> ->.
    destruct (waiting_flush _ _ _ os None Hw) as [_ [W1 W2 W3 W4]]. split_and!; [by rewrite Ec|by rewrite Ec|]. left.
    split; [done|by rewrite Ec|done|by rewrite Ec].
  - destruct (feeding_pump _ _ _ _ _ _ _ _ _ _ _ _ Hfg Hnow Hp E) as [F2 Hfg']. destruct (pump_watch _ _ _ _ _ _ _ _ _ E) as [F1 _].
    split_and!; [congruence|by rewrite F2|]. right. by exists from, d.
Qed.

Lemma fed_pump_total ring pub log f u now os :
  fed ring pub log f u → answered os → is_Some (pump cfg ring now os u).
Proof.
  intros (_ & _ & [Hw|(from & d & [_ Hfrom Hd Hfeed])]) Ha.
  { destruct (waiting_pump ring _ _ _ now os Hw) as (u1 & -> & _). eauto. }
  pose proof Hfeed as [Hsok Hs _ _ _ _]. simpl in Hsok, Hs.
  assert (1 ≤ opening_seq d from) as Hpos by (apply opening_seq_pos; lia).
  pose proof (feed_tx cfg k _ _ limit _ Hfeed) as Htx. simpl in Htx.
  destruct (refill_ok cfg k ring _ now u Hsok Hs ltac:(lia) Htx) as (u1 & l & E1 & _).
  destruct (flush_answered os (conn u1) Ha) as [[[[c out] okf] os'] Ef].
  destruct (pump_shape _ _ _ _ _ _ _ _ _ _ E1 Ef) as (? & ? & ? & -> & _). eauto.
Qed.

(** ** The walk over the subscribers *)
Abbreviation Pumped := (option (Subscriber * list Z * bool * option (Z * bool))).

Lemma walk_streams (walk : list (Z * Pumped)) log f u out ok arm dead :
  NoDup walk.*1 → (∀ g v o b a, (g, Some (v, o, b, a)) ∈ walk → fd (conn v) = g) → (f, Some (u, out, ok, arm)) ∈ walk →
  ∃ cs cs', log ++ (walk ≫= λ r, pump_calls (snd r)) ++ (dead ≫= retire_calls) = (log ++ cs) ++ (Sent f out :: arm_calls arm) ++ cs' ∧
    quiet f cs ∧ quiet f cs'.
Proof.
  intros Hn Hfd Hin. apply list_elem_of_split in Hin as (w1 & w2 & ->).
  assert (∀ w, (∀ r, r ∈ w → r ∈ w1 ++ (f, Some (u, out, ok, arm)) :: w2) → f ∉ w.*1 → quiet f (w ≫= λ r, pump_calls (snd r))) as Hq.
  { intros w Hw Hf. apply Forall_bind, Forall_forall. intros [g [[[[v o] b] a]|]] Hr; simpl; [|constructor].
    rewrite (Hfd g v o b a) by (by apply Hw). apply quiet_sent. intros ->. apply Hf. apply list_elem_of_fmap. eexists. split; [|exact Hr]. done. }
  rewrite fmap_app, NoDup_app in Hn. destruct Hn as (_ & Hn1 & [Hn2 _]%NoDup_cons).
  exists (w1 ≫= λ r, pump_calls (snd r)), ((w2 ≫= λ r, pump_calls (snd r)) ++ (dead ≫= retire_calls)).
  rewrite bind_app. cbn [mbind list_bind]. simpl. rewrite (Hfd f u out ok arm) by (apply elem_of_app; right; by left).
  split_and!; [by repeat (rewrite <- app_assoc; cbn [app])|apply Hq|apply Forall_app; split; [apply Hq|]].
  - intros r Hr. apply elem_of_app. by left.
  - intros Hf. apply (Hn1 _ Hf). by left.
  - intros r Hr. apply elem_of_app. right. by right.
  - done.
  - apply Forall_bind, Forall_forall. intros g _. apply quiet_retire.
Qed.

Lemma fan_flush_all pub now ws p p' out :
  fan_ok pub p → 0 ≤ now < 2 ^ 64 → (∀ f u, subs_ p !! f = Some u → pumpable (ring_ p) now (ws f) u) →
  flush_all now ws p = Some (p', out) → fan_ok pub p'.
Proof.
  intros Hp Hnow Hw E. unfold flush_all in E. destruct (_ && _); [by inv_some|].
  set (pumped := map_imap _ _) in E. case_bool_decide as Hall; [|done]. inv_some.
  assert (∀ f r, pumped !! f = Some r → ∃ u, subs_ p !! f = Some u ∧ r = pump cfg (ring_ p) now (ws f) u) as Hpm.
  { intros f r Er. unfold pumped in Er. rewrite map_lookup_imap in Er. destruct (subs_ p !! f) as [u|]; [|done].
    simpl in Er. inv_some. exists u. by rewrite (fa_cfg _ _ Hp). }
  destruct Hp as [F1 F2 F3 F4]. split; simpl; try done.
  intros f u Eu. rewrite lookup_omap in Eu. apply bind_Some in Eu as ([[[[u' o] [|]] arm]|] & Er & Eu); simpl in Eu; inv_some.
  destruct (walk_streams (map_to_list pumped) (p_calls p) f u o true arm (omap dead_fd (map_to_list pumped))) as (cs & cs' & -> & Hq & Hq').
  - apply NoDup_fst_map_to_list.
  - intros g v o' b a Hin%elem_of_map_to_list. destruct (Hpm _ _ Hin) as (v0 & Ev & Epm). symmetry in Epm.
    destruct (pump_watch _ _ _ _ _ _ _ _ _ Epm) as [-> _]. by apply (F4 g v0).
  - by apply elem_of_map_to_list.
  - destruct (Hpm _ _ Er) as (u0 & Eu0 & Ep). symmetry in Ep. rewrite app_assoc. apply fed_quiet; [|done].
    eapply fed_pump; [apply fed_quiet; [by apply F4|done]|done|by apply Hw|done].
Qed.

Lemma fan_flush_all_total pub now ws p :
  fan_ok pub p → (∀ f, answered (ws f)) → is_Some (flush_all now ws p).
Proof.
  intros [F1 F2 F3 F4] Ha. unfold flush_all. destruct (_ && _); [eauto|]. rewrite bool_decide_true; [eauto|].
  intros f r Er. rewrite map_lookup_imap in Er. destruct (subs_ p !! f) as [u|] eqn:Eu; [|done]. simpl in Er. inv_some.
  rewrite F1. eapply fed_pump_total; [by apply F4|done].
Qed.

Lemma fan_init : fan_ok [] (Publisher_init cfg).
Proof. split; simpl; [done|by apply Ring_init_ok|done|]. by intros f u ?%lookup_empty_Some. Qed.
End Fan.

(** ** The gateway *)

(** Calls on no subscriber's descriptor. *)
Definition off_subs (p p' : Publisher) : Prop :=
  ∃ cs, p' = call cs p ∧ ∀ g, is_Some (subs_ p !! g) → quiet g cs.

Lemma off_subs_refl p : off_subs p p.
Proof. exists []. unfold call. rewrite app_nil_r. split; [by destruct p|]. intros. apply quiet_nil. Qed.

Lemma off_subs_trans p p1 p2 : off_subs p p1 → off_subs p1 p2 → off_subs p p2.
Proof.
  intros (cs & -> & Hq) (cs' & -> & Hq'). exists (cs ++ cs'). unfold call. simpl. rewrite app_assoc. split; [done|].
  intros g Hg. apply Forall_app. split; [by apply Hq|by apply Hq'].
Qed.

Lemma only_off f cs p : subs_ p !! f = None → only f cs → off_subs p (call cs p).
Proof. intros Hf Ho. exists cs. split; [done|]. intros g Hg. apply Ho. intros ->. rewrite Hf in Hg. by destruct Hg. Qed.

Section Gateway.
Context (cfg : PubConfig) (limit : 0 < max_backlog cfg < 2 ^ 40) (ring_pos : 0 ≤ ring_log2 cfg < 58) (lfd mlfd : Z).
Abbreviation ok := (server_ok lfd mlfd).
Abbreviation okd := (okd lfd mlfd).
Abbreviation fan_ok := (fan_ok cfg).

Lemma fan_off pub p p' : fan_ok pub p → off_subs p p' → fan_ok pub p'.
Proof.
  intros Hp (cs & -> & Hq). apply (fan_calls _ pub p _ cs Hp); try done. intros f u Eu. split; [done|]. apply Hq. eauto.
Qed.

Lemma off_close sid s s' cs sv sv' :
  okd sv → sessions_ sv !! sid = Some s → fd (s_conn s') = fd (s_conn s) → only (fd (s_conn s)) cs →
  close_session sid (set_sessions (<[sid := s']> (sessions_ sv)) (sv_call cs sv)) = Some sv' → off_subs (publisher_ sv) (publisher_ sv').
Proof.
  intros Hok Es Ef Ho E. pose proof (ow_sub _ _ _ _ (okd_owners _ _ _ Hok) _ _ Es) as Hn.
  apply (okd_call _ _ cs) in Hok. change (sessions_ sv) with (sessions_ (sv_call cs sv)) in E, Es.
  rewrite (close_insert _ _ s) in E by done. destruct Hok as [d H].
  destruct (close_ok _ _ _ _ _ H Es) as (sv1 & Ec & _ & _ & _ & _ & E2 & _). rewrite close_dirty_list, E in Ec. simpl in Ec. inv_some.
  simpl in E2. rewrite E2. eapply off_subs_trans; [by apply (only_off (fd (s_conn s)))|].
  apply (only_off (fd (s_conn s))); [done|apply only_retire].
Qed.

Lemma off_flush_session strict sid s s1 ws sv sv' out :
  okd sv → sessions_ sv !! sid = Some s → s_conn s1 = s_conn s →
  flush_session strict sid ws (set_sessions (<[sid := s1]> (sessions_ sv)) sv) = Some (sv', out) →
  off_subs (publisher_ sv) (publisher_ sv').
Proof.
  intros Hok Es E1 E. unfold flush_session in E. simpl in E. rewrite lookup_insert_eq in E. simpl in E.
  apply bind_Some in E as ([[[[c out1] okf] os] arm] & Ef & E). rewrite insert_insert_eq in E. rewrite E1 in Ef.
  destruct (flush_and_arm_fields _ _ _ _ _ _ _ Ef) as (F1 & _). rewrite F1 in E.
  change (set_sessions ?m (sv_call ?cs (set_sessions _ sv))) with (set_sessions m (sv_call cs sv)) in E.
  destruct (_ || _).
  - apply bind_Some in E as (sv2 & Ec & E). inv_some. by eapply off_close; [..|exact Ec]; [|done|..]; [|simpl; congruence|auto with streams].
  - inv_some. simpl. apply (only_off (fd (s_conn s))); [|auto with streams].
    exact (ow_sub _ _ _ _ (okd_owners _ _ _ Hok) _ _ Es).
Qed.

Lemma off_read_session sid rs push ws sv sv' out :
  ok sv → read_session sid rs push ws sv = Some (sv', out) → off_subs (publisher_ sv) (publisher_ sv').
Proof.
  intros Hok E. unfold read_session in E. apply bind_Some in E as (s & Es & E). apply bind_Some in E as ([alive bytes] & _ & E).
  set (r := Received (fd (s_conn s)) _) in E. pose proof (ok_okd _ _ _ Hok) as Hokd.
  pose proof (ow_sub _ _ _ _ (server_owners _ _ _ Hok) _ _ Es) as Hn. destruct alive; simpl in E; cycle 1.
  { apply bind_Some in E as (sv1 & Ec & E). inv_some. eapply (off_close sid s s [r]); [done|done|done|apply only_received|].
    change (sessions_ sv) with (sessions_ (sv_call [r] sv)). by rewrite set_sessions_id. }
  apply bind_Some in E as ([[[okp s'] d'] cmds] & Ep & E). destruct (parse_frames_touches _ _ _ _ _ _ _ _ Ep) as [(_ & T1 & _) _]. simpl in T1.
  destruct okp; [inv_some; by apply (only_off (fd (s_conn s))); [|apply only_received]|].
  apply bind_Some in E as ([[[c out1] okf] os] & Ef & E). apply bind_Some in E as (sv1 & Ec & E). inv_some.
  apply flush_fields in Ef as (F1 & _). rewrite F1, T1, insert_insert_eq in Ec.
  set (sv0 := set_to_engine cmds (set_dirty_list d' sv)).
  apply (off_close sid s (set_sconn c s') [r; Sent (fd (s_conn s)) out] sv0 sv'); try done.
  - destruct Hokd as [d0 []]. exists d0. by split.
  - simpl. congruence.
  - apply (only_app _ [r]); [apply only_received|apply (only_sent _ out None)].
  - unfold sv0. unfold sv_call, call in *. simpl in *. by rewrite <- app_assoc in Ec.
Qed.

Lemma off_flush_list sids ws sv sv' :
  ok (set_dirty_list sids sv) → flush_list sids ws sv = Some sv' → off_subs (publisher_ sv) (publisher_ sv').
Proof.
  revert sv. induction sids as [|sid sids IH]; intros sv Hok E; simpl in E; [inv_some; apply off_subs_refl|].
  destruct (sessions_ sv !! sid) as [s|] eqn:Es; [|apply IH; [by eapply stale_mark_ok|done]].
  apply bind_Some in E as ([sv1 out] & Ef & E). destruct (flush_mark_ok _ _ _ _ _ _ _ _ _ Hok Es Ef) as (H1 & _).
  eapply off_subs_trans; [|by apply (IH sv1)].
  eapply (off_flush_session true sid s (set_sdirty false s) (ws sid) sv); [by exists (sid :: sids)|done|done|exact Ef].
Qed.

Lemma fan_session_event pub ev io sv sv' :
  ok sv → fan_ok pub (publisher_ sv) → session_event ev io sv = Some sv' → Forall bytes_read (io_read io) →
  fan_ok pub (publisher_ sv').
Proof.
  intros Hok Hp E Hr. unfold session_event in E. apply bind_Some in E as (sv1 & E1 & E).
  assert (ok sv1 ∧ fan_ok pub (publisher_ sv1)) as [Hok1 Hp1].
  { destruct (ev_writable ev); [|by inv_some]. apply bind_Some in E1 as ([sid|] & _ & E1); [|by inv_some].
    apply fmap_Some in E1 as ([sv2 out] & E2 & ->). split; [by eapply flush_session_ok|]. eapply fan_off; [done|].
    assert (is_Some (sessions_ sv !! sid)) as [s Es].
    { unfold flush_session in E2. apply bind_Some in E2 as (s & Es & _). eauto. }
    eapply (off_flush_session false sid s s); [by apply ok_okd|done|done|]. by rewrite set_sessions_id. }
  destruct (_ || _); [|by inv_some]. apply bind_Some in E as ([sid|] & _ & E); [|by inv_some].
  apply fmap_Some in E as ([sv2 out] & E2 & ->). eapply fan_off; [done|]. by eapply off_read_session.
Qed.

Lemma fan_subscriber_event pub ev io p p' :
  fan_ok pub p → Z.of_nat (length pub) + 1 < 2 ^ 32 →
  (∀ u, subs_ p !! ev_fd ev = Some u → answers_ok (io_write io) (Z.of_nat (length (unsent (conn u))))) →
  Forall bytes_read (io_read io) →
  subscriber_event ev io p = Some p' → fan_ok pub p'.
Proof.
  intros Hp Hl Hw Hr E. unfold subscriber_event in E. destruct (subs_ p !! ev_fd ev) eqn:Eu; [|by inv_some].
  apply bind_Some in E as (p1 & E1 & E). assert (fan_ok pub p1) as Hp1.
  { destruct (ev_writable ev); [|by inv_some]. apply fmap_Some in E1 as ([p2 out] & E2 & ->).
    eapply fan_on_writable; [done| |exact E2]. intros u Eu'. apply Hw. congruence. }
  destruct (_ || _); [|by inv_some]. by eapply fan_on_readable; [..|exact E].
Qed.

Lemma fan_accept_all pub md os sv sv' :
  ok sv → fan_ok pub (publisher_ sv) → accepts_ok lfd mlfd os sv → accept_all md os sv = Some sv' → fan_ok pub (publisher_ sv').
Proof.
  revert sv. induction os as [|r os IH]; intros sv Hok Hp (Hn & Hf & Hc) E; [done|]. destruct r as [f fl| |]; cbn [accept_all] in E.
  - change (accepted (AcceptedFd f fl :: os)) with (f :: accepted os) in *. cbn [length] in Hc.
    apply NoDup_cons in Hn as [Hni Hn]. apply Forall_cons in Hf as [Hf Hfs]. apply bind_Some in E as (sv1 & E1 & E).
    set (cs := Accept f :: _) in E1. pose proof (free_call _ _ cs sv f Hf) as Hf'. pose proof (sv_call_ok _ _ cs sv Hok) as Hok'.
    assert (fan_ok pub (publisher_ sv1)) as Hp1.
    { destruct md.
      - destruct (accept_subscriber_ok _ _ _ _ Hok' Hf') as (sv2 & E2 & _ & _ & _ & _ & Ep & _). rewrite E1 in E2. inv_some. rewrite Ep.
        apply fan_subscribe; [done|]. apply Hf.
      - destruct (accept_session_ok _ _ _ _ Hok' Hf') as (sv2 & E2 & _ & _ & _ & _ & Ep & _); [simpl; lia|]. rewrite E1 in E2. inv_some. rewrite Ep.
        eapply fan_off; [done|]. simpl. exists (cs ++ [Poll (PAdd f)]). split; [unfold call; simpl; by rewrite <- app_assoc|].
        intros g [u Hg]. apply Forall_app. split; [|by repeat constructor]. repeat constructor. simpl. apply bool_decide_false.
        intros <-. rewrite (ff_sub _ _ _ _ Hf) in Hg. done. }
    destruct (accept_one_ok lfd mlfd md _ _ Hok' Hf') as (sv2 & E2 & H2 & Hx & Hfree); [simpl; lia|]. rewrite E1 in E2. inv_some.
    apply (IH sv2 H2 Hp1); [|done]. split_and!; [done| |simpl in Hx; lia]. apply Forall_forall. intros g Hg. rewrite Forall_forall in Hfs.
    apply Hfree; [by intros ->|]. by apply free_call, Hfs.
  - apply (IH sv); [done|done|by split_and!|done].
  - by inv_some.
Qed.

Lemma fan_handle_event pub ev io sv sv' :
  ok sv → log_ok lfd mlfd sv → fan_ok pub (publisher_ sv) → Z.of_nat (length pub) + 1 < 2 ^ 32 → ready_ok lfd mlfd ev io sv →
  handle_event ev io sv = Some sv' → fan_ok pub (publisher_ sv').
Proof.
  intros Hok L Hp Hl Hio E. pose proof (kernel_io_ok _ _ _ _ Hok L (eo_kernel _ _ _ _ _ Hio)) as [Ha Hr].
  unfold handle_event in E. apply bind_Some in E as (kd & Ek & E). destruct kd.
  - by inv_some.
  - by eapply fan_accept_all in E.
  - by eapply fan_accept_all in E.
  - by eapply fan_session_event.
  - apply bind_Some in E as (p & Ep & E). inv_some. eapply fan_subscriber_event; [done|done|apply Hio|done|exact Ep].
Qed.

Lemma fan_on_event H e sv :
  fan_ok (md_frames H) (publisher_ sv) → event_ok e → Z.of_nat (length (md_frames (H ++ [e]))) + 1 < 2 ^ 32 →
  ∃ sv', server_on_event e sv = Some sv' ∧ fan_ok (md_frames (H ++ [e])) (publisher_ sv').
Proof.
  intros Hp He Hl. rewrite md_frames_app in *. unfold server_on_event.
  assert (∀ fr, md_frame e = Some fr → ∃ r q, md_append (ring_ (publisher_ sv)) fr = Some (r, q) ∧
    fan_ok (md_frames H ++ md_frames [e]) (mkPub (p_cfg (publisher_ sv)) r (subs_ (publisher_ sv)) true (next_tick_ns_ (publisher_ sv)) (p_calls (publisher_ sv)))) as Hpub.
  { intros fr E. assert (md_frames [e] = [fr]) as Em by (unfold md_frames; simpl; by rewrite E). rewrite Em in *.
    rewrite length_app in Hl. simpl in Hl.
    destruct (fan_publish _ _ _ fr Hp (md_frame_ok _ _ He E)) as (r & q & Ea & Hgo); [lia|]. exists r, q. split; [done|]. by apply Hgo. }
  assert (md_frame e = None → ∃ sv', match sessions_ sv !! e_session e with
      | Some s => let '(s, dirty) := answer e s (sv_dirty sv) in
          Some (set_dirty_list dirty (set_sessions (<[e_session e := s]> (sessions_ sv)) sv))
      | None => Some sv end = Some sv' ∧ fan_ok (md_frames H ++ md_frames [e]) (publisher_ sv')) as Hpriv.
  { intros E. assert (md_frames [e] = []) as -> by (unfold md_frames; simpl; by rewrite E). rewrite app_nil_r.
    destruct (sessions_ sv !! e_session e) as [s|]; [destruct (answer e s _)|]; by eexists. }
  unfold md_frame in Hpub, Hpriv.
  destruct (e_kind e); try exact (Hpriv eq_refl); destruct (Hpub _ eq_refl) as (r & q & Ea & Hf); simpl in Ea;
    unfold publish; rewrite Ea; simpl; by eexists.
Qed.

Lemma fan_drain H evs sv :
  fan_ok (md_frames H) (publisher_ sv) → Forall event_ok evs → Z.of_nat (length (md_frames (H ++ evs))) + 1 < 2 ^ 32 →
  ∃ sv' b, drain_engine evs sv = Some (sv', b) ∧ fan_ok (md_frames (H ++ evs)) (publisher_ sv').
Proof.
  revert H sv. induction evs as [|e evs IH]; intros H sv Hp He Hl; simpl.
  { rewrite app_nil_r. by eexists _, _. }
  apply Forall_cons in He as [He Hes]. change (e :: evs) with ([e] ++ evs) in *. rewrite app_assoc in *.
  destruct (fan_on_event H e sv Hp He) as (sv1 & -> & Hp1); [rewrite md_frames_app, length_app in Hl; lia|]. simpl.
  destruct (IH (H ++ [e]) sv1 Hp1 Hes Hl) as (sv2 & b & -> & Hp2). simpl. by eexists _, _.
Qed.

Lemma fan_flush_dirty pub ws sv sv' : ok sv → fan_ok pub (publisher_ sv) → flush_dirty ws sv = Some sv' → fan_ok pub (publisher_ sv').
Proof.
  intros Hok Hp E. unfold flush_dirty in E. apply bind_Some in E as (sv1 & E1 & E). inv_some. simpl.
  eapply fan_off; [done|]. eapply off_flush_list; [|exact E1]. by destruct sv.
Qed.

(** One piece of the loop. *)
Lemma gw_step_fan H sv evs sv' :
  ok sv → log_ok lfd mlfd sv → fan_ok (md_frames H) (publisher_ sv) → gw_step lfd mlfd sv evs sv' → Forall event_ok evs →
  Z.of_nat (length (md_frames (H ++ evs))) + 1 < 2 ^ 32 → fan_ok (md_frames (H ++ evs)) (publisher_ sv').
Proof.
  intros Hok L Hp [ev io ? Hio E|? b ? E|? ? Hw E|? ? ? ? Hn Hw E] He Hl; rewrite ?app_nil_r in *.
  - by eapply fan_handle_event.
  - destruct (fan_drain H evs0 sv Hp He Hl) as (sv1 & b1 & E1 & Hp1). by simplify_eq.
  - by eapply fan_flush_dirty.
  - eapply fan_flush_all; [done|exact Hp|exact Hn| |exact E]. intros f u Eu u1 Er. rewrite <- (fa_cfg _ _ _ Hp) in Er. by eapply Hw.
Qed.

Lemma fan_server_init max_backlog sv :
  0 ≤ lfd → 0 ≤ mlfd → lfd ≠ mlfd → Server_init max_backlog cfg lfd mlfd = Some sv → fan_ok [] (publisher_ sv).
Proof.
  intros Hl Hm Hne E. destruct (Server_init_ok lfd mlfd max_backlog cfg Hl Hm Hne) as (sv1 & E1 & _ & _ & Ep & _).
  rewrite E in E1. inv_some. rewrite Ep. eapply fan_off; [by apply fan_init|]. eexists. split; [done|]. intros g [u Hg]. done.
Qed.
End Gateway.
