(* ===== verification/Link.v ===== *)
(** One market-data connection over its whole life: accepted, pumped and
    written to before its Subscribe is complete, subscribed by bytes that arrive
    in any pieces, pumped, written and published to until it ends, as a step
    relation on the publisher's operations.  The history of its pumps is kept
    beside it; [Timing] reads the publisher's clocks off it. *)
From S2P Require Import Prelude Poller Calls Protocol Ring WireTheorems Net Publisher Stream Gateway Parse Inputs.
From S2P Require Import Sessions SessionInv Handling Registry Reach Streams Carried Frames MdClient MdAccount Delivery Fanout.

(** ** The history of a connection *)

(** A pump: its clock reading, whether bytes were left and [::write] took none,
    and whether it queued anything; or the gap with which a Subscribe ahead of
    the stream is answered, which [control] stamps with the time 0. *)
Inductive Mark := MPump (now : Z) (blocked queued : bool) | MGap.

Definition blocked (sent : list Z) (s' : Subscriber) : bool :=
  bool_decide (sent = []) && negb (bool_decide (unsent (conn s') = [])).

Definition queued (s s1 : Subscriber) : bool := negb (bool_decide (unsent (conn s1) = unsent (conn s))).

(** A history, newest first, of a clock that never runs backwards. *)
Fixpoint clocked (now : Z) (ms : list Mark) : Prop :=
  0 < now < 2 ^ 64 ∧
  match ms with
  | [] => True
  | MPump t _ _ :: ms => t ≤ now ∧ clocked t ms
  | MGap :: ms => clocked now ms
  end.

(** ** The connection *)

(** The ring and the frames published so far, the subscriber, the calls made on
    its socket, and its history. *)
Record Link := mkLink {
  lk_ring : ReplayRing; lk_pub : list MdFrame; lk_sub : Subscriber; lk_log : list Syscall; lk_marks : list Mark }.

(** The publisher as its operations on [f] see it. *)
Definition alone (cfg : PubConfig) (f : Z) (x : Link) : Publisher :=
  mkPub cfg (lk_ring x) {[f := lk_sub x]} false 0 (lk_log x).

(** [publish]; [pump] from [flush_all]; [on_writable]; [on_readable].  A step that
    drops the subscriber ends the connection. *)
Inductive link_step (cfg : PubConfig) (f : Z) : Link → Link → Prop :=
  | link_publish ring pub s log ms fr ring' q :
      md_ok fr → Z.of_nat (length pub) + 2 < 2 ^ 32 → md_append ring fr = Some (ring', q) →
      link_step cfg f (mkLink ring pub s log ms) (mkLink ring' (pub ++ [fr]) s log ms)
  | link_pump ring pub s log ms now os s1 s' out arm :
      clocked now ms → refill cfg ring now s = Some s1 →
      answers_ok os (Z.of_nat (length (unsent (conn s1)))) →
      pump cfg ring now os s = Some (s', out, true, arm) →
      link_step cfg f (mkLink ring pub s log ms)
        (mkLink ring pub s' (log ++ Sent f out :: arm_calls arm) (MPump now (blocked out s') (queued s s1) :: ms))
  | link_writable ring pub s log ms os p' out s' :
      answers_ok os (Z.of_nat (length (unsent (conn s)))) →
      on_writable f os (alone cfg f (mkLink ring pub s log ms)) = Some (p', out) → subs_ p' !! f = Some s' →
      link_step cfg f (mkLink ring pub s log ms) (mkLink ring pub s' (p_calls p') ms)
  | link_readable ring pub s log ms rs p' s' :
      Forall bytes_read rs →
      on_readable f rs (alone cfg f (mkLink ring pub s log ms)) = Some p' → subs_ p' !! f = Some s' →
      link_step cfg f (mkLink ring pub s log ms)
        (mkLink ring pub s' (p_calls p') (if queued s s' then MGap :: ms else ms)).

(** A socket just accepted by a publisher that has published [lk_pub x]. *)
Record link_start (cfg : PubConfig) (f : Z) (x : Link) : Prop := {
  ls_ring : append_all (Ring_init (ring_log2 cfg)) (lk_pub x) = Some (lk_ring x);
  ls_pub : Forall md_ok (lk_pub x);
  ls_len : Z.of_nat (length (lk_pub x)) + 1 < 2 ^ 32;
  ls_sub : lk_sub x = mkSub (Conn_init f) false 0 0 0;
  ls_log : lk_log x = [];
  ls_marks : lk_marks x = [] }.

(** ** The invariant *)
Section Links.
Context (cfg : PubConfig) (limit : 0 < max_backlog cfg < 2 ^ 40) (ring_pos : 0 ≤ ring_log2 cfg < 58) (f : Z).
#[local] Abbreviation len x := (Z.of_nat (length (lk_pub x))).

(** Waiting for its Subscribe, or fed the stream it asked for when [d] frames,
    [d0] at least, had been published. *)
Record link_ok (d0 : Z) (x : Link) : Prop := {
  lo_ring : ring_ok (ring_log2 cfg) (lk_ring x) (stamp_all 1 (lk_pub x));
  lo_pub : Forall md_ok (lk_pub x);
  lo_len : d0 ≤ len x ∧ len x + 1 < 2 ^ 32;
  lo_fd : fd (conn (lk_sub x)) = f;
  lo_rx : Forall byte (rx (conn (lk_sub x)));
  lo_state : waiting (lk_log x) f (lk_sub x) ∨
    ∃ from d, d0 ≤ d ∧ feeding cfg (lk_ring x) (lk_pub x) (lk_log x) f (lk_sub x) from d }.

Lemma link_fed d0 x : link_ok d0 x → fed cfg (lk_ring x) (lk_pub x) (lk_log x) f (lk_sub x).
Proof. intros []. split_and!; [done|done|]. destruct lo_state0 as [|(from & d & _ & ?)]; [by left|right; by exists from, d]. Qed.

Lemma link_start_ok x : link_start cfg f x → link_ok (len x) x.
Proof.
  intros [Er Hp Hl Es Eg _]. split; rewrite ?Es, ?Eg; try done.
  - destruct (append_all_ok (ring_log2 cfg) _ [] (lk_pub x) (Ring_init_ok _ ring_pos) Hp) as (r & E & HR); [simpl; lia|].
    rewrite Er in E. by injection E as <-.
  - by left.
Qed.

(** The subscriber a read leaves behind: more bytes, or the Subscribe. *)
Lemma on_readable_alone d0 x rs p' s' :
  link_ok d0 x → Forall bytes_read rs → on_readable f rs (alone cfg f x) = Some p' → subs_ p' !! f = Some s' →
  let s := lk_sub x in ∃ new, p_calls p' = lk_log x ++ [Received f new] ∧ Forall byte (rx (conn s) ++ new) ∧
    (s' = set_conn (set_rx (rx (conn s) ++ new) (conn s)) s ∨
     waiting (lk_log x) f s ∧ ∃ m, wire.read wire.Subscribe (rx (conn s) ++ new) = Some m ∧
       Z.of_nat (length (rx (conn s) ++ new)) = wire.sizeof wire.Subscribe ∧
       s' = start_cursor (head (lk_ring x)) (wire.su_from_seq m)
         (mkSub (set_rx [] (set_rx (rx (conn s) ++ new) (conn s))) true (next_seq s) (last_tx_ns s) (stalled_since_ns s))).
Proof.
  intros Hx Hrs E Es' s. unfold on_readable, alone in E. cbn [subs_] in E. rewrite lookup_singleton_eq in E. fold s in E.
  apply bind_Some in E as ([alive bytes] & Er & E). destruct (read_all_grows _ _ _ _ Er Hrs) as (new & -> & Hnew).
  rewrite drop_app_length in E. exists new. pose proof (lo_rx _ _ Hx) as Hb. fold s in Hb.
  assert (∀ p, subs_ (drop_sub f p) !! f = None) as Hdrop by (intros p; unfold drop_sub; simpl; by rewrite lookup_delete_eq).
  destruct alive; simpl in E; [|inv_some; by rewrite Hdrop in Es'].
  destruct (Z.ltb_spec (Z.of_nat (length (rx (conn s) ++ new))) (wire.sizeof wire.Subscribe)) as [Hlt|Hge].
  { inv_some. simpl in Es'. rewrite lookup_insert_eq in Es'. inv_some. split_and!; [done|by apply Forall_app|by left]. }
  apply bind_Some in E as (h & _ & E). destruct (_ || _) eqn:Eg; [inv_some; by rewrite Hdrop in Es'|].
  apply bind_Some in E as (m & Em & E). inv_some. repeat (apply orb_false_iff in Eg as [Eg ?]).
  simpl in Es'. rewrite lookup_insert_eq in Es'. inv_some. split_and!; [done|by apply Forall_app|right].
  destruct (lo_state _ _ Hx) as [Hw|(from & d & _ & Hfeed)].
  - split; [done|]. exists m. apply Z.ltb_ge in H. split_and!; [done|lia|done].
  - pose proof (fk_subscribed _ _ _ _ _ (fg_feed _ _ _ _ _ _ _ _ Hfeed)) as Hs. simpl in Hs. fold s in Hs. by rewrite Hs in Eg.
Qed.

Lemma link_readable_ok d0 ring pub s log ms ms' rs p' s' :
  link_ok d0 (mkLink ring pub s log ms) → Forall bytes_read rs →
  on_readable f rs (alone cfg f (mkLink ring pub s log ms)) = Some p' → subs_ p' !! f = Some s' →
  link_ok d0 (mkLink ring pub s' (p_calls p') ms').
Proof.
  intros Hx Hrs E Es. destruct (on_readable_alone _ _ _ _ _ Hx Hrs E Es) as (new & -> & Hb & Hor). cbn [lk_sub lk_ring lk_log lk_pub] in *.
  pose proof (link_fed _ _ Hx) as Hfed. destruct Hx as [H1 H2 H3 H4 H5 H6]. simpl in *. destruct Hor as [->|(Hw & m & Em & Hl & ->)].
  - split; simpl; try done. destruct H6 as [Hw|(from & d & Hd & Hg)].
    + destruct (fed_more cfg _ _ _ _ _ new Hfed Hb) as (_ & _ & [?|(from & d & Hg)]); [by left|].
      pose proof (fk_subscribed _ _ _ _ _ (fg_feed _ _ _ _ _ _ _ _ Hg)) as Hsub. simpl in Hsub. by rewrite (wa_sub _ _ _ Hw) in Hsub.
    + right. exists from, d. split; [done|]. by apply feeding_more.
  - assert (fan_ok cfg pub (alone cfg f (mkLink ring pub s log ms))) as Hfan.
    { split; simpl; try done. by intros g u [<- <-]%lookup_singleton_Some. }
    destruct (waiting_subscribes cfg limit pub _ f s new m Hfan ltac:(lia) Hw Hb Hl Em) as (G1 & G2 & _ & G3).
    cbn [alone ring_ lk_ring] in *. split; cbn [lk_ring lk_pub lk_sub lk_log]; try done; [by rewrite G2|]. right. eexists _, _. split; [|exact G3]. lia.
Qed.

Lemma link_pump_ok d0 ring pub s log ms ms' now os s1 s' out arm :
  link_ok d0 (mkLink ring pub s log ms) → 0 ≤ now < 2 ^ 64 → refill cfg ring now s = Some s1 →
  answers_ok os (Z.of_nat (length (unsent (conn s1)))) → pump cfg ring now os s = Some (s', out, true, arm) →
  link_ok d0 (mkLink ring pub s' (log ++ Sent f out :: arm_calls arm) ms').
Proof.
  intros Hx Hn E1 Ha Ep. pose proof (link_fed _ _ Hx) as Hfed. destruct Hx as [H1 H2 H3 H4 H5 H6]. simpl in *.
  assert (pumpable cfg ring now os s) as Hp by (intros u Eu; congruence).
  destruct (fed_pump cfg limit ring pub log f s now os s' out arm Hfed Hn Hp Ep) as (F1 & F2 & F3).
  split; simpl; try done. destruct H6 as [Hw|(from & d & Hd & Hg)].
  - destruct F3 as [?|(from & d & Hg)]; [by left|]. destruct (waiting_pump cfg ring _ _ _ now os Hw) as (u & Eu & _ & Hs).
    rewrite Ep in Eu. injection Eu as -> _ _. pose proof (fk_subscribed _ _ _ _ _ (fg_feed _ _ _ _ _ _ _ _ Hg)) as Hs'. simpl in Hs'.
    by rewrite Hs in Hs'.
  - right. exists from, d. split; [done|]. by eapply feeding_pump.
Qed.

Lemma link_flush_ok d0 ring pub s log ms os p' out s' :
  link_ok d0 (mkLink ring pub s log ms) → answers_ok os (Z.of_nat (length (unsent (conn s)))) →
  on_writable f os (alone cfg f (mkLink ring pub s log ms)) = Some (p', out) → subs_ p' !! f = Some s' →
  link_ok d0 (mkLink ring pub s' (p_calls p') ms) ∧ ∃ c, s' = set_conn c s.
Proof.
  intros Hx Ha E Es. pose proof (link_fed _ _ Hx) as Hfed. destruct Hx as [H1 H2 H3 H4 H5 H6]. simpl in *.
  unfold on_writable, alone in E. cbn [subs_ lk_sub] in E. rewrite lookup_singleton_eq in E.
  apply bind_Some in E as ([[[[c o] okf] os'] arm] & Ef & E). injection E as <- <-.
  destruct (flush_and_arm_fields _ _ _ _ _ _ _ Ef) as (F1 & _).
  destruct okf; [|simpl in Es; by rewrite lookup_delete_eq in Es]. simpl in *. rewrite lookup_insert_eq in Es. inv_some.
  split; [|by eexists]. rewrite F1, H4. destruct (fed_flush cfg _ _ _ _ _ _ _ _ _ _ Hfed Ha Ef) as (G1 & G2 & G3).
  split; simpl in *; try done. destruct H6 as [Hw|(from & d & Hd & Hg)].
  - destruct (waiting_flush _ _ _ os arm Hw) as [E' Hw']. rewrite E' in Ef. injection Ef as <- <- <- <-. left. by destruct s.
  - right. exists from, d. split; [done|]. by eapply feeding_flush.
Qed.

Lemma link_step_ok d0 x x' : link_ok d0 x → link_step cfg f x x' → link_ok d0 x'.
Proof.
  intros Hx Hst. destruct Hst as [ring pub s log ms fr ring' q Hfr Hl Ea|ring pub s log ms now os s1 s' out arm Hc E1 Ha Ep
    |ring pub s log ms os p' out s' Ha E Es|ring pub s log ms rs p' s' Hrs E Es].
  - destruct Hx as [H1 H2 H3 H4 H5 H6]. simpl in *.
    destruct (append_all_ok (ring_log2 cfg) ring _ [fr] H1) as (r & Er & HR); [by repeat constructor|rewrite length_stamp_all; simpl; lia|].
    simpl in Er. rewrite Ea in Er. simpl in Er. injection Er as ->. rewrite length_stamp_all in HR. simpl in HR. rewrite <- stamp_all_snoc in HR.
    split; simpl; rewrite ?length_app; simpl; try (done || lia); [by apply Forall_app; split; [|apply Forall_singleton]|].
    destruct H6 as [?|(from & d & Hd & Hg)]; [by left|right; exists from, d]. split; [done|]. by eapply feeding_publish.
  - assert (0 ≤ now < 2 ^ 64) by (destruct ms as [|[] ?]; simpl in Hc; lia). by eapply link_pump_ok.
  - by eapply link_flush_ok.
  - by eapply link_readable_ok.
Qed.

Lemma link_reach_ok d0 x x' : link_ok d0 x → rtc (link_step cfg f) x x' → link_ok d0 x'.
Proof. intros Hx Hr. induction Hr; eauto using link_step_ok. Qed.

(** The history only grows. *)
Lemma link_prefix x x' : rtc (link_step cfg f) x x' → lk_pub x `prefix_of` lk_pub x'.
Proof.
  induction 1 as [|x1 x2 x3 Hst _ IH]; [done|]. etransitivity; [|exact IH].
  destruct Hst; simpl; [by apply prefix_app_r|done..].
Qed.

(** What the client of a connection can have read: nothing, or a part of the
    stream it asked for. *)
Lemma link_stream x x' from :
  link_start cfg f x → rtc (link_step cfg f) x x' → 0 ≤ from < 2 ^ 64 →
  received f (lk_log x') `prefix_of` wire.bytes_of (subscribe_frame from) →
  sent f (lk_log x') = [] ∨ ∃ d, len x ≤ d ≤ len x' ∧
    feed_ok cfg (ring_log2 cfg) (opening d from) (opening_seq d from)
      (mkFeed (lk_ring x') (lk_pub x') (lk_sub x') (sent f (lk_log x'))).
Proof.
  intros Hst Hr Hfrom Hp. pose proof (link_reach_ok _ _ _ (link_start_ok _ Hst) Hr) as [_ _ _ _ _ [Hw|(from' & d & Hd & Hg)]].
  - left. apply Hw.
  - right. exists d. destruct Hg as [(b & m & Hm & <- & Hl & Hrec) _ Hd' Hg]. split; [lia|]. rewrite Hrec in Hp.
    assert (b = wire.bytes_of (subscribe_frame from)) as ->.
    { change (wire.sizeof wire.Subscribe) with 16 in Hl. destruct Hp as [y Hy].
      apply (f_equal (take 16)) in Hy. rewrite <- app_assoc, take_app_length' in Hy by lia.
      rewrite take_ge in Hy by reflexivity. done. }
    destruct (read_front _ [] (subscribe_valid from Hfrom)) as [E1 _]. rewrite app_nil_r in E1. rewrite Hm in E1. by injection E1 as ->.
Qed.
End Links.

(** ** Evaluating a connection *)
Inductive Act := APub (fr : MdFrame) | APump (now : Z) (os : list WriteResult) | AWrite (os : list WriteResult) | ARead (rs : list ReadResult).

Definition link_act (cfg : PubConfig) (f : Z) (a : Act) (x : Link) : option Link :=
  match a with
  | APub fr => '(r, _) ← md_append (lk_ring x) fr; Some (mkLink r (lk_pub x ++ [fr]) (lk_sub x) (lk_log x) (lk_marks x))
  | APump now os =>
      s1 ← refill cfg (lk_ring x) now (lk_sub x);
      '(s', out, ok, arm) ← pump cfg (lk_ring x) now os (lk_sub x);
      if (ok : bool) then
        Some (mkLink (lk_ring x) (lk_pub x) s' (lk_log x ++ Sent f out :: arm_calls arm)
                (MPump now (blocked out s') (queued (lk_sub x) s1) :: lk_marks x))
      else None
  | AWrite os =>
      '(p', _) ← on_writable f os (alone cfg f x); s' ← subs_ p' !! f;
      Some (mkLink (lk_ring x) (lk_pub x) s' (p_calls p') (lk_marks x))
  | ARead rs =>
      p' ← on_readable f rs (alone cfg f x); s' ← subs_ p' !! f;
      Some (mkLink (lk_ring x) (lk_pub x) s' (p_calls p') (if queued (lk_sub x) s' then MGap :: lk_marks x else lk_marks x))
  end.

Definition act_ok (cfg : PubConfig) (a : Act) (x : Link) : Prop :=
  match a with
  | APub fr => md_ok fr ∧ Z.of_nat (length (lk_pub x)) + 2 < 2 ^ 32
  | APump now os => clocked now (lk_marks x) ∧
      match refill cfg (lk_ring x) now (lk_sub x) with Some s1 => answers_ok os (Z.of_nat (length (unsent (conn s1)))) | None => True end
  | AWrite os => answers_ok os (Z.of_nat (length (unsent (conn (lk_sub x)))))
  | ARead rs => Forall bytes_read rs
  end.

Fixpoint link_acts (cfg : PubConfig) (f : Z) (acts : list Act) (x : Link) : option Link :=
  match acts with [] => Some x | a :: acts => x ← link_act cfg f a x; link_acts cfg f acts x end.

Fixpoint acts_ok (cfg : PubConfig) (f : Z) (acts : list Act) (x : Link) : Prop :=
  match acts with
  | [] => True
  | a :: acts => act_ok cfg a x ∧ match link_act cfg f a x with Some x => acts_ok cfg f acts x | None => True end
  end.

Lemma link_act_step cfg f a x x' : act_ok cfg a x → link_act cfg f a x = Some x' → link_step cfg f x x'.
Proof.
  intros Ha E. destruct x as [ring pub s log ms], a as [fr|now os|os|rs]; simpl in *.
  - destruct Ha. apply bind_Some in E as ([r q] & E1 & [= <-]). by eapply link_publish.
  - destruct Ha as [Hc Ha]. apply bind_Some in E as (s1 & E1 & E). rewrite E1 in Ha.
    apply bind_Some in E as ([[[s' out] ok] arm] & E2 & E). destruct ok; [|done]. injection E as <-. by eapply link_pump.
  - apply bind_Some in E as ([p' out] & E1 & E). apply bind_Some in E as (s' & E2 & [= <-]). by eapply link_writable.
  - apply bind_Some in E as (p' & E1 & E). apply bind_Some in E as (s' & E2 & [= <-]). by eapply link_readable.
Qed.

Lemma link_acts_run cfg f acts x x' : acts_ok cfg f acts x → link_acts cfg f acts x = Some x' → rtc (link_step cfg f) x x'.
Proof.
  revert x. induction acts as [|a acts IH]; intros x Ha E; simpl in *; [by injection E as <-|].
  destruct Ha as [Ha Has]. apply bind_Some in E as (x1 & E1 & E). rewrite E1 in Has.
  eapply rtc_l; [by eapply link_act_step|by apply IH].
Qed.
