(* ===== verification/MdTheorems.v ===== *)
(** The theorems about the market-data client and its stream of frames. *)
From S2P Require Import Prelude Poller Calls Protocol Ring WireTheorems Net Publisher Stream NetTheorems Gateway Parse Frames Sockets MdClient MdAccount Delivery MdSession Streams Fanout Link.

(** ** Cutting a byte stream into frames *)

(** C31: [for_each_frame] on arbitrary bytes: either the buffer is a sequence of
    frames and an incomplete rest, and the loop returns after one callback per
    frame, in order, leaving exactly that rest; or it contains a header whose
    length is 0, and then no number of iterations is enough. *)
Theorem for_each_frame_terminates (rx : list Z) :
  Forall byte rx → Z.of_nat (length rx) < 2 ^ 63 →
  (∃ ps tail, cut rx ps tail ∧
    ∀ (St : Type) (fn : Z → list Z → St → option St) (st : St),
      for_each_frame fn rx st = (λ st', (tail, st')) <$> call_all fn ps st) ∨
  (stuck rx ∧ ∀ (St : Type) (fn : Z → list Z → St → option St) (st : St) (fuel : nat),
      frame_loop fn fuel rx 0 st = None).
Proof.
  intros Hb Hl. destruct (cut_or_stuck (length rx) rx ltac:(lia) Hb) as [(ps & tail & Hc)|Hs].
  - left. exists ps, tail. split; [done|]. intros St fn st. by apply for_each_frame_cut.
  - right. split; [done|]. intros St fn st fuel. rewrite frame_loop_of, drop_0 by (done || lia).
    by rewrite frames_of_stuck.
Qed.

(** Two frames and the first bytes of a third. *)
Lemma for_each_frame_terminates_witness :
  let rx := wire.bytes_of (gap_frame 1 3) ++ wire.bytes_of (heartbeat_frame 9 5) ++ [24; 0; 34] in
  (∃ ps tail, cut rx ps tail ∧
    ∀ (St : Type) (fn : Z → list Z → St → option St) (st : St),
      for_each_frame fn rx st = (λ st', (tail, st')) <$> call_all fn ps st) ∨
  (stuck rx ∧ ∀ (St : Type) (fn : Z → list Z → St → option St) (st : St) (fuel : nat),
      frame_loop fn fuel rx 0 st = None).
Proof.
  apply for_each_frame_terminates; [|vm_compute; reflexivity].
  apply Forall_app. split; [|apply Forall_app; split]; [apply wire.wk_format, gap_valid; lia|apply wire.wk_format, beat_valid; lia|].
  repeat (apply Forall_cons_2; [unfold byte; lia|]). apply Forall_nil_2.
Defined.

(** Eight zero bytes are such a header: the client spins on them forever. *)
Example zero_header_spins fuel : frame_loop (λ _ _ (n : Z), Some n) fuel (replicate 8 0) 0 0 = None.
Proof.
  rewrite frame_loop_of; [|simpl; lia..|apply Forall_replicate; unfold byte; lia].
  rewrite frames_of_stuck; [done|]. by eapply stuck_here.
Qed.

(** ** The market-data client *)

Lemma demo_frames_ok : Forall md_ok demo_frames.
Proof.
  do 3 (apply Forall_cons_2; [split; [first [apply (make_valid wire.Top 0)|apply (make_valid wire.Trade 0)]; lia|split; reflexivity]|]).
  apply Forall_nil_2.
Qed.

(** Three frames in a ring of two.  The socket is accepted and pumped; the
    Subscribe arrives in two reads with a pump in between; then one pump sends the
    gap and two frames, and the client reads 100 bytes in two pieces. *)
Definition demo_accepted (f : Z) : Link := mkLink demo_ring demo_frames (mkSub (Conn_init f) false 0 0 0) [] [].
Definition demo_handshake (from : Z) : list Act :=
  let bs := wire.bytes_of (subscribe_frame from) in
  [APump 3 []; ARead [Got (take 10 bs); ReadInterrupted; ReadAgain]; APump 4 []; ARead [Got (drop 10 bs); ReadAgain]].
Definition demo_acts (from : Z) (more : list Act) (f : Z) : Link :=
  default (demo_accepted f) (link_acts demo_cfg f (demo_handshake from ++ more) (demo_accepted f)).

Definition demo_link : Link := demo_acts 1 [APump 7 [Wrote 100; Again]] 5.
Definition demo_out : list Z := sent 5 (lk_log demo_link).

Lemma demo_start f : link_start demo_cfg f (demo_accepted f).
Proof. split; [vm_compute; reflexivity|apply demo_frames_ok|vm_compute; reflexivity|done..]. Qed.

(** Whatever a demonstration does, it is a run of the connection. *)
Ltac acts_fine := vm_compute; repeat first [exact I | reflexivity | discriminate | constructor].

Lemma demo_run from more f x : acts_ok demo_cfg f (demo_handshake from ++ more) (demo_accepted f) →
  link_acts demo_cfg f (demo_handshake from ++ more) (demo_accepted f) = Some x → rtc (link_step demo_cfg f) (demo_accepted f) x.
Proof. apply link_acts_run. Qed.

Definition demo_ticks : list Tick :=
  [mkTick 1 (SelReady (Got (take 30 demo_out))) 8; mkTick 2 SelTimeout 9;
   mkTick 3 (SelReady (Got (drop 30 demo_out))) 10].
Definition demo_md_cfg : MdConfig := mkMdConfig false 3000000000 true (2 ^ 64 - 1).
Definition demo_close : Tick := mkTick 4 (SelReady Closed) 11.

Lemma demo_link_run : rtc (link_step demo_cfg 5) (demo_accepted 5) demo_link.
Proof. apply (demo_run 1 [APump 7 [Wrote 100; Again]]); [acts_fine|vm_compute; reflexivity]. Qed.

(** What the client has then counted: two whole items, the third cut off. *)
Example demo_session_counts :
  (λ st, (last_seq st, frames st, gaps st, lost st, heartbeats st))
    <$> md_session demo_md_cfg (demo_ticks ++ [demo_close]) [] 1 MdState_init = Some (2, 1, 1, 1, 0).
Proof. vm_compute. reflexivity. Qed.

(** The second connection of the demonstration: from sequence 3, one frame. *)
Definition demo_st1 : MdState := default MdState_init (md_session demo_md_cfg (demo_ticks ++ [demo_close]) [] 1 MdState_init).
Definition demo_link2 : Link := demo_acts 3 [APump 20 [Wrote 40; Again]] 6.
Definition demo_ticks2 : list Tick := [mkTick 21 (SelReady (Got (sent 6 (lk_log demo_link2)))) 22].

Lemma demo_link2_run : rtc (link_step demo_cfg 6) (demo_accepted 6) demo_link2.
Proof. apply (demo_run 3 [APump 20 [Wrote 40; Again]]); [acts_fine|vm_compute; reflexivity]. Qed.

(** The whole account of both connections: one gap of one frame, then 2 and 3. *)
Example demo_reconnect_counts :
  (λ st, (last_seq st, frames st, gaps st, lost st, heartbeats st))
    <$> md_session demo_md_cfg (demo_ticks2 ++ [demo_close]) [] 20 demo_st1 = Some (3, 2, 1, 1, 0).
Proof. vm_compute. reflexivity. Qed.

(** ** Two corner cases of resuming *)

(** A client that is ahead of the publisher, as after a restart of the server,
    is answered with a Gap that points backwards; its loss counter, an unsigned
    difference, then grows by almost 2^64 instead of by a number of frames. *)
Theorem stale_resume_wraps (hd from now : Z) (s : Subscriber) (st : MdState) :
  0 ≤ hd → hd + 1 < from < 2 ^ 32 → lost st = 0 →
  let s' := start_cursor hd from s in
  tx (conn s') = tx (conn s) ++ wire.bytes_of (gap_frame from (hd + 1)) ∧ next_seq s' = hd + 1 ∧
  ∃ st', on_frame true now (wire.MsgType_val wire.MsgGap) (wire.bytes_of (gap_frame from (hd + 1))) st = Some st' ∧
    lost st' = 2 ^ 64 - (from - (hd + 1)) ∧ last_seq st' = hd.
Proof.
  intros Hh Hf Hz s'. unfold s', start_cursor. rewrite (u32_small (hd + 1)) by lia.
  destruct (Z.ltb_spec (hd + 1) from); [|lia]. rewrite orb_true_r. split_and!; [done|done|].
  pose proof (gap_valid from (hd + 1) ltac:(lia) ltac:(lia)) as Hv.
  destruct (read_front _ [] Hv) as [Er Eh]. rewrite app_nil_r in *. unfold on_frame, on_gap. rewrite Eh, Er.
  eexists. split; [reflexivity|]. cbn -[u64 u32 Z.sub Z.pow]. rewrite Hz. split; [|rewrite u32_small; lia].
  unfold u64. rewrite (Z.add_0_l), Z.mod_mod by lia. symmetry. apply (Z.mod_unique _ _ (-1)); lia.
Qed.

(** A client started with [--from 0] (new frames only) or [--from n] whose first
    connection ends before anything arrives asks for the history from 1 next. *)
Example reconnect_forgets_from :
  (r_asked ∘ snd) <$> md_run demo_md_cfg
    [mkAttempt 0 true [Wrote 16] 1 [mkTick 1 (SelReady Closed) 2] 3;
     mkAttempt 4 true [Wrote 16] 5 [mkTick 5 (SelReady Closed) 6] (2 ^ 64 - 1)] (MdRun_init 500) = Some [500; 1].
Proof. vm_compute. reflexivity. Qed.

(** With [--no-reconnect] a failed connect ends the client, but a failed write
    of the Subscribe frame does not: it connects again. *)
Example no_reconnect_retries :
  (r_asked ∘ snd) <$> md_run (mkMdConfig false 3000000000 false (2 ^ 64 - 1))
    [mkAttempt 0 true [Failed] 1 [] 1; mkAttempt 2 true [Wrote 16] 3 [mkTick 3 (SelReady Closed) 4] 5]
    (MdRun_init 7) = Some [7].
Proof. vm_compute. reflexivity. Qed.
