(* ===== verification/Timing.v ===== *)
(** The publisher's clocks over the life of one connection: when [pump] gives a
    peer up for stalled and when it sends a heartbeat, stated on the history of
    the connection's pumps instead of on [stalled_since_ns] and [last_tx_ns]. *)
From S2P Require Import Prelude Poller Calls Protocol Ring WireTheorems Net Publisher Stream Gateway Sockets.
From S2P Require Import Streams MdClient MdAccount Delivery NetTheorems Fanout Link MdTheorems.

(** The first of the blocked pumps that come right before [now], or [now] itself. *)
Fixpoint blocked_since (ms : list Mark) (now : Z) : Z :=
  match ms with
  | MPump t true _ :: ms => blocked_since ms t
  | MGap :: ms => blocked_since ms now
  | _ => now
  end.

(** The last pump that queued anything, or else the first pump since the
    connection was accepted or answered with a gap, or [now] itself. *)
Fixpoint quiet_since (ms : list Mark) (now : Z) : Z :=
  match ms with
  | [] | MGap :: _ => now
  | MPump t _ q :: ms => if q then t else quiet_since ms t
  end.

(** [stalled_since_ns] and [last_tx_ns] as functions of the history. *)
Fixpoint stall_clock (ms : list Mark) : Z :=
  match ms with MPump t true _ :: ms => blocked_since ms t | MGap :: ms => stall_clock ms | _ => 0 end.
Definition tx_clock (ms : list Mark) : Z := quiet_since ms 0.

Lemma clocked_now now ms : clocked now ms → 0 < now < 2 ^ 64.
Proof. by destruct ms as [|[] ?]; intros []. Qed.

(** Both clocks lie between the first pump and now. *)
Lemma blocked_since_past ms now : clocked now ms → 0 < blocked_since ms now ≤ now.
Proof.
  revert now. induction ms as [|[t [] q|] ms IH]; intros now [? Hc]; simpl; try lia; [|by apply IH].
  destruct Hc as [Ht Hc%IH]. lia.
Qed.

Lemma quiet_since_past ms now : clocked now ms → 0 < quiet_since ms now ≤ now.
Proof.
  revert now. induction ms as [|[t b q|] ms IH]; intros now [? Hc]; simpl; try lia.
  destruct Hc as [Ht Hc]. pose proof (clocked_now _ _ Hc). pose proof (IH _ Hc). destruct q; lia.
Qed.

(** The clocks the code reads, a zero standing for "not set". *)
Lemma stall_clock_read now ms : clocked now ms →
  (if stall_clock ms =? 0 then now else stall_clock ms) = blocked_since ms now.
Proof.
  revert now. induction ms as [|[t [] q|] ms IH]; intros now [? Hc]; [done| |done|by apply IH].
  destruct Hc as [_ Hc%blocked_since_past]. simpl. by destruct (Z.eqb_spec (blocked_since ms t) 0); [lia|].
Qed.

Lemma tx_clock_read now ms : clocked now ms → (if tx_clock ms =? 0 then now else tx_clock ms) = quiet_since ms now.
Proof.
  intros Hc. destruct ms as [|[t b q|] ms]; [done| |done]. unfold tx_clock. cbn [quiet_since].
  assert (0 < (if q then t else quiet_since ms t)).
  { destruct Hc as (_ & _ & Hc). pose proof (clocked_now _ _ Hc). pose proof (quiet_since_past _ _ Hc). destruct q; lia. }
  by destruct (Z.eqb_spec (if q then t else quiet_since ms t) 0); [lia|].
Qed.

(** ** What a refill does to the clocks *)

(** The buffer grew by [bs]; what is queued sets the heartbeat clock. *)
Definition refilled (now : Z) (bs : list Z) (s s' : Subscriber) : Prop :=
  unsent (conn s') = unsent (conn s) ++ bs ∧ stalled_since_ns s' = stalled_since_ns s ∧
  last_tx_ns s' = (if bs is [] then last_tx_ns s else now).

Lemma refilled_refl now s : refilled now [] s s.
Proof. split_and!; [by rewrite app_nil_r|done..]. Qed.

Lemma refilled_trans now bs1 bs2 s s1 s2 : refilled now bs1 s s1 → refilled now bs2 s1 s2 → refilled now (bs1 ++ bs2) s s2.
Proof.
  intros (U1 & T1 & L1) (U2 & T2 & L2). split_and!; [by rewrite U2, U1, app_assoc|congruence|].
  destruct bs2; [rewrite app_nil_r; congruence|]. by destruct bs1.
Qed.

(** Every place that queues bytes pushes them and stamps the clock. *)
Lemma refilled_push now bs s n : conn_ok (conn s) → Z.of_nat (length (tx (conn s)) + length bs) < 2 ^ 64 → bs ≠ [] →
  refilled now bs s (set_last_tx now (set_next_seq n (push_tx bs s))).
Proof. intros Hc Hl Hn. destruct (append_tx_ok (conn s) bs Hc Hl) as [_ H]. split_and!; [exact H|done|by destruct bs]. Qed.

Lemma skip_lost_grown cfg k ring h now s : sub_ok k ring h s → tx_fits s → ∃ bs, refilled now bs s (skip_lost cfg ring now s).
Proof.
  intros Hs Hf. unfold skip_lost. destruct (_ && _); [|by exists []; apply refilled_refl].
  eexists. eapply (refilled_push now _ s (oldest ring)); [apply Hs| |].
  - unfold tx_fits in Hf. rewrite gap_size. lia.
  - intros H. by apply (f_equal length) in H; rewrite gap_size in H.
Qed.

Lemma copy_frames_grown fuel k ring h limit now s s' :
  sub_ok k ring h s → (next_seq s ≤ Z.of_nat (length h) → limit ≤ backlog (conn s) ∨ oldest ring ≤ next_seq s) →
  Z.of_nat (length (tx (conn s))) + 64 * (Z.of_nat (length h) + 1 - next_seq s) < 2 ^ 64 →
  copy_frames fuel ring limit now s = Some s' → ∃ bs, refilled now bs s s'.
Proof.
  revert s. induction fuel as [|fuel IH]; intros s Hs Hold Htx; [done|].
  cbn [copy_frames]. unfold head. rewrite (ro_head _ _ _ (su_ring _ _ _ _ Hs)).
  destruct (Z.leb_spec (next_seq s) (Z.of_nat (length h))) as [Hle|]; simpl andb; [|intros [= <-]; exists []; apply refilled_refl].
  destruct (Z.ltb_spec (backlog (conn s)) limit) as [Hb|]; [|intros [= <-]; exists []; apply refilled_refl].
  destruct (Hold Hle) as [|Ho]; [lia|].
  destruct (held_frame k ring h s (next_seq s) Hs) as (bs & _ & -> & Hbs); [lia|]. cbn [mbind option_bind].
  pose proof (su_next _ _ _ _ Hs). pose proof (su_seq _ _ _ _ Hs). rewrite u32_small by lia.
  destruct (push_tx_ok k ring h s bs (next_seq s + 1) Hs) as (Hs1 & _ & _ & Hl1); [lia..|].
  apply (set_last_tx_ok _ _ _ _ now) in Hs1. intros (bs' & Hg)%(IH _ Hs1); [|simpl in *; lia..].
  exists (bs ++ bs'). eapply refilled_trans; [|exact Hg]. apply refilled_push; [apply Hs|lia|by destruct bs; simpl in *; [lia|]].
Qed.

(** Frames and gaps move the cursor. *)
Lemma follow_stays n l n' : follow n l = Some n' → n' ≤ n → Forall beatless l → l = [].
Proof.
  destruct l as [|i l]; [done|]. intros (m & Em & E%follow_mono)%bind_Some Hn [Hi _]%Forall_cons. exfalso.
  destruct i as [q|a b|t d]; simpl in Em; [destruct (_ =? _)|destruct (Z.eqb_spec a n), (Z.ltb_spec a b)|done]; simpl in Em; simplify_eq; lia.
Qed.

Section Clocks.
Context (cfg : PubConfig) (k : Z) (ring : ReplayRing) (h : list (list Z)) (now : Z) (s : Subscriber).
Context (Hs : sub_ok k ring h s) (Hsub : subscribed s = true) (Hmax : 0 < max_backlog cfg).
Context (Htx : Z.of_nat (length (tx (conn s))) + 64 * (Z.of_nat (length h) + 2) < 2 ^ 63).

(** The refill up to the heartbeat, with the clocks. *)
Lemma refill_grown : ∃ s2 l bs, refill cfg ring now s = Some (beat cfg ring now s2) ∧ sub_ok k ring h s2 ∧ tx_fits s2 ∧
  refilled now bs (start_clock now s) s2 ∧ bs = stream_bytes h l ∧ follow (next_seq s) l = Some (next_seq s2) ∧
  Forall beatless l ∧ (next_seq s2 = Z.of_nat (length h) + 1 ∨ max_backlog cfg ≤ backlog (conn s2)).
Proof.
  destruct (refill_copied cfg k ring h now s Hs Hsub Hmax Htx) as (s2 & l & E2 & E & H2 & T2 & U2 & F2 & M2 & S2 & _ & End2).
  destruct (start_clock_ok k ring h now s Hs) as (Hs0 & Ec & En & _). set (s0 := start_clock now s) in *.
  assert (tx_fits s0) as Hf by (unfold tx_fits; rewrite Ec; lia).
  destruct (skip_lost_ok cfg k ring h now s0 Hs0 Hf) as (l1 & H1 & _ & _ & _ & O1 & N1 & _ & T1 & _).
  destruct (skip_lost_grown cfg k ring h now s0 Hs0 Hf) as (bs1 & G1). rewrite Ec, En in *.
  pose proof (su_next _ _ _ _ Hs). pose proof (su_next _ _ _ _ H1).
  eapply copy_frames_grown in E2 as (bs2 & G2); [|exact H1|tauto|lia].
  pose proof (refilled_trans _ _ _ _ _ _ G1 G2) as G. exists s2, l, (bs1 ++ bs2). split_and!; try done.
  destruct G as (U & _). rewrite Ec, U2 in U. by apply app_inv_head in U.
Qed.

(** An item is never empty, so a refill that adds no byte has added no item. *)
Lemma items_nonempty l n : follow (next_seq s) l = Some n → n ≤ Z.of_nat (length h) + 1 → Forall beatless l →
  stream_bytes h l = [] → l = [].
Proof.
  intros Hf Hn Hb. destruct l as [|i l]; [done|]. intros He.
  assert (Forall (item_in (Z.of_nat (length h))) (i :: l)) as [Hi _]%Forall_cons.
  { eapply follow_in; [exact Hf| |apply (su_next _ _ _ _ Hs)|done]. eapply Forall_impl; [exact Hb|by intros []]. }
  apply app_eq_nil in He as [He _]. destruct i as [q|a b|t d]; simpl in He, Hi; [|by apply (f_equal length) in He..].
  destruct (lookup_lt_is_Some_2 h (Z.to_nat (q - 1))) as [bs E]; [lia|]. rewrite E in He. simpl in He. subst bs.
  destruct (ro_frame _ _ _ (su_ring _ _ _ _ Hs) _ _ E) as [Hst _]. pose proof (st_size _ _ Hst). simpl in *. lia.
Qed.

(** When the heartbeat is due: the reader has every frame and every byte, and
    nothing was queued for the configured time. *)
Definition beat_due : Prop :=
  unsent (conn s) = [] ∧ next_seq s = Z.of_nat (length h) + 1 ∧
  u64 (heartbeat_ms cfg * 1000000) ≤ u64 (now - last_tx_ns (start_clock now s)).

Lemma beat_grown s2 : sub_ok k ring h s2 → tx_fits s2 →
  refilled now (if (u64 (heartbeat_ms cfg * 1000000) <=? u64 (now - last_tx_ns s2)) && negb (pending (conn s2))
             then item_bytes h (IBeat now (head ring)) else []) s2 (beat cfg ring now s2).
Proof.
  intros H2 Hf. unfold beat. destruct (_ && _); [|apply refilled_refl].
  apply (refilled_push now _ s2 (next_seq s2)); [apply H2| |].
  - unfold tx_fits in Hf. cbn [item_bytes]. rewrite beat_size. lia.
  - intros H. by apply (f_equal length) in H.
Qed.

(** The whole refill: what is queued, the clocks, and the heartbeat. *)
Lemma refill_clocked : ∃ s1 l, refill cfg ring now s = Some s1 ∧ sub_ok k ring h s1 ∧
  refilled now (stream_bytes h l) (start_clock now s) s1 ∧ follow (next_seq s) l = Some (next_seq s1) ∧
  (beat_due ∧ l = [IBeat now (head ring)] ∨ ¬ beat_due ∧ Forall beatless l).
Proof.
  destruct refill_grown as (s2 & l & bs & E & H2 & T2 & G2 & -> & F2 & M2 & End2).
  pose proof (beat_grown s2 H2 T2) as G3. pose proof (refilled_trans _ _ _ _ _ _ G2 G3) as G.
  destruct (beat_ok cfg k ring h now s2 H2 T2) as (_ & H3 & _ & _ & _ & E3 & _); [destruct End2; [by left|right; lia]|].
  pose proof (backlog_ok _ (su_conn _ _ _ _ H2)) as Hb2. pose proof (pending_ok _ (su_conn _ _ _ _ H2)) as Hp2.
  pose proof (su_next _ _ _ _ H2) as Hn2. destruct G2 as (U2 & _ & L2). destruct (start_clock_ok k ring h now s Hs) as (_ & Ec & _).
  rewrite Ec in U2. exists (beat cfg ring now s2). destruct (_ && _) eqn:Ed.
  - apply andb_true_iff in Ed as [Hd%Z.leb_le Hnp]. rewrite Hp2, negb_involutive, bool_decide_eq_true in Hnp.
    rewrite Hnp in Hb2, U2. destruct End2 as [End2|]; [|simpl in *; lia]. symmetry in U2. apply app_eq_nil in U2 as [U0 Ul].
    assert (l = []) as -> by (eapply items_nonempty; [exact F2|lia|done|done]). injection F2 as F2.
    exists [IBeat now (head ring)]. rewrite stream_bytes_one. split_and!; [done..| |].
    + cbn [follow follow_one]. rewrite E3, <- F2. unfold head. rewrite (ro_head _ _ _ (su_ring _ _ _ _ Hs)).
      rewrite F2, End2. by destruct (Z.eqb_spec (Z.of_nat (length h)) (Z.of_nat (length h) + 1 - 1)); [|lia].
    + left. split; [|done]. split_and!; [done|congruence|]. simpl in L2. by rewrite L2 in Hd.
  - exists l. rewrite app_nil_r in G. split_and!; [done..|by rewrite E3|]. right. split; [|done].
    intros (U0 & Hn & Hd). rewrite (follow_stays _ _ _ F2 ltac:(lia) M2), U0 in U2. rewrite (follow_stays _ _ _ F2 ltac:(lia) M2) in L2.
    simpl in U2, L2. rewrite Hp2, U2, L2 in Ed. apply Z.leb_le in Hd. by rewrite Hd in Ed.
Qed.
End Clocks.

(** ** The verdict of one pump *)
Section Verdict.
Context (cfg : PubConfig) (ring : ReplayRing) (now : Z) (s s1 : Subscriber) (os os' : list WriteResult).
Context (c : Conn) (sent : list Z) (ok : bool) (arm : option (Z * bool)).
Context (Hr : refill cfg ring now s = Some s1) (Hc : conn_ok (conn s1)).
Context (Ha : answers_ok os (Z.of_nat (length (unsent (conn s1))))).
Context (Hf : flush_and_arm os (conn s1) = Some (c, sent, ok, os', arm)).

Definition stall_start : Z := if stalled_since_ns s1 =? 0 then now else stalled_since_ns s1.

Definition verdict : bool :=
  ok && negb (blocked sent (set_conn c s1) && (u64 (stall_timeout_ms cfg * 1000000) <=? u64 (now - stall_start))).

Definition after_pump : Subscriber :=
  if ok then set_stalled (if blocked sent (set_conn c s1) then stall_start else 0) (set_conn c s1) else set_conn c s1.

(** The backlog is unchanged exactly if no byte was taken. *)
Lemma pump_verdict : pump cfg ring now os s = Some (after_pump, sent, verdict, arm).
Proof.
  unfold pump, after_pump, verdict. rewrite Hr. cbn [mbind option_bind]. rewrite Hf. cbn [mbind option_bind]. destruct ok; [|done].
  destruct (flush_and_arm_ok _ _ _ _ _ _ Hc Ha Hf) as (K1 & K2 & _). cbn [negb andb conn set_conn].
  assert (pending c && (backlog c =? backlog (conn s1)) = blocked sent (set_conn c s1)) as ->.
  { rewrite (pending_ok _ K1), (backlog_ok _ K1), (backlog_ok _ Hc), K2, length_app. unfold blocked. simpl conn.
    destruct sent; simpl; repeat case_bool_decide; simpl; try done; by apply Z.eqb_neq || apply Z.eqb_eq; lia. }
  unfold stall_start. destruct (blocked _ _); [|done]. cbn [stalled_since_ns set_conn].
  destruct (stalled_since_ns s1 =? 0) eqn:Ez; cbn [stalled_since_ns set_stalled set_conn]; destruct (_ <=? _); try done; by destruct s1.
Qed.
End Verdict.

(** ** The clocks follow the history *)
Record clocks_ok (s : Subscriber) (ms : list Mark) : Prop := {
  ck_stall : stalled_since_ns s = stall_clock ms;
  ck_tx : last_tx_ns s = tx_clock ms }.

Lemma start_clock_tx now ms s : clocks_ok s ms → clocked now ms → last_tx_ns (start_clock now s) = quiet_since ms now.
Proof. intros [_ Et] Hc. rewrite <- (tx_clock_read _ _ Hc), <- Et. unfold start_clock. by destruct (_ =? 0). Qed.

Lemma start_clock_same now s : stalled_since_ns (start_clock now s) = stalled_since_ns s ∧
  conn (start_clock now s) = conn s ∧ next_seq (start_clock now s) = next_seq s ∧ subscribed (start_clock now s) = subscribed s.
Proof. unfold start_clock. by destruct (_ =? 0). Qed.

Lemma stall_start_read now ms s s1 : clocks_ok s ms → clocked now ms → stalled_since_ns s1 = stalled_since_ns s →
  stall_start now s1 = blocked_since ms now.
Proof. intros [Es _] Hc E. rewrite <- (stall_clock_read _ _ Hc), <- Es, <- E. done. Qed.

(** The elapsed times do not wrap. *)
Lemma elapsed ms now : clocked now ms → u64 (now - blocked_since ms now) = now - blocked_since ms now ∧
  u64 (now - quiet_since ms now) = now - quiet_since ms now.
Proof.
  intros Hc. pose proof (clocked_now _ _ Hc). pose proof (blocked_since_past _ _ Hc). pose proof (quiet_since_past _ _ Hc).
  by rewrite !u64_small by lia.
Qed.

Section Timed.
Context (cfg : PubConfig) (limit : 0 < max_backlog cfg < 2 ^ 40) (ring_pos : 0 ≤ ring_log2 cfg < 58) (f : Z).
#[local] Abbreviation hist x := (stamp_all 1 (lk_pub x)).

(** When a heartbeat is due on the connection. *)
Definition link_due (now : Z) (x : Link) : Prop :=
  subscribed (lk_sub x) = true ∧ beat_due cfg (hist x) now (lk_sub x).

(** The refill of a connection in any state, with its clocks. *)
Lemma link_refill d0 x now : link_ok cfg f d0 x → ∃ s1 l,
  refill cfg (lk_ring x) now (lk_sub x) = Some s1 ∧ conn_ok (conn s1) ∧
  refilled now (stream_bytes (hist x) l) (start_clock now (lk_sub x)) s1 ∧
  follow (next_seq (lk_sub x)) l = Some (next_seq s1) ∧
  (link_due now x ∧ l = [IBeat now (Z.of_nat (length (lk_pub x)))] ∨ ¬ link_due now x ∧ Forall beatless l).
Proof.
  intros Hx. destruct (start_clock_same now (lk_sub x)) as (_ & Ec & En & Es). unfold link_due.
  destruct (lo_state _ _ _ _ Hx) as [Hw|(from & d & _ & Hg)].
  - destruct Hw as [W1 W2 _ _]. exists (start_clock now (lk_sub x)), []. rewrite Ec. split_and!.
    + unfold refill. fold (start_clock now (lk_sub x)). by rewrite Es, W1.
    + rewrite W2. split; simpl; lia.
    + apply refilled_refl.
    + by rewrite En.
    + right. split; [rewrite W1; by intros [? _]|constructor].
  - pose proof (fg_feed _ _ _ _ _ _ _ _ Hg) as Hf. pose proof (feed_tx cfg _ _ _ limit _ Hf) as Htx. destruct Hf as [Hs Hsub _ _ _ _].
    destruct (refill_clocked cfg _ _ _ now _ Hs Hsub ltac:(lia) Htx) as (s1 & l & E & H1 & G & F & Hb). simpl in *.
    assert (head (lk_ring x) = Z.of_nat (length (lk_pub x))) as Eh
      by (unfold head; by rewrite (ro_head _ _ _ (su_ring _ _ _ _ Hs)), length_stamp_all).
    rewrite Eh in Hb. exists s1, l. split_and!; try done; [apply H1|]. destruct Hb as [[? ?]|[? ?]]; [left|right; split]; tauto.
Qed.

Lemma pump_clocks d0 ring pub s log ms now os s1 s' sent arm :
  let x := mkLink ring pub s log ms in
  link_ok cfg f d0 x → clocks_ok s ms → clocked now ms → refill cfg ring now s = Some s1 →
  answers_ok os (Z.of_nat (length (unsent (conn s1)))) → pump cfg ring now os s = Some (s', sent, true, arm) →
  clocks_ok s' (MPump now (blocked sent s') (queued s s1) :: ms).
Proof.
  intros x Hx Hck Hc E1 Ha Ep. destruct (link_refill d0 x now Hx) as (s1' & l & E & Hcn & (U & T & L) & _).
  simpl in E, U, T, L. rewrite E1 in E. injection E as <-. pose proof (start_clock_tx _ _ _ Hck Hc) as Et.
  destruct (start_clock_same now s) as (Est0 & Ec & _). rewrite Est0 in T. rewrite Ec in U.
  destruct (pump_inv _ _ _ _ _ _ _ _ Ep) as (s1' & c & os' & E & Ef & _). rewrite E1 in E. injection E as <-.
  rewrite (pump_verdict cfg _ now _ s1 os os' c sent true arm E1 Hcn Ha Ef) in Ep. simplify_eq.
  pose proof (stall_start_read now ms _ s1 Hck Hc T) as Est. split.
  - unfold after_pump. change (blocked sent (set_stalled _ _)) with (blocked sent (set_conn c s1)).
    simpl. rewrite Est. by destruct (blocked _ _).
  - unfold after_pump, tx_clock. cbn [quiet_since last_tx_ns set_stalled set_conn]. rewrite L, Et. unfold queued. rewrite U.
    destruct (stream_bytes _ l) as [|b bs].
    + rewrite app_nil_r, bool_decide_eq_true_2 by done. done.
    + rewrite bool_decide_eq_false_2; [done|]. intros H. apply (f_equal length) in H. rewrite length_app in H. simpl in H. lia.
Qed.

(** Reading a Subscribe restarts the heartbeat clock only if it is answered with a gap. *)
Lemma subscribe_clocks hd from rx' s ms : clocks_ok s ms → unsent (conn s) = [] →
  let s' := start_cursor hd from (mkSub (set_rx [] (set_rx rx' (conn s))) true (next_seq s) (last_tx_ns s) (stalled_since_ns s)) in
  conn_ok (conn s) → Z.of_nat (length (tx (conn s))) < 2 ^ 62 →
  clocks_ok s' (if queued s s' then MGap :: ms else ms).
Proof.
  intros [Ks Kt] Hu s' Hc Hl. unfold s', start_cursor. destruct (_ || _) eqn:Eo; [destruct (_ <? from)|].
  - set (g := wire.bytes_of (gap_frame from (u32 (hd + 1)))). set (c := set_rx [] (set_rx rx' (conn s))).
    assert (conn_ok c) as Hc' by (destruct Hc; by split).
    assert (length g = 24%nat) as Hg by apply gap_size. destruct (append_tx_ok c g Hc') as [_ Ha]; [rewrite Hg; unfold c; cbn [tx set_rx]; lia|].
    change (unsent c) with (unsent (conn s)) in Ha. rewrite Hu in Ha.
    unfold queued. rewrite bool_decide_eq_false_2; [by split|]. rewrite Hu. intros H. change (unsent (set_tx (tx c ++ g) c) = []) in H.
    rewrite Ha in H. by destruct g.
  - unfold queued. by rewrite bool_decide_eq_true_2 by done.
  - unfold queued. by rewrite bool_decide_eq_true_2 by done.
Qed.

Lemma link_step_clocks d0 x x' : link_ok cfg f d0 x → link_step cfg f x x' →
  clocks_ok (lk_sub x) (lk_marks x) → clocks_ok (lk_sub x') (lk_marks x').
Proof.
  intros Hx Hst Hck. destruct Hst as [ring pub s log ms fr ring' q Hfr Hl Ea|ring pub s log ms now os s1 s' out arm Hc E1 Ha Ep
    |ring pub s log ms os p' out s' Ha E Es|ring pub s log ms rs p' s' Hrs E Es]; simpl in *; [done|by eapply pump_clocks| |].
  - destruct (link_flush_ok cfg f d0 ring pub s log ms os p' out s' Hx Ha E Es) as (_ & c & ->). by destruct Hck.
  - destruct (on_readable_alone cfg f d0 _ rs p' s' Hx Hrs E Es) as (new & _ & _ & [->|(Hw & m & _ & _ & ->)]); simpl in *.
    + unfold queued. rewrite bool_decide_eq_true_2 by done. by destruct Hck.
    + pose proof (wa_conn _ _ _ Hw) as Ec. apply subscribe_clocks; [done|by rewrite Ec|by rewrite Ec; split; simpl; lia|].
      by rewrite Ec.
Qed.

Lemma link_reach_clocks x x' : link_start cfg f x → rtc (link_step cfg f) x x' →
  ∃ d0, link_ok cfg f d0 x' ∧ clocks_ok (lk_sub x') (lk_marks x').
Proof.
  intros Hst Hr. pose proof (link_start_ok cfg ring_pos f x Hst) as Hx. set (d0 := Z.of_nat _) in Hx. clearbody d0. exists d0.
  assert (clocks_ok (lk_sub x) (lk_marks x)) as Hck by (destruct Hst as [_ _ _ -> _ ->]; by split).
  split; [by eapply link_reach_ok|]. clear Hst. induction Hr as [|x1 x2 x3 Hst Hr IH]; [done|].
  apply IH; [by eapply link_step_ok|by eapply link_step_clocks].
Qed.
End Timed.

(** ** The two promises *)

(** C27: When a subscriber is dropped by [pump].  In every state a connection
    can reach from its accept on (pumped and written to before it subscribes,
    subscribed by bytes in any pieces, with or without the gap that answers a
    client ahead of the stream, for any publications, pumps and writable events),
    the next pump asks for the drop exactly if the write fails, or if bytes are
    waiting, it takes none of them, and the first of the uninterrupted run of
    such pumps up to this one is [stall_timeout_ms] or longer ago.  Only the pumps
    count: bytes taken by [on_writable] in between do not end the run. *)
Theorem stall_drop_exact (cfg : PubConfig) (f : Z) (x x' : Link) (now : Z) (os : list WriteResult) :
  0 < max_backlog cfg < 2 ^ 40 → 0 ≤ ring_log2 cfg < 58 → link_start cfg f x → rtc (link_step cfg f) x x' →
  clocked now (lk_marks x') → 0 ≤ stall_timeout_ms cfg * 1000000 < 2 ^ 64 →
  ∃ s1, refill cfg (lk_ring x') now (lk_sub x') = Some s1 ∧ ∀ c sent ok os' arm,
    answers_ok os (Z.of_nat (length (unsent (conn s1)))) → flush_and_arm os (conn s1) = Some (c, sent, ok, os', arm) →
    ∃ s' keep, pump cfg (lk_ring x') now os (lk_sub x') = Some (s', sent, keep, arm) ∧ conn s' = c ∧
      (keep = false ↔ ok = false ∨
        (sent = [] ∧ unsent c ≠ [] ∧ stall_timeout_ms cfg * 1000000 ≤ now - blocked_since (lk_marks x') now)).
Proof.
  intros Hm Hring Hst Hrun Hc Hto. destruct (link_reach_clocks cfg Hm Hring f x x' Hst Hrun) as (d0 & Hx & Hck).
  destruct (link_refill cfg Hm Hring f d0 x' now Hx) as (s1 & l & E & Hcn & (_ & T & _) & _).
  destruct (start_clock_same now (lk_sub x')) as (Es & _). rewrite Es in T.
  exists s1. split; [done|]. intros c sent ok os' arm Ha Ef. destruct (elapsed _ now Hc) as [Ee _].
  rewrite (pump_verdict cfg _ now _ s1 os os' c sent ok arm E Hcn Ha Ef). eexists _, _. split; [done|].
  unfold verdict. rewrite (stall_start_read now _ _ s1 Hck Hc T), Ee, u64_small by lia. unfold after_pump, blocked.
  cbn [conn set_conn]. split; [by destruct ok|]. destruct ok; simpl; [|split; [by left|done]].
  rewrite negb_false_iff, !andb_true_iff, negb_true_iff, bool_decide_eq_true, bool_decide_eq_false, Z.leb_le. naive_solver.
Qed.

(** A peer that reads slowly: one pump finds the socket full, [on_writable]
    passes five bytes on, and ten seconds after the first the next pump finds
    the socket full again. *)
Definition slow_acts : list Act := [APump 1000000000 [Again]; AWrite [Wrote 5; Again]].
Definition demo_slow : Link := demo_acts 1 slow_acts 5.

Lemma stall_drop_exact_witness :
  blocked_since (lk_marks demo_slow) 11000000000 = 1000000000 ∧
  ∃ s1, refill demo_cfg (lk_ring demo_slow) 11000000000 (lk_sub demo_slow) = Some s1 ∧ ∀ c sent ok os' arm,
    answers_ok [Again] (Z.of_nat (length (unsent (conn s1)))) → flush_and_arm [Again] (conn s1) = Some (c, sent, ok, os', arm) →
    ∃ s' keep, pump demo_cfg (lk_ring demo_slow) 11000000000 [Again] (lk_sub demo_slow) = Some (s', sent, keep, arm) ∧ conn s' = c ∧
      (keep = false ↔ ok = false ∨
        (sent = [] ∧ unsent c ≠ [] ∧ 10000 * 1000000 ≤ 11000000000 - blocked_since (lk_marks demo_slow) 11000000000)).
Proof.
  split; [vm_compute; reflexivity|].
  refine (stall_drop_exact demo_cfg 5 (demo_accepted 5) demo_slow 11000000000 [Again] _ _ (demo_start 5) _ _ _).
  - vm_compute. split; reflexivity.
  - vm_compute. split; [discriminate|reflexivity].
  - apply (demo_run 1 slow_acts); [acts_fine|vm_compute; reflexivity].
  - acts_fine.
  - vm_compute. split; [discriminate|reflexivity].
Defined.

(** A peer that takes five bytes every second, each time through the writable
    event that comes before the pump of the same turn, is dropped ten seconds
    after its first full socket although it never stopped reading. *)
Definition slow_turn (st : option (Publisher * list nat)) (i : nat) : option (Publisher * list nat) :=
  '(p, took) ← st;
  '(p, out) ← on_writable 5 [Wrote 5; Again] p;
  '(p, _) ← flush_all (Z.of_nat i * 1000000000) (λ _, [Again]) p;
  Some (p, took ++ [length out]).

Definition slow_turns (n : nat) : option (bool * list nat) :=
  p ← on_readable 5 [Got (wire.bytes_of (subscribe_frame 1)); ReadAgain] (alone demo_cfg 5 (demo_accepted 5));
  '(p, _) ← flush_all 1000000000 (λ _, [Again]) p;
  '(p, took) ← foldl slow_turn (Some (p, [])) (List.seq 2 n);
  Some (bool_decide (is_Some (subs_ p !! 5)), took).

Example slow_reader_dropped :
  slow_turns 9 = Some (true, replicate 9 5%nat) ∧ slow_turns 10 = Some (false, replicate 10 5%nat).
Proof. split; vm_compute; reflexivity. Qed.

(** C28: The heartbeat.  In every state a connection can reach from its accept
    on, a pump queues a Heartbeat exactly if the socket has subscribed, the
    reader has every published frame and every byte, and nothing was queued for
    it by a pump for [heartbeat_ms] or longer, counted, while no pump has queued
    anything, from the first pump of the accepted socket, or from the first pump
    after the gap when its Subscribe was answered with one; the heartbeat is then
    all the pump queues and names the head of the stream. *)
Theorem heartbeat_exact (cfg : PubConfig) (f : Z) (x x' : Link) (now : Z) :
  0 < max_backlog cfg < 2 ^ 40 → 0 ≤ ring_log2 cfg < 58 → link_start cfg f x → rtc (link_step cfg f) x x' →
  clocked now (lk_marks x') → 0 ≤ heartbeat_ms cfg * 1000000 < 2 ^ 64 →
  let s := lk_sub x' in
  let head := Z.of_nat (length (lk_pub x')) in
  let due := subscribed s = true ∧ unsent (conn s) = [] ∧ next_seq s = head + 1 ∧
    heartbeat_ms cfg * 1000000 ≤ now - quiet_since (lk_marks x') now in
  ∃ s1 l, refill cfg (lk_ring x') now s = Some s1 ∧
    unsent (conn s1) = unsent (conn s) ++ stream_bytes (stamp_all 1 (lk_pub x')) l ∧
    follow (next_seq s) l = Some (next_seq s1) ∧
    (due ∧ l = [IBeat now head] ∨ ¬ due ∧ Forall beatless l).
Proof.
  intros Hm Hring Hst Hrun Hc Hto s hd due. destruct (link_reach_clocks cfg Hm Hring f x x' Hst Hrun) as (d0 & Hx & Hck).
  destruct (link_refill cfg Hm Hring f d0 x' now Hx) as (s1 & l & E & _ & (U & _) & F & Hb).
  destruct (start_clock_same now (lk_sub x')) as (_ & Ec & _). rewrite Ec in U.
  exists s1, l. split_and!; [done|done|done|].
  unfold link_due, beat_due in Hb. destruct (elapsed _ now Hc) as [_ Ee].
  rewrite (start_clock_tx now _ _ Hck Hc), Ee, u64_small, length_stamp_all in Hb by lia. exact Hb.
Qed.

(** The reader has everything at 8 and nothing is published until a second later. *)
Definition demo_quiet : Link := demo_acts 1 [APump 8 [Wrote 104]] 5.

Lemma heartbeat_exact_witness :
  ∃ s1, refill demo_cfg (lk_ring demo_quiet) 1000000008 (lk_sub demo_quiet) = Some s1 ∧
    unsent (conn s1) = wire.bytes_of (heartbeat_frame 1000000008 3).
Proof.
  destruct (heartbeat_exact demo_cfg 5 (demo_accepted 5) demo_quiet 1000000008)
    as (s1 & l & E & U & _ & [[_ ->]|[Hn _]]).
  - vm_compute. split; reflexivity.
  - vm_compute. split; [discriminate|reflexivity].
  - apply demo_start.
  - apply (demo_run 1 [APump 8 [Wrote 104]]); [acts_fine|vm_compute; reflexivity].
  - acts_fine.
  - vm_compute. split; [discriminate|reflexivity].
  - exists s1. split; [exact E|]. rewrite U. clear. vm_compute. reflexivity.
  - exfalso. apply Hn. split_and!; vm_compute; [reflexivity|reflexivity|reflexivity|discriminate].
Defined.

(** The clock of a client that was told of a gap starts at the pump after it;
    that of one that has nothing to read, at the pump after its accept. *)
Example quiet_clocks :
  quiet_since (lk_marks (demo_acts 9 [APump 7 [Wrote 24]] 5)) 50 = 7 ∧
  quiet_since (lk_marks (demo_acts 4 [APump 7 []] 5)) 50 = 3.
Proof. vm_compute. split; reflexivity. Qed.
