(* ===== verification/System.v ===== *)
(** The whole exchange: the gateway of [src/server.cpp] and the engine thread of
    [include/matchbox/engine_thread.hpp], joined by the two queues.  A piece of
    the gateway's loop runs while the engine thread moves on; the commands it
    submits are the ones pushed to the inbox, and the events it handles are the
    ones popped from the outbox. *)
From S2P Require Import Prelude Types Pool Book Queues Engine Spec Abs EngineInv Process EngineFacts Settle Spsc Threads.
From S2P Require Import Poller Calls Protocol Ring Net Publisher Gateway Parse Inputs Sessions SessionInv Handling Registry Reach Streams Carried.
From S2P Require Import WireTheorems Stream Delivery Fanout.

(** ** What the engine thread has told the gateway *)

(** Every queued or delivered event is part of the answer to a command the
    engine has taken, in the order of the commands. *)
Lemma threads_settled cfg k t :
  config_ok cfg → threads_ok cfg k t →
  ∃ blocks, engine_blocks cfg (popped (inbox_ t)) blocks ∧ Forall2 answered_by (popped (inbox_ t)) blocks ∧
    pushed (outbox_ t) ++ unemitted t = concat blocks.
Proof.
  intros Hc [Hin _ Hcmds _ _ _ _ _ (cs & [Ecs Hcl] & Erun) _ Hs]. rewrite <- Hs.
  assert (Forall (λ nc, command_ok (snd nc)) cs) as Hok.
  { apply Forall_fmap. unfold compose. rewrite Ecs, (so_fifo _ _ Hin). by apply Forall_take. }
  destruct (run_settled cfg cs _ _ (reach_init cfg Hc) Hok Erun) as (blocks & Eb & -> & Hb).
  exists blocks. split_and!; [by exists cs, (engine_ t)| |done]. rewrite <- Ecs. by apply Forall2_fmap_l.
Qed.

Lemma threads_known cfg k (S : Z → Prop) t :
  config_ok cfg → threads_ok cfg k t → Forall (λ c, S (c_session c)) (pushed (inbox_ t)) → Forall (known S) (popped (outbox_ t)).
Proof.
  intros Hc [Hin Hout Hcmds _ _ _ _ _ (cs & [Ecs Hcl] & Erun) _ Hs] HS.
  assert (Forall (λ nc, command_ok (snd nc) ∧ S (c_session (snd nc))) cs) as Hok.
  { apply (Forall_fmap snd (λ c, command_ok c ∧ S (c_session c))). rewrite Ecs, (so_fifo _ _ Hin).
    by apply Forall_take, Forall_and. }
  pose proof (run_known cfg S cs _ Hc Hok Erun) as Hk.
  rewrite Hs in Hk. apply Forall_app in Hk as [Hk _]. rewrite (so_fifo _ _ Hout). by apply Forall_take.
Qed.

Lemma threads_wide cfg k t :
  config_ok cfg → threads_ok cfg k t → Forall command_wide (pushed (inbox_ t)) → Forall event_ok (popped (outbox_ t)).
Proof.
  intros Hc [Hin Hout Hcmds _ _ _ _ _ (cs & [Ecs Hcl] & Erun) _ Hs] HS.
  assert (Forall (λ nc, (command_ok (snd nc) ∧ command_wide (snd nc)) ∧ 0 ≤ fst nc < 2 ^ 64) cs) as Hok.
  { apply Forall_and. split; [|done].
    apply (Forall_fmap snd (λ c, command_ok c ∧ command_wide c)). rewrite Ecs, (so_fifo _ _ Hin). by apply Forall_take, Forall_and. }
  pose proof (run_wide cfg cs _ Hc Hok Erun) as Hk.
  rewrite Hs in Hk. apply Forall_app in Hk as [Hk _]. rewrite (so_fifo _ _ Hout). by apply Forall_take.
Qed.

(** ** The composed system *)
Section System.
Context (max_backlog : Z) (md : PubConfig) (lfd mlfd : Z) (cfg : Config) (k : Z).

Inductive system : Server → Threads → Prop :=
  | sys_start sv : Server_init max_backlog md lfd mlfd = Some sv → system sv (EngineThread_init cfg k)
  | sys_step sv t evs sv' t' :
      system sv t → gw_step lfd mlfd sv evs sv' → rtc tstep t t' →
      pushed (inbox_ t') = to_engine_ sv' → popped (outbox_ t') = popped (outbox_ t) ++ evs → system sv' t'
  | sys_engine sv t t' :
      system sv t → rtc tstep t t' → pushed (inbox_ t') = pushed (inbox_ t) → popped (outbox_ t') = popped (outbox_ t) →
      system sv t'.

Context (fds : 0 ≤ lfd ∧ 0 ≤ mlfd ∧ lfd ≠ mlfd) (Hcfg : config_ok cfg) (Hk : 0 ≤ k < 62).

Record system_ok (sv : Server) (t : Threads) : Prop := {
  sy_gateway : gw_reach max_backlog md lfd mlfd sv;
  sy_threads : threads_ok cfg k t;
  sy_commands : pushed (inbox_ t) = to_engine_ sv;
  sy_streams : streams_ok (popped (outbox_ t)) sv }.

Lemma rtc_threads_ok t t' : threads_ok cfg k t → rtc tstep t t' → threads_ok cfg k t'.
Proof. intros H Hr. induction Hr; eauto using tstep_ok. Qed.

(** The engine only addresses sessions the gateway has created. *)
Lemma popped_addressed sv evs sv' t t' :
  system_ok sv t → gw_step lfd mlfd sv evs sv' → threads_ok cfg k t' → pushed (inbox_ t') = to_engine_ sv' →
  popped (outbox_ t') = popped (outbox_ t) ++ evs → Forall (addressed sv) evs.
Proof.
  intros [_ _ _ Hst] Hg Ht' Ei Eo. destruct (gw_step_popped _ _ _ _ _ Hg) as [->|[Ec En]]; [constructor|].
  assert (Forall (known (λ i, i < next_sid_ sv)) (popped (outbox_ t'))) as Hk'; [|by rewrite Eo in Hk'; apply Forall_app in Hk' as [_ ?]].
  eapply threads_known; [done|done|]. rewrite Ei, Ec. eapply Forall_impl; [apply Hst|]. by intros c [[_ ?] _].
Qed.

Lemma system_inv sv t : system sv t → system_ok sv t.
Proof.
  destruct fds as (Hl & Hm & Hne). induction 1 as [sv E|sv t evs sv' t' _ IH Hg Ht Ei Eo|sv t t' _ IH Ht Ei Eo].
  - destruct (Server_init_ok lfd mlfd max_backlog md Hl Hm Hne) as (sv' & E' & _ & _ & _ & Et). rewrite E in E'. inv_some.
    split; [by apply gr_init|by apply threads_init|by rewrite Et|exact (streams_init _ _ _ _ _ Hl Hm Hne E)].
  - pose proof (rtc_threads_ok _ _ (sy_threads _ _ IH) Ht) as Ht'.
    pose proof (popped_addressed _ _ _ _ _ IH Hg Ht' Ei Eo) as Ha. destruct (gw_reach_ok _ _ _ _ fds _ (sy_gateway _ _ IH)) as [Hok L].
    split; [by eapply gw_step_reach; [apply IH|]|done|done|]. rewrite Eo. by eapply gw_step_streams; [..|apply IH| |].
  - split; [apply IH|by eapply rtc_threads_ok; [apply IH|]|by rewrite Ei; apply IH|by rewrite Eo; apply IH].
Qed.

(** What the two queues say about a session and its streams. *)
Record session_served (t : Threads) (sid : Z) (ins : list input) (outs : list output) (blocks : list (list Event)) : Prop := {
  sd_commands : filter (λ c, c_session c = sid) (pushed (inbox_ t)) = commands_of ins;
  sd_blocks : Forall2 answered_by (popped (inbox_ t)) blocks;
  sd_refused : rejects_of outs = refusals_of ins;
  sd_events : events_of outs = filter (mine sid) (popped (outbox_ t));
  sd_prefix : popped (outbox_ t) `prefix_of` concat blocks;
  sd_taken : popped (inbox_ t) `prefix_of` pushed (inbox_ t);
  sd_wide : Forall event_ok (events_of outs) }.

(** Nothing is on its way between the gateway and the engine. *)
Definition drained (t : Threads) : Prop :=
  popped (inbox_ t) = pushed (inbox_ t) ∧ popped (outbox_ t) = pushed (outbox_ t) ∧ unemitted t = [].

Lemma system_session sv t sid s :
  system sv t → sessions_ sv !! sid = Some s →
  ∃ ins outs blocks, session_stream (log sv) (to_engine_ sv) (popped (outbox_ t)) sid s ins outs ∧
    session_served t sid ins outs blocks ∧ (drained t → popped (outbox_ t) = concat blocks) ∧
    engine_blocks cfg (popped (inbox_ t)) blocks.
Proof.
  intros Hsys Es. destruct (system_inv _ _ Hsys) as [_ Ht Ec Hst]. destruct (st_sess _ _ Hst _ _ Es) as (ins & outs & Hs).
  destruct (threads_settled _ _ _ Hcfg Ht) as (blocks & Hrun & Hb & Eb). exists ins, outs, blocks. split; [done|].
  pose proof (so_fifo _ _ (to_out _ _ _ Ht)) as Hpo. split; [split|split; [|done]].
  - rewrite Ec. apply Hs.
  - done.
  - apply Hs.
  - apply Hs.
  - rewrite <- Eb, Hpo. etrans; [apply prefix_take|by apply prefix_app_r].
  - rewrite (so_fifo _ _ (to_in _ _ _ Ht)). apply prefix_take.
  - rewrite (ss_events _ _ _ _ _ _ _ Hs). apply Forall_forall. intros e [_ Hin]%list_elem_of_filter.
    assert (Forall command_wide (pushed (inbox_ t))) as Hw by (rewrite Ec; eapply Forall_impl; [apply Hst|]; by intros c [_ ?]).
    pose proof (threads_wide _ _ _ Hcfg Ht Hw) as Hk'. rewrite Forall_forall in Hk'. by apply Hk'.
  - intros (_ & Eo & Eu). by rewrite <- Eb, Eu, app_nil_r.
Qed.

(** ** The market-data side *)
Context (limit : 0 < Publisher.max_backlog md < 2 ^ 40) (ring_pos : 0 ≤ ring_log2 md < 58).

(** The frames the gateway has published; their sequence numbers are 32 bits wide. *)
Definition published (t : Threads) : list MdFrame := md_frames (popped (outbox_ t)).

Lemma system_wide sv t : system_ok sv t → Forall event_ok (popped (outbox_ t)).
Proof.
  intros [_ Ht Ec Hst]. eapply threads_wide; [done|done|]. rewrite Ec. eapply Forall_impl; [apply Hst|]. by intros c [_ ?].
Qed.

Lemma system_fan sv t :
  system sv t → Z.of_nat (length (published t)) + 1 < 2 ^ 32 → fan_ok md (published t) (publisher_ sv).
Proof.
  pose proof fds as (Hl & Hm & Hne). induction 1 as [sv E|sv t evs sv' t' Hsys IH Hg Ht Ei Eo|sv t t' Hsys IH Ht Ei Eo]; intros Hlen.
  - change (fan_ok md [] (publisher_ sv)). eapply fan_server_init; [exact ring_pos|exact Hl|exact Hm|exact Hne|exact E].
  - assert (system sv' t') as Hsys' by (by eapply sys_step). pose proof (system_wide _ _ (system_inv _ _ Hsys')) as Hw.
    pose proof (system_inv _ _ Hsys) as Hinv. destruct (gw_reach_ok _ _ _ _ fds _ (sy_gateway _ _ Hinv)) as [Hok L].
    unfold published in *. rewrite Eo in *. apply Forall_app in Hw as [_ Hw].
    eapply gw_step_fan; [done|done|done| |exact Hg|done|done]. apply IH. rewrite md_frames_app, length_app in Hlen. lia.
  - unfold published in *. rewrite Eo in *. by apply IH.
Qed.
End System.
