(* ===== verification/Loop.v ===== *)
(** [Server::run]: the loop around the handlers.  Every turn whose system calls
    are answered returns, whatever became ready, and a whole run is a sequence of
    the pieces the exchange is composed of. *)
From S2P Require Import Prelude Types Engine Process Settle Poller Calls Protocol Ring Net Publisher Sockets Gateway Parse Inputs.
From S2P Require Import Sessions SessionInv Handling Registry Reach SessionTheorems Streams Carried WireTheorems Stream Delivery Fanout.

(** ** The tables only grow

    A descriptor that was registered when [wait] returned may have been closed
    or handed out again by an earlier event of the same batch; it is still in
    the range of the tables. *)
Definition grown (sv sv' : Server) : Prop := (length (kind_by_fd_ sv) ≤ length (kind_by_fd_ sv'))%nat.

Lemma grown_trans sv sv1 sv2 : grown sv sv1 → grown sv1 sv2 → grown sv sv2.
Proof. unfold grown. lia. Qed.

Lemma grown_eq sv sv' : kind_by_fd_ sv' = kind_by_fd_ sv → grown sv sv'.
Proof. unfold grown. by intros ->. Qed.

Lemma track_grown f k sid sv sv' : track f k sid sv = Some sv' → grown sv sv'.
Proof.
  intros E. unfold track in E. apply bind_Some in E as (ks & Ek & E). apply bind_Some in E as (ids & _ & E). inv_some.
  unfold grown. simpl. unfold vset in Ek. destruct (vget _ f); [|done]. inv_some. rewrite length_insert.
  destruct (Z.leb_spec (Z.of_nat (length (kind_by_fd_ sv))) f); [|done]. rewrite length_resize. lia.
Qed.

Lemma close_grown sid sv sv' : close_session sid sv = Some sv' → grown sv sv'.
Proof. intros E. unfold close_session in E. apply bind_Some in E as (s & _ & E). apply bind_Some in E as (sv1 & E1 & E). inv_some. by apply track_grown in E1. Qed.

Lemma flush_session_grown strict sid ws sv sv' out : flush_session strict sid ws sv = Some (sv', out) → grown sv sv'.
Proof.
  intros E. unfold flush_session in E. apply bind_Some in E as (s & _ & E). apply bind_Some in E as ([[[[c o] okf] os] arm] & _ & E).
  destruct (_ || _); [|by inv_some; apply grown_eq]. apply bind_Some in E as (sv1 & E1 & E). inv_some. by apply close_grown in E1.
Qed.

Lemma read_session_grown sid rs push ws sv sv' out : read_session sid rs push ws sv = Some (sv', out) → grown sv sv'.
Proof.
  intros E. unfold read_session in E. apply bind_Some in E as (s & _ & E). apply bind_Some in E as ([alive bs] & _ & E).
  destruct alive; simpl in E; [|apply bind_Some in E as (sv1 & E1 & E); inv_some; by apply close_grown in E1].
  apply bind_Some in E as ([[[okp s1] d] cmds] & _ & E). destruct okp; [inv_some; by apply grown_eq|].
  apply bind_Some in E as ([[[c o] okf] os] & _ & E). apply bind_Some in E as (sv1 & E1 & E). inv_some. by apply close_grown in E1.
Qed.

Lemma accept_all_grown md os sv sv' : accept_all md os sv = Some sv' → grown sv sv'.
Proof.
  revert sv. induction os as [|r os IH]; intros sv E; [done|]. destruct r as [f fl| |]; cbn [accept_all] in E; [|by apply IH|by inv_some; apply grown_eq].
  apply bind_Some in E as (sv1 & E1 & E). apply (grown_trans _ sv1); [|by apply IH].
  destruct md; unfold accept_subscriber, accept_session in E1; apply bind_Some in E1 as (sv2 & E2 & E1); inv_some; apply track_grown in E2; [done|].
  unfold emplace. by destruct (_ !! _).
Qed.

Lemma handle_event_grown ev io sv sv' : handle_event ev io sv = Some sv' → grown sv sv'.
Proof.
  intros E. unfold handle_event in E. apply bind_Some in E as (k & _ & E). destruct k; [by inv_some; apply grown_eq|by eapply accept_all_grown..| |].
  - unfold session_event in E. apply bind_Some in E as (sv1 & E1 & E). apply (grown_trans _ sv1).
    + destruct (ev_writable ev); [|by inv_some; apply grown_eq]. apply bind_Some in E1 as ([sid|] & _ & E1); [|by inv_some; apply grown_eq].
      apply fmap_Some in E1 as ([sv2 o] & E2 & ->). by eapply flush_session_grown.
    + destruct (_ || _); [|by inv_some; apply grown_eq]. apply bind_Some in E as ([sid|] & _ & E); [|by inv_some; apply grown_eq].
      apply fmap_Some in E as ([sv2 o] & E2 & ->). by eapply read_session_grown.
  - apply bind_Some in E as (p & _ & E). inv_some. by apply grown_eq.
Qed.

(** ** One turn *)
Section Loop.
Context (max_backlog : Z) (md : PubConfig) (lfd mlfd : Z).
Context (fds : 0 ≤ lfd ∧ 0 ≤ mlfd ∧ lfd ≠ mlfd).
Context (limit : 0 < Publisher.max_backlog md < 2 ^ 40).

(** The system calls one ready descriptor leads to are answered: the promises
    [ready_ok], and every loop over a call meets an answer that ends it. *)
Record event_served (ev : PollEvent) (io : Io) (sv : Server) : Prop := {
  es_ready : ready_ok lfd mlfd ev io sv;
  es_accept : AcceptFailed ∈ io_accept io;
  es_write : answered (io_write io);
  es_flush : answered (io_flush io);
  es_read : read_answered (io_read io) }.

(** The engine thread's promise: every [submit] of the turn meets a [try_push]
    that succeeds. Where one does not, [parse_frames] never returns
    ([parse_frames_exactly]) and neither does the turn. *)
Definition submits_taken (t : Turn) : Prop := ∀ i, accepting (io_push (tn_io t i)).

Fixpoint events_served (evs : list (PollEvent * Io)) (sv : Server) : Prop :=
  match evs with
  | [] => True
  | (ev, io) :: evs => event_served ev io sv ∧ ∀ sv', handle_event ev io sv = Some sv' → events_served evs sv'
  end.

(** Pieces of the loop, one after the other, with the events they pop. *)
Inductive gw_steps : Server → list Event → Server → Prop :=
  | gws_nil sv : gw_steps sv [] sv
  | gws_cons sv evs sv1 evs' sv2 : gw_step lfd mlfd sv evs sv1 → gw_steps sv1 evs' sv2 → gw_steps sv (evs ++ evs') sv2.

Lemma gw_steps_one sv evs sv' : gw_step lfd mlfd sv evs sv' → gw_steps sv evs sv'.
Proof. intros Hs. rewrite <- (app_nil_r evs). eapply gws_cons; [exact Hs|apply gws_nil]. Qed.

Lemma gw_steps_app sv evs sv1 evs' sv2 : gw_steps sv evs sv1 → gw_steps sv1 evs' sv2 → gw_steps sv (evs ++ evs') sv2.
Proof. induction 1 as [|? ? ? ? ? Hs _ IH]; intros H2; [done|]. rewrite <- app_assoc. eapply gws_cons; eauto. Qed.

(** A gateway that has handled the events [H]. *)
Record gw_ok (H : list Event) (sv : Server) : Prop := {
  go_reach : gw_reach max_backlog md lfd mlfd sv;
  go_fan : fan_ok md (md_frames H) (publisher_ sv);
  go_room : Z.of_nat (length (md_frames H)) + 1 < 2 ^ 32 }.

(** What the engine may have queued. *)
Definition events_fit (H evs : list Event) : Prop :=
  Forall event_ok evs ∧ Z.of_nat (length (md_frames (H ++ evs))) + 1 < 2 ^ 32.

Lemma gw_step_ok H sv evs sv' : gw_ok H sv → events_fit H evs → gw_step lfd mlfd sv evs sv' → gw_ok (H ++ evs) sv'.
Proof.
  intros [Hr Hf _] [He Hl] Hs. destruct (gw_reach_ok _ _ _ _ fds _ Hr) as [Hok L].
  split; [by eapply gw_step_reach|by eapply gw_step_fan|done].
Qed.

(** ** The batch of ready descriptors *)
Definition in_tables (sv : Server) (f : Z) : Prop := 0 ≤ f < Z.of_nat (length (kind_by_fd_ sv)).

Lemma handle_event_total H ev io sv :
  gw_ok H sv → event_served ev io sv → accepting (io_push io) → in_tables sv (ev_fd ev) →
  ∃ sv', handle_event ev io sv = Some sv' ∧ gw_ok H sv' ∧ gw_step lfd mlfd sv [] sv'.
Proof.
  intros Hg [Hready Ha Hw Hf Hr] Hpush Hin. destruct fds as (Hl & Hm & Hne).
  destruct (gateway_never_faults max_backlog md lfd mlfd sv ev io) as [[sv' E] _]; try done; [apply Hg|apply Hready|apply Hready|].
  assert (gw_step lfd mlfd sv [] sv') as Hstep by (by eapply gs_event).
  exists sv'. split_and!; [done| |done]. rewrite <- (app_nil_r H). eapply gw_step_ok; [done| |done].
  split; [done|]. rewrite app_nil_r. apply (go_room _ _ Hg).
Qed.

Lemma handle_events_total H evs sv :
  gw_ok H sv → events_served evs sv → Forall (λ '(_, io), accepting (io_push io)) evs → Forall (in_tables sv) (ev_fd <$> evs.*1) →
  ∃ sv', handle_events evs sv = Some sv' ∧ gw_ok H sv' ∧ gw_steps sv [] sv'.
Proof.
  revert sv. induction evs as [|[ev io] evs IH]; intros sv Hg Hs Hpush Hin; simpl; [exists sv; split_and!; [done|done|apply gws_nil]|].
  destruct Hs as [He Hs]. apply Forall_cons in Hpush as [Hp Hpush]. apply Forall_cons in Hin as [Hev Hin].
  destruct (handle_event_total H ev io sv Hg He Hp Hev) as (sv1 & E1 & H1 & S1). rewrite E1. simpl.
  destruct (IH sv1 H1 (Hs _ E1) Hpush) as (sv2 & E2 & H2 & S2).
  - eapply Forall_impl; [exact Hin|]. intros f. apply handle_event_grown in E1. unfold in_tables, grown in *. lia.
  - exists sv2. split_and!; [done|done|]. by apply (gws_cons sv [] sv1 [] sv2).
Qed.

(** ** A turn *)

(** The writes of [flush_all] report no more than they were given. *)
Definition md_writes_ok (now : Z) (ws : Z → list WriteResult) (p : Publisher) : Prop :=
  ∀ f u u1, subs_ p !! f = Some u → refill (p_cfg p) (ring_ p) now u = Some u1 → answers_ok (ws f) (Z.of_nat (length (unsent (conn u1)))).

Record turn_served (H : list Event) (t : Turn) (evs : list (PollEvent * Io)) (sv : Server) : Prop := {
  ts_events : events_served evs sv;
  ts_popped : events_fit H (tn_popped t);
  ts_now : 0 ≤ tn_now t < 2 ^ 64;
  ts_flush : ∀ sid, answered (tn_ws t sid);
  ts_publish : ∀ f, answered (tn_md_ws t f);
  ts_writes : ∀ sv1 sv2 b, handle_events evs sv = Some sv1 → drain_engine (tn_popped t) sv1 = Some (sv2, b) →
    (∀ sid s, sessions_ sv2 !! sid = Some s → flushable (tn_ws t sid) s) ∧
    ∀ sv3, flush_dirty (tn_ws t) sv2 = Some sv3 → md_writes_ok (tn_now t) (tn_md_ws t) (publisher_ sv3) }.

Lemma events_fit_nil H sv : gw_ok H sv → events_fit H [].
Proof. intros Hg. split; [done|]. rewrite app_nil_r. apply Hg. Qed.

Lemma gw_ok_quiet H sv sv' : gw_ok H sv → gw_step lfd mlfd sv [] sv' → gw_ok H sv'.
Proof. intros Hg Hs. rewrite <- (app_nil_r H). eapply gw_step_ok; [done|by eapply events_fit_nil|done]. Qed.

Lemma run_once_total H t evs sv :
  gw_ok H sv → turn_served H t evs sv → Forall (λ '(_, io), accepting (io_push io)) evs → Forall (in_tables sv) (ev_fd <$> evs.*1) →
  ∃ sv' worked, run_once evs (tn_popped t) (tn_ws t) (tn_md_ws t) (tn_now t) sv = Some (sv', worked) ∧
    gw_ok (H ++ tn_popped t) sv' ∧ gw_steps sv (tn_popped t) sv'.
Proof.
  intros Hg [He Hp Hn Hf Hm Hw] Hpush Hin. unfold run_once.
  destruct (handle_events_total H evs sv Hg He Hpush Hin) as (sv1 & E1 & H1 & S1). rewrite E1. simpl.
  destruct (fan_drain md H (tn_popped t) sv1 (go_fan _ _ H1)) as (sv2 & worked & E2 & _); [apply Hp..|]. rewrite E2. simpl.
  destruct (Hw _ _ _ E1 E2) as [Hw2 Hw3]. assert (gw_step lfd mlfd sv1 (tn_popped t) sv2) as S2 by (by eapply gs_drain).
  pose proof (gw_step_ok _ _ _ _ H1 Hp S2) as H2. destruct (gw_reach_ok _ _ _ _ fds _ (go_reach _ _ H2)) as [Hok2 _].
  destruct (flush_list_total lfd mlfd (sv_dirty sv2) (tn_ws t) sv2) as [sv3' E3]; [by destruct sv2|done|].
  assert (flush_dirty (tn_ws t) sv2 = Some (set_dirty_list [] sv3')) as E3' by (unfold flush_dirty; by rewrite E3).
  set (sv3 := set_dirty_list [] sv3') in *. clearbody sv3. rewrite E3'. simpl.
  assert (gw_step lfd mlfd sv2 [] sv3) as S3 by (by eapply gs_flush). pose proof (gw_ok_quiet _ _ _ H2 S3) as H3.
  destruct (fan_flush_all_total md limit _ (tn_now t) (tn_md_ws t) _ (go_fan _ _ H3) Hm) as [[p out] E4]. rewrite E4. simpl.
  assert (gw_step lfd mlfd sv3 [] (set_publisher p sv3)) as S4 by (eapply gs_publish; [exact Hn|by apply Hw3|exact E4]).
  exists (set_publisher p sv3), worked. split_and!; [done|by eapply gw_ok_quiet|].
  apply (gw_steps_app sv [] sv1 (tn_popped t)); [done|]. rewrite <- (app_nil_r (tn_popped t)). eapply gws_cons; [exact S2|].
  apply (gws_cons sv2 [] sv3 []); [done|]. by apply gw_steps_one.
Qed.

(** ** [Server::run] *)

(** What the poller may report: an error, or registered descriptors. *)
Definition wait_ok (r : Z * list PollEvent) (sv : Server) : Prop :=
  fst r < 0 ∨ fst r = Z.of_nat (length (snd r)) ∧ Forall (λ ev, is_Some (registry (log sv) !! ev_fd ev)) (snd r).

Lemma registered_in_tables H sv f : gw_ok H sv → is_Some (registry (log sv) !! f) → in_tables sv f.
Proof.
  intros Hg [w Hw]. destruct (gw_reach_ok _ _ _ _ fds _ (go_reach _ _ Hg)) as [Hok [(W & [_ HW _] & Hwatch) _]]. rewrite HW in Hw.
  unfold in_tables. apply Hwatch in Hw as [[_ [->| ->]]|[(sid & s & Es & <- & _)|(u & Eu & _)]].
  - eapply vget_lt. apply Hok.
  - eapply vget_lt. apply Hok.
  - destruct (gw_session _ _ _ Hok _ _ Es) as (_ & _ & [Hk _] & _). by eapply vget_lt.
  - eapply vget_lt. eapply (gw_subs _ _ _ Hok). by exists u.
Qed.

Lemma ready_in_tables H t n evs sv :
  gw_ok H sv → Forall (λ ev, is_Some (registry (log sv) !! ev_fd ev)) evs → Forall (in_tables sv) (ev_fd <$> (ready_events t n evs).*1).
Proof.
  intros Hg Hr. unfold ready_events. rewrite <- list_fmap_compose. apply Forall_fmap, Forall_forall. intros [ev io] Hin. simpl.
  apply elem_of_lookup_imap in Hin as (i & x & [= -> _] & Hx). eapply registered_in_tables; [done|].
  rewrite Forall_forall in Hr. apply Hr. apply lookup_take_Some in Hx as [Hx _]. by apply list_elem_of_lookup_2 in Hx.
Qed.

Lemma ready_taken t n evs : submits_taken t → Forall (λ '(_, io), accepting (io_push io)) (ready_events t n evs).
Proof.
  intros Ht. unfold ready_events. apply Forall_forall. intros [ev io] Hin.
  apply elem_of_lookup_imap in Hin as (i & x & [= _ ->] & _). apply Ht.
Qed.

Fixpoint turns_served (H : list Event) (turns : list Turn) (idle : Z) (sv : Server) : Prop :=
  match turns with
  | [] => True
  | t :: turns =>
      let '(n, evs) := tn_wait t 256 (wait_timeout idle) in
      tn_stop t = false → wait_ok (n, evs) sv ∧ (0 ≤ n → turn_served H t (ready_events t n evs) sv ∧
        ∀ sv' worked, run_once (ready_events t n evs) (tn_popped t) (tn_ws t) (tn_md_ws t) (tn_now t) sv = Some (sv', worked) →
          turns_served (H ++ tn_popped t) turns (idle_after n worked idle) sv')
  end.

Definition ran_server (r : Ran) : Server := match r with Returned sv | Running _ sv => sv end.
Definition has_returned (r : Ran) : Prop := match r with Returned _ => True | Running _ _ => False end.

(** A run over [turns] that left the loop or used them up: the pieces it is made
    of, whose events are the ones popped in the turns it went through. *)
Definition ran_well (H : list Event) (turns : list Turn) (sv : Server) (r : Ran) : Prop :=
  ∃ n, gw_steps sv (concat (tn_popped <$> take n turns)) (ran_server r) ∧
    gw_ok (H ++ concat (tn_popped <$> take n turns)) (ran_server r) ∧
    (Exists (λ t, tn_stop t = true) turns → has_returned r) ∧ (¬ has_returned r → n = length turns).

Lemma ran_returned H turns sv : gw_ok H sv → ran_well H turns sv (Returned sv).
Proof. intros Hg. exists 0%nat. simpl. rewrite app_nil_r. split_and!; [apply gws_nil|done|done|]. intros Hn. by destruct Hn. Qed.

Lemma server_run_served H turns idle sv :
  gw_ok H sv → turns_served H turns idle sv → Forall submits_taken turns → ∃ r, server_run turns idle sv = Some r ∧ ran_well H turns sv r.
Proof.
  revert H idle sv. induction turns as [|t turns IH]; intros H idle sv Hg Hs Hpush.
  { exists (Running idle sv). split; [done|]. exists 0%nat. simpl. rewrite app_nil_r. split_and!; [apply gws_nil|done| |done]. by intros ?%Exists_nil. }
  apply Forall_cons in Hpush as [Hp Hpush]. cbn [server_run]. cbn [turns_served] in Hs. destruct (tn_wait t 256 (wait_timeout idle)) as [n evs].
  pose proof (ran_returned H (t :: turns) sv Hg) as Hret. destruct (tn_stop t) eqn:Estop; [by eexists|]. destruct (Hs eq_refl) as [Hw Hturn].
  destruct (Z.ltb_spec n 0) as [|Hn]; [by eexists|]. destruct (Hturn Hn) as [Ht Hrest]. clear Hret Hs Hturn.
  destruct Hw as [Hw|[_ Hw]]; simpl in Hw; [lia|].
  destruct (run_once_total H t (ready_events t n evs) sv Hg Ht (ready_taken t n evs Hp)) as (sv1 & worked & E1 & H1 & S1); [by eapply ready_in_tables|].
  rewrite E1. simpl. destruct (IH _ _ _ H1 (Hrest _ _ E1) Hpush) as (r & Er & k & S2 & H2 & Hx & Hrun). exists r. split; [done|]. exists (S k). simpl.
  rewrite app_assoc. split_and!; [by eapply gw_steps_app|done| |intros Hr; by rewrite Hrun].
  intros [?|?]%Exists_cons; [congruence|by apply Hx].
Qed.
End Loop.

(** ** The two back ends *)

(** What is registered with the kernel after the gateway's calls is what the log says. *)
Section Backends.
Context (lfd mlfd : Z) (sv : Server) (L : log_ok lfd mlfd sv).

Lemma log_ops_ok : ops_ok ∅ (poll_ops (log sv)).
Proof. destruct (lo_rep _ _ _ L) as (W & HR & _). eapply calls_ok_ops. apply HR. Qed.

Lemma epoll_watches {K} `{EpollOk K} (k : K) :
  (∀ f, epoll_mask k f = None) → ∀ f, interest (P := EpollPoller K) (fold_left (poll_op (P := EpollPoller K)) (poll_ops (log sv)) k) f = registry (log sv) !! f.
Proof.
  intros Hk. unfold registry. rewrite registry_ops. apply (poller_registry (P := EpollPoller K)); [|apply log_ops_ok].
  intros f. cbn [interest epoll_poller]. by rewrite Hk, lookup_empty.
Qed.

Lemma kqueue_watches {K} `{KqueueOk K} (k : K) :
  (∀ f fl, registered k f fl = false) →
  let k' := fold_left kq_op (poll_ops (log sv)) k in kq_clean k' ∧ ∀ f, kq_interest k' f = registry (log sv) !! f.
Proof.
  intros Hk. unfold registry. rewrite registry_ops. apply kq_registry; [by intros f _| |apply log_ops_ok].
  intros f. unfold kq_interest. by rewrite Hk, lookup_empty.
Qed.

(** A wait call that only reports descriptors registered with it keeps [wait_ok]. *)
Lemma epoll_wait_ok {K} `{EpollOk K} (k : K) (wait : Z → Z → WaitResult (Z * Z)) max_events timeout_ms :
  (∀ f, epoll_mask k f = None) →
  (∀ n ms l e, wait n ms = Ready l → e ∈ l → is_Some (epoll_mask (fold_left (poll_op (P := EpollPoller K)) (poll_ops (log sv)) k : K) (fst e))) →
  wait_ok (epoll_wait wait max_events timeout_ms) sv.
Proof.
  intros Hk Hw. unfold epoll_wait, wait_result, wait_ok. destruct (wait _ _) as [l| |] eqn:El; simpl; [right|by right; split|left; lia].
  rewrite length_fmap. split; [done|]. apply Forall_fmap, Forall_forall. intros e He. simpl. rewrite <- (epoll_watches k Hk).
  cbn [interest epoll_poller]. apply fmap_is_Some. by eapply Hw.
Qed.

Lemma kqueue_wait_ok {K} `{KqueueOk K} (k : K) (wait : Z → Z * Z → WaitResult (Z * Filter * Z)) max_events timeout_ms :
  (∀ f fl, registered k f fl = false) →
  (∀ n ms l e, wait n ms = Ready l → e ∈ l → registered (fold_left kq_op (poll_ops (log sv)) k) e.1.1 e.1.2 = true) →
  wait_ok (kq_wait wait max_events timeout_ms) sv.
Proof.
  intros Hk Hw. unfold kq_wait, wait_result, wait_ok. destruct (wait _ _) as [l| |] eqn:El; simpl; [right|by right; split|left; lia].
  rewrite length_fmap. split; [done|]. apply Forall_fmap, Forall_forall. intros [[f fl] flags] He. simpl.
  pose proof (kqueue_watches k Hk) as Hkw. cbv zeta in Hkw. destruct Hkw as [Hc Hi]. rewrite <- Hi. unfold kq_interest. apply (Hw _ _ _ _ El) in He. simpl in He.
  destruct (registered _ f EVFILT_READ) eqn:Er; [eauto|]. apply Hc in Er as Ew. destruct fl; [rewrite Er in He|rewrite Ew in He]; done.
Qed.
End Backends.

(** ** The beginning and the end *)

(** The socket can be bound and listened on. *)
Definition listens (k : Kernel) : Prop := 0 ≤ k_socket k ∧ 0 ≤ k_bind k ∧ 0 ≤ k_listen k.

Lemma listen_tcp_fd k port :
  (listens k ∧ fst (listen_tcp k port true) = (k_socket k, Some (htons (k_port k)))) ∨
  (¬ listens k ∧ fst (fst (listen_tcp k port true)) = -1).
Proof.
  unfold listen_tcp, listens. destruct (Z.ltb_spec (k_socket k) 0); [right; simpl; lia|].
  destruct (Z.ltb_spec (k_bind k) 0); [right; simpl; lia|]. destruct (Z.ltb_spec (k_listen k) 0); [right; simpl; lia|]. by left.
Qed.

(** The constructor throws exactly when one of the sockets does not listen. *)
Lemma Server_new_ok k k' port md_port max_backlog md :
  k_socket k ≠ k_socket k' →
  (¬ (listens k ∧ listens k') ∧ snd (Server_new k k' port md_port max_backlog md) = Some None) ∨
  (listens k ∧ listens k') ∧ ∃ sv, Server_init max_backlog md (k_socket k) (k_socket k') = Some sv ∧
    snd (Server_new k k' port md_port max_backlog md) = Some (Some (sv, htons (k_port k), htons (k_port k'))).
Proof.
  intros Hne. unfold Server_new. destruct (listen_tcp_fd k port) as [[L1 H1]|[L1 H1]], (listen_tcp_fd k' md_port) as [[L2 H2]|[L2 H2]];
    destruct (listen_tcp k port true) as [[f b] cs], (listen_tcp k' md_port true) as [[f' b'] cs']; simpl in H1, H2; simplify_eq; simpl.
  - right. split; [done|]. destruct L1 as [L1 _], L2 as [L2 _]. rewrite !(proj2 (Z.ltb_ge _ _)) by done. simpl.
    destruct (Server_init_ok (k_socket k) (k_socket k') max_backlog md) as (sv & E & _); [done..|]. exists sv. by rewrite E.
  - left. split; [tauto|]. by rewrite orb_true_r.
  - left. split; [tauto|done].
  - left. split; [tauto|done].
Qed.

Lemma open_after_closes (l : list Z) (s : gset Z) : fold_left open_op (Close <$> l) s = s ∖ list_to_set l.
Proof. revert s. induction l as [|f l IH]; intros s; simpl; [set_solver|]. rewrite IH. set_solver. Qed.

(** What [~Server] leaves open. *)
Lemma server_close_open lfd mlfd sv :
  server_ok lfd mlfd sv → log_ok lfd mlfd sv →
  open_fds (base lfd mlfd) (log (server_close lfd mlfd sv)) = dom (subs_ (publisher_ sv)).
Proof.
  intros Hok [(W & HR & HW) _]. pose proof (server_owners _ _ _ Hok) as O. pose proof (lr_open _ _ _ HR) as Ho.
  unfold server_close, log, sv_call in *. simpl. rewrite open_fds_app, fold_left_app, Ho.
  change (Close ∘ fd ∘ s_conn <$> ?l) with (Close ∘ (fd ∘ s_conn) <$> l). rewrite list_fmap_compose, open_after_closes.
  simpl. apply set_eq. intros f. rewrite !elem_of_difference, !elem_of_singleton, elem_of_list_to_set, !elem_of_dom.
  rewrite list_elem_of_fmap. setoid_rewrite list_elem_of_fmap. split.
  - intros [[[[w Hw] Hs] Hl] Hm]. apply HW in Hw as [[_ [->| ->]]|[(sid & s & Es & <- & _)|(u & Eu & _)]]; [done|done| |by exists u].
    destruct Hs. exists s. split; [done|]. exists (sid, s). split; [done|]. by apply elem_of_map_to_list.
  - intros [u Eu]. destruct (ow_sub_listen _ _ _ _ O) as [O1 O2]. split_and!; [exists (want_write (conn u)); apply HW; right; right; eauto| |congruence|congruence].
    intros (s & -> & [sid s'] & -> & Es%elem_of_map_to_list). pose proof (ow_sub _ _ _ _ O _ _ Es) as Hn. simpl in *. congruence.
Qed.
