(* ===== verification/Drains.v ===== *)
(** The exchange comes to rest: while the gateway is not inside [submit], the
    engine works through its queue and the gateway takes the answers, whatever
    the sizes of the two rings. *)
From S2P Require Import Prelude Types Pool Book Engine Process EngineFacts Settle Spsc Threads Liveness Poller Calls Protocol Ring Net Publisher.
From S2P Require Import Gateway Sessions SessionInv Carried Fanout System.

(** What may happen on the way: no command is added, answers are only taken. *)
Record ahead (t t' : Threads) : Prop := {
  ah_steps : rtc tstep t t';
  ah_net : net_pc t' = NFree;
  ah_in : pushed (inbox_ t') = pushed (inbox_ t);
  ah_out : popped (outbox_ t) `prefix_of` popped (outbox_ t') }.

Lemma ahead_refl t : net_pc t = NFree → ahead t t.
Proof. by split. Qed.

Lemma ahead_trans t t1 t2 : ahead t t1 → ahead t1 t2 → ahead t t2.
Proof. intros [] []. split; [by etrans|done|congruence|by etrans]. Qed.

Section Drain.
Context (cfg : Config) (k : Z) (Hk : 0 ≤ k).

Lemma ahead_ok t t' : threads_ok cfg k t → ahead t t' → threads_ok cfg k t'.
Proof. intros H []. by eapply rtc_tstep_ok. Qed.

(** The gateway takes everything out of the outbox. *)
Lemma take_answers t :
  threads_ok cfg k t → net_pc t = NFree →
  ∃ t', ahead t t' ∧ popped (outbox_ t') = pushed (outbox_ t') ∧ engine_pc t' = engine_pc t ∧ inbox_ t' = inbox_ t.
Proof.
  remember (length (pushed (outbox_ t)) - length (popped (outbox_ t)))%nat as n eqn:En. revert t En.
  induction n as [|n IH]; intros t En H Hn.
  - exists t. split_and!; try done. pose proof (so_fifo _ _ (to_out _ _ _ H)) as Hf.
    rewrite Hf. apply take_ge. lia.
  - destruct (drain_completes cfg k t H Hn) as (q & v & R & _ & _ & Eq & Eo); [unfold has_value; lia|].
    assert (ahead t (set_outbox q t)) as A by (split; [done|done|done|simpl; rewrite Eo; by apply prefix_app_r]).
    destruct (IH (set_outbox q t)) as (t' & A' & E1 & E2 & E3); [simpl; rewrite Eq, Eo, length_app; simpl; lia|by eapply ahead_ok|done|].
    exists t'. split_and!; [by eapply ahead_trans|done|done|done].
Qed.

(** The engine hands out the events of one command. *)
Lemma hand_out evs t :
  threads_ok cfg k t → net_pc t = NFree → engine_pc t = EEmit evs →
  ∃ t', ahead t t' ∧ engine_pc t' = ELoop ∧ inbox_ t' = inbox_ t.
Proof.
  revert t. induction evs as [|ev evs IH]; intros t H Hn Ee.
  - exists (set_epc ELoop t). split_and!; [|done|done]. split; try done. apply rtc_once, (t_engine EmitDone). simpl. by rewrite Ee.
  - destruct (take_answers t H Hn) as (t1 & A1 & Eo & Ee1 & Ei1). rewrite Ee in Ee1. pose proof (ahead_ok _ _ H A1) as H1.
    destruct (emit_completes cfg k t1 ev evs H1 Ee1) as (q & R & _ & _ & Eq & Eo').
    { unfold has_room. rewrite Eo. pose proof (Z.pow_pos_nonneg 2 (k + 2) ltac:(lia) ltac:(lia)). lia. }
    set (t2 := set_epc (EEmit evs) (set_outbox q t1)) in R. assert (ahead t1 t2) as A2.
    { split; [done|apply A1|done|simpl; by rewrite Eo']. }
    destruct (IH t2) as (t3 & A3 & Ee3 & Ei3); [by eapply ahead_ok|apply A1|done|].
    exists t3. split_and!; [do 2 (eapply ahead_trans; [done|]); done|done|by rewrite Ei3].
Qed.

(** The engine works through its inbox. *)
Lemma work_through t :
  threads_ok cfg k t → net_pc t = NFree → engine_pc t = ELoop →
  ∃ t', ahead t t' ∧ engine_pc t' = ELoop ∧ popped (inbox_ t') = pushed (inbox_ t').
Proof.
  remember (length (pushed (inbox_ t)) - length (popped (inbox_ t)))%nat as n eqn:En. revert t En.
  induction n as [|n IH]; intros t En H Hn Ee.
  - exists t. split_and!; try done. pose proof (so_fifo _ _ (to_in _ _ _ H)) as Hf.
    rewrite Hf. apply take_ge. lia.
  - destruct (loop_completes cfg k t 0 H Ee) as (q & c & t1 & R & Ep & _ & _ & Eq & Eo); [unfold has_value; lia|].
    destruct (engine_process_queues _ _ _ _ Ep) as (Ei & Eb & Enet). simpl in Ei, Eb, Enet.
    assert (ahead t t1) as A1 by (split; [done|congruence|congruence|by rewrite Eb]).
    assert (∃ evs, engine_pc t1 = EEmit evs) as [evs Ee1] by (apply bind_Some in Ep as (e & _ & Ep); inv_some; eauto).
    destruct (hand_out evs t1) as (t2 & A2 & Ee2 & Ei2); [by eapply ahead_ok|apply A1|done|].
    pose proof (ahead_trans _ _ _ A1 A2) as A12.
    destruct (IH t2) as (t3 & A3 & Ee3 & Ei3); [rewrite Ei2, Ei, Eq, Eo, length_app; simpl; lia|by eapply ahead_ok|apply A2|done|].
    exists t3. split_and!; [by eapply ahead_trans|done|done].
Qed.

Lemma threads_drain t :
  threads_ok cfg k t → net_pc t = NFree → engine_pc t ≠ EExited →
  ∃ t', ahead t t' ∧ drained t' ∧ engine_pc t' = ELoop.
Proof.
  intros H Hn Hx. assert (∃ t1, ahead t t1 ∧ engine_pc t1 = ELoop) as (t1 & A1 & E1).
  { destruct (engine_pc t) as [| |evs] eqn:Ee; [done|..].
    - exists t. split; [by apply ahead_refl|done].
    - destruct (hand_out evs t H Hn Ee) as (t1 & A1 & E1 & _). eauto. }
  destruct (work_through t1) as (t2 & A2 & E2 & Ei2); [by eapply ahead_ok|apply A1|done|].
  pose proof (ahead_trans _ _ _ A1 A2) as A12.
  destruct (take_answers t2) as (t3 & A3 & Eo3 & E3 & Ei3); [by eapply ahead_ok|apply A2|].
  exists t3. split_and!; [by eapply ahead_trans|split_and!|congruence].
  - by rewrite Ei3.
  - done.
  - unfold unemitted. by rewrite E3, E2.
Qed.
End Drain.

(** ** The gateway's side *)

(** A session stays a session while answers are written. *)
Lemma on_event_sessions e sv sv' sid s :
  server_on_event e sv = Some sv' → sessions_ sv !! sid = Some s →
  ∃ s', sessions_ sv' !! sid = Some s' ∧ fd (s_conn s') = fd (s_conn s).
Proof.
  intros E Es. unfold server_on_event in E.
  assert (∀ r, match sessions_ sv !! e_session e with
      | None => Some sv
      | Some s => let '(s, dirty) := answer e s (sv_dirty sv) in
          Some (set_dirty_list dirty (set_sessions (<[e_session e := s]> (sessions_ sv)) sv)) end = Some r →
    ∃ s', sessions_ r !! sid = Some s' ∧ fd (s_conn s') = fd (s_conn s)) as Hp.
  { intros r Er. destruct (sessions_ sv !! e_session e) as [s0|] eqn:E0; [|inv_some; eauto].
    pose proof (answer_touches e s0 (sv_dirty sv)) as (_ & T & _). destruct (answer e s0 _) as [s1 d]. inv_some. simpl in *.
    destruct (decide (e_session e = sid)) as [Heq|Hne]; [|rewrite lookup_insert_ne by done; eauto].
    rewrite <- Heq in Es |- *. rewrite lookup_insert_eq. exists s1. split; [done|congruence]. }
  destruct (e_kind e); first [exact (Hp _ E)|apply bind_Some in E as (p & _ & E); inv_some; eauto].
Qed.

Lemma drain_sessions evs sv sv' b sid s :
  drain_engine evs sv = Some (sv', b) → sessions_ sv !! sid = Some s →
  ∃ s', sessions_ sv' !! sid = Some s' ∧ fd (s_conn s') = fd (s_conn s).
Proof.
  revert sv b s. induction evs as [|e evs IH]; intros sv b s E Es; simpl in E; [inv_some; eauto|].
  apply bind_Some in E as (sv1 & E1 & E). apply bind_Some in E as ([sv2 b2] & E2 & E). inv_some.
  destruct (on_event_sessions _ _ _ _ _ E1 Es) as (s1 & Es1 & <-). by eapply IH.
Qed.

(** The market data of a sequential run on [cmds], at whatever times, fits the
    32-bit sequence numbers. *)
Definition frames_fit (cfg : Config) (cmds : list Command) : Prop :=
  ∀ cs e, cs.*2 = cmds → run cs (Engine_init cfg []) = Some e → Z.of_nat (length (md_frames (sink_ e))) + 1 < 2 ^ 32.

Section SystemDrain.
Context (max_backlog : Z) (md : PubConfig) (lfd mlfd : Z) (cfg : Config) (k : Z).
Context (fds : 0 ≤ lfd ∧ 0 ≤ mlfd ∧ lfd ≠ mlfd) (Hcfg : config_ok cfg) (Hk : 0 ≤ k < 62).
Context (limit : 0 < Publisher.max_backlog md < 2 ^ 40) (ring_pos : 0 ≤ ring_log2 md < 58).
Abbreviation sys := (system max_backlog md lfd mlfd cfg k).

(** What has been published when everything is answered. *)
Lemma drained_sink t : threads_ok cfg k t → drained t → popped (outbox_ t) = sink_ (engine_ t).
Proof. intros H (_ & Eo & Eu). by rewrite (to_sink _ _ _ H), Eo, Eu, app_nil_r. Qed.

Lemma system_drains sv t :
  sys sv t → net_pc t = NFree → engine_pc t ≠ EExited → frames_fit cfg (pushed (inbox_ t)) →
  ∃ sv' t' evs b, ahead t t' ∧ drained t' ∧ drain_engine evs sv = Some (sv', b) ∧ sys sv' t'.
Proof.
  intros Hsys Hn Hx Hfit. pose proof (system_inv _ _ _ _ _ _ fds Hcfg Hk _ _ Hsys) as Hinv.
  destruct (threads_drain cfg k ltac:(lia) t (sy_threads _ _ _ _ _ _ _ _ Hinv) Hn Hx) as (t' & A & Hd & _).
  pose proof (ahead_ok _ _ _ _ (sy_threads _ _ _ _ _ _ _ _ Hinv) A) as Ht'. destruct (ah_out _ _ A) as [evs Eo].
  assert (Z.of_nat (length (md_frames (popped (outbox_ t) ++ evs))) + 1 < 2 ^ 32) as Hlen.
  { rewrite <- Eo, (drained_sink _ Ht' Hd). destruct (to_run _ _ _ Ht') as (cs & [Ecs _] & Erun). eapply Hfit; [|exact Erun].
    rewrite Ecs, <- (ah_in _ _ A). apply Hd. }
  assert (Forall event_ok evs) as Hev.
  { assert (Forall event_ok (popped (outbox_ t'))) as Hall; [|by rewrite Eo in Hall; apply Forall_app in Hall as [_ ?]].
    eapply threads_wide; [done|done|]. rewrite (ah_in _ _ A), (sy_commands _ _ _ _ _ _ _ _ Hinv).
    eapply Forall_impl; [apply (st_cmds _ _ (sy_streams _ _ _ _ _ _ _ _ Hinv))|]. by intros c [_ ?]. }
  assert (fan_ok md (md_frames (popped (outbox_ t))) (publisher_ sv)) as Hfan.
  { eapply system_fan; [exact fds|exact Hcfg|exact Hk|exact limit|exact ring_pos|exact Hsys|].
    unfold published. rewrite md_frames_app, length_app in Hlen. lia. }
  destruct (fan_drain md _ evs sv Hfan Hev Hlen) as (sv' & b & Ed & _).
  assert (gw_step lfd mlfd sv evs sv') as Hg by (by eapply gs_drain).
  exists sv', t', evs, b. split_and!; try done; try apply Hd. eapply sys_step; [exact Hsys|exact Hg|apply A| |done].
  rewrite (ah_in _ _ A), (sy_commands _ _ _ _ _ _ _ _ Hinv).
  destruct (gw_step_popped _ _ _ _ _ Hg) as [->|[-> _]]; [|done]. simpl in Ed. by inv_some.
Qed.
End SystemDrain.
