(* ===== verification/Shown.v ===== *)
(** What the market-data client shows of the book: the last TOP line of a symbol
    against the engine's book. *)
From S2P Require Import Prelude Types Pool Book Engine Process EngineFacts SpecEvents Poller Calls Protocol Ring WireTheorems Net Publisher Stream Gateway.
From S2P Require Import Parse Frames Sockets MdClient MdAccount Delivery MdSession Fanout.

(** ** The last top, by events, by frames and by lines *)
Definition line_top (sym : Z) (t : TopOfBook) (l : MdLine) : TopOfBook :=
  match l with LTop _ s bq b aq a => if s =? sym then mkTop b a bq aq else t | _ => t end.

Definition shown_top (sym : Z) (ls : list MdLine) : TopOfBook := foldl (line_top sym) TopOfBook_default ls.

Definition frame_top (sym : Z) (t : TopOfBook) (f : MdFrame) : TopOfBook := line_top sym t (frame_line 0 f).

Lemma frame_line_top sym t q f : line_top sym t (frame_line q f) = frame_top sym t f.
Proof. by destruct f. Qed.

Lemma last_top_frames sym evs : last_top sym evs = foldl (frame_top sym) TopOfBook_default (md_frames evs).
Proof.
  unfold last_top. generalize TopOfBook_default. induction evs as [|e evs IH]; intros t; [done|]. simpl. unfold md_frame at 1.
  destruct (e_kind e) eqn:Ek; try (rewrite bool_decide_false by congruence; simpl; apply IH).
  rewrite bool_decide_true by done. simpl. rewrite IH. unfold frame_top. simpl. by destruct (e_symbol e =? sym), (e_top e).
Qed.

(** Lines about the connection say nothing of a book. *)
Lemma shown_data sym ls : shown_top sym (filter is_data ls) = shown_top sym ls.
Proof.
  unfold shown_top. generalize TopOfBook_default. induction ls as [|l ls IH]; intros t; [done|].
  rewrite filter_cons. case_decide as Hd; simpl; rewrite IH; [done|]. by destruct l.
Qed.

(** ** A stream without gaps *)
Lemma gaps_bound n l n' : follow n l = Some n' → 0 ≤ n_gaps l ≤ n' - n.
Proof.
  revert n. induction l as [|i l IH]; intros n E; simpl in E; [injection E as ->; unfold n_gaps; simpl; lia|].
  apply bind_Some in E as (m & Em & E%IH). unfold n_gaps in *. cbn [fmap list_fmap]. rewrite zsum_cons.
  destruct i as [q|a b|h d]; simpl in Em |- *.
  - destruct (_ =? _); [|done]. injection Em as <-. lia.
  - destruct (Z.eqb_spec a n), (Z.ltb_spec a b); simpl in Em; simplify_eq; lia.
  - destruct (_ =? _); [|done]. injection Em as ->. lia.
Qed.

(** Read from sequence [n] on without a gap, a stream shows what the frames from there on show. *)
Lemma gapless_top sym (fs : list MdFrame) n l n' t :
  follow n l = Some n' → n_gaps l = 0 → 1 ≤ n → n' ≤ Z.of_nat (length fs) + 1 →
  foldl (line_top sym) t (omap (item_line fs) l) =
  foldl (frame_top sym) t (take (Z.to_nat (n' - n)) (drop (Z.to_nat (n - 1)) fs)).
Proof.
  revert n t. induction l as [|i l IH]; intros n t E Hg Hn Hle; simpl in E.
  { injection E as ->. by rewrite Z.sub_diag, take_0. }
  apply bind_Some in E as (m & Em & E). pose proof (follow_mono _ _ _ E) as Hm. pose proof (gaps_bound _ _ _ E) as Hb.
  unfold n_gaps in Hg, Hb. cbn [fmap list_fmap] in Hg. rewrite zsum_cons in Hg. fold (n_gaps l) in Hg, Hb.
  destruct i as [q|a b|h d]; simpl in Em, Hg |- *; [|lia|].
  - destruct (Z.eqb_spec q n) as [->|]; [|done]. injection Em as <-.
    destruct (lookup_lt_is_Some_2 fs (Z.to_nat (n - 1))) as [f Ef]; [lia|]. rewrite Ef. simpl.
    rewrite frame_line_top, (IH (n + 1)) by (done || lia).
    rewrite (drop_S fs f (Z.to_nat (n - 1))) by done. replace (Z.to_nat (n' - n)) with (S (Z.to_nat (n' - (n + 1)))) by lia.
    simpl. by replace (Z.to_nat (n + 1 - 1)) with (S (Z.to_nat (n - 1))) by lia.
  - destruct (_ =? _); [|done]. injection Em as ->. by apply IH.
Qed.

Lemma gapless_shown sym (fs : list MdFrame) l :
  follow 1 l = Some (Z.of_nat (length fs) + 1) → n_gaps l = 0 →
  shown_top sym (omap (item_line fs) l) = foldl (frame_top sym) TopOfBook_default fs.
Proof.
  intros E Hg. unfold shown_top. rewrite (gapless_top sym fs 1 l _ _ E Hg) by lia.
  rewrite drop_0, take_ge by lia. done.
Qed.
