(* ===== verification/LoadClient.v ===== *)
(** [run_load] of [src/main_client.cpp]: the load generator.  The random draws
    and the clock are functions from the position to the value; the kernel's
    answers are the list of rounds. *)
From S2P Require Import Prelude Types Engine Protocol Ring WireTheorems Net Publisher Stream Gateway Parse Frames Sockets MdClient MdAccount.

Record LoadConfig := mkLoadConfig { n_orders : Z; inflight : Z; ld_symbol : Z; mid : Z; spread : Z }.

(** The locals of [run_load]; [ld_draws] counts the draws taken from [rng]. *)
Record LoadState := mkLoad {
  ld_seq : Z; next_tag : Z; ld_done : Z; in_flight : Z; fills : Z; rejects : Z;
  sent_at : list Z; rtt : list Z; ld_draws : nat }.

Definition LoadState_init (c : LoadConfig) : LoadState :=
  mkLoad 1 0 0 0 0 0 (replicate (Z.to_nat (n_orders c)) 0) [] 0.

Section Load.
Context (c : LoadConfig) (rng : nat → Z) (clock : Z → Z).

(** [mid - spread + static_cast<Price>(rng() % static_cast<uint64_t>(2 * spread + 1))] *)
Definition draw_price (mid spread r : Z) : Z :=
  i64 (i64 (mid - spread) + i64 (r mod u64 (i64 (2 * spread + 1)))).

(** [1 + static_cast<Qty>(rng() % 100)] *)
Definition draw_qty (r : Z) : Z := u32 (1 + u32 (r mod 100)).

(** The order with sequence [seq] and tag [tag]; it takes three draws. *)
Definition load_order (seq tag : Z) (d : nat) : wire.NewOrder :=
  wire.mkNewOrder (wire.hdr (wire.make wire.NewOrder seq)) tag (ld_symbol c) (u8 (Z.land (rng d) 1))
    (OrderType_val Limit) (Tif_val GTC) (replicate 3 0) (draw_price (mid c) (spread c) (rng (S d)))
    (draw_qty (rng (S (S d)))) 0.

(** The window loop: fills [out] while the window and the order budget allow. *)
Fixpoint fill_window (fuel : nat) (out : list Z) (st : LoadState) : option (list Z * LoadState) :=
  match fuel with
  | O => None
  | S fuel =>
      if (in_flight st <? inflight c) && (next_tag st <? n_orders c) then
        let m := load_order (ld_seq st) (next_tag st) (ld_draws st) in
        sent ← vset (sent_at st) (next_tag st) (clock (next_tag st));
        fill_window fuel (wire.append out m)
          (mkLoad (u32 (ld_seq st + 1)) (u64 (next_tag st + 1)) (ld_done st) (u64 (in_flight st + 1))
             (fills st) (rejects st) sent (rtt st) (ld_draws st + 3))
      else Some (out, st)
  end.

(** The callback of [run_load]. *)
Definition on_answer (now : Z) (t : Z) (p : list Z) (st : LoadState) : option LoadState :=
  match wire.MsgType_of t with
  | Some wire.MsgAck =>
      a ← wire.read wire.Ack p;
      sent ← vget (sent_at st) (wire.ak_tag a);
      Some (mkLoad (ld_seq st) (next_tag st) (u64 (ld_done st + 1)) (u64 (in_flight st - 1)) (fills st) (rejects st)
              (sent_at st) (rtt st ++ [u64 (now - sent)]) (ld_draws st))
  | Some wire.MsgReject =>
      Some (mkLoad (ld_seq st) (next_tag st) (u64 (ld_done st + 1)) (u64 (in_flight st - 1)) (fills st)
              (u64 (rejects st + 1)) (sent_at st) (rtt st) (ld_draws st))
  | Some wire.MsgFill =>
      Some (mkLoad (ld_seq st) (next_tag st) (ld_done st) (in_flight st) (u64 (fills st + 1)) (rejects st)
              (sent_at st) (rtt st) (ld_draws st))
  | _ => Some st
  end.

(** One turn of the main loop: the answers to the writes, the result of the
    [::read], the clock after it. *)
Record Round := mkRound { rd_writes : list WriteResult; rd_read : ReadResult; rd_now : Z }.

(** The main loop: exit code, final state and everything written; [None] while
    a system call blocks. *)
Fixpoint load_run (rounds : list Round) (rx : list Z) (st : LoadState) (written : list Z) :
    option (Z * LoadState * list Z) :=
  if ld_done st <? n_orders c then
    match rounds with
    | [] => None
    | r :: rounds =>
        '(out, st) ← fill_window (S (Z.to_nat (n_orders c))) [] st;
        '(ok, sent, _) ← (if bool_decide (out = []) then Some (true, [], []) else write_full (rd_writes r) out);
        let written := written ++ sent in
        if negb (ok : bool) then Some (1, st, written) else
        match rd_read r with
        | Got (b :: bs) =>
            '(rx, st) ← receive on_answer rx (rd_now r) (b :: bs) st;
            load_run rounds rx st written
        | _ => Some (1, st, written)
        end
    end
  else Some (0, st, written).

(** ** What is generated *)

(** The orders with tags from [tag] on. *)
Fixpoint load_orders (tag : Z) (k : nat) : list wire.NewOrder :=
  match k with
  | O => []
  | S k => load_order (u32 (1 + tag)) tag (3 * Z.to_nat tag) :: load_orders (tag + 1) k
  end.

Definition order_bytes (ms : list wire.NewOrder) : list Z := concat (wire.bytes_of <$> ms).

(** The state between two turns: everything sent is answered or in flight. *)
Record load_ok (st : LoadState) : Prop := {
  lk_seq : ld_seq st = u32 (1 + next_tag st);
  lk_tag : 0 ≤ next_tag st ≤ n_orders c;
  lk_sum : ld_done st + in_flight st = next_tag st;
  lk_pos : 0 ≤ ld_done st ∧ 0 ≤ in_flight st ≤ inflight c;
  lk_len : Z.of_nat (length (sent_at st)) = n_orders c;
  lk_draws : ld_draws st = (3 * Z.to_nat (next_tag st))%nat;
  lk_rtt : Z.of_nat (length (rtt st)) + rejects st = ld_done st;
  lk_rejects : 0 ≤ rejects st }.

Context (sizes : 0 ≤ n_orders c < 2 ^ 63 ∧ 0 ≤ inflight c < 2 ^ 64).

Lemma load_init_ok : load_ok (LoadState_init c).
Proof. split; simpl; rewrite ?length_replicate; try (done || lia). Qed.

Lemma load_orders_app tag j k : 0 ≤ tag →
  load_orders tag (j + k) = load_orders tag j ++ load_orders (tag + Z.of_nat j) k.
Proof.
  revert tag. induction j as [|j IH]; intros tag Ht; cbn [load_orders Nat.add app]; [by rewrite Z.add_0_r|].
  rewrite IH by lia. do 3 f_equal. lia.
Qed.

(** The window loop sends exactly the orders that fit. *)
Lemma fill_window_ok fuel out st :
  load_ok st → n_orders c - next_tag st < Z.of_nat fuel →
  ∃ k st', fill_window fuel out st = Some (out ++ order_bytes (load_orders (next_tag st) k), st') ∧
    load_ok st' ∧ next_tag st' = next_tag st + Z.of_nat k ∧
    next_tag st' = Z.min (n_orders c) (ld_done st + inflight c) ∧ ld_done st' = ld_done st ∧
    rejects st' = rejects st ∧ fills st' = fills st.
Proof.
  revert out st. induction fuel as [|fuel IH]; intros out st H Hf; [destruct (lk_tag _ H); lia|].
  cbn [fill_window]. destruct H as [Hs Ht Hsum Hpos Hl Hd Hr Hrj].
  destruct (Z.ltb_spec (in_flight st) (inflight c)) as [H1|H1], (Z.ltb_spec (next_tag st) (n_orders c)) as [H2|H2]; simpl andb.
  2-4: exists 0%nat, st; unfold order_bytes; simpl; rewrite app_nil_r; split_and!; try (done || lia); by split.
  cbv iota. destruct (vset_is_Some (sent_at st) (next_tag st) (clock (next_tag st))) as [sent Es]; [lia|]. rewrite Es.
  cbn [mbind option_bind]. apply vset_length in Es. rewrite (u64_small (next_tag st + 1)), (u64_small (in_flight st + 1)) by lia.
  match goal with |- context [fill_window fuel _ ?s] => set (st1 := s) end.
  destruct (IH (wire.append out (load_order (ld_seq st) (next_tag st) (ld_draws st))) st1)
    as (k & st' & E & Hok & Hn & Hm & Hd' & Hr' & Hf').
  - split; simpl; try (done || lia). rewrite Hs, u32_add_l. f_equal. lia.
  - simpl. lia.
  - exists (S k), st'. cbn [next_tag ld_done rejects fills st1] in *. split; [|split_and!; try (done || lia)].
    rewrite E. unfold wire.append, order_bytes. rewrite Hs, Hd. cbn [load_orders fmap list_fmap concat].
    by rewrite <- app_assoc.
Qed.
End Load.
