(* ===== verification/LoadRun.v ===== *)
(** The load generator against a server that answers: every order is sent
    once, every answer is counted once, and the run ends. *)
From S2P Require Import Prelude Types Engine Protocol Ring WireTheorems Net Publisher Stream Gateway Parse Frames Sockets MdClient MdAccount LoadClient.

(** ** The server's frames *)
Inductive Answer :=
  | AAck (m : wire.Ack) | AReject (m : wire.Reject) | AFill (m : wire.Fill)
  | ACancelled (m : wire.Cancelled) | AReplaced (m : wire.Replaced).

Definition answer_bytes (a : Answer) : list Z :=
  match a with
  | AAck m => wire.bytes_of m | AReject m => wire.bytes_of m | AFill m => wire.bytes_of m
  | ACancelled m => wire.bytes_of m | AReplaced m => wire.bytes_of m
  end.

(** A frame as the gateway builds it; an Ack names a tag below [sent]. *)
Definition answer_ok (sent : Z) (a : Answer) : Prop :=
  match a with
  | AAck m => sendable m ∧ wire.ak_tag m < sent
  | AReject m => sendable m | AFill m => sendable m
  | ACancelled m => sendable m | AReplaced m => sendable m
  end.

(** The orders a frame settles, and how. *)
Definition n_acks (l : list Answer) : Z := zsum ((λ a, match a with AAck _ => 1 | _ => 0 end) <$> l).
Definition n_rejects (l : list Answer) : Z := zsum ((λ a, match a with AReject _ => 1 | _ => 0 end) <$> l).
Definition n_settled (l : list Answer) : Z := n_acks l + n_rejects l.

Lemma settled_app l l' : n_acks (l ++ l') = n_acks l + n_acks l' ∧ n_rejects (l ++ l') = n_rejects l + n_rejects l'.
Proof. unfold n_acks, n_rejects. by rewrite !fmap_app, !zsum_app. Qed.

Lemma settled_pos l : 0 ≤ n_acks l ∧ 0 ≤ n_rejects l.
Proof. unfold n_acks, n_rejects. induction l as [|[] l IH]; cbn [fmap list_fmap]; rewrite ?zsum_cons; simpl in *; lia. Qed.

Lemma answer_whole sent a : answer_ok sent a → whole (answer_bytes a).
Proof.
  destruct a; cbn [answer_ok answer_bytes]; [intros [(Hv & Hl & _) _]|intros (Hv & Hl & _)..]; by apply framed_whole.
Qed.

(** [st] is [st0] after the answers [l]. *)
Record settled (st0 : LoadState) (l : list Answer) (st : LoadState) : Prop := {
  se_done : ld_done st = ld_done st0 + n_settled l;
  se_flight : in_flight st = in_flight st0 - n_settled l;
  se_rtt : Z.of_nat (length (rtt st)) = Z.of_nat (length (rtt st0)) + n_acks l;
  se_rejects : rejects st = rejects st0 + n_rejects l;
  se_rest : ld_seq st = ld_seq st0 ∧ next_tag st = next_tag st0 ∧ sent_at st = sent_at st0 ∧ ld_draws st = ld_draws st0 }.

Lemma sendable_front {M} `{WK : wire.WireOk M} (m : M) rest :
  sendable m → frame_type (wire.bytes_of m) = wire.MsgType_val (wire.kType (M := M)) ∧
  wire.read M (wire.bytes_of m ++ rest) = Some m.
Proof.
  intros (Hv & Hl & Ht). destruct (framed_whole m Hv Hl) as [_ ->]. destruct (read_front m rest Hv) as [-> _]. done.
Qed.

Lemma MsgType_of_val t : wire.MsgType_of (wire.MsgType_val t) = Some t.
Proof. by destruct t. Qed.

Ltac settle :=
  eexists; split; [reflexivity|]; split; cbn -[u64 Z.sub]; unfold n_settled, n_acks, n_rejects; simpl;
  rewrite ?length_app, ?u64_small by lia; simpl; try done; lia.

Lemma on_answer_step now sent a rest st :
  answer_ok sent a → sent ≤ Z.of_nat (length (sent_at st)) →
  0 ≤ ld_done st < 2 ^ 63 → 0 ≤ rejects st < 2 ^ 63 → n_settled [a] ≤ in_flight st < 2 ^ 64 →
  ∃ st', on_answer now (frame_type (answer_bytes a)) (answer_bytes a ++ rest) st = Some st' ∧ settled st [a] st'.
Proof.
  intros Ha Hs Hd Hr Hf. unfold n_settled, n_acks, n_rejects in Hf. unfold on_answer.
  destruct a as [m|m|m|m|m]; cbn [answer_ok answer_bytes] in *; [destruct Ha as [Ha Htag]|..];
    destruct (sendable_front m rest Ha) as [-> Er]; rewrite MsgType_of_val; cbn [wire.kType wire.Ack_wire
      wire.Reject_wire wire.Fill_wire wire.Cancelled_wire wire.Replaced_wire fmap list_fmap zsum foldr] in *.
  - rewrite Er. cbn [mbind option_bind]. assert (0 ≤ wire.ak_tag m) as Hpos by (destruct Ha as [Hv _]; unfold wire.valid in Hv; cbn -[Z.pow] in Hv; apply Hv).
    destruct (vget_is_Some (sent_at st) (wire.ak_tag m)) as [x ->]; [lia|]. settle.
  - settle.
  - settle.
  - settle.
  - settle.
Qed.

Lemma settled_nil st : settled st [] st.
Proof. split; unfold n_settled, n_acks, n_rejects; simpl; done || lia. Qed.

Lemma settled_trans st0 l st l' st' : settled st0 l st → settled st l' st' → settled st0 (l ++ l') st'.
Proof.
  intros [] []. destruct (settled_app l l'). unfold n_settled in *. split; unfold n_settled; try lia.
  destruct_and!; split_and!; congruence.
Qed.

(** One [read]: all answers that are whole are counted. *)
Lemma receive_answers sent rx now chunk l t st :
  rx ++ chunk = concat (answer_bytes <$> l) ++ t → partial t → Forall byte t →
  Z.of_nat (length (rx ++ chunk)) < 2 ^ 63 →
  Forall (answer_ok sent) l → sent ≤ Z.of_nat (length (sent_at st)) →
  0 ≤ ld_done st → ld_done st + n_settled l < 2 ^ 63 → 0 ≤ rejects st → rejects st + n_settled l < 2 ^ 63 →
  n_settled l ≤ in_flight st < 2 ^ 64 →
  ∃ st', receive on_answer rx now chunk st = Some (t, st') ∧ settled st l st'.
Proof.
  intros E Ht Hbt Hlen Hl Hs Hd Hd' Hr Hr' Hf.
  assert (Forall whole (answer_bytes <$> l)) as Hw
    by (apply Forall_fmap; eapply Forall_impl; [exact Hl|]; intros a; apply answer_whole).
  set (P := λ dn st', ∃ l1, l1 `prefix_of` l ∧ dn = answer_bytes <$> l1 ∧ settled st l1 st').
  assert (∃ st', call_all (on_answer now) (pointers (answer_bytes <$> l) t) st = Some st' ∧ P ([] ++ (answer_bytes <$> l)) st')
    as (st' & Ec & (l1 & [l2 El] & Ed & Hset)).
  { eapply (call_all_stream on_answer (answer_bytes <$> l) P Hw).
    - intros dn bs later e rest st1 Ea (l1 & [l2 El] & -> & Hst). rewrite El, fmap_app in Ea. apply app_inv_head in Ea.
      destruct l2 as [|a l2]; [done|]. injection Ea as <- _. destruct (settled_app l1 (a :: l2)) as [S1 S2].
      destruct (settled_app [a] l2) as [S3 S4]. pose proof (settled_pos l1). pose proof (settled_pos l2).
      pose proof (settled_pos [a]). rewrite <- El in S1, S2. cbn [app] in *. unfold n_settled in *.
      destruct Hst as [T1 T2 T3 T4 (T5 & T6 & T7 & T8)]. unfold n_settled in *.
      destruct (on_answer_step e sent a rest st1) as (st2 & E2 & H2).
      + rewrite El in Hl. apply Forall_app in Hl as [_ Hl]. by apply Forall_inv in Hl.
      + by rewrite T7.
      + lia.
      + lia.
      + unfold n_settled. lia.
      + exists st2. split; [done|]. exists (l1 ++ [a]). rewrite fmap_app. split_and!; [|done|].
        * rewrite El. apply prefix_app. by exists l2.
        * eapply settled_trans; [|exact H2]. by split.
    - by rewrite app_nil_r.
    - exists []. split_and!; [apply prefix_nil|done|apply settled_nil]. }
  exists st'. cbn [app] in Ed. assert (l2 = []) as ->.
  { apply (f_equal length) in Ed. rewrite El, !length_fmap, length_app in Ed. destruct l2; [done|simpl in Ed; lia]. }
  rewrite app_nil_r in El. subst l1. split; [|done]. unfold receive. rewrite E.
  rewrite (for_each_frame_cut _ _ _ _ st (cut_stream _ t Hw Ht)), Ec; [done|by rewrite <- E|].
  apply Forall_app. split; [|done]. apply Forall_concat. eapply Forall_impl; [exact Hw|apply wh_bytes].
Qed.

(** ** A server that keeps answering

    [fair c sent done rx rounds]: with [sent] orders out, [done] of them settled
    and [rx] read but incomplete, each round takes all bytes written and brings
    whole answers to orders that are out, until all are settled. *)
Definition window (c : LoadConfig) (dn : Z) : Z := Z.min (n_orders c) (dn + inflight c).

Inductive fair (c : LoadConfig) : Z → Z → list Z → list Round → Prop :=
  | fair_end sent dn rx rounds : n_orders c ≤ dn → fair c sent dn rx rounds
  | fair_round sent dn rx r b bs rounds l t :
      dn < n_orders c →
      writes_ok (rd_writes r) (40 * (window c dn - sent)) →
      40 * (window c dn - sent) ≤ zsum ((λ w, match w with Wrote n => n | _ => 0 end) <$> rd_writes r) →
      Failed ∉ rd_writes r →
      rd_read r = Got (b :: bs) →
      rx ++ b :: bs = concat (answer_bytes <$> l) ++ t → partial t → Forall byte t →
      Z.of_nat (length (rx ++ b :: bs)) < 2 ^ 63 →
      Forall (answer_ok (window c dn)) l → n_settled l ≤ window c dn - dn →
      fair c (window c dn) (dn + n_settled l) t rounds → fair c sent dn rx (r :: rounds).

Section Run.
Context (c : LoadConfig) (rng : nat → Z) (clock : Z → Z).
Context (sizes : 0 ≤ n_orders c < 2 ^ 32 ∧ 0 ≤ inflight c < 2 ^ 63) (symbol_ok : 0 ≤ ld_symbol c < 2 ^ 16).

Lemma draw_qty_range r : 1 ≤ draw_qty r ≤ 100.
Proof.
  unfold draw_qty. pose proof (Z.mod_pos_bound r 100 ltac:(lia)). rewrite (u32_small (r mod 100)), u32_small; lia.
Qed.

Lemma load_order_framed seq tag d :
  0 ≤ seq < 2 ^ 32 → 0 ≤ tag < 2 ^ 64 → framed seq (load_order c rng seq tag d).
Proof.
  intros Hs Ht. split; [|reflexivity]. pose proof (draw_qty_range (rng (S (S d)))) as Hq.
  pose proof (i64_range (i64 (mid c - spread c) + i64 (rng (S d) mod u64 (i64 (2 * spread c + 1))))) as Hp.
  assert (0 ≤ u8 (Z.land (rng d) 1) < 2 ^ 8) by (apply Z.mod_pos_bound; lia).
  unfold load_order. fold (draw_price (mid c) (spread c) (rng (S d))) in Hp.
  generalize dependent (draw_price (mid c) (spread c) (rng (S d))). generalize dependent (draw_qty (rng (S (S d)))).
  generalize dependent (u8 (Z.land (rng d) 1)). intros. wire_valid.
Qed.

Lemma length_order_bytes tag k :
  0 ≤ tag → tag + Z.of_nat k < 2 ^ 63 → Z.of_nat (length (order_bytes (load_orders c rng tag k))) = 40 * Z.of_nat k.
Proof.
  unfold order_bytes. revert tag. induction k as [|k IH]; intros tag Ht Hk; [done|]. cbn [load_orders fmap list_fmap concat].
  rewrite length_app, Nat2Z.inj_add, IH by lia.
  destruct (framed_header _ _ [] (load_order_framed (u32 (1 + tag)) tag (3 * Z.to_nat tag) (u32_range _) ltac:(lia))) as (_ & _ & ->).
  change (wire.sizeof wire.NewOrder) with 40. lia.
Qed.

Lemma settled_ok st0 l st : load_ok c st0 → settled st0 l st → n_settled l ≤ in_flight st0 → load_ok c st.
Proof.
  intros [] [] Hle. destruct (settled_pos l). unfold n_settled in *. destruct se_rest0 as (E1 & E2 & E3 & E4).
  split; rewrite ?E1, ?E2, ?E3, ?E4; try (done || lia).
Qed.

(** One round of writes. *)
Lemma write_round os k tag :
  0 ≤ tag → tag + Z.of_nat k ≤ n_orders c → writes_ok os (40 * Z.of_nat k) → Failed ∉ os →
  40 * Z.of_nat k ≤ zsum ((λ w, match w with Wrote n => n | _ => 0 end) <$> os) →
  let out := order_bytes (load_orders c rng tag k) in
  ∃ os', (if bool_decide (out = []) then Some (true, [], []) else write_full os out) = Some (true, out, os').
Proof.
  intros Ht Hk Hw Hf Hs out. case_bool_decide as E; [rewrite E; by eexists|].
  pose proof (length_order_bytes tag k Ht ltac:(lia)) as Hl. fold out in Hl. unfold write_full.
  destruct (write_loop_total os out 0 (Z.of_nat (length out))) as [[[ok sent] os'] Ew]; [lia|by rewrite Hl|right; lia|].
  destruct (write_loop_ok os out 0 (Z.of_nat (length out)) ok sent os' ltac:(lia) ltac:(lia) ltac:(lia) ltac:(lia) ltac:(by rewrite Hl) Ew) as (H1 & _ & H3).
  exists os'. rewrite Ew. destruct ok; [by rewrite H1|]. by destruct Hf; apply H3.
Qed.

Lemma load_run_ok rounds rx st written sent dn :
  fair c sent dn rx rounds → load_ok c st → next_tag st = sent → ld_done st = dn →
  written = order_bytes (load_orders c rng 0 (Z.to_nat sent)) →
  ∃ st', load_run c rng clock rounds rx st written = Some (0, st', order_bytes (load_orders c rng 0 (Z.to_nat (n_orders c)))) ∧
    load_ok c st' ∧ ld_done st' = n_orders c ∧ in_flight st' = 0.
Proof.
  intros Hf. revert st written. induction Hf as [sent dn rx rounds Hn|sent dn rx r b bs rounds l t Hn Hw Hsum Hnf Er Eb Ht Hbt Hlen Hl Hle Hf IH];
    intros st written Hok Hsent Hdn ->.
  { exists st. pose proof (lk_sum _ _ Hok). pose proof (lk_tag _ _ Hok). pose proof (lk_pos _ _ Hok).
    destruct rounds; cbn [load_run]; (destruct (Z.ltb_spec (ld_done st) (n_orders c)); [lia|]);
      replace sent with (n_orders c) by lia; (split_and!; [done|done|lia|lia]). }
  cbn [load_run]. destruct (Z.ltb_spec (ld_done st) (n_orders c)); [|lia].
  destruct (fill_window_ok c rng clock ltac:(lia) (S (Z.to_nat (n_orders c))) [] st Hok) as
    (k & st1 & -> & Hok1 & Hn1 & Hm1 & Hd1 & _); [destruct (lk_tag _ _ Hok); lia|].
  cbn [mbind option_bind app]. rewrite Hsent, Hdn in *. fold (window c dn) in Hm1.
  replace (window c dn - sent) with (Z.of_nat k) in * by lia. destruct (lk_tag _ _ Hok). destruct (lk_tag _ _ Hok1).
  destruct (write_round (rd_writes r) k sent) as [os' ->]; try (done || lia). cbn [mbind option_bind negb]. rewrite Er.
  pose proof (lk_sum _ _ Hok1). pose proof (lk_rtt _ _ Hok1). pose proof (lk_rejects _ _ Hok1). pose proof (lk_len _ _ Hok1).
  destruct (lk_pos _ _ Hok1).
  destruct (receive_answers (window c dn) rx (rd_now r) (b :: bs) l t st1 Eb Ht Hbt Hlen Hl) as (st2 & -> & Hset); [lia..|].
  cbn [mbind option_bind]. apply IH.
  - eapply settled_ok; [exact Hok1|exact Hset|lia].
  - destruct (se_rest _ _ _ Hset) as (_ & -> & _). lia.
  - rewrite (se_done _ _ _ Hset). lia.
  - unfold order_bytes. rewrite <- concat_app, <- fmap_app. do 2 f_equal.
    replace (Z.to_nat (window c dn)) with (Z.to_nat sent + k)%nat by lia. rewrite load_orders_app by lia. do 2 f_equal. lia.
Qed.

(** ** What the server gets *)
Lemma load_orders_stream tag k :
  0 ≤ tag → tag + Z.of_nat k < 2 ^ 63 → client_stream (u32 (1 + tag)) (CNew <$> load_orders c rng tag k).
Proof.
  revert tag. induction k as [|k IH]; intros tag Ht Hk; [done|]. cbn [load_orders fmap list_fmap client_stream]. split.
  - apply load_order_framed; [apply u32_range|lia].
  - rewrite u32_add_l. replace (1 + tag + 1) with (1 + (tag + 1)) by lia. apply IH; lia.
Qed.

(** The command the gateway makes of order [tag]. *)
Definition load_command (sid tag : Z) : Command :=
  let d := (3 * Z.to_nat tag)%nat in
  mkCommand CmdNew (if Z.odd (rng d) then Sell else Buy) Limit GTC (ld_symbol c) sid tag 0
    (draw_price (mid c) (spread c) (rng (S d))) (draw_qty (rng (S (S d)))).

Lemma load_order_command sid seq tag :
  new_command sid (load_order c rng seq tag (3 * Z.to_nat tag)) = (tag, Some (load_command sid tag)).
Proof.
  unfold new_command, load_command, load_order. cbn [wire.no_tag wire.no_side wire.no_type wire.no_tif wire.no_symbol wire.no_price wire.no_qty].
  assert (Z.land (rng (3 * Z.to_nat tag)) 1 = Z.b2z (Z.odd (rng (3 * Z.to_nat tag)))) as ->.
  { change 1 with (Z.ones 1). rewrite Z.land_ones by lia. change (2 ^ 1) with 2. by rewrite Zmod_odd; destruct (Z.odd _). }
  by destruct (Z.odd _).
Qed.

(** [mid - spread <= price <= mid + spread], when the arithmetic does not overflow. *)
Lemma draw_price_range r :
  0 ≤ spread c < 2 ^ 61 → 0 ≤ mid c < 2 ^ 61 →
  mid c - spread c ≤ draw_price (mid c) (spread c) r ≤ mid c + spread c.
Proof.
  intros Hs Hm. assert (∀ z, - 2 ^ 63 ≤ z < 2 ^ 63 → i64 z = z) as Hi.
  { intros z Hz. unfold i64. rewrite Z.mod_small; lia. }
  unfold draw_price. rewrite (Hi (2 * spread c + 1)), (Hi (mid c - spread c)), (u64_small (2 * spread c + 1)) by lia.
  pose proof (Z.mod_pos_bound r (2 * spread c + 1) ltac:(lia)). rewrite (Hi (r mod _)) by lia. rewrite Hi; lia.
Qed.
End Run.

(** ** Client bytes *)
Lemma client_order_bytes ms : concat (client_bytes <$> (CNew <$> ms)) = order_bytes ms.
Proof. unfold order_bytes. by rewrite <- list_fmap_compose. Qed.

Lemma client_stream_bytes seq ms : client_stream seq ms → Forall byte (concat (client_bytes <$> ms)).
Proof.
  revert seq. induction ms as [|m ms IH]; intros seq Hs; [done|]. destruct Hs as [Hm Hs]. cbn [fmap list_fmap concat].
  apply Forall_app. split; [|by eapply IH]. destruct m as [m|m|m]; destruct Hm as [Hv _]; by apply wire.wk_format.
Qed.

Lemma load_orders_commands c rng sid k :
  omap (λ m, snd (client_command sid m)) (CNew <$> load_orders c rng 0 k)
  = (λ i, load_command c rng sid (Z.of_nat i)) <$> List.seq 0 k.
Proof.
  enough (∀ j, omap (λ m, snd (client_command sid m)) (CNew <$> load_orders c rng (Z.of_nat j) k)
    = (λ i, load_command c rng sid (Z.of_nat i)) <$> List.seq j k) as H by apply (H 0%nat).
  induction k as [|k IH]; intros j; [done|]. cbn [load_orders List.seq fmap list_fmap omap list_omap client_command].
  rewrite load_order_command. cbn [snd]. f_equal. replace (Z.of_nat j + 1) with (Z.of_nat (S j)) by lia. apply IH.
Qed.
