(* ===== verification/LoadTheorems.v ===== *)
(** The theorems about the load generator. *)
From S2P Require Import Prelude Types Engine Process Protocol Ring WireTheorems Net Publisher Stream Gateway Parse Frames Sockets MdClient MdAccount LoadClient LoadRun.

(** ** Blocking transfers *)

(** [write_full] on answers of the kernel that accept or fail the whole
    buffer returns; it is true exactly if every byte was taken, in order, and
    otherwise a prefix was and a [::write] failed.  [read_full] that returns true
    has stored exactly the bytes asked for, and otherwise fewer. *)
Theorem transfers_complete (buf : list Z) (ws : list WriteResult) (n : Z) (rs : list ReadResult)
    (ok' : bool) (got : list Z) (rest : list ReadResult) :
  Z.of_nat (length buf) < 2 ^ 64 → writes_ok ws (Z.of_nat (length buf)) →
  Failed ∈ ws ∨ Z.of_nat (length buf) ≤ zsum ((λ r, match r with Wrote r => r | _ => 0 end) <$> ws) →
  0 ≤ n < 2 ^ 64 → reads_ok rs n → read_full rs n = Some (ok', got, rest) →
  (∃ ok out ws', write_full ws buf = Some (ok, out, ws') ∧ out `prefix_of` buf ∧
     (ok = true → out = buf) ∧ (ok = false → Failed ∈ ws)) ∧
  Z.of_nat (length got) ≤ n ∧ (ok' = true ↔ Z.of_nat (length got) = n).
Proof.
  intros Hl Hw Hd Hn Hr E. split.
  - unfold write_full. destruct (write_loop_total ws buf 0 (Z.of_nat (length buf))) as [[[ok out] ws'] Ew]; [lia|done|done|].
    destruct (write_loop_ok ws buf 0 (Z.of_nat (length buf)) ok out ws') as (H1 & H2 & H3); try (done || lia). rewrite drop_0 in *.
    by exists ok, out, ws'.
  - destruct (read_full_loop_ok rs n [] ok' got rest Hn Hr E) as (new & -> & Hle & Hok). done.
Qed.

(** ** The load generator *)

(** What the load generator writes is what the engine is asked to do: the
    gateway parses the bytes of any number of generated orders, on a fresh session,
    into exactly one limit order per tag, in tag order, each within [spread] of
    [mid] and with a quantity of 1 to 100; none is refused as malformed. *)
Lemma load_orders_decode (c : LoadConfig) (rng : nat → Z) (k : nat) push (s : Session) (dirty : list Z) (cmds : list Command) :
  accepting push → 0 ≤ ld_symbol c < 2 ^ 16 →
  0 ≤ spread c < 2 ^ 61 → 0 ≤ mid c < 2 ^ 61 → Z.of_nat k < 2 ^ 32 → expect_seq s = 1 →
  ∃ s' dirty' new, parse_frames push (with_rx (order_bytes (load_orders c rng 0 k)) s) dirty cmds =
      Some (true, s', dirty', cmds ++ new) ∧ rx (s_conn s') = [] ∧
    new = (λ i, load_command c rng (s_id s) (Z.of_nat i)) <$> List.seq 0 k ∧
    Forall (λ cm, c_kind cm = CmdNew ∧ c_type cm = Limit ∧ c_tif cm = GTC ∧ 1 ≤ c_qty cm ≤ 100 ∧
                  mid c - spread c ≤ c_price cm ≤ mid c + spread c) new.
Proof.
  intros Hpush Hs Hsp Hm Hk He. pose proof (length_order_bytes c rng Hs 0 k ltac:(lia) ltac:(lia)) as Hl.
  pose proof (load_orders_stream c rng Hs 0 k ltac:(lia) ltac:(lia)) as Hst. change (u32 (1 + 0)) with 1 in Hst.
  rewrite <- (client_order_bytes (load_orders c rng 0 k)) in *.
  destruct (parse_stream push s dirty cmds (CNew <$> load_orders c rng 0 k)) as (s' & dirty' & E & Er).
  - done.
  - by rewrite He.
  - by eapply client_stream_bytes.
  - lia.
  - rewrite load_orders_commands in E. exists s', dirty'. eexists. split_and!; [exact E|exact Er|done|].
    apply Forall_fmap, Forall_true. intros i. cbn [load_command c_kind c_type c_tif c_qty c_price compose].
    pose proof (draw_qty_range (rng (S (S (3 * Z.to_nat (Z.of_nat i)))))). split_and!; try (done || lia).
    all: by apply draw_price_range.
Qed.

(** What an order of the load generator asks for. *)
Definition in_band (c : LoadConfig) (cm : Command) : Prop :=
  c_kind cm = CmdNew ∧ c_type cm = Limit ∧ c_tif cm = GTC ∧ 1 ≤ c_qty cm ≤ 100 ∧
  mid c - spread c ≤ c_price cm ≤ mid c + spread c.

(** The load generator, end to end: against a server that takes what is
    written and settles every order with one Ack or Reject, in any grouping and cut
    of the reads and mixed with fills, the loop returns success with every order
    settled, none in flight and one round-trip sample per Ack; and a gateway that
    reads what was written decodes, on a fresh session, exactly one limit order
    per tag, in tag order, each within [spread] of [mid] and of quantity 1 to 100,
    and refuses none. *)
Theorem load_completes (c : LoadConfig) (rng : nat → Z) (clock : Z → Z) (rounds : list Round) (s : Session) :
  0 ≤ n_orders c < 2 ^ 32 → 0 ≤ inflight c < 2 ^ 63 → 0 ≤ ld_symbol c < 2 ^ 16 →
  0 ≤ spread c < 2 ^ 61 → 0 ≤ mid c < 2 ^ 61 → fair c 0 0 [] rounds → expect_seq s = 1 →
  ∃ st written, load_run c rng clock rounds [] (LoadState_init c) [] = Some (0, st, written) ∧
    (ld_done st = n_orders c ∧ in_flight st = 0 ∧ Z.of_nat (length (rtt st)) + rejects st = n_orders c ∧ 0 ≤ rejects st) ∧
    ∀ push, accepting push → ∃ s' dirty' cmds, parse_frames push (with_rx written s) [] [] = Some (true, s', dirty', cmds) ∧ rx (s_conn s') = [] ∧
      cmds = (λ i, load_command c rng (s_id s) (Z.of_nat i)) <$> List.seq 0 (Z.to_nat (n_orders c)) ∧
      Forall (in_band c) cmds.
Proof.
  intros Hn Hi Hs Hsp Hm Hf He.
  destruct (load_run_ok c rng clock ltac:(lia) Hs rounds [] (LoadState_init c) [] 0 0 Hf) as (st & E & Hok & Hd & Hfl); try done.
  { apply load_init_ok. lia. }
  eexists st, _. split; [done|]. split; [split_and!; [done|done|by rewrite (lk_rtt _ _ Hok)|apply Hok]|].
  intros push Hpush. destruct (load_orders_decode c rng (Z.to_nat (n_orders c)) push s [] []) as (s' & dirty' & new & ?); try (done || lia).
  by exists s', dirty', new.
Qed.

(** Two orders, one at a time; the second is answered in two reads. *)
Definition demo_load : LoadConfig := mkLoadConfig 2 1 0 10000 5.
Definition demo_ack (tag : Z) : wire.Ack := wire.mkAck (wire.hdr (wire.make wire.Ack 0)) tag (tag + 1).
Definition demo_rounds : list Round :=
  [mkRound [Wrote 40] (Got (wire.bytes_of (demo_ack 0) ++ take 5 (wire.bytes_of (demo_ack 1)))) 100;
   mkRound [Again; Wrote 16; Wrote 24] (Got (drop 5 (wire.bytes_of (demo_ack 1)))) 200].

Lemma demo_ack_ok tag : 0 ≤ tag < 2 → answer_ok (tag + 1) (AAck (demo_ack tag)).
Proof. intros Ht. split; [split; [unfold demo_ack; wire_valid|split; reflexivity]|]. simpl. lia. Qed.

Lemma demo_fair : fair demo_load 0 0 [] demo_rounds.
Proof.
  assert (whole (wire.bytes_of (demo_ack 1))) as Hw by (eapply (answer_whole 2 (AAck (demo_ack 1))); by apply demo_ack_ok).
  eapply (fair_round demo_load 0 0 [] (mkRound _ _ _) _ _ _ [AAck (demo_ack 0)] (take 5 (wire.bytes_of (demo_ack 1))));
    [vm_compute; reflexivity|vm_compute; repeat split; discriminate|vm_compute; discriminate|set_solver|reflexivity|reflexivity| | |vm_compute; reflexivity| |vm_compute; discriminate|].
  - right. exists (wire.bytes_of (demo_ack 1)). split_and!; [done|by apply prefix_take|vm_compute; discriminate].
  - apply Forall_take. apply Hw.
  - apply Forall_singleton. by apply (demo_ack_ok 0).
  - eapply (fair_round demo_load _ _ _ (mkRound _ _ _) _ _ _ [AAck (demo_ack 1)] []);
      [vm_compute; reflexivity|vm_compute; repeat split; discriminate|vm_compute; discriminate|set_solver|reflexivity|reflexivity|by left|done|vm_compute; reflexivity| |vm_compute; discriminate|].
    + apply Forall_singleton. by apply (demo_ack_ok 1).
    + apply fair_end. vm_compute. discriminate.
Qed.

