(* ===== verification/Served.v ===== *)
(** What the load generator gets from the whole exchange: the gateway's frames
    for one session are answers in the sense of [LoadRun], and the orders of the
    session are settled in the order of their tags. *)
From S2P Require Import Prelude Types Pool Book Engine Spec Process EngineFacts Settle Spsc Threads Poller Calls Protocol Ring Net Publisher.
From S2P Require Import Gateway Parse Inputs GatewayTheorems Sessions Reach Streams Carried System Frames MdAccount LoadClient LoadRun.

(** ** Frames with consecutive numbers are their own inputs *)
Lemma inputs_client seq sid ms :
  client_stream seq ms → inputs seq sid (concat (client_bytes <$> ms)) =
  Some ((λ m, input_of (fst (client_command sid m)) (snd (client_command sid m))) <$> ms, true, []).
Proof.
  intros Hs. enough (∀ fuel, (length ms < fuel)%nat → dissect fuel seq sid (concat (client_bytes <$> ms)) =
    Some ((λ m, input_of (fst (client_command sid m)) (snd (client_command sid m))) <$> ms, true, [])) as Hgo.
  { unfold inputs. destruct (inputs_total seq sid (concat (client_bytes <$> ms))) as [r Er]. unfold inputs in Er.
    pose proof (dissect_fuel _ (S (length ms + length (concat (client_bytes <$> ms)))) _ _ _ _ Er ltac:(lia)) as E.
    rewrite Hgo in E by lia. congruence. }
  revert seq Hs. induction ms as [|m ms IH]; intros seq Hs fuel Hf; (destruct fuel as [|fuel]; [simpl in Hf; lia|]); [done|].
  destruct Hs as [Hm Hs]. cbn [fmap list_fmap concat dissect]. rewrite front_classify, classify_client by done.
  rewrite Nat2Z.id, drop_app_length, IH; [done|done|simpl in Hf; lia].
Qed.

(** ** Settlements *)
Definition settles (ev : Event) : Prop := e_kind ev = EvAccepted ∨ e_kind ev = EvRejected.

#[export] Instance settles_dec ev : Decision (settles ev).
Proof. apply _. Defined.

Lemma settles_private ev : settles ev → private ev = true.
Proof. unfold private. by intros [-> | ->]. Qed.

(** When a session sends new orders only, its settlements name their tags, in order. *)
Lemma settle_tags sid cmds blocks :
  Forall2 answered_by cmds blocks → (∀ c, c ∈ cmds → c_session c = sid → c_kind c = CmdNew) →
  e_tag <$> filter settles (filter (mine sid) (concat blocks)) = c_tag <$> filter (λ c, c_session c = sid) cmds.
Proof.
  induction 1 as [|c b cmds blocks (ev & rest & -> & [Hses Hans] & Hrest) _ IH]; intros Hnew; [done|].
  cbn [concat]. rewrite !filter_app, fmap_app, IH by (intros; apply Hnew; [by right|done]).
  assert (filter settles (filter (mine sid) rest) = []) as Hr.
  { apply filter_none. intros e [_ Hin]%list_elem_of_filter Hs. rewrite Forall_forall in Hrest. destruct (Hrest _ Hin) as (? & ? & _).
    by destruct Hs. }
  destruct (decide (c_session c = sid)) as [Hc|Hc].
  - assert (settles ev ∧ e_tag ev = c_tag c) as [Hs Ht].
    { rewrite (Hnew c) in Hans by (done || by left). unfold settles. naive_solver. }
    rewrite (filter_cons_True (mine sid)) by (split; [by apply settles_private|congruence]).
    rewrite (filter_cons_True settles), Hr, (filter_cons_True (λ c, c_session c = sid)) by done. simpl. by rewrite Ht.
  - rewrite (filter_cons_False (mine sid)) by (intros [_ ?]; congruence).
    rewrite (filter_cons_False (λ c, c_session c = sid)), Hr by done. done.
Qed.

(** An [Accepted] for a session answers one of its commands. *)
Lemma accepted_tag cmds blocks ev :
  Forall2 answered_by cmds blocks → ev ∈ concat blocks → e_kind ev = EvAccepted →
  ∃ c, c ∈ cmds ∧ c_session c = e_session ev ∧ c_tag c = e_tag ev.
Proof.
  induction 1 as [|c b cmds blocks (e & rest & -> & [Hses Hans] & Hrest) _ IH]; cbn [concat]; [by intros ?%not_elem_of_nil|].
  intros [[->|Hin]%elem_of_cons|Hin]%elem_of_app Hk.
  - exists c. split; [by left|]. split; [done|]. destruct Hans as [[? _]|Hans]; [congruence|].
    destruct (c_kind c); destruct Hans; congruence.
  - rewrite Forall_forall in Hrest. by destruct (Hrest _ Hin).
  - destruct (IH Hin Hk) as (c' & ? & ?). exists c'. split; [by right|done].
Qed.

(** ** Frames as answers *)
Definition answer_of (seq : Z) (ev : Event) : Answer :=
  match e_kind ev with
  | EvAccepted => AAck (set_seq seq (ack_frame ev))
  | EvFill => AFill (set_seq seq (fill_frame ev))
  | EvCancelled => ACancelled (set_seq seq (cancelled_frame ev))
  | EvReplaced => AReplaced (set_seq seq (replaced_frame ev))
  | _ => AReject (set_seq seq (reject_frame (e_tag ev) (e_reason ev)))
  end.

Fixpoint answers_of (seq : Z) (l : list Event) : list Answer :=
  match l with [] => [] | ev :: l => answer_of seq ev :: answers_of (u32 (seq + 1)) l end.

(** The tags of the Acks and Rejects, in order. *)
Definition settled_tags (l : list Answer) : list Z :=
  omap (λ a, match a with AAck m => Some (wire.ak_tag m) | AReject m => Some (wire.rj_tag m) | _ => None end) l.

Lemma n_settled_tags l : n_settled l = Z.of_nat (length (settled_tags l)).
Proof.
  unfold n_settled, n_acks, n_rejects. induction l as [|a l IH]; [done|]. cbn [fmap list_fmap]. rewrite !zsum_cons.
  destruct a; simpl in *; lia.
Qed.

Lemma answers_bytes seq l :
  Forall (λ ev, private ev = true) l → concat (answer_bytes <$> answers_of seq l) = out_bytes seq (FromEngine <$> l).
Proof.
  intros Hl. revert seq. induction Hl as [|ev l Hp _ IH]; intros seq; [done|]. cbn [answers_of fmap list_fmap concat out_bytes].
  rewrite IH. f_equal. unfold private in Hp. unfold answer_of. simpl. by destruct (e_kind ev).
Qed.

Lemma answers_tags seq l :
  Forall (λ ev, private ev = true) l → settled_tags (answers_of seq l) = e_tag <$> filter settles l.
Proof.
  intros Hl. revert seq. induction Hl as [|ev l Hp _ IH]; intros seq; [done|]. cbn [answers_of].
  unfold private in Hp. unfold answer_of.
  destruct (e_kind ev) eqn:Ek; try done; unfold settled_tags; cbn [omap list_omap]; fold (settled_tags (answers_of (u32 (seq + 1)) l)); rewrite IH;
    (rewrite filter_cons_True by (unfold settles; auto)) || (rewrite filter_cons_False by (unfold settles; rewrite Ek; intros [?|?]; done)); done.
Qed.

Lemma stamped_sendable {M} `{WK : wire.WireOk M} seq (m : M) :
  wire.valid m → wire.hdr m = wire.hdr (wire.make M 0) → 0 ≤ seq < 2 ^ 32 → sendable (set_seq seq m).
Proof.
  intros Hv Hh Hs. assert (sendable m) as Hm by (split; [done|]; rewrite Hh; unfold wire.make; by rewrite wire.wk_hdr).
  destruct (set_seq_sendable seq m Hm Hs) as (V & _ & T & _). split_and!; [done| |done].
  assert (wire.hdr (set_seq seq m) = wire.mkHeader (wire.len (wire.hdr m)) (wire.type (wire.hdr m)) (wire.version (wire.hdr m)) seq) as ->
    by apply wire.wk_hdr. apply Hm.
Qed.

Lemma answer_of_ok n seq ev :
  0 ≤ seq < 2 ^ 32 → event_ok ev → (e_kind ev = EvAccepted → e_tag ev < n) → answer_ok n (answer_of seq ev).
Proof.
  intros Hs He Hn. destruct (answers_valid ev He) as (V1 & V2 & V3 & V4 & V5). unfold answer_of.
  destruct (e_kind ev); cbn [answer_ok]; try (by apply stamped_sendable). split; [by apply stamped_sendable|by apply Hn].
Qed.

Lemma answers_of_ok n seq l :
  0 ≤ seq < 2 ^ 32 → Forall event_ok l → (∀ ev, ev ∈ l → e_kind ev = EvAccepted → e_tag ev < n) → Forall (answer_ok n) (answers_of seq l).
Proof.
  intros Hs Hl. revert seq Hs. induction Hl as [|ev l He _ IH]; intros seq Hs Hn; [done|]. cbn [answers_of]. apply Forall_cons.
  split; [apply answer_of_ok; [done|done|apply Hn; by left]|]. apply IH; [apply u32_range|]. intros ev' Hin. apply Hn. by right.
Qed.

(** Without refusals every frame comes from the engine. *)
Lemma outputs_events outs : rejects_of outs = [] → outs = FromEngine <$> events_of outs.
Proof.
  induction outs as [|[e|tag r] outs IH]; intros E; [done| |done]. cbn. f_equal. apply IH. exact E.
Qed.

(** ** The load generator's session *)
Lemma submitted_inputs sid ms :
  Forall (λ m, is_Some (snd (client_command sid m))) ms →
  let l := (λ m, input_of (fst (client_command sid m)) (snd (client_command sid m))) <$> ms in
  commands_of l = omap (λ m, snd (client_command sid m)) ms ∧ refusals_of l = [].
Proof.
  induction 1 as [|m ms [c Hc] _ [IH1 IH2]]; [done|]. unfold commands_of, refusals_of in *. cbn [fmap list_fmap omap list_omap].
  rewrite Hc. cbn [input_of]. by rewrite IH1, IH2.
Qed.

Lemma load_inputs c rng sid n :
  0 ≤ ld_symbol c < 2 ^ 16 → Z.of_nat n < 2 ^ 32 →
  ∃ ins, inputs 1 sid (order_bytes (load_orders c rng 0 n)) = Some (ins, true, []) ∧
    commands_of ins = (λ i, load_command c rng sid (Z.of_nat i)) <$> List.seq 0 n ∧ refusals_of ins = [].
Proof.
  intros Hsym Hn. pose proof (load_orders_stream c rng Hsym 0 n ltac:(lia) ltac:(lia)) as Hst.
  rewrite <- client_order_bytes, <- load_orders_commands. eexists. split; [by apply (inputs_client 1)|].
  apply submitted_inputs. clear. generalize 0 as tag. induction n as [|n IH]; intros tag; [constructor|].
  cbn [load_orders fmap list_fmap]. constructor; [|apply IH]. cbn [client_command]. rewrite load_order_command. eauto.
Qed.

Lemma prefix_filter_tags {A} (P : A → Prop) `{∀ x, Decision (P x)} (f : A → Z) l l' :
  l `prefix_of` l' → f <$> filter P l `prefix_of` f <$> filter P l'.
Proof. intros [m ->]. rewrite filter_app, fmap_app. by apply prefix_app_r. Qed.

Lemma load_tags c rng sid n :
  c_tag <$> ((λ i, load_command c rng sid (Z.of_nat i)) <$> List.seq 0 n) = seqZ 0 (Z.of_nat n).
Proof.
  rewrite <- list_fmap_compose. unfold seqZ. rewrite Nat2Z.id. apply list_fmap_ext. intros i j _. simpl. lia.
Qed.

Lemma served_load t sid ins outs blocks c rng n :
  session_served t sid ins outs blocks →
  commands_of ins = (λ i, load_command c rng sid (Z.of_nat i)) <$> List.seq 0 n → refusals_of ins = [] →
  let l := answers_of 1 (events_of outs) in
  Forall (answer_ok (Z.of_nat n)) l ∧ out_bytes 1 outs = concat (answer_bytes <$> l) ∧
  settled_tags l `prefix_of` seqZ 0 (Z.of_nat n) ∧
  (popped (inbox_ t) = pushed (inbox_ t) → popped (outbox_ t) = concat blocks → settled_tags l = seqZ 0 (Z.of_nat n)).
Proof.
  intros [Sc Sb Sr Se Sp St Sw] Ec Er l.
  assert (∀ cm, cm ∈ popped (inbox_ t) → c_session cm = sid → c_kind cm = CmdNew ∧ c_tag cm < Z.of_nat n) as Hcmd.
  { intros cm Hin Hs. assert (cm ∈ commands_of ins) as Hc.
    { rewrite <- Sc. apply list_elem_of_filter. split; [done|]. destruct St as [m ->]. apply elem_of_app. by left. }
    rewrite Ec in Hc. apply list_elem_of_fmap in Hc as (i & -> & [_ Hi]%elem_of_seq). split; [done|]. simpl. lia. }
  assert (∀ ev, ev ∈ events_of outs → mine sid ev ∧ ev ∈ concat blocks) as Hev.
  { intros ev Hin. rewrite Se in Hin. apply list_elem_of_filter in Hin as [? Hin]. split; [done|].
    destruct Sp as [m ->]. apply elem_of_app. by left. }
  assert (Forall (λ ev, private ev = true) (events_of outs)) as Hpriv.
  { apply Forall_forall. intros ev Hin. by apply Hev in Hin as [[? _] _]. }
  assert (settled_tags l = e_tag <$> filter settles (filter (mine sid) (popped (outbox_ t)))) as Hl by (unfold l; by rewrite answers_tags, Se).
  pose proof (settle_tags sid _ _ Sb (λ cm Hin Hs, proj1 (Hcmd cm Hin Hs))) as Htags.
  rewrite <- (load_tags c rng sid n), <- Ec, <- Sc. split_and!.
  - apply answers_of_ok; [lia|done|]. intros ev Hin Hk. destruct (Hev _ Hin) as [[_ Hs] Hb].
    destruct (accepted_tag _ _ _ Sb Hb Hk) as (cm & Hc & E1 & <-). apply Hcmd; [done|congruence].
  - unfold l. rewrite answers_bytes by done. f_equal. apply outputs_events. congruence.
  - rewrite Hl. etrans; [|by apply prefix_filter_tags]. rewrite <- Htags. destruct Sp as [m ->].
    rewrite !filter_app, fmap_app. by apply prefix_app_r.
  - intros Ei Eo. by rewrite Hl, Eo, Htags, Ei.
Qed.
