(* ===== verification/Exchange.v ===== *)
(** An exchange to evaluate: the load generator connects and writes two orders,
    a market-data client connects and subscribes from 1; the engine processes
    the orders, the gateway pops the events, writes the first forty bytes of its
    answers and the first fifty of the market data. *)
From S2P Require Import Prelude Types Pool Book Engine Spec Process EngineFacts Settle Demo Spsc Threads ThreadTheorems Poller Calls Protocol Ring Net Publisher.
From S2P Require Import Gateway Parse Inputs GatewayTheorems Sessions SessionInv Handling Registry Reach Streams Carried Sockets Fanout System MdClient LoadClient.

(** Checking the promises of one piece of the loop by computation. *)
Lemma ready_intro lfd mlfd ev io sv :
  NoDup (accepted (io_accept io)) → Forall (fresh_fd lfd mlfd sv) (accepted (io_accept io)) →
  next_sid_ sv + Z.of_nat (length (accepted (io_accept io))) < 2 ^ 32 →
  Forall bytes_read (io_read io) →
  map_Forall (λ _ s, (fd (s_conn s) = ev_fd ev → flushable (io_write io) s) ∧ Z.of_nat (length (rx (s_conn s))) + delivered (io_read io) < 2 ^ 63) (sessions_ sv) →
  map_Forall (λ _ u, answers_ok (io_write io) (Z.of_nat (length (unsent (conn u))))) (subs_ (publisher_ sv)) →
  ready_ok lfd mlfd ev io sv.
Proof.
  intros H1 H2 H3 H4 H5 H6. split; [by split; [split_and!|]|..].
  - intros sid s Es Ef. by apply (H5 sid s Es).
  - intros sid s Es. by apply (H5 sid s Es).
  - intros u Eu. by apply (H6 _ u Eu).
Qed.

Ltac decide_now := apply (bool_decide_unpack _); vm_compute; exact I.

Definition handled_or (ev : PollEvent) (io : Io) (sv : Server) : Server := default sv (handle_event ev io sv).
Definition readable (f : Z) : PollEvent := mkPollEvent f true false false.

Definition demo_load2 : LoadConfig := mkLoadConfig 2 2 0 50 5.
Definition demo_rng (d : nat) : Z := 7 * Z.of_nat d + 3.
Definition demo_input : list Z := order_bytes (load_orders demo_load2 demo_rng 0 2).

Definition io_accepts (f : Z) : Io := mkIo [AcceptedFd f 2; AcceptFailed] [] [] [] at_once.
Definition io_reads (bs : list Z) : Io := mkIo [] [] [Got bs; ReadAgain] [] at_once.

Definition ex_connected : Server := handled_or (readable 3) (io_accepts 5) gw_start.
Definition ex_md : Server := handled_or (readable 4) (io_accepts 6) ex_connected.
Definition ex_subscribed : Server := handled_or (readable 6) (io_reads (wire.bytes_of (subscribe_frame 1))) ex_md.
Definition ex_ordered : Server := handled_or (readable 5) (io_reads demo_input) ex_subscribed.

Definition ex_submits : list (NetMove + EngineMove) :=
  to_engine_ ex_ordered ≫= λ c, [inl (Submit c); inl (SubmitCheck 0); inl SubmitWrite; inl SubmitPublish].
Definition t_init : Threads := EngineThread_init Demo.cfg 2.
Definition t_submitted : Threads := default t_init (t ← start t_init; moves ex_submits t).
Definition ex_emit : list (NetMove + EngineMove) := [inr (EmitCheck 0); inr EmitWrite; inr EmitPublish].
Definition ex_engine : list (NetMove + EngineMove) :=
  [inr (LoopCheck 1); inr LoopRead; inr (LoopPop 1)] ++ ex_emit ++ ex_emit ++ [inr EmitDone] ++
  [inr (LoopCheck 2); inr LoopRead; inr (LoopPop 2)] ++ ex_emit ++ ex_emit ++ [inr EmitDone].
Definition t_processed : Threads := default t_submitted (moves ex_engine t_submitted).
Definition ex_drain : list (NetMove + EngineMove) :=
  concat (replicate 4 [inl (DrainCheck 4); inl DrainRead; inl DrainPublish]).
Definition t_drained : Threads := default t_processed (moves ex_drain t_processed).

Definition ex_answered : Server := default ex_ordered (fst <$> drain_engine (popped (outbox_ t_drained)) ex_ordered).
Definition ex_flushed : Server := default ex_ordered (flush_dirty (λ _, [Wrote 40; Again]) ex_answered).
Definition ex_pumped : option (Publisher * gmap Z (list Z)) := flush_all 7 (λ _, [Wrote 50; Again]) (publisher_ ex_flushed).
Definition ex_sent : Server := match ex_pumped with Some (p, _) => set_publisher p ex_flushed | None => ex_flushed end.

Definition ex_system : Server → Threads → Prop := system 100 demo_md 3 4 Demo.cfg 2.

(** A step of the gateway alone. *)
Lemma ex_step sv sv' t :
  ex_system sv t → gw_step 3 4 sv [] sv' → pushed (inbox_ t) = to_engine_ sv' → ex_system sv' t.
Proof. intros Hs Hg E. eapply sys_step; [exact Hs|exact Hg|done|done|by rewrite app_nil_r]. Qed.

Lemma ex_event ev io sv :
  ready_ok 3 4 ev io sv → is_Some (handle_event ev io sv) → gw_step 3 4 sv [] (handled_or ev io sv).
Proof. intros Hr [sv' E]. unfold handled_or. rewrite E. by eapply gs_event. Qed.

Ltac event_now := apply ex_event; [apply ready_intro; decide_now|vm_compute; by eexists].

Lemma ex_subscribed_system : ex_system ex_subscribed t_init.
Proof.
  apply (ex_step ex_md); [|event_now|vm_compute; reflexivity].
  apply (ex_step ex_connected); [|event_now|vm_compute; reflexivity].
  apply (ex_step gw_start); [|event_now|vm_compute; reflexivity].
  apply sys_start. vm_compute. reflexivity.
Qed.

Lemma ex_submits_ok : all_submits_ok ex_submits.
Proof.
  unfold all_submits_ok, ex_submits. apply Forall_bind. assert (Forall command_ok (to_engine_ ex_ordered)) as Hc by decide_now.
  eapply Forall_impl; [exact Hc|]. intros c Hok. by repeat constructor; try apply Hok.
Qed.

Lemma ex_submitted_system : ex_system ex_ordered t_submitted.
Proof.
  eapply (sys_step _ _ _ _ _ _ ex_subscribed t_init []); [apply ex_subscribed_system|event_now| |vm_compute; reflexivity|vm_compute; reflexivity].
  eapply rtc_l; [by apply t_start|apply (moves_rtc ex_submits); [apply ex_submits_ok|vm_compute; reflexivity]].
Qed.

Lemma ex_answered_system : ex_system ex_answered t_drained.
Proof.
  eapply (sys_step _ _ _ _ _ _ ex_ordered t_processed (popped (outbox_ t_drained)));
    [|eapply (gs_drain _ _ _ _ true)|apply (moves_rtc ex_drain)| |]; [|vm_compute; reflexivity|by repeat constructor|vm_compute; reflexivity..].
  eapply (sys_engine _ _ _ _ _ _ _ t_submitted);
    [apply ex_submitted_system|apply (moves_rtc ex_engine)|vm_compute; reflexivity|vm_compute; reflexivity]; [by repeat constructor|vm_compute; reflexivity].
Qed.

Lemma ex_sent_system : ex_system ex_sent t_drained.
Proof.
  apply (ex_step ex_flushed); [|unfold ex_sent; destruct ex_pumped as [[p out]|] eqn:E|vm_compute; reflexivity].
  - apply (ex_step ex_answered); [apply ex_answered_system| |vm_compute; reflexivity].
    apply (gs_flush _ _ _ (λ _, [Wrote 40; Again])); [|vm_compute; reflexivity].
    assert (map_Forall (λ _ s, flushable [Wrote 40; Again] s) (sessions_ ex_answered)) as H by decide_now.
    intros sid s Es. by apply (H sid s Es).
  - eapply (gs_publish _ _ _ 7 (λ _, [Wrote 50; Again])); [lia| |exact E].
    assert (map_Forall (λ _ u, answers_ok [Wrote 50; Again] (Z.of_nat (length (unsent (conn
      (default u (refill (p_cfg (publisher_ ex_flushed)) (ring_ (publisher_ ex_flushed)) 7 u))))))) (subs_ (publisher_ ex_flushed))) as H by decide_now.
    intros f u u1 Eu Er. pose proof (H f u Eu) as Ha. cbv beta in Ha. by rewrite Er in Ha.
  - vm_compute in E. discriminate.
Qed.

Definition ex_session : Session := default demo_session (sessions_ ex_sent !! 1).
Definition ex_subscriber : Subscriber := default (mkSub (Conn_init 6) false 0 0 0) (subs_ (publisher_ ex_sent) !! 6).

Lemma ex_session_found : sessions_ ex_sent !! 1 = Some ex_session.
Proof. vm_compute. reflexivity. Qed.

Lemma ex_subscriber_found : subs_ (publisher_ ex_sent) !! 6 = Some ex_subscriber.
Proof. vm_compute. reflexivity. Qed.

Lemma ex_drained : drained t_drained.
Proof. split_and!; vm_compute; reflexivity. Qed.

Lemma ex_sent_reach : gw_reach 100 demo_md 3 4 ex_sent.
Proof. exact (sy_gateway _ _ _ _ _ _ _ _ (system_inv 100 demo_md 3 4 Demo.cfg 2 ltac:(lia) Demo.cfg_ok ltac:(lia) _ _ ex_sent_system)). Qed.

(** The subscriber's socket takes the rest. *)
Definition ex_done : Server := handled_or (mkPollEvent 6 false true false) (mkIo [] [Wrote 30; Again] [] [] at_once) ex_sent.

Lemma ex_done_system : ex_system ex_done t_drained.
Proof. apply (ex_step ex_sent); [apply ex_sent_system|event_now|vm_compute; reflexivity]. Qed.

Definition ex_caught_up : Subscriber := default ex_subscriber (subs_ (publisher_ ex_done) !! 6).

Lemma ex_caught_up_found : subs_ (publisher_ ex_done) !! 6 = Some ex_caught_up.
Proof. vm_compute. reflexivity. Qed.
