(* ===== verification/SystemTheorems.v ===== *)
(** The theorems about the whole exchange: clients' bytes in, clients' bytes out. *)
From S2P Require Import Prelude Types Pool Book Engine Spec Process EngineFacts Settle Demo Spsc Threads Poller Calls Protocol Ring WireTheorems Net Publisher Stream.
From S2P Require Import Gateway Parse Inputs Sockets Sessions SessionInv Registry Reach Streams Carried Delivery Fanout System Loop LoadClient LoadRun Served Exchange.

(** ** Every session *)

(** C2: The exchange, end to end: whatever clients send, however the kernel cuts
    reads and writes and the two threads interleave, a connected session's
    commands to the engine are exactly the ones its bytes received so far stand
    for, in order; the bytes sent to it so far, followed by those still buffered,
    are one frame per refused input and per engine event for it, numbered from 1.
    Those events are its part of the events the gateway has popped, and these are,
    from the start, the events that one sequential run of the engine on the
    commands it has taken adds to its sink, command by command, whatever the clock
    said: nothing is dropped, repeated, reordered or changed.  Each command's block
    starts with the one answer to it; no value is cut by its width; and when
    nothing is on its way between the threads, every command has been answered
    and every event of the run for the session is in its frames.  What bytes stand
    for ([inputs]) and which bytes a frame is ([out_bytes]) are read off
    protocol.hpp by offsets, not by the gateway's own structs and conversions. *)
Theorem exchange_end_to_end (max_backlog : Z) (md : PubConfig) (lfd mlfd : Z) (cfg : Config) (k : Z)
    (sv : Server) (t : Threads) (sid : Z) (s : Session) :
  0 ≤ lfd ∧ 0 ≤ mlfd ∧ lfd ≠ mlfd → config_ok cfg → 0 ≤ k < 62 →
  system max_backlog md lfd mlfd cfg k sv t → sessions_ sv !! sid = Some s →
  ∃ ins outs blocks,
    inputs 1 sid (received (fd (s_conn s)) (log sv)) = Some (ins, true, rx (s_conn s)) ∧
    filter (λ c, c_session c = sid) (pushed (inbox_ t)) = commands_of ins ∧
    sent (fd (s_conn s)) (log sv) ++ unsent (s_conn s) = out_bytes 1 outs ∧
    rejects_of outs = refusals_of ins ∧
    engine_blocks cfg (popped (inbox_ t)) blocks ∧ Forall2 answered_by (popped (inbox_ t)) blocks ∧
    events_of outs = filter (mine sid) (popped (outbox_ t)) ∧ popped (outbox_ t) `prefix_of` concat blocks ∧
    Forall event_ok (events_of outs) ∧
    (drained t → popped (inbox_ t) = pushed (inbox_ t) ∧ events_of outs = filter (mine sid) (concat blocks)).
Proof.
  intros Hfds Hcfg Hk Hsys Es. destruct (system_session _ _ _ _ _ _ Hfds Hcfg Hk _ _ _ _ Hsys Es) as (ins & outs & blocks & Hs & [] & Hd & Hrun).
  exists ins, outs, blocks. split_and!; try done; try apply Hs.
  intros Hdr. rewrite <- (Hd Hdr). split; [apply Hdr|done].
Qed.

Lemma exchange_end_to_end_witness :
  ∃ ins outs blocks,
    inputs 1 1 (received (fd (s_conn ex_session)) (log ex_sent)) = Some (ins, true, rx (s_conn ex_session)) ∧
    filter (λ c, c_session c = 1) (pushed (inbox_ t_drained)) = commands_of ins ∧
    sent (fd (s_conn ex_session)) (log ex_sent) ++ unsent (s_conn ex_session) = out_bytes 1 outs ∧
    rejects_of outs = refusals_of ins ∧
    engine_blocks Demo.cfg (popped (inbox_ t_drained)) blocks ∧ Forall2 answered_by (popped (inbox_ t_drained)) blocks ∧
    events_of outs = filter (mine 1) (popped (outbox_ t_drained)) ∧ popped (outbox_ t_drained) `prefix_of` concat blocks ∧
    Forall event_ok (events_of outs) ∧
    (drained t_drained → popped (inbox_ t_drained) = pushed (inbox_ t_drained) ∧ events_of outs = filter (mine 1) (concat blocks)).
Proof.
  exact (exchange_end_to_end 100 demo_md 3 4 Demo.cfg 2 ex_sent t_drained 1 ex_session
    ltac:(lia) Demo.cfg_ok ltac:(lia) ex_sent_system ex_session_found).
Defined.

(** ** Every subscriber *)

(** C4: The market-data side, end to end: for a subscriber of the running
    exchange the bytes sent to it so far, followed by those still buffered, are
    the stream it asked for: a gap first if it asked for more than there was, then
    frames, gaps and heartbeats without a jump from there to its cursor, where
    each frame is, byte for byte, the one for the engine's trade or top with that
    number; the frames are those of a prefix of the events of one sequential run
    of the engine; and its buffer holds less than [max_backlog] + 64 bytes (for a
    ring of [2^k] frames, [k] below 58). *)
Theorem market_data_end_to_end (max_backlog : Z) (md : PubConfig) (lfd mlfd : Z) (cfg : Config) (k : Z)
    (sv : Server) (t : Threads) (f : Z) (u : Subscriber) :
  0 ≤ lfd ∧ 0 ≤ mlfd ∧ lfd ≠ mlfd → config_ok cfg → 0 ≤ k < 62 →
  0 < Publisher.max_backlog md < 2 ^ 40 → 0 ≤ ring_log2 md < 58 →
  system max_backlog md lfd mlfd cfg k sv t → Z.of_nat (length (published t)) + 1 < 2 ^ 32 →
  subs_ (publisher_ sv) !! f = Some u → subscribed u = true →
  ∃ b m d l,
    received f (log sv) = b ++ rx (conn u) ∧ wire.read wire.Subscribe b = Some m ∧
    0 ≤ d ≤ Z.of_nat (length (published t)) ∧
    sent f (log sv) ++ unsent (conn u) = stream_bytes (stamp_all 1 (published t)) (opening d (wire.su_from_seq m) ++ l) ∧
    follow (opening_seq d (wire.su_from_seq m)) l = Some (next_seq u) ∧
    1 ≤ next_seq u ≤ Z.of_nat (length (published t)) + 1 ∧
    stamp_all 1 (published t) = market_frames 1 (popped (outbox_ t)) ∧
    (∃ cs e, run cs (Engine_init cfg []) = Some e ∧ cs.*2 `prefix_of` pushed (inbox_ t) ∧ popped (outbox_ t) `prefix_of` sink_ e ∧
      published t `prefix_of` md_frames (sink_ e)) ∧
    backlog (conn u) < Publisher.max_backlog md + 64.
Proof.
  intros Hfds Hcfg Hk Hlim Hring Hsys Hlen Eu Hsub.
  pose proof (system_fan _ _ _ _ _ _ Hfds Hcfg Hk Hlim Hring _ _ Hsys Hlen) as Hfan.
  destruct (fa_subs _ _ _ Hfan _ _ Eu) as (_ & _ & [Hw|(from & d & [(b & m & Hm & <- & _ & Hr) _ Hd Hfeed])]).
  { rewrite (wa_sub _ _ _ Hw) in Hsub. done. }
  destruct Hfeed as [Hsok _ _ (l & E & Hf & _) _ Hb]. simpl in *. pose proof (su_next _ _ _ _ Hsok) as Hn. rewrite length_stamp_all in Hn.
  exists b, m, d, l. split_and!; try done; try lia; [apply stamp_all_market|].
  destruct (system_inv _ _ _ _ _ _ Hfds Hcfg Hk _ _ Hsys) as [_ [Hin Hout _ _ _ _ _ _ (cs & [Ecs _] & Erun) _ Hs] _ _].
  assert (popped (outbox_ t) `prefix_of` sink_ (engine_ t)) as Hpre.
  { rewrite Hs. apply prefix_app_r. rewrite (so_fifo _ _ Hout). apply prefix_take. }
  exists cs, (engine_ t). split_and!; [done|rewrite Ecs, (so_fifo _ _ Hin); apply prefix_take|done|].
  destruct Hpre as [rest ->]. unfold published. rewrite md_frames_app. by apply prefix_app_r.
Qed.

Lemma market_data_end_to_end_witness :
  ∃ b m d l,
    received 6 (log ex_sent) = b ++ rx (conn ex_subscriber) ∧ wire.read wire.Subscribe b = Some m ∧
    0 ≤ d ≤ Z.of_nat (length (published t_drained)) ∧
    sent 6 (log ex_sent) ++ unsent (conn ex_subscriber) = stream_bytes (stamp_all 1 (published t_drained)) (opening d (wire.su_from_seq m) ++ l) ∧
    follow (opening_seq d (wire.su_from_seq m)) l = Some (next_seq ex_subscriber) ∧
    1 ≤ next_seq ex_subscriber ≤ Z.of_nat (length (published t_drained)) + 1 ∧
    stamp_all 1 (published t_drained) = market_frames 1 (popped (outbox_ t_drained)) ∧
    (∃ cs e, run cs (Engine_init Demo.cfg []) = Some e ∧ cs.*2 `prefix_of` pushed (inbox_ t_drained) ∧
      popped (outbox_ t_drained) `prefix_of` sink_ e ∧ published t_drained `prefix_of` md_frames (sink_ e)) ∧
    backlog (conn ex_subscriber) < Publisher.max_backlog demo_md + 64.
Proof.
  apply (market_data_end_to_end 100 demo_md 3 4 Demo.cfg 2 ex_sent t_drained 6 ex_subscriber ltac:(lia) Demo.cfg_ok ltac:(lia));
    [simpl; lia|simpl; lia|apply ex_sent_system|vm_compute; reflexivity|apply ex_subscriber_found|vm_compute; reflexivity].
Defined.

(** ** The load generator's session *)

(** C24: The exchange keeps the promise the load generator relies on: when a
    session has received the first [n] orders of [run_load], what the gateway has
    sent and buffered for it is a sequence of well-formed answers, the Acks and
    Rejects among them settle the orders one by one in the order of their tags,
    every Ack names an order that was written, and once nothing is on its way
    between the threads every order is settled exactly once. *)
Theorem exchange_settles_load (max_backlog : Z) (md : PubConfig) (lfd mlfd : Z) (cfg : Config) (k : Z)
    (sv : Server) (t : Threads) (sid : Z) (s : Session) (c : LoadConfig) (rng : nat → Z) (n : nat) :
  0 ≤ lfd ∧ 0 ≤ mlfd ∧ lfd ≠ mlfd → config_ok cfg → 0 ≤ k < 62 →
  system max_backlog md lfd mlfd cfg k sv t → sessions_ sv !! sid = Some s →
  0 ≤ ld_symbol c < 2 ^ 16 → Z.of_nat n < 2 ^ 32 →
  received (fd (s_conn s)) (log sv) = order_bytes (load_orders c rng 0 n) →
  ∃ l, sent (fd (s_conn s)) (log sv) ++ unsent (s_conn s) = concat (answer_bytes <$> l) ∧
    Forall (answer_ok (Z.of_nat n)) l ∧ settled_tags l `prefix_of` seqZ 0 (Z.of_nat n) ∧ n_settled l ≤ Z.of_nat n ∧
    (drained t → settled_tags l = seqZ 0 (Z.of_nat n) ∧ n_settled l = Z.of_nat n).
Proof.
  intros Hfds Hcfg Hk Hsys Es Hsym Hn Hr. destruct (system_session _ _ _ _ _ _ Hfds Hcfg Hk _ _ _ _ Hsys Es) as (ins & outs & blocks & Hs & Hd & Hdr & _).
  destruct (load_inputs c rng sid n Hsym Hn) as (ins' & Ei & Ec & Er). pose proof (ss_in _ _ _ _ _ _ _ Hs) as E. rewrite Hr, Ei in E. simplify_eq.
  destruct (served_load t sid ins outs blocks c rng n Hd Ec Er) as (Hok & Hb & Hp & Hall).
  exists (answers_of 1 (events_of outs)). rewrite n_settled_tags. split_and!; [|done|done| |].
  - by rewrite (ss_out _ _ _ _ _ _ _ Hs).
  - apply prefix_length in Hp. rewrite length_seqZ in Hp. lia.
  - intros Hdt. rewrite (Hall (proj1 Hdt) (Hdr Hdt)), length_seqZ. split; [done|lia].
Qed.

Lemma exchange_settles_load_witness :
  ∃ l, sent (fd (s_conn ex_session)) (log ex_sent) ++ unsent (s_conn ex_session) = concat (answer_bytes <$> l) ∧
    Forall (answer_ok (Z.of_nat 2)) l ∧ settled_tags l = seqZ 0 (Z.of_nat 2) ∧ n_settled l = 2.
Proof.
  destruct (exchange_settles_load 100 demo_md 3 4 Demo.cfg 2 ex_sent t_drained 1 ex_session demo_load2 demo_rng 2
    ltac:(lia) Demo.cfg_ok ltac:(lia) ex_sent_system ex_session_found) as (l & H1 & H2 & _ & _ & H3); [cbn; lia|lia|vm_compute; reflexivity|].
  exists l. destruct (H3 ex_drained) as [Ha Hb]. exact (conj H1 (conj H2 (conj Ha Hb))).
Defined.

(** ** The event loop *)

(** C25: The server's life: once constructed, [Server::run] gets through every turn
    whose system calls are answered and whose submitted commands the queue takes in
    the end, whatever the clients send, whichever registered descriptors the poller
    reports and whatever the batch's earlier events did to them (a command the queue
    never takes holds its turn forever: [server_hangs]; ThreadTheorems says when
    that happens); it is made of the pieces the exchange is composed of, with the
    events popped turn by turn; it returns once [stop] is set, and otherwise goes on
    until [wait] fails; the tables stay consistent, and when [~Server] has run only
    the subscribers' sockets are still open. *)
Theorem server_lifecycle (k k' : Kernel) (port md_port max_backlog : Z) (md : PubConfig) (sv : Server) (p p' : Z) (turns : list Turn) :
  let lfd := k_socket k in let mlfd := k_socket k' in
  lfd ≠ mlfd → 0 < Publisher.max_backlog md < 2 ^ 40 → 0 ≤ ring_log2 md < 58 →
  snd (Server_new k k' port md_port max_backlog md) = Some (Some (sv, p, p')) → turns_served lfd mlfd [] turns 0 sv → Forall submits_taken turns →
  ∃ r n, server_run turns 0 sv = Some r ∧ gw_steps lfd mlfd sv (concat (tn_popped <$> take n turns)) (ran_server r) ∧
    (Exists (λ t, tn_stop t = true) turns → has_returned r) ∧ (¬ has_returned r → n = length turns) ∧
    server_ok lfd mlfd (ran_server r) ∧
    open_fds (base lfd mlfd) (log (server_close lfd mlfd (ran_server r))) = dom (subs_ (publisher_ (ran_server r))).
Proof.
  intros lfd mlfd Hne Hlim Hring E Hs Hpush.
  destruct (Server_new_ok k k' port md_port max_backlog md Hne) as [[_ E']|[[[Hl _] [Hm _]] (sv' & Ei & E')]]; rewrite E in E'; [done|].
  injection E' as <- -> ->. assert (gw_ok max_backlog md lfd mlfd [] sv) as Hg.
  { split; [by apply gr_init|eapply fan_server_init; [exact Hring|exact Hl|exact Hm|exact Hne|exact Ei]|done]. }
  destruct (server_run_served max_backlog md lfd mlfd (conj Hl (conj Hm Hne)) Hlim [] turns 0 sv Hg Hs Hpush) as (r & Er & n & S & H & Hx & Hn).
  destruct (gw_reach_ok _ _ _ _ (conj Hl (conj Hm Hne)) _ (go_reach _ _ _ _ _ _ H)) as [Hok L].
  exists r, n. split_and!; try done. by apply server_close_open.
Qed.

(** The server opens its two ports, a client and a subscriber connect, and the
    server is told to stop. *)
Definition demo_kernel (f : Z) : Kernel := mkKernel f 0 0 (htons 9001) 2 None 0.
Definition demo_io (f : Z) : Io := mkIo [AcceptedFd f 2; AcceptFailed] [Again] [ReadAgain] [Again] at_once.
Definition demo_turn (stop : bool) : Turn :=
  mkTurn stop (epoll_wait (λ _ _, Ready [(3, EPOLLIN); (4, EPOLLIN)])) (λ i, demo_io (5 + Z.of_nat i)) [] (λ _, [Again]) (λ _, [Again]) 5.
Definition demo_turns : list Turn := [demo_turn false; demo_turn true].

(** The orders of a client, when the engine's queue takes nothing: the turn
    never ends; one free slot, however late, and it does. *)
Definition ordering (tries : list bool) : Turn :=
  mkTurn false (epoll_wait (λ _ _, Ready [(5, EPOLLIN)])) (λ _, mkIo [] [Again] [Got demo_input; ReadAgain] [Again] (λ _, tries))
    [] (λ _, [Again]) (λ _, [Again]) 5.
Definition gw_client : Server := handled_or (readable 3) (demo_io 5) gw_start.

Example server_hangs : server_run [ordering [false; false; false]] 0 gw_client = None.
Proof. vm_compute. reflexivity. Qed.

Example server_waits : length ∘ to_engine_ ∘ ran_server <$> server_run [ordering [false; false; true]] 0 gw_client = Some 2%nat.
Proof. vm_compute. reflexivity. Qed.

Lemma demo_served ev f sv : ready_ok 3 4 ev (demo_io f) sv → event_served 3 4 ev (demo_io f) sv.
Proof.
  intros Hr. split; [done|by right; left|..]; [exists Again|exists Again|exists ReadAgain]; (split; [by left|by left]).
Qed.

Definition demo_accepted : Server := handled_or (readable 4) (demo_io 6) (handled_or (readable 3) (demo_io 5) gw_start).

Lemma demo_batch : events_served 3 4 [(readable 3, demo_io 5); (readable 4, demo_io 6)] gw_start.
Proof.
  split; [apply demo_served, ready_intro; decide_now|]. intros sv1 E1.
  assert (sv1 = handled_or (readable 3) (demo_io 5) gw_start) as -> by (unfold handled_or; by rewrite E1). clear E1.
  split; [apply demo_served, ready_intro; decide_now|done].
Qed.

Lemma demo_writes sv1 : handle_events [(readable 3, demo_io 5); (readable 4, demo_io 6)] gw_start = Some sv1 →
  (∀ sid s, sessions_ sv1 !! sid = Some s → flushable [Again] s) ∧
  ∀ sv3, flush_dirty (λ _, [Again]) sv1 = Some sv3 → md_writes_ok 5 (λ _, [Again]) (publisher_ sv3).
Proof.
  intros E. assert (handle_events [(readable 3, demo_io 5); (readable 4, demo_io 6)] gw_start = Some demo_accepted) as E' by (vm_compute; reflexivity).
  rewrite E in E'. injection E' as ->. clear E. split; [|done].
  assert (map_Forall (λ _ s, flushable [Again] s) (sessions_ demo_accepted)) as H by decide_now. intros sid s. apply (H sid s).
Qed.

Lemma server_lifecycle_witness :
  ∃ r n, server_run demo_turns 0 gw_start = Some r ∧ gw_steps 3 4 gw_start (concat (tn_popped <$> take n demo_turns)) (ran_server r) ∧
    (Exists (λ t, tn_stop t = true) demo_turns → has_returned r) ∧ (¬ has_returned r → n = length demo_turns) ∧
    server_ok 3 4 (ran_server r) ∧
    open_fds (base 3 4) (log (server_close 3 4 (ran_server r))) = dom (subs_ (publisher_ (ran_server r))).
Proof.
  apply (server_lifecycle (demo_kernel 3) (demo_kernel 4) 9001 9002 100 demo_md gw_start 9001 9001 demo_turns);
    [simpl; lia|simpl; lia|simpl; lia|vm_compute; reflexivity| |].
  2: { repeat constructor; by left. }
  cbn [turns_served demo_turns demo_turn tn_wait tn_stop tn_popped].
  change (epoll_wait _ 256 _) with (2, [readable 3; readable 4]). intros _. split; [right; split; [reflexivity|decide_now]|].
  intros _. split; [|intros sv' worked _ Hstop; discriminate]. split.
  - exact demo_batch.
  - split; [apply Forall_nil_2|]. vm_compute. reflexivity.
  - simpl. lia.
  - intros sid. exists Again. split; [by left|by left].
  - intros f. exists Again. split; [by left|by left].
  - intros sv1 sv2 b E1 [= <- <-]. exact (demo_writes sv1 E1).
Defined.
