(* ===== verification/OutcomeTheorems.v ===== *)
(** What the clients of the exchange end up with: every order answered, every
    market-data client's account exact, and the book known to those who follow it. *)
From S2P Require Import Prelude Types Pool Book Engine Spec Process EngineFacts Settle Demo Spsc Threads Liveness Poller Calls Protocol Ring WireTheorems Net Publisher Stream.
From S2P Require Import Gateway Parse Inputs Sockets Sessions SessionInv Registry Reach Streams Carried Delivery Fanout System Drains Frames MdClient MdAccount MdSession Shown SpecEvents LoadClient LoadRun Served Exchange.

(** ** Every order is answered *)

(** C5: The exchange always can come to rest: from every state in which the
    engine thread runs and the gateway is not inside [submit], moves of the engine
    and of the gateway's [drain_engine] alone lead to a state in which the engine
    has taken every command submitted, each has its one answer (the blocks are the
    events one sequential run of the engine adds, command by command), and for every
    connected session the commands that its bytes stand for are all answered by
    the frames sent or buffered for it; no ring size and no backlog of events
    stands in the way. *)
Theorem exchange_drains (max_backlog : Z) (md : PubConfig) (lfd mlfd : Z) (cfg : Config) (k : Z) (sv : Server) (t : Threads) :
  0 ≤ lfd ∧ 0 ≤ mlfd ∧ lfd ≠ mlfd → config_ok cfg → 0 ≤ k < 62 → 0 < Publisher.max_backlog md < 2 ^ 40 → 0 ≤ ring_log2 md < 58 →
  system max_backlog md lfd mlfd cfg k sv t → net_pc t = NFree → engine_pc t ≠ EExited → frames_fit cfg (pushed (inbox_ t)) →
  ∃ sv' t' evs b blocks,
    rtc tstep t t' ∧ drain_engine evs sv = Some (sv', b) ∧ system max_backlog md lfd mlfd cfg k sv' t' ∧
    pushed (inbox_ t') = pushed (inbox_ t) ∧ drained t' ∧ engine_blocks cfg (pushed (inbox_ t)) blocks ∧ Forall2 answered_by (pushed (inbox_ t)) blocks ∧
    ∀ sid s, sessions_ sv !! sid = Some s → ∃ s' ins outs,
      sessions_ sv' !! sid = Some s' ∧ fd (s_conn s') = fd (s_conn s) ∧
      inputs 1 sid (received (fd (s_conn s)) (log sv')) = Some (ins, true, rx (s_conn s')) ∧
      filter (λ c, c_session c = sid) (pushed (inbox_ t)) = commands_of ins ∧
      sent (fd (s_conn s)) (log sv') ++ unsent (s_conn s') = out_bytes 1 outs ∧
      rejects_of outs = refusals_of ins ∧ events_of outs = filter (mine sid) (concat blocks).
Proof.
  intros Hfds Hcfg Hk Hlim Hring Hsys Hn Hx Hfit.
  destruct (system_drains _ _ _ _ _ _ Hfds Hcfg Hk Hlim Hring sv t Hsys Hn Hx Hfit) as (sv' & t' & evs & b & A & Hd & Ed & Hsys').
  destruct (threads_settled cfg k t' Hcfg) as (blocks & Hrun & Hb & Eb); [by eapply sy_threads, (system_inv _ _ _ _ _ _ Hfds Hcfg Hk)|].
  destruct Hd as (Ei & Eo & Eu). rewrite Eu, app_nil_r, <- Eo in Eb. rewrite Ei, (ah_in _ _ A) in Hb, Hrun.
  exists sv', t', evs, b, blocks. do 3 (split; [first [done|apply A]|]). split; [apply A|]. split; [by split_and!|]. split; [done|]. split; [done|].
  intros sid s Es. destruct (drain_sessions _ _ _ _ _ _ Ed Es) as (s' & Es' & Ef).
  destruct (system_session _ _ _ _ _ _ Hfds Hcfg Hk _ _ _ _ Hsys' Es') as (ins & outs & bl & Hs & [] & _ & _).
  exists s', ins, outs. rewrite <- Ef, <- (ah_in _ _ A), <- Eb. split_and!; try done; apply Hs.
Qed.

(** A sequential run on the two orders publishes three frames, at whatever time. *)
Lemma ex_frames_fit : frames_fit Demo.cfg (pushed (inbox_ t_submitted)).
Proof.
  intros cs e Ecs Er. destruct cs as [|[n1 c1] [|[n2 c2] [|nc cs]]]; try (vm_compute in Ecs; discriminate).
  vm_compute in Ecs. injection Ecs as -> ->. vm_compute in Er. injection Er as <-. vm_compute. reflexivity.
Qed.

Lemma exchange_drains_witness :
  ∃ sv' t' evs b blocks,
    rtc tstep t_submitted t' ∧ drain_engine evs ex_ordered = Some (sv', b) ∧ system 100 demo_md 3 4 Demo.cfg 2 sv' t' ∧
    pushed (inbox_ t') = pushed (inbox_ t_submitted) ∧ drained t' ∧ engine_blocks Demo.cfg (pushed (inbox_ t_submitted)) blocks ∧ Forall2 answered_by (pushed (inbox_ t_submitted)) blocks ∧
    ∀ sid s, sessions_ ex_ordered !! sid = Some s → ∃ s' ins outs,
      sessions_ sv' !! sid = Some s' ∧ fd (s_conn s') = fd (s_conn s) ∧
      inputs 1 sid (received (fd (s_conn s)) (log sv')) = Some (ins, true, rx (s_conn s')) ∧
      filter (λ c, c_session c = sid) (pushed (inbox_ t_submitted)) = commands_of ins ∧
      sent (fd (s_conn s)) (log sv') ++ unsent (s_conn s') = out_bytes 1 outs ∧
      rejects_of outs = refusals_of ins ∧ events_of outs = filter (mine sid) (concat blocks).
Proof.
  refine (exchange_drains 100 demo_md 3 4 Demo.cfg 2 ex_ordered t_submitted ltac:(lia) Demo.cfg_ok ltac:(lia) _ _ ex_submitted_system _ _ ex_frames_fit).
  - cbn. lia.
  - cbn. lia.
  - vm_compute. reflexivity.
  - vm_compute. discriminate.
Defined.

(** ** What a market-data client shows *)



