(* ===== verification/CmdLine.v ===== *)
(** [include/matchbox/args.hpp]: the command line of the three programs, with
    [std::stol] as far as [num] uses it, and the configurations the programs
    build from it. *)
From S2P Require Import Prelude Engine Publisher LoadClient MdClient.
From Stdlib Require Import Ascii String.
#[local] Open Scope string_scope.
#[local] Open Scope Z_scope.

(** [class Args] *)
Record Args := mkArgs { kv_ : gmap string string; pos_ : list string }.

(** [s.find(c)] *)
Fixpoint find_char (c : ascii) (s : string) : option nat :=
  match s with
  | EmptyString => None
  | String x s => if Ascii.eqb x c then Some 0%nat else S <$> find_char c s
  end.

(** [s.substr(pos)], [s.substr(pos, n)] *)
Definition substr_from (pos : nat) (s : string) : string := substring pos (String.length s - pos) s.
Definition substr (pos n : nat) (s : string) : string := substring pos n s.

(** [s[0] == '-'] for a null-terminated [s]. *)
Definition starts_dash (s : string) : bool :=
  match s with String x _ => Ascii.eqb x "-" | EmptyString => false end.

(** The constructor's loop, on [argv + 1]. *)
Fixpoint parse_args (argv : list string) (a : Args) : Args :=
  match argv with
  | [] => a
  | s :: rest =>
      if negb (prefix "--" s) then parse_args rest (mkArgs (kv_ a) (pos_ a ++ [s])%list) else
      match find_char "=" s with
      | Some eq => parse_args rest (mkArgs (<[substr 2 (eq - 2) s := substr_from (eq + 1) s]> (kv_ a)) (pos_ a))
      | None =>
          match rest with
          | v :: rest' =>
              if negb (starts_dash v) then parse_args rest' (mkArgs (<[substr_from 2 s := v]> (kv_ a)) (pos_ a))
              else parse_args rest (mkArgs (<[substr_from 2 s := "1"]> (kv_ a)) (pos_ a))
          | [] => parse_args rest (mkArgs (<[substr_from 2 s := "1"]> (kv_ a)) (pos_ a))
          end
      end
  end.

Definition Args_init (argv : list string) : Args := parse_args argv (mkArgs ∅ []).

(** ** Reading options *)
Definition str (a : Args) (k d : string) : string := match kv_ a !! k with None => d | Some v => v end.
Definition has (a : Args) (k : string) : bool := bool_decide (is_Some (kv_ a !! k)).
Definition positional (a : Args) : list string := pos_ a.

(** [std::stol]: a number, or one of the two exceptions. *)
Inductive Num := NumOk (z : Z) | InvalidArgument | OutOfRange.

Definition is_space (c : ascii) : bool :=
  let n := Z.of_nat (nat_of_ascii c) in (n =? 32) || ((9 <=? n) && (n <=? 13)).

Definition digit (c : ascii) : option Z :=
  let n := Z.of_nat (nat_of_ascii c) in if (48 <=? n) && (n <=? 57) then Some (n - 48) else None.

(** The longest run of digits: its value, and how many there are. *)
Fixpoint digits (s : string) (acc : Z) (n : nat) : Z * nat :=
  match s with
  | EmptyString => (acc, n)
  | String c s => match digit c with Some d => digits s (10 * acc + d) (S n) | None => (acc, n) end
  end.

Fixpoint skip_space (s : string) : string :=
  match s with
  | String c s' => if is_space c then skip_space s' else s
  | EmptyString => s
  end.

Definition stol (s : string) : Num :=
  let '(neg, s) :=
    match skip_space s with
    | String c s' => if Ascii.eqb c "-" then (true, s') else if Ascii.eqb c "+" then (false, s') else (false, String c s')
    | EmptyString => (false, EmptyString)
    end in
  let '(v, n) := digits s 0 0 in
  match n with
  | O => InvalidArgument
  | S _ =>
      let z := if neg then - v else v in
      if bool_decide (- 2 ^ 63 ≤ z < 2 ^ 63) then NumOk z else OutOfRange
  end.

Definition num (a : Args) (k : string) (d : Z) : Num :=
  match kv_ a !! k with None => NumOk d | Some v => stol v end.

(** ** What the programs make of it

    An exception of [stol] is not caught anywhere: the program ends. *)
Definition or_throw (n : Num) : option Z := match n with NumOk z => Some z | _ => None end.

Record ServerConfig := mkServerConfig { sc_port : Z; sc_md_port : Z; sc_max_backlog : Z; sc_md : PubConfig }.

(** [main] of [main_server.cpp], up to starting the threads: the usage text, or
    the configurations of the engine and the gateway. *)
Inductive ServerStart := ShowUsage | StartServer (ecfg : Config) (scfg : ServerConfig).

Definition server_main (a : Args) : option ServerStart :=
  if has a "help" then Some ShowUsage else
  sym ← or_throw (num a "symbols" 4);
  px ← or_throw (num a "max-price" 100000);
  ord ← or_throw (num a "max-orders" (Z.shiftl 1 20));
  port ← or_throw (num a "port" 9001);
  md_port ← or_throw (num a "md-port" 9002);
  log2 ← or_throw (num a "md-replay-log2" 16);
  backlog ← or_throw (num a "md-backlog" (Z.shiftl 1 20));
  hb ← or_throw (num a "md-heartbeat-ms" 1000);
  stall ← or_throw (num a "md-stall-ms" 10000);
  Some (StartServer (mkConfig (u16 sym) px (u32 ord))
          (mkServerConfig (u16 port) (u16 md_port) (Z.shiftl 8 20) (mkPubConfig (u64 backlog) (u64 log2) (u64 hb) (u64 stall)))).

(** The options of [run_load], after [--host]: the port and the configuration. *)
Definition load_main (a : Args) : option (string * Z * LoadConfig) :=
  port ← or_throw (num a "port" 9001);
  orders ← or_throw (num a "orders" 100000);
  inflight ← or_throw (num a "inflight" 1);
  symbol ← or_throw (num a "symbol" 0);
  mid ← or_throw (num a "mid" 10000);
  spread ← or_throw (num a "spread" 5);
  Some (str a "host" "127.0.0.1", u16 port, mkLoadConfig (u64 orders) (u64 inflight) (u16 symbol) mid spread).

(** The options of [run_md]; [t_end] is computed from [--seconds], a [double]. *)
Definition md_main (a : Args) (t_end : Z) : option (string * Z * MdConfig * Z) :=
  port ← or_throw (num a "port" 9002);
  _ ← or_throw (num a "slow-us" 0);
  hb ← or_throw (num a "heartbeat-timeout-ms" 3000);
  from ← or_throw (num a "from" 0);
  Some (str a "host" "127.0.0.1", u16 port,
        mkMdConfig (has a "stats") (u64 (u64 hb * 1000000)) (negb (has a "no-reconnect")) t_end, u64 from).

(** [main] of [main_client.cpp]: which tool runs, or the exit code after the usage text. *)
Inductive ClientMode := ModeLoad | ModeMd | ModeUsage (exit : Z).

Definition client_main (a : Args) : ClientMode :=
  let mode := match positional a with [] => EmptyString | m :: _ => m end in
  if bool_decide (mode = "load") then ModeLoad
  else if bool_decide (mode = "md") then ModeMd
  else ModeUsage (if bool_decide (mode = EmptyString) then 0 else 1).

(** ** Strings *)
Lemma append_cons c a b : String c a ++ b = String c (a ++ b).
Proof. reflexivity. Qed.

Lemma append_empty a : a ++ EmptyString = a.
Proof. induction a as [|c a IH]; [done|]. by rewrite append_cons, IH. Qed.

Lemma append_assoc a b c : (a ++ b) ++ c = a ++ (b ++ c).
Proof. induction a as [|x a IH]; [done|]. by rewrite !append_cons, IH. Qed.

Lemma length_append a b : String.length (a ++ b) = (String.length a + String.length b)%nat.
Proof. induction a as [|c a IH]; [done|]. rewrite append_cons. simpl. by rewrite IH. Qed.

Lemma substring_skip a b n m : substring (String.length a + n) m (a ++ b) = substring n m b.
Proof. induction a as [|c a IH]; [done|]. rewrite append_cons. apply IH. Qed.

Lemma substring_all a b : substring 0 (String.length a) (a ++ b) = a.
Proof. induction a as [|c a IH]; [by destruct b|]. rewrite append_cons. simpl. by rewrite IH. Qed.

Lemma substr_from_app a b : substr_from (String.length a) (a ++ b) = b.
Proof.
  unfold substr_from. rewrite length_append.
  replace (String.length a + String.length b - String.length a)%nat with (String.length b) by lia.
  rewrite <- (Nat.add_0_r (String.length a)) at 1. rewrite substring_skip.
  rewrite <- (append_empty b) at 2. apply substring_all.
Qed.

Lemma find_char_app c a b : find_char c a = None →
  find_char c (a ++ String c b) = Some (String.length a).
Proof.
  induction a as [|x a IH]; [simpl; by rewrite Ascii.eqb_refl|]. rewrite append_cons. simpl.
  destruct (Ascii.eqb x c); [done|]. destruct (find_char c a); [done|]. intros _. by rewrite IH.
Qed.

(** ** What a command line says *)
Inductive Opt := OEq (k v : string) | OSpace (k v : string) | OFlag (k : string) | OPos (v : string).

Definition render (o : Opt) : list string :=
  match o with
  | OEq k v => ["--" ++ k ++ "=" ++ v]
  | OSpace k v => ["--" ++ k; v]
  | OFlag k => ["--" ++ k]
  | OPos v => [v]
  end.

(** What each option should do. *)
Definition apply_opt (a : Args) (o : Opt) : Args :=
  match o with
  | OEq k v => mkArgs (<[k := v]> (kv_ a)) (pos_ a)
  | OSpace k v => mkArgs (<[k := v]> (kv_ a)) (pos_ a)
  | OFlag k => mkArgs (<[k := "1"]> (kv_ a)) (pos_ a)
  | OPos v => mkArgs (kv_ a) (pos_ a ++ [v])%list
  end.

(** A name is free of [=]; a separate value does not start with a dash; a bare
    flag is not followed by something that would be taken for its value. *)
Definition opt_ok (o : Opt) : Prop :=
  match o with
  | OEq k _ => find_char "=" k = None
  | OSpace k v => find_char "=" k = None ∧ starts_dash v = false
  | OFlag k => find_char "=" k = None
  | OPos v => prefix "--" v = false
  end.

Definition starts_with_option (l : list Opt) : Prop :=
  match l with OPos v :: _ => starts_dash v = true | _ => True end.

Fixpoint opts_ok (l : list Opt) : Prop :=
  match l with
  | [] => True
  | o :: l => opt_ok o ∧ match o with OFlag _ => starts_with_option l | _ => True end ∧ opts_ok l
  end.

Lemma find_dashes k : find_char "=" k = None → find_char "=" ("--" ++ k) = None.
Proof. intros E. change (S <$> (S <$> find_char "=" k) = None). by rewrite E. Qed.

Lemma prefix_dashes k : prefix "--" ("--" ++ k) = true.
Proof. by destruct k. Qed.

Lemma render_first l : starts_with_option l →
  match List.concat (render <$> l) with [] => True | v :: _ => starts_dash v = true end.
Proof. by destruct l as [|[] l]. Qed.

Lemma parse_render l a : opts_ok l → parse_args (List.concat (render <$> l)) a = fold_left apply_opt l a.
Proof.
  revert a. induction l as [|o l IH]; intros a Hl; [done|]. destruct Hl as (Ho & Hf & Hl). cbn [fmap list_fmap List.concat fold_left].
  rewrite <- (IH _ Hl). destruct o as [k v|k v|k|v]; cbn [render opt_ok app apply_opt] in *.
  - cbn [parse_args]. rewrite prefix_dashes. cbn [negb].
    pose proof (find_char_app "=" ("--" ++ k) v (find_dashes k Ho)) as Hfind. change (String "=" v) with ("=" ++ v) in Hfind.
    rewrite <- (append_assoc "--" k), Hfind. do 3 f_equal.
    + unfold substr. rewrite append_assoc, length_append. cbn [String.length Nat.add].
      replace (S (S (String.length k)) - 2)%nat with (String.length k) by lia.
      change 2%nat with (String.length "--" + 0)%nat. rewrite substring_skip. apply substring_all.
    + replace (String.length ("--" ++ k) + 1)%nat with (String.length (("--" ++ k) ++ "=")) by (rewrite !length_append; simpl; lia).
      rewrite <- append_assoc. apply substr_from_app.
  - cbn [parse_args]. rewrite prefix_dashes. cbn [negb]. destruct Ho as [Hk Hv]. rewrite find_dashes, Hv by done. cbn [negb].
    do 3 f_equal. apply (substr_from_app "--").
  - cbn [parse_args]. rewrite prefix_dashes. cbn [negb]. rewrite find_dashes by done. pose proof (render_first l Hf) as Hr.
    destruct (List.concat (render <$> l)) as [|v rest]; [|rewrite Hr; cbn [negb]]; do 3 f_equal; apply (substr_from_app "--").
  - cbn [parse_args]. by rewrite Ho.
Qed.

(** ** The last setting of an option *)
Definition setting (k : string) (o : Opt) : option string :=
  match o with
  | OEq k' v => if decide (k' = k) then Some v else None
  | OSpace k' v => if decide (k' = k) then Some v else None
  | OFlag k' => if decide (k' = k) then Some "1" else None
  | OPos _ => None
  end.

Definition setting_of (k : string) (l : list Opt) : option string := last (omap (setting k) l).

Definition positional_of (o : Opt) : option string := match o with OPos v => Some v | _ => None end.

Lemma apply_opt_kv a o k : kv_ (apply_opt a o) !! k = match setting k o with Some v => Some v | None => kv_ a !! k end.
Proof.
  destruct o as [k' v|k' v|k'|v]; simpl; [| | |done];
    (destruct (decide (k' = k)) as [->|]; [by rewrite lookup_insert_eq|by rewrite lookup_insert_ne]).
Qed.

Lemma fold_opts l a :
  (∀ k, kv_ (fold_left apply_opt l a) !! k = match setting_of k l with Some v => Some v | None => kv_ a !! k end) ∧
  pos_ (fold_left apply_opt l a) = (pos_ a ++ omap positional_of l)%list.
Proof.
  revert a. induction l as [|o l IH]; intros a; [split; [done|by rewrite app_nil_r]|].
  destruct (IH (apply_opt a o)) as [H1 H2]. cbn [fold_left]. split.
  - intros k. rewrite H1, apply_opt_kv. unfold setting_of.
    change (omap (setting k) (o :: l)) with (match setting k o with Some y => y :: omap (setting k) l | None => omap (setting k) l end).
    destruct (setting k o) as [v|]; [|done]. by destruct (omap (setting k) l) as [|w ws]; [|rewrite last_cons_cons; destruct (last (w :: ws)) eqn:E; [|by apply last_None in E]].
  - rewrite H2. destruct o; simpl; rewrite ?app_nil_r, <- ?app_assoc; done.
Qed.

(** ** Numbers *)
Definition digit_char (d : Z) : ascii := ascii_of_nat (Z.to_nat (48 + d)).

Definition to_digits (ds : list Z) (rest : string) : string := foldr (λ d s, String (digit_char d) s) rest ds.

Definition value (ds : list Z) : Z := fold_left (λ acc d, 10 * acc + d) ds 0.

Definition is_digit (d : Z) : Prop := 0 ≤ d ≤ 9.

Lemma digit_char_ok d : is_digit d →
  digit (digit_char d) = Some d ∧ is_space (digit_char d) = false ∧
  Ascii.eqb (digit_char d) "-" = false ∧ Ascii.eqb (digit_char d) "+" = false.
Proof.
  intros Hd. assert (d = 0 ∨ d = 1 ∨ d = 2 ∨ d = 3 ∨ d = 4 ∨ d = 5 ∨ d = 6 ∨ d = 7 ∨ d = 8 ∨ d = 9) as Hc
    by (unfold is_digit in Hd; lia).
  destruct_or!; subst; done.
Qed.

(** Digits end where something else begins. *)
Definition no_digit (s : string) : Prop := match s with String c _ => digit c = None | EmptyString => True end.

Lemma digits_app ds rest acc n :
  Forall is_digit ds → no_digit rest →
  digits (to_digits ds rest) acc n = (fold_left (λ acc d, 10 * acc + d) ds acc, (n + List.length ds)%nat).
Proof.
  intros Hd. revert acc n. induction Hd as [|d ds Hd _ IH]; intros acc n Hr; cbn [to_digits foldr fold_left List.length].
  - rewrite Nat.add_0_r. destruct rest as [|c rest]; [done|]. simpl in *. by rewrite Hr.
  - cbn [digits]. destruct (digit_char_ok d Hd) as [-> _]. fold (to_digits ds rest). rewrite IH by done. f_equal. lia.
Qed.

Definition minus_sign : ascii := "-".

Definition in_long (z : Z) : Num := if bool_decide (- 2 ^ 63 ≤ z < 2 ^ 63) then NumOk z else OutOfRange.

Lemma stol_number ds rest : Forall is_digit ds → ds ≠ [] → no_digit rest →
  stol (to_digits ds rest) = in_long (value ds) ∧ stol (String minus_sign (to_digits ds rest)) = in_long (- value ds).
Proof.
  intros Hd Hne Hr. pose proof (digits_app ds rest 0 0 Hd Hr) as E. destruct ds as [|d ds]; [done|].
  apply Forall_cons in Hd as [Hd _]. destruct (digit_char_ok d Hd) as (_ & Hs & Hm & Hp). split.
  - unfold stol. cbn [to_digits foldr] in *. cbn [skip_space]. rewrite Hs, Hm, Hp, E. done.
  - unfold stol, minus_sign. change (skip_space (String "-" (to_digits (d :: ds) rest))) with (String "-" (to_digits (d :: ds) rest)).
    cbv iota. rewrite (Ascii.eqb_refl "-"). cbv iota. rewrite E. done.
Qed.
