(* ===== verification/Stats.v ===== *)
(** [include/matchbox/stats.hpp]: latency percentiles.  The products of a
    [double] quantile with the sample count are the IEEE ones: the exact product
    of the 53-bit significand with the count, rounded to nearest even. *)
From S2P Require Import Prelude.

Record Percentiles := mkPct { p50 : Z; p99 : Z; p999 : Z; pmax : Z }.

Definition Percentiles_default : Percentiles := mkPct 0 0 0 0.

(** The literals 0.50, 0.99 and 0.999: significands with exponent -53. *)
Definition q50 : Z := 4503599627370496.
Definition q99 : Z := 8917127262193582.
Definition q999 : Z := 8998192055486251.

(** Round [x] to a multiple of [u], ties to even. *)
Definition round_to (u x : Z) : Z :=
  let q := x / u in
  let r := x mod u in
  if 2 * r <? u then q * u
  else if u <? 2 * r then (q + 1) * u
  else if Z.even q then q * u else (q + 1) * u.

(** A positive integer as a [double] in the same unit: 53 significant bits. *)
Definition round53 (x : Z) : Z := if x <? 2 ^ 53 then x else round_to (2 ^ (Z.log2 x - 52)) x.

(** [static_cast<size_t>(q * samples.size())] *)
Definition rank (q n : Z) : Z := round53 (q * n) / 2 ^ 53.

(** [at(q)]: [samples[min(samples.size() - 1, ...)]]. *)
Definition at_quantile (samples : list Z) (q : Z) : option Z :=
  let n := Z.of_nat (length samples) in vget samples (Z.min (n - 1) (rank q n)).

(** [std::sort] *)
Definition sort (samples : list Z) : list Z := merge_sort Z.le samples.

(** [percentiles(samples)]: the result and the vector it leaves sorted. *)
Definition percentiles (samples : list Z) : option (Percentiles * list Z) :=
  match samples with
  | [] => Some (Percentiles_default, samples)
  | _ =>
      let samples := sort samples in
      a ← at_quantile samples q50;
      b ← at_quantile samples q99;
      c ← at_quantile samples q999;
      d ← last samples;
      Some (mkPct a b c d, samples)
  end.

(** ** Rounding *)
Lemma round_to_near u x : 0 < u → Z.abs (2 * (round_to u x - x)) ≤ u.
Proof.
  intros Hu. unfold round_to. pose proof (Z.div_mod x u ltac:(lia)) as Hx. pose proof (Z.mod_pos_bound x u Hu).
  destruct (Z.ltb_spec (2 * (x mod u)) u); [nia|]. destruct (Z.ltb_spec u (2 * (x mod u))); [nia|].
  destruct (Z.even _); nia.
Qed.

(** The error of one multiplication by a quantile below 1. *)
Lemma round53_near q n : 0 < q < 2 ^ 53 → 0 < n → Z.abs (round53 (q * n) - q * n) ≤ n.
Proof.
  intros Hq Hn. unfold round53. destruct (Z.ltb_spec (q * n) (2 ^ 53)); [lia|].
  assert (0 < q * n) as Hp by nia. destruct (Z.log2_spec (q * n) Hp) as [Hl Hh].
  assert (53 ≤ Z.log2 (q * n)) as Hlog by (apply Z.log2_le_pow2; lia).
  set (e := Z.log2 (q * n) - 52) in *.
  assert (0 < 2 ^ e) as He by (apply Z.pow_pos_nonneg; lia). pose proof (round_to_near (2 ^ e) (q * n) He).
  enough (2 ^ e ≤ 2 * n) by lia.
  assert (2 ^ e * 2 ^ 52 ≤ q * n) as Hle by (rewrite <- Z.pow_add_r by lia; by replace (e + 52) with (Z.log2 (q * n)) by lia).
  assert (q * n < 2 ^ 53 * n) by nia. change (2 ^ 53) with (2 * 2 ^ 52) in *. nia.
Qed.

(** Ranks are in order and in range. *)
Lemma rank_bounds q n : 0 < q < 2 ^ 53 → 0 < n → (q - 1) * n < 2 ^ 53 * (rank q n + 1) ∧ 2 ^ 53 * rank q n ≤ (q + 1) * n.
Proof.
  intros Hq Hn. pose proof (round53_near q n Hq Hn). unfold rank.
  pose proof (Z.div_mod (round53 (q * n)) (2 ^ 53) ltac:(lia)). pose proof (Z.mod_pos_bound (round53 (q * n)) (2 ^ 53) ltac:(lia)).
  lia.
Qed.

Lemma rank_range q n : 1 < q < 2 ^ 53 - 1 → 0 < n → 0 ≤ rank q n < n.
Proof.
  intros Hq Hn. destruct (rank_bounds q n ltac:(lia) Hn) as [H1 H2]. split; [|nia].
  unfold rank. apply Z.div_pos; [|lia]. pose proof (round53_near q n ltac:(lia) Hn). nia.
Qed.

Lemma rank_mono q q' n : 0 < q → q + 2 ≤ q' → q' < 2 ^ 53 → 0 < n → rank q n ≤ rank q' n.
Proof.
  intros. unfold rank. apply Z.div_le_mono; [lia|].
  pose proof (round53_near q n ltac:(lia) ltac:(lia)). pose proof (round53_near q' n ltac:(lia) ltac:(lia)). nia.
Qed.

(** The rank of a quantile [num / den] given by its significand [q]. *)
Lemma rank_share q num den n :
  0 < q < 2 ^ 53 → 0 < den ≤ 1000 → Z.abs (q * den - num * 2 ^ 53) ≤ 1000 → 0 < n < 2 ^ 40 →
  num * n ≤ den * (rank q n + 1).
Proof.
  intros Hq Hd Ha Hn. destruct (rank_bounds q n Hq ltac:(lia)) as [H1 _].
  assert (2 ^ 53 * (num * n) - 2 ^ 53 * (den * (rank q n + 1)) < 2 ^ 53) as Hlt; [|lia].
  assert ((q - 1) * n * den < 2 ^ 53 * (rank q n + 1) * den) by nia.
  assert (num * 2 ^ 53 * n ≤ (q * den + 1000) * n) by nia.
  assert ((1000 + den) * n < 2 ^ 53) by nia. nia.
Qed.

(** ** Sorted samples *)
Lemma sort_sorted l : StronglySorted Z.le (sort l).
Proof. apply StronglySorted_merge_sort; apply _. Qed.

Lemma sort_perm l : sort l ≡ₚ l.
Proof. apply merge_sort_Permutation. Qed.

Lemma sorted_lookup l i j x y :
  StronglySorted Z.le l → l !! i = Some x → l !! j = Some y → (i ≤ j)%nat → x ≤ y.
Proof.
  intros Hs. revert i j. induction Hs as [|z l Hs IH Hz]; intros i j Hi Hj Hij; [done|].
  destruct i as [|i], j as [|j]; simpl in *; simplify_eq; [lia| |lia|].
  - rewrite Forall_forall in Hz. apply Hz. by eapply list_elem_of_lookup_2.
  - eapply IH; [done|done|lia].
Qed.

(** At least [i + 1] samples are at most the one at position [i]. *)
Lemma sorted_count (l : list Z) (i : nat) (x : Z) :
  StronglySorted Z.le l → l !! i = Some x → (i < length (filter (λ y, (y ≤ x)%Z) l))%nat.
Proof.
  intros Hs Hi. rewrite <- (take_drop (S i) l), filter_app, length_app.
  rewrite (filter_all _ (take (S i) l)), length_take; [apply lookup_lt_Some in Hi; lia|].
  intros y (j & Hj)%list_elem_of_lookup_1. pose proof (lookup_lt_Some _ _ _ Hj) as Hlt. rewrite length_take in Hlt.
  rewrite lookup_take_lt in Hj by lia. eapply sorted_lookup; [done|exact Hj|exact Hi|lia].
Qed.

Lemma count_perm (P : Z → Prop) `{∀ x, Decision (P x)} l l' : l ≡ₚ l' → length (filter P l) = length (filter P l').
Proof. by intros ->. Qed.

(** What one quantile returns. *)
Lemma at_quantile_ok l q num den :
  StronglySorted Z.le l → l ≠ [] → Z.of_nat (length l) < 2 ^ 40 →
  1 < q < 2 ^ 53 - 1 → 0 < den ≤ 1000 → Z.abs (q * den - num * 2 ^ 53) ≤ 1000 →
  ∃ x, at_quantile l q = Some x ∧ l !! Z.to_nat (rank q (Z.of_nat (length l))) = Some x ∧
    num * Z.of_nat (length l) ≤ den * Z.of_nat (length (filter (λ y, y ≤ x) l)).
Proof.
  intros Hs Hne Hl Hq Hd Ha. set (n := Z.of_nat (length l)) in *.
  assert (0 < n) as Hn by (unfold n; destruct l; [done|simpl; lia]).
  pose proof (rank_range q n Hq Hn) as Hr. pose proof (rank_share q num den n ltac:(lia) Hd Ha ltac:(lia)) as Hsh.
  unfold at_quantile. fold n. rewrite Z.min_r by lia. destruct (vget_is_Some l (rank q n)) as [x Ex]; [unfold n in *; lia|].
  exists x. pose proof Ex as [_ Hx]%vget_spec. split_and!; [done|done|].
  pose proof (sorted_count l _ x Hs Hx). nia.
Qed.

(** No number of samples puts an index out of range. *)
Lemma at_quantile_total l q : l ≠ [] → 1 < q < 2 ^ 53 - 1 → is_Some (at_quantile l q).
Proof.
  intros Hne Hq. assert (0 < Z.of_nat (length l)) as Hn by (destruct l; [done|simpl; lia]).
  pose proof (rank_range q _ Hq Hn). unfold at_quantile. apply vget_is_Some. lia.
Qed.

Lemma percentiles_total l : is_Some (percentiles l).
Proof.
  destruct l as [|x l]; [by eexists|]. unfold percentiles. set (s := sort (x :: l)).
  assert (s ≠ []) as Hne by (intros E; pose proof (Permutation_length (sort_perm (x :: l))) as H; fold s in H; by rewrite E in H).
  destruct (at_quantile_total s q50 Hne) as [a ->]; [unfold q50; lia|].
  destruct (at_quantile_total s q99 Hne) as [b ->]; [unfold q99; lia|].
  destruct (at_quantile_total s q999 Hne) as [c ->]; [unfold q999; lia|].
  destruct (proj2 (last_is_Some s) Hne) as [d ->]. by eexists.
Qed.

Lemma percentiles_ok l : l ≠ [] → Z.of_nat (length l) < 2 ^ 40 →
  ∃ p, percentiles l = Some (p, sort l) ∧
    (p50 p ≤ p99 p ≤ p999 p ∧ p999 p ≤ pmax p) ∧
    (p50 p ∈ l ∧ p99 p ∈ l ∧ p999 p ∈ l ∧ pmax p ∈ l) ∧ (∀ x, x ∈ l → x ≤ pmax p) ∧
    (Z.of_nat (length l) ≤ 2 * Z.of_nat (length (filter (λ x, x ≤ p50 p) l)) ∧
     99 * Z.of_nat (length l) ≤ 100 * Z.of_nat (length (filter (λ x, x ≤ p99 p) l)) ∧
     999 * Z.of_nat (length l) ≤ 1000 * Z.of_nat (length (filter (λ x, x ≤ p999 p) l))).
Proof.
  intros Hne Hl. pose proof (sort_perm l) as Hp. pose proof (sort_sorted l) as Hs.
  assert (length (sort l) = length l) as Hlen by (by rewrite Hp).
  assert (sort l ≠ []) as Hne' by (intros E; rewrite E in Hlen; by destruct l).
  assert (0 < Z.of_nat (length l)) as Hn by (destruct l; [done|simpl; lia]).
  destruct (at_quantile_ok (sort l) q50 1 2 Hs Hne') as (a & Ea & La & Ca); [rewrite Hlen; done|unfold q50; lia..|].
  destruct (at_quantile_ok (sort l) q99 99 100 Hs Hne') as (b & Eb & Lb & Cb); [rewrite Hlen; done|unfold q99; lia..|].
  destruct (at_quantile_ok (sort l) q999 999 1000 Hs Hne') as (c & Ec & Lc & Cc); [rewrite Hlen; done|unfold q999; lia..|].
  rewrite Hlen in *. rewrite !(count_perm _ _ _ Hp) in *.
  destruct (last (sort l)) as [d|] eqn:Ed; [|by apply last_None in Ed].
  assert (sort l !! (length l - 1)%nat = Some d) as Ld by (rewrite last_lookup, Hlen in Ed; by replace (length l - 1)%nat with (pred (length l)) by lia).
  exists (mkPct a b c d). split; [unfold percentiles; destruct l; [done|]; by rewrite Ea, Eb, Ec, Ed|]. cbn [p50 p99 p999 pmax].
  pose proof (rank_range q50 _ ltac:(unfold q50; lia) Hn). pose proof (rank_range q99 _ ltac:(unfold q99; lia) Hn).
  pose proof (rank_range q999 _ ltac:(unfold q999; lia) Hn).
  pose proof (rank_mono q50 q99 (Z.of_nat (length l)) ltac:(unfold q50; lia) ltac:(unfold q50, q99; lia) ltac:(unfold q99; lia) Hn).
  pose proof (rank_mono q99 q999 (Z.of_nat (length l)) ltac:(unfold q99; lia) ltac:(unfold q99, q999; lia) ltac:(unfold q999; lia) Hn).
  split_and!; try (rewrite <- Hp; by eapply list_elem_of_lookup_2); try lia.
  - eapply (sorted_lookup _ _ _ _ _ Hs La Lb). lia.
  - eapply (sorted_lookup _ _ _ _ _ Hs Lb Lc). lia.
  - eapply (sorted_lookup _ _ _ _ _ Hs Lc Ld). lia.
  - intros x Hx. rewrite <- Hp in Hx. apply list_elem_of_lookup_1 in Hx as [i Hi]. eapply (sorted_lookup _ _ _ _ _ Hs Hi Ld).
    apply lookup_lt_Some in Hi. lia.
Qed.
