(* ===== verification/Client.v ===== *)
(** The client tools of [src/main_client.cpp] as whole programs: [run_load] from
    its command line to its exit code and report. *)
From S2P Require Import Prelude Types Engine Process Protocol Ring WireTheorems Poller Calls Net Publisher Stream Gateway Parse Frames Sockets.
From S2P Require Import MdClient MdAccount LoadClient LoadRun LoadTheorems CmdLine Stats.

(** What [run_load] prints at the end, without the elapsed time. *)
Record LoadReport := mkLoadReport {
  lr_orders : Z; lr_inflight : Z; lr_latency : Percentiles; lr_samples : Z; lr_fills : Z; lr_rejects : Z }.

Definition load_report (c : LoadConfig) (st : LoadState) : option LoadReport :=
  '(p, ns) ← percentiles (rtt st);
  Some (mkLoadReport (n_orders c) (inflight c) p (Z.of_nat (length ns)) (fills st) (rejects st)).

(** [run_load]: the exit code, the calls besides reads and writes, the bytes
    written and the report; [None] if an option does not parse or while a system
    call blocks.  After a failed write or read it returns without [::close]. *)
Definition run_load (rng : nat → Z) (clock : Z → Z) (k : Kernel) (rounds : list Round) (a : Args) :
    option (Z * list Syscall * list Z * option LoadReport) :=
  '(host, port, c) ← load_main a;
  let '(fd, calls) := connect_tcp k host port in
  if fd <? 0 then Some (1, calls, [], None) else
  '(code, st, written) ← load_run c rng clock rounds [] (LoadState_init c) [];
  if code =? 0 then
    report ← load_report c st;
    Some (0, calls ++ [Close fd], written, Some report)
  else Some (code, calls, written, None).








Definition demo_host : Kernel := mkKernel 7 0 0 0 2 (Some 16777343) 0.


(** Both orders acknowledged: two samples, no fills. *)
Example demo_load_report :
  (λ x, snd x) <$> run_load (λ d, 7 * Z.of_nat d + 3) (λ t, 50 + t) demo_host demo_rounds (Args_init ["load"; "--orders"; "2"]) =
    Some (Some (mkLoadReport 2 1 (mkPct 149 149 149 149) 2 0 0)).
Proof. vm_compute. reflexivity. Qed.
