(* ===== verification/MdProgram.v ===== *)
(** [run_md] of [src/main_client.cpp] as a whole program: any number of connect
    attempts, refused, cut off or served by a publisher that goes on publishing. *)
From S2P Require Import Prelude Poller Calls Protocol Ring WireTheorems Net Publisher Stream NetTheorems Gateway Parse Frames Sockets MdClient MdAccount Delivery MdSession.
From S2P Require Import Streams Fanout Link MdTheorems.
From S2P Require Import LoadClient CmdLine Stats.

(** What [run_md] prints at the end, without the elapsed time. *)
Record MdReport := mkMdReport {
  mr_frames : Z; mr_gaps : Z; mr_lost : Z; mr_heartbeats : Z; mr_reconnects : Z; mr_last_seq : Z;
  mr_fanout : option Percentiles }.

Definition md_report (r : MdRun) : option MdReport :=
  let st := r_st r in
  fanout ← match fanout_ns st with
    | [] => Some None
    | ns => '(p, _) ← percentiles ns; Some (Some p)
    end;
  Some (mkMdReport (frames st) (gaps st) (lost st) (heartbeats st) (r_reconnects r) (last_seq st) fanout).

(** [run_md]: the exit code, the report and what was printed before it; [None] if
    an option does not parse or while the client is still running. *)
Definition run_md (t_end : Z) (attempts : list Attempt) (a : Args) : option (Z * option MdReport * list MdLine) :=
  '(_, _, c, from) ← md_main a t_end;
  '(code, r) ← md_run c attempts (MdRun_init from);
  if code =? 0 then report ← md_report r; Some (0, Some report, lines (r_st r))
  else Some (code, None, lines (r_st r)).

(** ** A client's life *)





Section Life.
Context (cfg : PubConfig) (c : MdConfig).



Context (limit : 0 < max_backlog cfg < 2 ^ 40) (ring_pos : 0 ≤ ring_log2 cfg < 58).







End Life.



(** A refused connect, then the two connections of the demonstration. *)
Definition demo_attempts : list Attempt :=
  [mkAttempt 0 false [] 0 [] 0; mkAttempt 1 true [Wrote 16] 1 (demo_ticks ++ [demo_close]) 12;
   mkAttempt 13 true [Interrupted; Wrote 6; Wrote 10] 20 (demo_ticks2 ++ [demo_close]) (2 ^ 64 - 1)].



(** Its report: two frames, one gap of one frame, one reconnect, last sequence 3. *)
Example demo_md_report :
  (λ x, snd (fst x)) <$> run_md (2 ^ 64 - 1) demo_attempts (Args_init ["md"; "--from"; "1"]) =
    Some (Some (mkMdReport 2 1 1 0 1 3 None)).
Proof. vm_compute. reflexivity. Qed.
