(* ===== verification/Bench.v ===== *)
(** [src/main_bench.cpp]: the in-process benchmark of the engine.  The random
    draws are a function of how many were taken, the clock readings a function
    of the iteration. *)
From S2P Require Import Prelude Types Pool Book Engine Spec Abs EngineInv SpecProps Process EngineFacts SpecEvents LoadClient.

(** [struct CountingSink] *)
Record CountingSink := mkSink { live : list Z; events : Z; trades : Z }.

Definition count_event (s : CountingSink) (e : Event) : CountingSink :=
  mkSink (if bool_decide (e_kind e = EvAccepted) then live s ++ [e_order_id e] else live s)
    (u64 (events s + 1)) (if bool_decide (e_kind e = EvTrade) then u64 (trades s + 1) else trades s).

Record BenchConfig := mkBench { bn : Z; cancel_below : Z; b_mid : Z; b_spread : Z }.

(** The locals of [main]; the engine's own sink records the same events. *)
Record BenchState := mkBS { b_engine : Engine; b_sink : CountingSink; b_draws : nat; cancels : Z; lat : list Z }.

Definition bench_engine_config (c : BenchConfig) : Config := mkConfig 4 100000 (u32 (bn c + 1024)).

Definition BenchState_init (c : BenchConfig) : BenchState :=
  mkBS (Engine_init (bench_engine_config c) []) (mkSink [] 0 0) 0 0 [].

Section Bench.
Context (c : BenchConfig) (rng : nat → Z) (clock : Z → Z * Z * Z).

(** [sink.live[k] = sink.live.back(); sink.live.pop_back();] and the id taken. *)
Definition take_live (l : list Z) (k : Z) : option (Z * list Z) :=
  id ← vget l k;
  back ← last l;
  l ← vset l k back;
  Some (id, take (length l - 1) l).

(** The command of iteration [i], what is left of [live], the draws taken, and
    whether it is a cancel. *)
Definition bench_command (i : Z) (l : list Z) (d : nat) : option (Command * list Z * nat * bool) :=
  let c0 := mkCommand CmdNew Buy Limit GTC 0 1 i 0 0 0 in
  let new (d : nat) :=
    mkCommand CmdNew (if Z.odd (rng d) then Sell else Buy) Limit GTC 0 1 i 0
      (draw_price (b_mid c) (b_spread c) (rng (S d))) (draw_qty (rng (S (S d)))) in
  if bool_decide (l = []) then Some (new d, l, (d + 3)%nat, false) else
  if rng d mod 1000 <? cancel_below c then
    '(id, l) ← take_live l (rng (S d) mod Z.of_nat (length l));
    Some (mkCommand CmdCancel Buy Limit GTC 0 1 i id 0 0, l, (d + 2)%nat, true)
  else Some (new (S d), l, (d + 4)%nat, false).

(** One iteration of the loop. *)
Definition bench_step (i : Z) (st : BenchState) : option BenchState :=
  '(cm, l, d, is_cancel) ← bench_command i (live (b_sink st)) (b_draws st);
  let '(before, now, after) := clock i in
  e ← process now cm (b_engine st);
  let new := drop (length (sink_ (b_engine st))) (sink_ e) in
  let sink := fold_left count_event new (mkSink l (events (b_sink st)) (trades (b_sink st))) in
  Some (mkBS e sink d (if is_cancel : bool then u64 (cancels st + 1) else cancels st) (lat st ++ [u64 (after - before)])).

Fixpoint bench_loop (k : nat) (i : Z) (st : BenchState) : option BenchState :=
  match k with O => Some st | S k => st ← bench_step i st; bench_loop k (i + 1) st end.

Definition bench_main : option BenchState := bench_loop (Z.to_nat (bn c)) 0 (BenchState_init c).
End Bench.

(** ** Where resting orders come from *)
Definition same_order (a b : AOrder) : Prop := a_id a = a_id b ∧ a_session a = a_session b.

Lemma amatch_ids now ty t l evs t' l' :
  amatch now ty t l = (evs, t', l') → same_order t' t ∧ ∀ a, a ∈ l' → ∃ b, b ∈ l ∧ same_order a b.
Proof.
  revert t evs t' l'. induction l as [|m l IH]; intros t evs t' l' E; cbn [amatch] in E.
  { injection E as <- <- <-. split; [done|]. by intros a []%not_elem_of_nil. }
  destruct (_ && _); [|injection E as <- <- <-; split; [done|]; intros a Ha; by exists a].
  destruct (_ =? 0).
  - destruct (amatch now ty _ l) as [[evs1 t1] l1] eqn:E1. injection E as <- <- <-. destruct (IH _ _ _ _ E1) as [[H1 H2] H3].
    split; [done|]. intros a Ha. destruct (H3 a Ha) as (b & Hb & Hs). exists b. split; [by right|done].
  - injection E as <- <- <-. split; [done|]. intros a [->|Ha]%elem_of_cons; [exists m|exists a]; (split; [|done]); [left|by right].
Qed.

Lemma amatch_and_rest_ids now ty tif t bk s a :
  a ∈ sget s (snd (amatch_and_rest now ty tif t bk)) → same_order a t ∨ ∃ s0 b, b ∈ sget s0 bk ∧ same_order a b.
Proof.
  unfold amatch_and_rest. destruct (amatch _ _ _ _) as [[evs t'] rest] eqn:E. destruct (amatch_ids _ _ _ _ _ _ _ E) as [Ht Hr].
  assert (∀ s a, a ∈ sget s (sset (opposite (a_side t)) rest bk) → ∃ s0 b, b ∈ sget s0 bk ∧ same_order a b) as Hold.
  { intros s1 a1. rewrite sget_sset. case_decide as Es.
    - intros Ha. destruct (Hr a1 Ha) as (b & Hb & Hs). eauto.
    - intros Ha. by exists s1, a1. }
  destruct (_ =? 0); [eauto|]. destruct (_ || _); [eauto|]. cbn [snd]. rewrite sget_sset.
  case_decide; [|eauto]. rewrite elem_of_arest. intros [->|Ha]; [by left|right]. eauto.
Qed.

(** A new order adds at most itself, and then reports that it was accepted. *)
Lemma anew_orders now newid cm m a :
  c_kind cm = CmdNew → a ∈ all_orders (snd (aprocess now newid cm m)) →
  (∃ b, b ∈ all_orders m ∧ same_order a b) ∨
  (a_session a = c_session cm ∧ ∃ ev, ev ∈ fst (aprocess now newid cm m) ∧ e_kind ev = EvAccepted ∧ e_order_id ev = a_id a).
Proof.
  intros Hk. unfold aprocess. rewrite Hk. destruct (_ <=? _); [intros Ha; left; by exists a|].
  destruct (vget (m_books m) (c_symbol cm)) as [bk|] eqn:Eb.
  2: { unfold aon_book. rewrite Eb. intros Ha. left. by exists a. }
  intros (sym & bk' & s & Ebk & Ha)%elem_of_all_orders. rewrite (aon_book_vget _ _ _ _ bk) in Ebk by done.
  case_decide as Es.
  2: { left. exists a. split; [|done]. apply elem_of_all_orders. eauto. }
  subst sym. injection Ebk as <-. unfold aon_book. rewrite Eb.
  assert (∀ s0 b, b ∈ sget s0 bk → b ∈ all_orders m) as Hin by (intros s0 b Hb; apply elem_of_all_orders; eauto).
  assert (a ∈ sget s bk → ∃ b, b ∈ all_orders m ∧ same_order a b) as Hself by (intros Hb; exists a; split; [eauto|done]).
  unfold anew in *. destruct (c_qty cm =? 0); [left; exact (Hself Ha)|].
  destruct (bool_decide (c_type cm = Limit) && negb (avalid_price m (c_price cm))); [left; exact (Hself Ha)|].
  destruct newid as [id|]; [|left; exact (Hself Ha)].
  pose proof (amatch_and_rest_ids now (c_type cm) (c_tif cm) (anew_order cm id) bk s a) as Hids.
  destruct (amatch_and_rest _ _ _ _ _) as [evs bk'] eqn:Em. cbn [snd] in *.
  destruct (Hids Ha) as [[H1 H2]|(s0 & b & Hb & Hs)]; [right|left; eauto].
  split; [done|]. exists (abase now EvAccepted (anew_order cm id)). cbn [fst].
  split_and!; [apply elem_of_app; left; left|done|by rewrite H1].
Qed.

(** A cancel of an own order leaves exactly the orders with other ids. *)
Lemma acancel_rest now newid cm m a :
  c_kind cm = CmdCancel → exchange_ok m → ids_unique m →
  (∀ b, b ∈ all_orders m → a_session b = c_session cm) →
  a ∈ all_orders (snd (aprocess now newid cm m)) → a ∈ all_orders m ∧ a_id a ≠ c_order_id cm.
Proof.
  intros Hk Hx Hu Hown. unfold aprocess. rewrite Hk. destruct (afind (c_order_id cm) m) as [b|] eqn:Ef.
  - destruct (afind_elem _ _ _ Ef) as [Hb Hid]. rewrite (Hown b Hb), Z.eqb_refl. cbn [negb].
    rewrite acancel_orders by done. rewrite Hid. by intros [? ?]%list_elem_of_filter.
  - intros Ha. split; [done|]. intros Hid. unfold afind in Ef. apply List.find_none with (x := a) in Ef; [lia|].
    by apply list_elem_of_In.
Qed.

(** ** The list of live ids *)
Lemma take_live_ok l k : l ≠ [] → 0 ≤ k < Z.of_nat (length l) →
  ∃ id l', take_live l k = Some (id, l') ∧ id ∈ l ∧ length l = S (length l') ∧ ∀ x, x ∈ l → x = id ∨ x ∈ l'.
Proof.
  intros Hne Hk. unfold take_live. destruct (vget_is_Some l k Hk) as [id Eid]. rewrite Eid. cbn [mbind option_bind].
  destruct (last l) as [back|] eqn:Eb; [|by apply last_None in Eb]. cbn [mbind option_bind].
  destruct (vset_is_Some l k back Hk) as [l1 E1]. rewrite E1. cbn [mbind option_bind]. pose proof (vset_length _ _ _ _ E1) as Hl.
  exists id, (take (length l1 - 1) l1). pose proof Eid as [_ Hi]%vget_spec.
  split_and!; [done|by eapply list_elem_of_lookup_2|rewrite length_take; lia|].
  rewrite last_lookup in Eb. intros x (j & Hj)%list_elem_of_lookup_1.
  pose proof (lookup_lt_Some _ _ _ Hj) as Hlt. destruct (decide (j = Z.to_nat k)) as [->|Hjk]; [left; congruence|].
  assert (∀ i y, (i < length l - 1)%nat → l1 !! i = Some y → y ∈ take (length l1 - 1) l1) as Htake.
  { intros i y Hi' Hy. eapply (list_elem_of_lookup_2 _ i). by rewrite lookup_take_lt by lia. }
  unfold vset in E1. rewrite Eid in E1. injection E1 as <-.
  destruct (decide (j < length l - 1)%nat) as [Hj1|Hj1].
  - right. apply (Htake j); [done|]. by rewrite list_lookup_insert_ne.
  - assert (x = back) as -> by (replace j with (pred (length l)) in Hj by lia; congruence). right.
    apply (Htake (Z.to_nat k)); [lia|]. apply list_lookup_insert_eq. lia.
Qed.

Lemma count_events_live new s :
  live (fold_left count_event new s) = live s ++ omap (λ e, if decide (e_kind e = EvAccepted) then Some (e_order_id e) else None) new.
Proof.
  revert s. induction new as [|e new IH]; intros s; [by rewrite app_nil_r|]. cbn [fold_left]. rewrite IH. simpl.
  case_bool_decide; case_decide; try done. by rewrite <- app_assoc.
Qed.

(** ** The run *)
Section Run.
Context (c : BenchConfig) (rng : nat → Z) (clock : Z → Z * Z * Z).

(** Every resting order is the benchmark's own and can still be picked for a cancel. *)
Record bench_ok (st : BenchState) : Prop := {
  bo_reach : reachable (bench_engine_config c) (b_engine st);
  bo_live : ∀ a, a ∈ all_orders (abs (b_engine st)) → a_session a = 1 ∧ a_id a ∈ live (b_sink st) }.

Lemma bench_init_ok : 0 ≤ bn c < 2 ^ 32 - 1024 → bench_ok (BenchState_init c).
Proof.
  intros Hn. split; simpl.
  - apply reach_init. split; simpl; [lia|lia|]. apply u32_range.
  - assert (all_orders (abs (Engine_init (bench_engine_config c) [])) = []) as ->; [|by intros a []%not_elem_of_nil].
    assert (config_ok (bench_engine_config c)) as Hc by (split; simpl; [lia|lia|apply u32_range]).
    destruct (Engine_init_ok _ Hc) as (fl & qs & H). apply length_zero_iff_nil.
    pose proof (live_count _ _ _ H) as El. cbn [live_ pool_ Engine_init Pool_init] in El. lia.
Qed.
(** Every command is well-formed; a cancel takes its id out of [live]. *)
Lemma bench_command_ok i l d :
  ∃ cm l' d' k, bench_command c rng i l d = Some (cm, l', d', k) ∧ command_ok cm ∧ c_session cm = 1 ∧
    match k with
    | true => c_kind cm = CmdCancel ∧ ∀ x, x ∈ l → x = c_order_id cm ∨ x ∈ l'
    | false => c_kind cm = CmdNew ∧ l' = l
    end.
Proof.
  assert (∀ r, 0 ≤ draw_qty r < 2 ^ 32) as Hq by (intros r; apply u32_range).
  unfold bench_command. case_bool_decide as Hl.
  { eexists _, _, _, false. split; [reflexivity|]. split_and!; try done. split; simpl; [lia|apply Hq]. }
  destruct (_ <? _).
  - assert (0 < Z.of_nat (length l)) as Hp by (destruct l; [done|simpl; lia]).
    destruct (take_live_ok l (rng (S d) mod Z.of_nat (length l)) Hl) as (id & l' & -> & _ & _ & Hx).
    { apply Z.mod_pos_bound. lia. }
    eexists _, _, _, true. split; [reflexivity|]. by split_and!.
  - eexists _, _, _, false. split; [reflexivity|]. split_and!; try done; split; simpl; [lia|apply Hq].
Qed.

Lemma bench_step_ok i st :
  bench_ok st → ∃ st', bench_step c rng clock i st = Some st' ∧ bench_ok st' ∧
    length (lat st') = S (length (lat st)) ∧ (cancels st' = cancels st ∨ cancels st' = u64 (cancels st + 1)).
Proof.
  intros [Hr Hl]. unfold bench_step.
  destruct (bench_command_ok i (live (b_sink st)) (b_draws st)) as (cm & l' & d' & k & -> & Hc & Hs & Hk).
  cbn [mbind option_bind]. destruct (clock i) as [[before now] after].
  destruct (reachable_step _ _ now cm Hr Hc) as (e' & -> & Hr' & Hst). cbn [mbind option_bind].
  rewrite (so_sink _ _ _ _ Hst), drop_app_length. eexists. split; [done|].
  split; [split; simpl; [done|]|simpl; rewrite length_app; simpl; split; [lia|destruct k; auto]].
  destruct (reachable_sound _ _ Hr) as [Hok Hx]. rewrite count_events_live, (so_abs _ _ _ _ Hst). cbn [live].
  intros a Ha. rewrite elem_of_app. destruct k; destruct Hk as [Hk Hlv].
  - destruct (acancel_rest now (next_id (pool_ (b_engine st))) cm _ a Hk Hx (engine_ids_unique _ Hok)) as [Ha' Hne]; [|done|].
    { intros b Hb. rewrite Hs. by apply Hl. }
    destruct (Hl a Ha') as [? Hin]. split; [done|]. left. by destruct (Hlv _ Hin).
  - subst l'. destruct (anew_orders _ _ _ _ a Hk Ha) as [(b & Hb & Hid & Hss)|(Hss & ev & Hev & Hkd & Hid)].
    + destruct (Hl b Hb) as [? ?]. rewrite Hid, Hss. auto.
    + split; [congruence|]. right. apply list_elem_of_omap. exists ev. split; [done|]. by rewrite decide_True, Hid.
Qed.

Lemma bench_loop_ok k i st :
  bench_ok st → 0 ≤ cancels st → cancels st + Z.of_nat k < 2 ^ 64 →
  ∃ st', bench_loop c rng clock k i st = Some st' ∧ bench_ok st' ∧
    length (lat st') = (length (lat st) + k)%nat ∧ 0 ≤ cancels st' ≤ cancels st + Z.of_nat k.
Proof.
  revert i st. induction k as [|k IH]; intros i st Hok H0 Hk; [exists st; split_and!; try (done || lia)|].
  cbn [bench_loop]. destruct (bench_step_ok i st Hok) as (st1 & -> & Hok1 & Hl1 & Hc1). cbn [mbind option_bind].
  assert (0 ≤ cancels st1 ≤ cancels st + 1) by (destruct Hc1 as [->| ->]; rewrite ?u64_small by lia; lia).
  destruct (IH (i + 1) st1 Hok1) as (st' & -> & Hok' & Hl' & Hc'); [lia..|].
  exists st'. split_and!; try (done || lia).
Qed.

(** The slab never holds more orders than there are live ids. *)
Lemma bench_pool st : bench_ok st → live_ (pool_ (b_engine st)) ≤ Z.of_nat (length (live (b_sink st))).
Proof.
  intros [Hr Hl]. destruct (sn_ok _ (reachable_sound _ _ Hr)) as (fl & qs & H).
  rewrite (live_count _ _ _ H). pose proof (all_ids_NoDup _ _ _ H) as Hnd.
  assert ((a_id <$> all_orders (abs (b_engine st))) ⊆+ live (b_sink st)) as Hsub.
  { apply NoDup_submseteq; [done|]. intros id (a & -> & Ha)%list_elem_of_fmap. by apply Hl. }
  apply submseteq_length in Hsub. rewrite length_fmap in Hsub. lia.
Qed.
End Run.
