(* ===== verification/ToolTheorems.v ===== *)
(** The theorems about the poller, the sockets, the command line, the
    statistics and the benchmark. *)
From S2P Require Import Prelude Types Pool Engine Spec Abs Process EngineFacts Protocol Ring Net Publisher Poller Calls Sockets CmdLine Stats LoadClient Bench.
From S2P Require Import Gateway Sessions Registry Reach Carried System Loop Exchange.

(** ** The poller *)

(** Both back ends keep the same registry: for any kernels that behave as
    documented and any sequence of calls in which a descriptor is added once and
    write interest is set on added descriptors only, epoll and kqueue have exactly
    the registered descriptors with exactly the write interest last set. *)
Theorem pollers_agree (KE KQ : Type) (E : Epoll KE) (EO : EpollOk KE) (Q : Kqueue KQ) (QO : KqueueOk KQ)
    (ke : KE) (kq : KQ) (l : list PollOp) :
  (∀ fd, epoll_mask ke fd = None) → (∀ fd f, registered kq fd f = false) → ops_ok ∅ l →
  (∀ fd, interest (P := EpollPoller KE) (fold_left (poll_op (P := EpollPoller KE)) l ke) fd = fold_left registry_op l ∅ !! fd) ∧
  (∀ fd, kq_interest (fold_left kq_op l kq) fd = fold_left registry_op l ∅ !! fd).
Proof.
  intros He Hq Hl. split.
  - apply (poller_registry (P := EpollPoller KE)); [|done]. intros fd'. cbn [interest epoll_poller].
    by rewrite He, lookup_empty.
  - apply kq_registry; [by intros fd' _|intros fd'; unfold kq_interest; by rewrite Hq, lookup_empty|done].
Qed.

(** Kernels that keep their interest list as a map, respectively a set. *)
#[local] Instance map_epoll : Epoll (gmap Z Z) := {
  epoll_ctl op fd ev k :=
    match op with
    | EPOLL_CTL_ADD => match k !! fd with None => <[fd := ev]> k | Some _ => k end
    | EPOLL_CTL_MOD => match k !! fd with None => k | Some _ => <[fd := ev]> k end
    | EPOLL_CTL_DEL => delete fd k
    end;
  epoll_mask k fd := k !! fd }.

#[local] Instance map_epoll_ok : EpollOk (gmap Z Z).
Proof.
  split; cbn.
  - intros k fd ev ->. apply lookup_insert_eq.
  - intros k fd ev [x ->]. apply lookup_insert_eq.
  - intros. apply lookup_delete_eq.
  - intros k op fd fd' ev Hne. destruct op; [destruct (k !! fd)|destruct (k !! fd)|];
      rewrite ?lookup_insert_ne, ?lookup_delete_ne by done; done.
Qed.

#[local] Instance fun_kqueue : Kqueue (Z → Filter → bool) := {
  kevent fd f fl k := λ fd' f', if decide ((fd, f) = (fd', f')) then (match fl with EV_ADD => true | EV_DELETE => false end) else k fd' f';
  registered k := k }.

#[local] Instance fun_kqueue_ok : KqueueOk (Z → Filter → bool).
Proof. split; cbn; intros; case_decide; by subst. Qed.

Lemma pollers_agree_witness :
  let l := [PAdd 5; PAdd 6; PSet 5 true; PSet 6 true; PSet 5 false; PRemove 6; PAdd 6] in
  (∀ fd, interest (P := EpollPoller (gmap Z Z)) (fold_left (poll_op (P := EpollPoller (gmap Z Z))) l ∅) fd = fold_left registry_op l ∅ !! fd) ∧
  (∀ fd, kq_interest (fold_left kq_op l (λ _ _, false)) fd = fold_left registry_op l ∅ !! fd).
Proof.
  apply (pollers_agree (gmap Z Z) (Z → Filter → bool) map_epoll map_epoll_ok fun_kqueue fun_kqueue_ok ∅ (λ _ _, false)).
  - intros fd. apply lookup_empty.
  - done.
  - cbn [ops_ok op_ok registry_op]. split_and!; try (vm_compute; reflexivity); try (vm_compute; eauto); exact I.
Defined.

(** C36: Both pollers watch what the gateway serves: in every reachable state its
    calls follow the rules of use (a descriptor is added once, only while open,
    armed and written to only while registered, and taken out before it is
    closed), so that, run on any epoll or kqueue that behaves as documented, they
    leave registered exactly the listening sockets, the sessions and the
    subscribers, each with the write interest its connection records; the open
    descriptors are the same ones.  (A registration that fails for want of memory
    or of watches is outside [EpollOk] and [KqueueOk]; the code does not check.) *)
Theorem poller_watches (max_backlog : Z) (md : PubConfig) (lfd mlfd : Z) (sv : Server)
    (KE KQ : Type) (E : Epoll KE) (EO : EpollOk KE) (Q : Kqueue KQ) (QO : KqueueOk KQ) (ke : KE) (kq : KQ) :
  0 ≤ lfd ∧ 0 ≤ mlfd ∧ lfd ≠ mlfd → gw_reach max_backlog md lfd mlfd sv →
  (∀ fd, epoll_mask ke fd = None) → (∀ fd f, registered kq fd f = false) →
  calls_ok ∅ (base lfd mlfd) (log sv) ∧
  ∀ f, (∀ w, watched lfd mlfd (sessions_ sv) (subs_ (publisher_ sv)) f w ↔
         interest (P := EpollPoller KE) (fold_left (poll_op (P := EpollPoller KE)) (poll_ops (log sv)) ke) f = Some w) ∧
       kq_interest (fold_left kq_op (poll_ops (log sv)) kq) f =
         interest (P := EpollPoller KE) (fold_left (poll_op (P := EpollPoller KE)) (poll_ops (log sv)) ke) f ∧
       (f ∈ open_fds (base lfd mlfd) (log sv) ↔ ∃ w, watched lfd mlfd (sessions_ sv) (subs_ (publisher_ sv)) f w).
Proof.
  intros Hfds Hr He Hq. destruct (gw_reach_ok _ _ _ _ Hfds _ Hr) as [_ L]. pose proof (epoll_watches _ _ _ L ke He) as Hew.
  destruct (kqueue_watches _ _ _ L kq Hq) as [_ Hkw]. destruct (lo_rep _ _ _ L) as (W & HR & HW). split; [apply HR|].
  intros f. rewrite Hew, Hkw, (lr_reg _ _ _ HR). split_and!; [intros w; symmetry; apply HW|done|].
  rewrite (lr_open _ _ _ HR), elem_of_dom. unfold is_Some. by setoid_rewrite HW.
Qed.

Lemma poller_watches_witness :
  let ke := fold_left (poll_op (P := EpollPoller (gmap Z Z))) (poll_ops (log ex_sent)) ∅ in
  let kq := fold_left kq_op (poll_ops (log ex_sent)) (λ _ _, false) in
  calls_ok ∅ (base 3 4) (log ex_sent) ∧
  ∀ f, (∀ w, watched 3 4 (sessions_ ex_sent) (subs_ (publisher_ ex_sent)) f w ↔ interest (P := EpollPoller (gmap Z Z)) ke f = Some w) ∧
       kq_interest kq f = interest (P := EpollPoller (gmap Z Z)) ke f ∧
       (f ∈ open_fds (base 3 4) (log ex_sent) ↔ ∃ w, watched 3 4 (sessions_ ex_sent) (subs_ (publisher_ ex_sent)) f w).
Proof.
  refine (poller_watches 100 demo_md 3 4 ex_sent (gmap Z Z) (Z → Filter → bool) map_epoll map_epoll_ok fun_kqueue fun_kqueue_ok ∅ (λ _ _, false)
    ltac:(lia) ex_sent_reach _ _); [intros fd; apply lookup_empty|done].
Defined.

(** [wait] reports no more events than it was given room for and -1 exactly on
    an error other than an interruption, for any kernel that reports at most as
    many events as asked. *)
Lemma wait_reports (kernel : Z → Z → WaitResult (Z * Z)) (max timeout : Z) :
  (∀ n t l, kernel n t = Ready l → Z.of_nat (length l) ≤ n) → 0 ≤ max →
  let '(n, evs) := epoll_wait kernel max timeout in
  n ≤ Z.min max 256 ∧ (n = (-1) ↔ kernel (max_wait max) timeout = WaitFailed) ∧ Z.of_nat (length evs) = Z.max 0 n.
Proof.
  intros Hr Hm. unfold epoll_wait, wait_result. specialize (Hr (max_wait max) timeout). unfold max_wait in *.
  destruct (kernel _ timeout) as [l| |].
  - specialize (Hr l eq_refl). rewrite length_fmap. destruct (Z.ltb_spec 256 max); (split_and!; [lia|split; [lia|done]|lia]).
  - split_and!; [lia|done|done].
  - split_and!; [lia|done|done].
Qed.

Lemma timespec_exact t : 0 ≤ t →
  let '(sec, nsec) := timespec t in sec * 1000000000 + nsec = t * 1000000 ∧ 0 ≤ nsec < 1000000000.
Proof.
  intros Ht. unfold timespec. rewrite Z.quot_div_nonneg, Z.rem_mod_nonneg by lia.
  pose proof (Z.div_mod t 1000 ltac:(lia)). pose proof (Z.mod_pos_bound t 1000 ltac:(lia)). lia.
Qed.

(** ** Opening sockets *)
Definition listen_ok (k : Kernel) (port : Z) (want : bool) (fd : Z) (bound : option Z) (calls : list Syscall) : Prop :=
  (fd = (-1) ∧ bound = None ∧ ((0 ≤ k_socket k) → (Close (k_socket k) ∈ calls))) ∨
  (fd = k_socket k ∧ 0 ≤ fd ∧ (Close fd ∉ calls) ∧ Bind fd 0 (htons port) ∈ calls ∧ Listen fd 512 ∈ calls ∧
   SetFlags fd (Z.lor (k_flags k) O_NONBLOCK) ∈ calls ∧ (want = true → bound = Some (htons (k_port k)))).

Definition connect_ok (k : Kernel) (port : Z) (fd : Z) (calls : list Syscall) : Prop :=
  (fd = (-1) ∧ ((0 ≤ k_socket k) → (Close (k_socket k) ∈ calls))) ∨
  (fd = k_socket k ∧ 0 ≤ fd ∧ (Close fd ∉ calls) ∧ SetNoDelay fd ∈ calls ∧
   ∃ addr, k_addr k = Some addr ∧ Connect fd addr (htons port) ∈ calls).

Lemma listen_tcp_ok k port want fd bound calls :
  listen_tcp k port want = (fd, bound, calls) → listen_ok k port want fd bound calls.
Proof.
  unfold listen_tcp, listen_ok, set_nonblocking. destruct (Z.ltb_spec (k_socket k) 0) as [Hs|Hs].
  { intros [= <- <- <-]. left. split_and!; [done..|lia]. }
  destruct (k_bind k <? 0); [intros [= <- <- <-]; left; split_and!; [done..|set_solver]|].
  destruct (k_listen k <? 0); [intros [= <- <- <-]; left; split_and!; [done..|set_solver]|].
  destruct want; intros [= <- <- <-]; right; (split_and!; [done|done|set_solver|set_solver|set_solver|set_solver|done]).
Qed.

Lemma connect_tcp_ok k host port fd calls : connect_tcp k host port = (fd, calls) → connect_ok k port fd calls.
Proof.
  unfold connect_tcp, connect_ok, set_nodelay. destruct (Z.ltb_spec (k_socket k) 0) as [Hs|Hs].
  { intros [= <- <-]. left. split; [done|lia]. }
  destruct (k_addr k) as [addr|]; [|intros [= <- <-]; left; split; [done|set_solver]].
  destruct (k_connect k <? 0); intros [= <- <-]; [left; split; [done|set_solver]|].
  right. split_and!; [done|done|set_solver|set_solver|]. exists addr. split; [done|set_solver].
Qed.

(** No descriptor leaks and none is half set up: [listen_tcp] and
    [connect_tcp] return either -1, and then the socket, if one was opened, has
    been closed, or the open socket, on which the required calls have been made
    ([bind], [listen] and non-blocking mode, respectively [connect] and
    [TCP_NODELAY]) and which has not been closed. *)
Theorem sockets_no_leak (k : Kernel) (port : Z) (want : bool) (host : string) :
  let '(fd, bound, calls) := listen_tcp k port want in
  let '(fd', calls') := connect_tcp k host port in
  listen_ok k port want fd bound calls ∧ connect_ok k port fd' calls'.
Proof.
  destruct (listen_tcp k port want) as [[fd bound] calls] eqn:E1. destruct (connect_tcp k host port) as [fd' calls'] eqn:E2.
  split; [by apply listen_tcp_ok|by eapply connect_tcp_ok].
Qed.

(** ** The command line *)

(** C38: A command line says what it was written to say: for any sequence of
    [--key=value], [--key value], [--flag] and positional arguments in which no
    value can be mistaken for another ([opts_ok]: a value of its own does not start
    with a dash, a key has no equals sign, and no positional argument follows a
    flag or starts with two dashes), [Args] returns for every key the value of its
    last occurrence, [has] is true of exactly the keys that occur, the
    positional arguments come out in order, and [num] reads every decimal number
    of the range of [long] and refuses the others. *)
Theorem args_roundtrip (l : list Opt) (k d : string) (n : Z) :
  opts_ok l →
  let a := Args_init (List.concat (render <$> l)) in
  positional a = omap positional_of l ∧ str a k d = default d (setting_of k l) ∧
  (has a k = true ↔ is_Some (setting_of k l)) ∧ (setting_of k l = None → num a k n = NumOk n) ∧
  ∀ ds, Forall is_digit ds → ds ≠ [] →
    (setting_of k l = Some (to_digits ds EmptyString) → num a k n = in_long (value ds)) ∧
    (setting_of k l = Some (String minus_sign (to_digits ds EmptyString)) → num a k n = in_long (- value ds)).
Proof.
  intros Hl a. unfold a, Args_init. rewrite parse_render by done. destruct (fold_opts l (mkArgs ∅ [])) as [H1 H2].
  specialize (H1 k). cbn [kv_ pos_ app] in *. rewrite lookup_empty in H1.
  unfold positional, str, has, num. rewrite H2, H1. split_and!; [done|by destruct (setting_of k l)| |by intros ->|].
  - rewrite bool_decide_eq_true. by destruct (setting_of k l).
  - intros ds Hd Hne. destruct (stol_number ds EmptyString Hd Hne I) as [S1 S2]. split; by intros ->.
Qed.

Lemma args_roundtrip_witness :
  let l := [OPos "load"; OSpace "orders" (to_digits [5; 0; 0] EmptyString); OFlag "stats"; OEq "mid" "-7"; OEq "host" "::1"]%string in
  let a := Args_init (List.concat (render <$> l)) in
  positional a = omap positional_of l ∧ str a "orders" "x" = default "x"%string (setting_of "orders" l) ∧
  (has a "orders" = true ↔ is_Some (setting_of "orders" l)) ∧ (setting_of "orders" l = None → num a "orders" 1 = NumOk 1) ∧
  ∀ ds, Forall is_digit ds → ds ≠ [] →
    (setting_of "orders" l = Some (to_digits ds EmptyString) → num a "orders" 1 = in_long (value ds)) ∧
    (setting_of "orders" l = Some (String minus_sign (to_digits ds EmptyString)) → num a "orders" 1 = in_long (- value ds)).
Proof.
  apply (args_roundtrip [OPos "load"; OSpace "orders" (to_digits [5; 0; 0] EmptyString); OFlag "stats"; OEq "mid" "-7"; OEq "host" "::1"]%string
    "orders" "x" 1). cbn [opts_ok opt_ok starts_with_option]. split_and!; vm_compute; (reflexivity || exact I).
Defined.

(** A number that starts with a minus sign is a value only after [=]; a
    positional argument right after a flag becomes its value. *)
Example args_edges :
  num (Args_init ["--mid=-7"]%string) "mid" 0 = NumOk (-7) ∧ num (Args_init ["--mid"; "-7"]%string) "mid" 0 = NumOk 1 ∧
  positional (Args_init ["--mid"; "-7"]%string) = ["-7"%string] ∧
  positional (Args_init ["--stats"; "md"]%string) = [] ∧ client_main (Args_init ["--stats"; "md"]%string) = ModeUsage 0 ∧
  stol "12abc" = NumOk 12 ∧ stol "abc" = InvalidArgument ∧ stol "9223372036854775808" = OutOfRange.
Proof. vm_compute. split_and!; reflexivity. Qed.

(** Whatever the command line, if the server starts at all its configuration
    is well-typed: symbols, ports, capacity and market-data limits are in the range
    of their C++ types, whatever was truncated; and unless a negative [--max-price]
    was given the engine it starts processes every sequence of commands to the
    end.  Without options the values are the documented defaults. *)
Theorem server_config_typed (argv : list string) (ecfg : Config) (scfg : ServerConfig) :
  server_main (Args_init argv) = Some (StartServer ecfg scfg) →
  (0 ≤ symbols ecfg < 2 ^ 16 ∧ 0 ≤ max_orders ecfg < 2 ^ 32 ∧ 0 ≤ sc_port scfg < 2 ^ 16 ∧ 0 ≤ sc_md_port scfg < 2 ^ 16 ∧
   0 ≤ max_backlog (sc_md scfg) < 2 ^ 64 ∧ 0 ≤ ring_log2 (sc_md scfg) < 2 ^ 64 ∧
   0 ≤ heartbeat_ms (sc_md scfg) < 2 ^ 64 ∧ 0 ≤ stall_timeout_ms (sc_md scfg) < 2 ^ 64) ∧
  (0 ≤ max_price ecfg → ∀ cs, Forall (λ nc, command_ok (snd nc)) cs → is_Some (run cs (Engine_init ecfg []))) ∧
  (argv = [] → ecfg = mkConfig 4 100000 (2 ^ 20) ∧ scfg = mkServerConfig 9001 9002 (2 ^ 23) (mkPubConfig (2 ^ 20) 16 1000 10000)).
Proof.
  intros E. assert (∀ z, 0 ≤ u16 z < 2 ^ 16) as u16_range by (intros z; apply Z.mod_pos_bound; lia).
  split; [|split; [|by intros ->; vm_compute in E; injection E as <- <-]].
  - unfold server_main in E. destruct (has _ _); [done|]. do 9 (apply bind_Some in E as (? & _ & E)). injection E as <- <-. simpl.
    split_and!; first [apply u32_range|apply u64_range|apply u16_range].
  - intros Hp cs Hcs. assert (config_ok ecfg) as Hc.
    { unfold server_main in E. destruct (has _ _); [done|]. do 9 (apply bind_Some in E as (? & _ & E)). injection E as <- <-.
      split; simpl in *; [apply u16_range|done|apply u32_range]. }
    destruct (sound_run cs _ (sound_init ecfg Hc) Hcs) as (e & E' & _). eauto.
Qed.

Lemma server_config_typed_witness :
  let ecfg := mkConfig 8 500 (2 ^ 20) in
  let scfg := mkServerConfig 7000 9002 (2 ^ 23) (mkPubConfig (2 ^ 20) 16 1000 10000) in
  (0 ≤ symbols ecfg < 2 ^ 16 ∧ 0 ≤ max_orders ecfg < 2 ^ 32 ∧ 0 ≤ sc_port scfg < 2 ^ 16 ∧ 0 ≤ sc_md_port scfg < 2 ^ 16 ∧
   0 ≤ max_backlog (sc_md scfg) < 2 ^ 64 ∧ 0 ≤ ring_log2 (sc_md scfg) < 2 ^ 64 ∧
   0 ≤ heartbeat_ms (sc_md scfg) < 2 ^ 64 ∧ 0 ≤ stall_timeout_ms (sc_md scfg) < 2 ^ 64) ∧
  (0 ≤ max_price ecfg → ∀ cs, Forall (λ nc, command_ok (snd nc)) cs → is_Some (run cs (Engine_init ecfg []))) ∧
  (["--symbols"; "8"; "--port=7000"; "--max-price"; "500"]%string = [] →
   ecfg = mkConfig 4 100000 (2 ^ 20) ∧ scfg = mkServerConfig 9001 9002 (2 ^ 23) (mkPubConfig (2 ^ 20) 16 1000 10000)).
Proof. apply server_config_typed. vm_compute. reflexivity. Defined.

(** ** Statistics *)

(** C40: The reported latencies are what their names say: for up to 2^40 samples
    [percentiles] returns members of the samples in the order p50 <= p99 <= p999 <=
    max, the maximum is the largest, at least half of the samples are at most p50,
    99 of 100 at most p99 and 999 of 1000 at most p999, in spite of the rounding of
    the floating-point ranks; no index is out of range, and the samples are only
    reordered. *)
Theorem percentiles_rank (l : list Z) :
  l ≠ [] → Z.of_nat (length l) < 2 ^ 40 →
  ∃ p l', percentiles l = Some (p, l') ∧ l' ≡ₚ l ∧ StronglySorted Z.le l' ∧
    (p50 p ≤ p99 p ≤ p999 p ∧ p999 p ≤ pmax p) ∧
    (p50 p ∈ l ∧ p99 p ∈ l ∧ p999 p ∈ l ∧ pmax p ∈ l) ∧ (∀ x, x ∈ l → x ≤ pmax p) ∧
    (Z.of_nat (length l) ≤ 2 * Z.of_nat (length (filter (λ x, x ≤ p50 p) l)) ∧
     99 * Z.of_nat (length l) ≤ 100 * Z.of_nat (length (filter (λ x, x ≤ p99 p) l)) ∧
     999 * Z.of_nat (length l) ≤ 1000 * Z.of_nat (length (filter (λ x, x ≤ p999 p) l))).
Proof.
  intros Hne Hl. destruct (percentiles_ok l Hne Hl) as (p & E & H1 & H2 & H3 & H4).
  exists p, (sort l). split_and!; [done|apply sort_perm|apply sort_sorted|..]; try tauto.
Qed.

Lemma percentiles_rank_witness :
  let l := [5; 1; 9; 3; 3] in
  ∃ p l', percentiles l = Some (p, l') ∧ l' ≡ₚ l ∧ StronglySorted Z.le l' ∧
    (p50 p ≤ p99 p ≤ p999 p ∧ p999 p ≤ pmax p) ∧
    (p50 p ∈ l ∧ p99 p ∈ l ∧ p999 p ∈ l ∧ pmax p ∈ l) ∧ (∀ x, x ∈ l → x ≤ pmax p) ∧
    (Z.of_nat (length l) ≤ 2 * Z.of_nat (length (filter (λ x, x ≤ p50 p) l)) ∧
     99 * Z.of_nat (length l) ≤ 100 * Z.of_nat (length (filter (λ x, x ≤ p99 p) l)) ∧
     999 * Z.of_nat (length l) ≤ 1000 * Z.of_nat (length (filter (λ x, x ≤ p999 p) l))).
Proof. apply (percentiles_rank [5; 1; 9; 3; 3]); [done|]. vm_compute. reflexivity. Defined.

Example percentiles_small : percentiles [5; 1; 9; 3; 3] = Some (mkPct 3 9 9 9, [1; 3; 3; 5; 9]).
Proof. vm_compute. reflexivity. Qed.

(** The rank of p99 in 100 samples is 99, as the rounded product says. *)
Example rank_hundred : rank q99 100 = 99 ∧ rank q999 1000 = 999 ∧ rank q50 7 = 3.
Proof. vm_compute. done. Qed.

(** ** The benchmark *)

(** C37: The benchmark runs to the end for any number of operations, random draws
    and clock: every command it builds is processed, every index it draws is in
    range, it takes one sample per operation, and at the end every resting order is
    its own and still in [live], so that it can be picked for a cancel. *)
Theorem bench_completes (c : BenchConfig) (rng : nat → Z) (clock : Z → Z * Z * Z) :
  0 ≤ bn c < 2 ^ 32 - 1024 →
  ∃ st, bench_main c rng clock = Some st ∧ Z.of_nat (length (lat st)) = bn c ∧ 0 ≤ cancels st ≤ bn c ∧
    (∀ a, a ∈ all_orders (abs (b_engine st)) → a_session a = 1 ∧ a_id a ∈ live (b_sink st)) ∧
    live_ (pool_ (b_engine st)) ≤ Z.of_nat (length (live (b_sink st))).
Proof.
  intros Hn. destruct (bench_loop_ok c rng clock (Z.to_nat (bn c)) 0 (BenchState_init c)) as (st & E & Hok & Hl & Hc).
  - by apply bench_init_ok.
  - done.
  - simpl. lia.
  - exists st. simpl in Hl, Hc. split_and!; [done|lia|lia|lia|apply (bo_live _ _ Hok)|by eapply bench_pool].
Qed.

Definition demo_bench : BenchConfig := mkBench 6 300 100 2.

Lemma bench_completes_witness :
  ∃ st, bench_main demo_bench (λ d, 37 * Z.of_nat d * Z.of_nat d + 11) (λ i, (i, i, i + 5)) = Some st ∧
    Z.of_nat (length (lat st)) = 6 ∧ 0 ≤ cancels st ≤ 6 ∧
    (∀ a, a ∈ all_orders (abs (b_engine st)) → a_session a = 1 ∧ a_id a ∈ live (b_sink st)) ∧
    live_ (pool_ (b_engine st)) ≤ Z.of_nat (length (live (b_sink st))).
Proof. apply (bench_completes demo_bench). simpl. lia. Defined.

(** Ids of orders that have been filled stay in [live]: two crossing orders
    leave the book empty and two ids to draw cancels from. *)
Example live_keeps_filled :
  (λ st, (length (live (b_sink st)), live_ (pool_ (b_engine st))))
    <$> bench_loop (mkBench 2 0 100 0) (λ d, if decide (d = 0)%nat then 0 else if decide (d = 4)%nat then 1 else 0) (λ i, (i, i, i)) 2 0
          (BenchState_init (mkBench 2 0 100 0)) = Some (2%nat, 0).
Proof. vm_compute. reflexivity. Qed.
