(* ===== verification/Boot.v ===== *)
(** [main] of [src/main_server.cpp]: from the command line to a running exchange. *)
From S2P Require Import Prelude Types Engine Process EngineFacts Spsc Threads Poller Calls Protocol Ring Net Publisher Sockets Gateway Sessions SessionInv.
From S2P Require Import Handling Registry Reach Carried System Loop Exchange CmdLine ToolTheorems.

(** How [main] gets to [server.run], or does not: after the usage text, or with
    the exception of the server's constructor. *)
Inductive Boot := BootUsage | BootThrew | BootUp (sv : Server) (t : Threads) (port md_port : Z).

(** [Poller::Poller]: the descriptor [epoll_create1] or [kqueue] returned, or a throw. *)
Definition Poller_open (fd : Z) : option Z := if fd <? 0 then None else Some fd.

(** ** Memory

    A [std::vector] of [count] elements of [size] bytes; an exception is thrown
    when they are more than [max_size()], and when the heap does not give them.
    The sizes of the elements are those of the x86-64 ABI.  [heap i] is the answer
    to the [i]-th allocation; the small fixed ones ([Book], the map nodes, the
    tables of the two sockets) are taken to succeed. *)
Record Request := mkRequest { rq_size : Z; rq_count : Z }.

(** The vectors of a [Book]: [levels_] and [bits_] of each side. *)
Definition book_requests (max_price : Z) : list Request :=
  let side := [mkRequest 16 (u64 (u64 max_price + 1)); mkRequest 8 (u64 (Z.shiftr (u64 max_price) 6 + 1))] in
  side ++ side.

(** [EngineThread::EngineThread]: the two queues, the slab, and the books. *)
Definition engine_requests (cfg : Config) (ring_log2 : Z) : list Request :=
  [mkRequest 48 (Z.shiftl 1 ring_log2); mkRequest 80 (Z.shiftl 1 (ring_log2 + 2)); mkRequest 64 (max_orders cfg)] ++
  concat (replicate (Z.to_nat (symbols cfg)) (book_requests (max_price cfg))).

(** [ReplayRing::ReplayRing] *)
Definition ring_request (log2 : Z) : Request := mkRequest 1 (u64 (u64 (Z.shiftl 1 log2) * wire.kMaxFrame)).

Definition fits (r : Request) : Prop := rq_size r * rq_count r ≤ 2 ^ 63 - 1.

#[export] Instance fits_dec r : Decision (fits r).
Proof. unfold fits. apply _. Defined.

(** The number of allocations made so far, or [None] for the exception. *)
Fixpoint allocate (heap : nat → bool) (made : nat) (rs : list Request) : option nat :=
  match rs with
  | [] => Some made
  | r :: rs =>
      if rq_count r =? 0 then allocate heap made rs
      else if bool_decide (fits r) && heap made then allocate heap (S made) rs else None
  end.

(** ** The process *)

(** What the machine answers: the heap, [epoll_create1] or [kqueue] for the
    server's [Poller] member (constructed before the ring and before the sockets
    are opened), the calls of the two [listen_tcp], and whether the thread can
    be created. *)
Record Machine := mkMachine { m_heap : nat → bool; m_poller : Z; m_orders : Kernel; m_md : Kernel; m_thread : bool }.

(** [None] is an exception of [stol] or undefined behaviour: the shift by 64 or more
    of the ring's constructor. *)
Definition boot (a : Args) (m : Machine) : option Boot :=
  st ← server_main a;
  match st with
  | ShowUsage => Some BootUsage
  | StartServer ecfg scfg =>
      match allocate (m_heap m) 0 (engine_requests ecfg 16), Poller_open (m_poller m) with
      | Some made, Some _ =>
          let engine := EngineThread_init ecfg 16 in
          if 64 <=? ring_log2 (sc_md scfg) then None else
          match allocate (m_heap m) made [ring_request (ring_log2 (sc_md scfg))] with
          | None => Some BootThrew
          | Some _ =>
              server ← snd (Server_new (m_orders m) (m_md m) (sc_port scfg) (sc_md_port scfg) (sc_max_backlog scfg) (sc_md scfg));
              match server with
              | None => Some BootThrew
              | Some (sv, port, md_port) =>
                  if m_thread m then t ← start engine; Some (BootUp sv t port md_port) else Some BootThrew
              end
          end
      | _, _ => Some BootThrew
      end
  end.

(** The machine gives the process what it asks for. *)
Record provides (ecfg : Config) (log2 : Z) (m : Machine) : Prop := {
  pv_heap : is_Some (allocate (m_heap m) 0 (engine_requests ecfg 16 ++ [ring_request log2]));
  pv_poller : 0 ≤ m_poller m;
  pv_orders : listens (m_orders m);
  pv_md : listens (m_md m);
  pv_thread : m_thread m = true }.

Lemma allocate_app heap made rs rs' :
  allocate heap made (rs ++ rs') = (made' ← allocate heap made rs; allocate heap made' rs').
Proof.
  revert made. induction rs as [|r rs IH]; intros made; [done|]. cbn [allocate app].
  destruct (rq_count r =? 0); [done|]. by destruct (_ && _).
Qed.

(** What a machine with memory gives a ring of capacity [2^log2]. *)
Lemma ring_allocated heap made log2 : 0 ≤ log2 < 64 → is_Some (allocate heap made [ring_request log2]) → log2 < 57 ∨ 58 ≤ log2.
Proof.
  intros Hl. destruct (Z.eq_dec log2 57) as [->|]; [|lia]. by intros [? ?].
Qed.

Lemma or_throw_ok n z : or_throw n = Some z → n = NumOk z.
Proof. destruct n; simpl; congruence. Qed.

(** Two of the options. *)
Lemma market_options a ecfg scfg : server_main a = Some (StartServer ecfg scfg) →
  ∃ b l, num a "md-backlog" (2 ^ 20) = NumOk b ∧ num a "md-replay-log2" 16 = NumOk l ∧
    Publisher.max_backlog (sc_md scfg) = u64 b ∧ ring_log2 (sc_md scfg) = u64 l.
Proof.
  intros E. unfold server_main in E. destruct (has _ _); [done|]. do 5 (apply bind_Some in E as (? & _ & E)).
  apply bind_Some in E as (l & El%or_throw_ok & E). apply bind_Some in E as (b & Eb%or_throw_ok & E).
  do 2 (apply bind_Some in E as (? & _ & E)). injection E as <- <-. by exists b, l.
Qed.

(** C39: How the server process starts.  With a command line that parses and a
    non-negative [--max-price] the engine's configuration is in range, and the
    ring's and the backlog's size are what [--md-replay-log2] and [--md-backlog]
    say, modulo 2^64 (without options, 16 and 2^20).  If the machine provides the
    memory, the poller, two sockets that listen and a thread, and the shift by
    [--md-replay-log2] is defined, [main] reaches the loop, with the gateway and
    the engine thread in an initial state of [system], and reports the two bound
    ports; otherwise it throws.  It throws for [--md-replay-log2 57] on every
    machine, and for 58 to 63 it starts with an empty ring, which no frame can be
    appended to; from 64 on what it does is undefined. *)
Theorem server_boots (argv : list string) (ecfg : Config) (scfg : ServerConfig) (m : Machine) :
  server_main (Args_init argv) = Some (StartServer ecfg scfg) → 0 ≤ max_price ecfg → k_socket (m_orders m) ≠ k_socket (m_md m) →
  let log2 := ring_log2 (sc_md scfg) in
  config_ok ecfg ∧
  (∃ b l, num (Args_init argv) "md-backlog" (2 ^ 20) = NumOk b ∧ num (Args_init argv) "md-replay-log2" 16 = NumOk l ∧
     Publisher.max_backlog (sc_md scfg) = u64 b ∧ log2 = u64 l ∧ (argv = [] → b = 2 ^ 20 ∧ l = 16)) ∧
  (log2 < 64 → ¬ provides ecfg log2 m → boot (Args_init argv) m = Some BootThrew) ∧
  (log2 < 64 → provides ecfg log2 m → ∃ sv t,
    boot (Args_init argv) m = Some (BootUp sv t (htons (k_port (m_orders m))) (htons (k_port (m_md m)))) ∧
    system (sc_max_backlog scfg) (sc_md scfg) (k_socket (m_orders m)) (k_socket (m_md m)) ecfg 16 sv t ∧ engine_pc t = ELoop ∧
    (log2 < 57 ∨ 58 ≤ log2 ∧ buf_ (ring_ (publisher_ sv)) = [])) ∧
  (log2 = 57 → boot (Args_init argv) m = Some BootThrew).
Proof.
  intros E Hp Hne log2. destruct (server_config_typed argv ecfg scfg E) as [(T1 & T2 & _ & _ & _ & T3 & _) [_ Hdef]].
  fold log2 in T3.
  pose proof (Server_new_ok (m_orders m) (m_md m) (sc_port scfg) (sc_md_port scfg) (sc_max_backlog scfg) (sc_md scfg) Hne) as Hnew.
  assert (log2 < 64 → ¬ provides ecfg log2 m → boot (Args_init argv) m = Some BootThrew) as Hthrow.
  { intros Hl Hno. unfold boot. rewrite E. cbn [mbind option_bind]. fold log2.
    destruct (allocate (m_heap m) 0 (engine_requests ecfg 16)) as [made|] eqn:Ea; [|done].
    unfold Poller_open. destruct (Z.ltb_spec (m_poller m) 0); [done|]. rewrite (proj2 (Z.leb_gt _ _)) by lia.
    destruct (allocate (m_heap m) made [ring_request log2]) as [made'|] eqn:Er; [|done].
    destruct Hnew as [[_ ->]|[[Hk Hk'] (sv & _ & ->)]]; [done|]. simpl. destruct (m_thread m) eqn:Et; [|done].
    destruct Hno. split; [|lia|done..]. rewrite allocate_app, Ea. cbn [mbind option_bind]. rewrite Er. eauto. }
  split_and!; [by split; [apply T1|done|done]| |done|..].
  - destruct (market_options _ _ _ E) as (b & l & Eb & El & H1 & H2). exists b, l. split_and!; try done.
    intros ->. vm_compute in Eb, El. by injection Eb as <-; injection El as <-.
  - intros Hl [Ha Hpo Hk Hk' Ht]. unfold boot. rewrite E. cbn [mbind option_bind]. fold log2.
    rewrite allocate_app in Ha. destruct Ha as [made' (made & Ea & Er)%bind_Some]. rewrite Ea.
    unfold Poller_open. destruct (Z.ltb_spec (m_poller m) 0); [lia|]. rewrite (proj2 (Z.leb_gt _ _)) by lia. rewrite Er.
    destruct Hnew as [[Hno _]|[_ (sv & Ei & ->)]]; [by destruct Hno|]. simpl. rewrite Ht.
    eexists sv, _. split; [reflexivity|]. split; [|split; [done|]].
    + eapply sys_engine; [by apply sys_start|by apply rtc_once, t_start|done|done].
    + destruct (ring_allocated (m_heap m) made log2) as [?|?]; [lia|by rewrite Er|by left|]. right. split; [done|].
      assert (0 ≤ k_socket (m_orders m) ∧ 0 ≤ k_socket (m_md m)) as [Hs Hs'] by (destruct Hk as [? _], Hk' as [? _]; done).
      destruct (Server_init_ok (k_socket (m_orders m)) (k_socket (m_md m)) (sc_max_backlog scfg) (sc_md scfg) Hs Hs' Hne)
        as (sv' & Ei' & _ & _ & Ep & _). rewrite Ei in Ei'. injection Ei' as <-. rewrite Ep. apply Ring_init_empty. fold log2. lia.
  - intros Hl. apply Hthrow; [lia|]. intros [Ha _ _ _ _]. rewrite Hl in Ha. destruct Ha as [made' Ha].
    rewrite allocate_app in Ha. apply bind_Some in Ha as (? & _ & ?). done.
Qed.

Definition demo_machine (heap : nat → bool) : Machine :=
  mkMachine heap 5 (mkKernel 3 0 0 (htons 9001) 2 None 0) (mkKernel 4 0 0 (htons 9002) 2 None 0) true.

(** The defaults on a machine with memory, and on one that has none left for the ring. *)
Lemma server_boots_witness :
  let ecfg := mkConfig 4 100000 (2 ^ 20) in let md := mkPubConfig (2 ^ 20) 16 1000 10000 in
  (∃ sv t, boot (Args_init []) (demo_machine (λ _, true)) = Some (BootUp sv t (htons (htons 9001)) (htons (htons 9002))) ∧
    system (2 ^ 23) md 3 4 ecfg 16 sv t ∧ engine_pc t = ELoop) ∧
  boot (Args_init []) (demo_machine (λ i, bool_decide (i < 19)%nat)) = Some BootThrew.
Proof.
  intros ecfg md. pose (scfg := mkServerConfig 9001 9002 (2 ^ 23) md).
  assert (server_main (Args_init []) = Some (StartServer ecfg scfg)) as E by (vm_compute; reflexivity). split.
  - destruct (server_boots [] ecfg scfg (demo_machine (λ _, true)) E) as (_ & _ & _ & H & _); [simpl; lia|simpl; lia|].
    destruct H as (sv & t & H1 & H2 & H3 & _); [vm_compute; reflexivity|split; [vm_compute; eauto|simpl; lia| | |reflexivity]|].
    + unfold listens. simpl. lia.
    + unfold listens. simpl. lia.
    + exists sv, t. split_and!; [exact H1|exact H2|exact H3].
  - destruct (server_boots [] ecfg scfg (demo_machine (λ i, bool_decide (i < 19)%nat)) E) as (_ & _ & H & _); [simpl; lia|simpl; lia|].
    apply H; [vm_compute; reflexivity|]. intros [[n Hn] _ _ _ _]. vm_compute in Hn. discriminate.
Defined.
